(* ===== verification/_CoqProject ===== *)
-Q . S2P
Prelude.v
Counting.v
Frames.v
PageFrameList.v
Physical.v
BootMap.v
Heap.v
Paging.v
PagingMap.v
PagingCount.v
PagingAlloc.v
PagingSpace.v
PagingCopy.v
AddressSpaces.v
BootPaging.v
Scheduler.v
SchedulerLive.v
Machine.v
Thread.v
Preemption.v
Deadlock.v
UserThread.v
Syscall.v
ThreadCalls.v
Interrupts.v
Descriptors.v
Apic.v
ApicInit.v
Drivers.v
Ports.v
Pit.v
Serial.v
Ps2.v
Color.v
Lfb.v
Ansi.v
Log.v
Terminal.v
TerminalScreen.v
TerminalSafety.v
TerminalText.v
Console.v
Services.v
Start.v
StartOrder.v
