(* ===== verification/Prelude.v ===== *)
(** * hhuTOSr: the kernel of the HHU teaching operating system

    This development models the Rust kernel under src/os/kernel and the libraries
    under src/os/library as Rocq functions and proves what they do.  It is a
    shallow embedding: every function of the source that has logic of its own is
    a definition with the source's name (or one close to it) that can be
    evaluated, and the theorems are about these definitions.

    ** The program

    The bootloader enters [start] (boot.rs), which takes the memory map, reserves
    the kernel's heap and gives the rest to the page frame allocators
    (memory/physical.rs).  Page tables (memory/virtual.rs) are built from those
    frames.  Threads (thread/thread.rs) get a prepared stack, and the scheduler
    (thread/scheduler.rs) switches between them, driven by the timer interrupt
    (device/pit.rs).  Interrupts are routed by the APIC (device/apic.rs) to a
    dispatcher (interrupt/) that calls the drivers' handlers: timer, serial ports
    (device/serial.rs), keyboard (device/ps2.rs).  User code calls the kernel by
    system calls (syscall/, library/syscall, library/thread).  Output goes to a
    terminal (device/lfb_terminal.rs) that draws on a framebuffer
    (library/graphic), and to the logger (log.rs).

    ** Conventions

    - Outcomes.  [res] below: a result, a panic with its message, undefined
      behaviour (only unsafe code can have it), or exhausted fuel.
    - Integers are [Z]s in their range.  [add_w], [sub_w] and [mul_w] panic on
      overflow or wrap around, as the class [Profile] says: the two build
      profiles of Makefile.toml differ in this, and theorems are for both
      unless they name one.
    - State.  A component's statics and structs are a record that its functions
      take and return.  Code that holds a lock from its begin to its end is one
      step; where threads or interrupts interleave between critical sections the
      model has a step relation (Scheduler.v, Pit.v).  That this is right for the
      scheduler is proved in Preemption.v, where taking a lock is a step.  Deciding which
      thread is next and switching to it are two steps, since the locks are released in between.
    - Memory that code reaches through raw pointers is modelled as such: nodes of
      the free lists at addresses (PageFrameList.v), page tables as words of
      frames (Paging.v), the framebuffer as bytes (Lfb.v), stacks and registers
      (Machine.v).
    - Third-party crates are classes: one with the operations, one with laws that
      state their documented behaviour, and concrete instances on which the
      witnesses run.  They are x86_64 (Frames.v, Paging.v, Machine.v, Thread.v, Descriptors.v),
      linked_list_allocator (Heap.v), x2apic (Apic.v, ApicInit.v), nolock (Ports.v),
      ps2 (Ps2.v), font8x8 (Lfb.v), anstyle-parse and pc-keyboard (Terminal.v);
      smallmap is any finite map of stdpp.  What acpi and raw-cpuid find is an
      argument (ApicInit.v).  What a pointer offset beyond its buffer gives, which the language
      leaves undefined, is a parameter as well (Thread.v).
    - Fuel.  Loops over linked lists get one more than the number of nodes in
      memory, which [PageFrameList] proves to be enough; polling loops take the
      number of polls or the sequence of observed values as an argument, and
      their theorems say which values make them end.
    - [safe] (below) and [runs] (Paging.v) are postconditions that exclude
      undefined behaviour and exhausted fuel; [safe] allows panics, [runs] only the
      one of the page frame allocator.

    ** The files

    - Prelude.v: outcomes, machine integers, shared lemmas and tactics.  Counting.v:
      the number of integers with a property.
    - Frames.v: frames of the crate x86_64.  PageFrameList.v: the free list, refined
      to a list of blocks (allocation, and the ways freeing loses memory).
      Physical.v: the two allocators, their invariant [phys_ok], the split of
      memory by [init].  BootMap.v: from the memory map to the free regions.
      Heap.v: the heap of the kernel and its two allocator traits.
    - Paging.v: page tables and address spaces against the interface
      [FrameAllocator].  PagingMap.v: trees of tables in memory ([tree]) and the
      correctness of [map_in_table].  PagingCount.v: how many frames an operation
      takes ([total]: with so many free frames it succeeds, with fewer it
      panics).  PagingAlloc.v: Physical.v implements the interface.
      PagingSpace.v, PagingCopy.v: address spaces as seen by the walk of the
      processor, and copies of them.  AddressSpaces.v: what mapping and creating
      address spaces gives.  BootPaging.v: the paging part of [start].
    - Scheduler.v: ready queue, sleep list and join map under all interleavings.
      SchedulerLive.v: no ready thread starves.  Preemption.v: the locks that the code
      takes between those steps, where the timer can interrupt it, and the stack pointers and
      contexts of the threads.  Deadlock.v: what goes wrong there.  Machine.v: a fragment of the instruction set.  Thread.v: stacks
      and the assembly of the context switch.
      UserThread.v: user threads and their address spaces.  Syscall.v: the system
      call path.  ThreadCalls.v: from the scheduler's decision to the closure of a
      thread.
    - Interrupts.v: vectors and dispatcher.  Descriptors.v: segments, the registers
      for system calls, interrupt gates.  Apic.v: the redirection table.
      ApicInit.v: detecting and mapping the APIC.  Drivers.v: the way of an
      interrupt from its line to the handler of a driver.  Ports.v: port
      I/O and queues.  Pit.v: timer, speaker, detection of QEMU.  Serial.v: the UART
      driver and the two receive buffers.  Ps2.v: initialization of controller and
      keyboard.  Log.v: the logger.
    - Color.v, Lfb.v, Ansi.v: colors, drawing, escape sequences.  Terminal.v: the
      terminal.  TerminalScreen.v: its screen as a grid of characters.
      TerminalSafety.v: no input causes undefined behaviour.  TerminalText.v:
      the effect of text and escape sequences on the grid.  Console.v: formatted
      output and the thread that reads the input.
    - Services.v: the statics of lib.rs, their creation and getters.  Start.v: [start]
      as a program that calls all components.  StartOrder.v: that it does so in
      the right order, and what is set up in the end.

    ** What the theorems show

    - Memory: allocation is exact and keeps the invariant; [init] divides memory
      exactly at its limit; after boot no free frame lies in a reserved area, and
      the blocks of the heap never overlap.  Freeing next to a free block loses
      blocks, and allocating and freeing leaks.
    - Virtual memory: mapping refines an update of the map from pages to frames,
      page tables never overlap each other or free memory; the kernel's address
      space is the identity on physical memory; user address spaces agree with
      it.  The number of frames each operation takes is exact.  The errors found:
      ranges within one table are extended, copied tables are not cleared, user
      address spaces are not registered, and [init] reserves too few frames.
    - Threads: in all interleavings a thread is held where its phase says, the scheduler never
      chooses a thread that has exited, and a ready
      thread runs after as many switches as there are threads before it; exit
      wakes exactly the joiners; a new thread's first switch runs its closure; a
      user thread gets its own stack pages; a switch away and back restores the machine; system
      calls return to the caller with their result.  Errors: stack address,
      system call numbers above the signed range.
    - Locks: the scheduler's are free whenever a thread takes them, so its critical
      sections are atomic.  Errors: using the heap while the scheduler is locked, switching
      threads while one holds the heap or the task state segment, blocking with
      interrupts on, and switching from a thread to itself can hang the kernel or lose the
      context of a thread.
    - Devices: every selector refers to a segment of the right type; time is never
      lost; the line of a device that is plugged in reaches its handler; the
      registers of the APIC are mapped uncached; serial output is complete; the
      keyboard is left configured.
    - Terminal: text and control sequences refine an abstract grid, back buffer and
      screen show that grid, and no byte sequence is unsafe.  What the input loop shows
      is the transcript of the session.
    - Start: no service is used before it exists, and when the scheduler takes over
      everything is set up; a boot of a small machine is evaluated to its end.
      Error: a heap at the end of memory is not mapped.

    ** Not modelled

    The stream traits and the empty application have no logic of their own; the print
    macros are those of core::fmt, which makes pieces of text ([print] in
    Console.v).  Log output in the middle of functions, the banner and the texts that
    panic messages are formatted with are left out.  In Services.v locks and the Once cells
    are sequential: the boot processor is alone until interrupts are enabled.  Preemption.v
    has the locks of the scheduler, the heap, the interrupt path, the logger and the terminal,
    and [OTHER] for those of page frames and devices, which the scheduler does not
    take.  Of the readers' locks, the timer's is there with its one writer, the handler (a reader
    that makes the handler's attempt fail is in Pit.v); that of an address space has no writer
    after the start.  What the closures of threads do is in Console.v (the input loop) and
    TerminalText.v (the cursor); how they are called is in ThreadCalls.v.

    What is left has no behaviour of its own in this repository: declarations of traits and
    modules, constructors of structs that only wrap ports, and generated code. *)

From Stdlib Require Export ZArith Lia.
From stdpp Require Export base tactics gmap strings numbers list sorting.
Export list_basics.list list_relations.list list_monad.list list_misc.list list_tactics.list.

Declare Scope hhu_scope.
Delimit Scope hhu_scope with hhu.
Open Scope Z_scope.

(** ** Outcomes of Rust code

    A Rust function returns, panics with a message (the kernel's panic handler
    prints it and spins forever), runs into undefined behaviour (only [unsafe]
    code can), or, in the executable definitions below, exhausts the fuel that
    bounds a loop of the source.  [NoFuel] is never a result of the program:
    every theorem about a loop gives a fuel for which it does not occur. *)
Inductive res (A : Type) : Type :=
  | Done (a : A)
  | Panic (msg : string)
  | Undef (why : string)
  | NoFuel.
Arguments Done {A} a.
Arguments Panic {A} msg.
Arguments Undef {A} why.
Arguments NoFuel {A}.

#[export] Instance res_ret : MRet res := fun A a => Done a.
#[export] Instance res_bind : MBind res := fun A B k m =>
  match m with
  | Done a => k a
  | Panic s => Panic s
  | Undef s => Undef s
  | NoFuel => NoFuel
  end.
#[export] Instance res_fmap : FMap res := fun A B f m => m ≫= (fun a => Done (f a)).

#[export] Instance res_eq_dec {A} `{EqDecision A} : EqDecision (res A).
Proof. solve_decision. Defined.

Lemma res_bind_done {A B} (m : res A) (k : A → res B) (b : B) :
  m ≫= k = Done b ↔ ∃ a, m = Done a ∧ k a = Done b.
Proof. destruct m; cbn; naive_solver. Qed.

Lemma res_bind_ret_l {A B} (a : A) (k : A → res B) : (Done a ≫= k) = k a.
Proof. reflexivity. Qed.

Lemma res_bind_ret_r {A} (m : res A) : (m ≫= Done) = m.
Proof. by destruct m. Qed.

Lemma res_bind_ext {A B} (m : res A) (f g : A → res B) : (∀ a, f a = g a) → (m ≫= f) = (m ≫= g).
Proof. intros Hfg. destruct m; [apply Hfg|done..]. Qed.
Lemma res_bind_assoc {A B C} (m : res A) (f : A → res B) (g : B → res C) :
  (m ≫= f) ≫= g = m ≫= (fun a => f a ≫= g).
Proof. by destruct m. Qed.

(** [Option::expect] and [Option::unwrap]. *)
Definition expect {A} (msg : string) (o : option A) : res A :=
  match o with Some a => Done a | None => Panic msg end.
Definition unwrap {A} (o : option A) : res A :=
  expect "called `Option::unwrap()` on a `None` value" o.

(** [unwrap] of a [Result], for code whose error value is not inspected. *)
Definition is_done {A} (m : res A) : bool :=
  match m with Done _ => true | _ => false end.

Lemma done_or {A} (m : res A) (d : A) :
  is_done m = true → m = Done (match m with Done a => a | _ => d end).
Proof. by destruct m. Qed.

(** A [for] loop over a list. *)
Fixpoint for_each {A S} (f : A → S → res S) (l : list A) (s : S) : res S :=
  match l with
  | [] => Done s
  | x :: l' => s' ← f x s; for_each f l' s'
  end.

Lemma for_each_app {A S} (f : A → S → res S) l l' s :
  for_each f (l ++ l') s = for_each f l s ≫= for_each f l'.
Proof.
  revert s. induction l as [|x l IH]; intros s; cbn; [done|]. rewrite res_bind_assoc.
  destruct (f x s); cbn; [apply IH|done..].
Qed.

Lemma for_each_map {A B S} (f : B → S → res S) (g : A → B) l s :
  for_each f (map g l) s = for_each (fun x => f (g x)) l s.
Proof. revert s. induction l as [|x l IH]; intros s; cbn; [done|]. by destruct (f (g x) s); cbn. Qed.

Lemma for_each_concat {A B S} (f : B → S → res S) (g : A → list B) l s :
  for_each f (concat (map g l)) s = for_each (fun x => for_each f (g x)) l s.
Proof.
  revert s. induction l as [|x l IH]; intros s; cbn; [done|]. rewrite for_each_app.
  destruct (for_each f (g x) s); cbn; [apply IH|done..].
Qed.

Lemma for_each_ext {A S} (f g : A → S → res S) l s :
  (∀ x s, x ∈ l → f x s = g x s) → for_each f l s = for_each g l s.
Proof.
  revert s. induction l as [|x l IH]; intros s Hfg; cbn; [done|]. rewrite Hfg by (by left).
  destruct (g x s); cbn; [|done..]. apply IH. intros y s' Hy. apply Hfg. by right.
Qed.

(** The tactic that opens a hypothesis [m ≫= k = Done b] or its goal form. *)
Ltac inv_res :=
  repeat match goal with
  | H : _ ≫= _ = Done _ |- _ =>
      let a := fresh "a" in let H1 := fresh "H" in
      apply res_bind_done in H as (a & H1 & H)
  | H : Done _ = Done _ |- _ => injection H; clear H; intros; subst
  | H : Panic _ = Done _ |- _ => discriminate H
  | H : Undef _ = Done _ |- _ => discriminate H
  | H : NoFuel = Done _ |- _ => discriminate H
  end.

(** [m] has no undefined behaviour and terminates; if it does not panic, its result
    satisfies [Q]. *)
Definition safe {A} (m : res A) (Q : A → Prop) : Prop :=
  match m with
  | Done a => Q a
  | Panic _ => True
  | _ => False
  end.

Lemma safe_bind {A B} (m : res A) (k : A → res B) (P : A → Prop) (Q : B → Prop) :
  safe m P → (∀ a, P a → safe (k a) Q) → safe (m ≫= k) Q.
Proof. destruct m; cbn; auto. Qed.
Lemma safe_done {A} (m : res A) a (Q : A → Prop) : m = Done a → Q a → safe m Q.
Proof. by intros ->. Qed.
Lemma safe_weaken {A} (m : res A) (P Q : A → Prop) : safe m P → (∀ a, P a → Q a) → safe m Q.
Proof. destruct m; cbn; auto. Qed.

(** ** Machine integers

    Unsigned integers are [Z]s in their range.  Overflow of [+], [-], [*]
    panics when the kernel is built with overflow checks (the [development]
    profile of Makefile.toml) and wraps around otherwise ([production]);
    both builds are covered by making the choice a parameter. *)
Class Profile := overflow_checks : bool.
Definition development : Profile := true.
Definition production : Profile := false.

Definition in_width (w z : Z) : bool := (0 <=? z) && (z <? 2 ^ w).

(** An [as] cast to a [w]-bit unsigned integer. *)
Definition wrap (w z : Z) : Z := z mod 2 ^ w.

Definition arith `{Profile} (w z : Z) (msg : string) : res Z :=
  if in_width w z then Done z
  else if overflow_checks then Panic msg
  else Done (wrap w z).

Definition add_w `{Profile} (w a b : Z) : res Z := arith w (a + b) "attempt to add with overflow".
Definition sub_w `{Profile} (w a b : Z) : res Z := arith w (a - b) "attempt to subtract with overflow".
Definition mul_w `{Profile} (w a b : Z) : res Z := arith w (a * b) "attempt to multiply with overflow".
Definition div_w (a b : Z) : res Z :=
  if b =? 0 then Panic "attempt to divide by zero" else Done (a / b).

Lemma in_width_spec w z : in_width w z = true ↔ 0 ≤ z < 2 ^ w.
Proof. unfold in_width. rewrite andb_true_iff, Z.leb_le, Z.ltb_lt. done. Qed.

Lemma arith_ok `{Profile} w z msg : 0 ≤ z < 2 ^ w → arith w z msg = Done z.
Proof. intros Hz. unfold arith. by rewrite (proj2 (in_width_spec w z) Hz). Qed.

Lemma add_w_ok `{Profile} w a b : 0 ≤ a + b < 2 ^ w → add_w w a b = Done (a + b).
Proof. apply arith_ok. Qed.
Lemma sub_w_ok `{Profile} w a b : 0 ≤ a - b < 2 ^ w → sub_w w a b = Done (a - b).
Proof. apply arith_ok. Qed.
Lemma mul_w_ok `{Profile} w a b : 0 ≤ a * b < 2 ^ w → mul_w w a b = Done (a * b).
Proof. apply arith_ok. Qed.

Lemma arith_overflow `{Profile} w z msg :
  ¬ (0 ≤ z < 2 ^ w) →
  arith w z msg = if overflow_checks then Panic msg else Done (wrap w z).
Proof.
  intros Hz. unfold arith.
  destruct (in_width w z) eqn:E; [by apply in_width_spec in E|done].
Qed.

Lemma wrap_small w z : 0 ≤ z < 2 ^ w → wrap w z = z.
Proof. apply Z.mod_small. Qed.

Lemma wrap_range w z : 0 ≤ w → 0 ≤ wrap w z < 2 ^ w.
Proof. intros. apply Z.mod_pos_bound. lia. Qed.

(** Every result of checked or wrapped arithmetic is in range. *)
Lemma arith_range `{Profile} w z msg r : 0 ≤ w → arith w z msg = Done r → 0 ≤ r < 2 ^ w.
Proof.
  intros Hw. unfold arith. destruct (in_width w z) eqn:E.
  - intros [= <-]. by apply in_width_spec.
  - destruct overflow_checks; [done|]. intros [= <-]. by apply wrap_range.
Qed.

Lemma safe_arith `{Profile} w z msg : 0 ≤ w → safe (arith w z msg) (fun r => 0 ≤ r < 2 ^ w).
Proof.
  intros Hw. destruct (arith w z msg) eqn:E; cbn; [by eapply arith_range|done|..];
    revert E; unfold arith; destruct (in_width w z); [done| |done|]; by destruct overflow_checks.
Qed.

(** ** Automation *)

Create HintDb hhu.
Create Rewrite HintDb hhu_rw.
#[export] Hint Resolve wrap_range : hhu.
#[export] Hint Rewrite @res_bind_ret_l : hhu_rw.

(** Turns boolean comparisons in hypotheses and goal into propositions. *)
Ltac bool_to_prop :=
  repeat match goal with
  | H : context [Z.ltb ?a ?b = true] |- _ => rewrite Z.ltb_lt in H
  | H : context [Z.ltb ?a ?b = false] |- _ => rewrite Z.ltb_ge in H
  | H : context [Z.leb ?a ?b = true] |- _ => rewrite Z.leb_le in H
  | H : context [Z.leb ?a ?b = false] |- _ => rewrite Z.leb_gt in H
  | H : context [Z.eqb ?a ?b = true] |- _ => rewrite Z.eqb_eq in H
  | H : context [Z.eqb ?a ?b = false] |- _ => rewrite Z.eqb_neq in H
  | H : context [_ && _ = true] |- _ => rewrite andb_true_iff in H
  | H : context [_ || _ = true] |- _ => rewrite orb_true_iff in H
  | H : context [_ || _ = false] |- _ => rewrite orb_false_iff in H
  | H : context [_ && _ = false] |- _ => rewrite andb_false_iff in H
  | H : negb _ = true |- _ => rewrite negb_true_iff in H
  | H : negb _ = false |- _ => rewrite negb_false_iff in H
  end.

(** Case analysis on the integer comparison the goal branches on. *)
Ltac case_Z :=
  match goal with
  | |- context [Z.ltb ?a ?b] => destruct (Z.ltb_spec a b)
  | |- context [Z.leb ?a ?b] => destruct (Z.leb_spec a b)
  | |- context [Z.eqb ?a ?b] => destruct (Z.eqb_spec a b)
  end.

(** The branch of a conditional in a hypothesis, by evaluating the condition *)
Ltac branch_of H b := match type of H with context [if ?c then _ else _] => replace c with b in H by (vm_compute; reflexivity) end.
