(* ===== verification/Counting.v ===== *)
(** * Counting

    The number of integers that satisfy a predicate: the number of free frames of a
    pool, of frames in a region of memory. *)

From S2P Require Import Prelude.
#[local] Open Scope Z_scope.

Definition count (P : Z → Prop) (n : Z) : Prop :=
  ∃ l : list Z, NoDup l ∧ Z.of_nat (length l) = n ∧ ∀ x, P x ↔ x ∈ l.

Lemma count_unique P P' n n' : (∀ x, P x ↔ P' x) → count P n → count P' n' → n = n'.
Proof.
  intros HP (l & Hl & <- & Hx) (l' & Hl' & <- & Hx'). f_equal. apply Permutation_length, NoDup_Permutation; [done..|].
  intros x. by rewrite <-Hx, <-Hx', HP.
Qed.
Lemma count_proper P P' n : (∀ x, P x ↔ P' x) → count P n → count P' n.
Proof. intros HP (l & Hl & Hn & Hx). exists l. split_and!; [done..|]. intros x. by rewrite <-HP. Qed.
Lemma count_nonneg P n : count P n → 0 ≤ n.
Proof. intros (l & _ & <- & _). lia. Qed.
Lemma count_zero P : count P 0 → ∀ x, ¬ P x.
Proof. intros (l & _ & Hl & Hx) x Hp%Hx. destruct l; [by apply elem_of_nil in Hp|cbn in Hl; lia]. Qed.
Lemma count_pos P n : count P n → 0 < n → ∃ x, P x.
Proof. intros ([|x l] & _ & Hl & Hx) Hn; [cbn in Hl; lia|]. exists x. apply Hx. set_solver. Qed.
Lemma count_remove P n a : count P n → P a → count (fun x => P x ∧ x ≠ a) (n - 1).
Proof.
  intros (l & Hl & Hn & Hx) Ha%Hx. apply list_elem_of_split in Ha as (l1 & l2 & ->).
  apply NoDup_app in Hl as (Hl1 & Hdis & [Ha2 Hl2]%NoDup_cons). exists (l1 ++ l2). split_and!.
  - apply NoDup_app. split_and!; [done| |done]. intros x Hx1 Hx2. apply (Hdis x Hx1). set_solver.
  - rewrite length_app in Hn |- *. cbn in Hn. lia.
  - intros x. rewrite Hx, !elem_of_app, elem_of_cons. split; [naive_solver|].
    intros Hin. split; [naive_solver|]. intros ->. destruct Hin as [Hin|Hin]; [|done]. apply (Hdis a Hin). set_solver.
Qed.
Lemma count_nil (P : Z → Prop) : (∀ x, ¬ P x) → count P 0.
Proof. intros HP. exists []. split_and!; [by apply NoDup_nil|done|]. intros x. split; [by intros ?%HP|by intros ?%elem_of_nil]. Qed.
Lemma count_or P Q n k : (∀ x, P x → ¬ Q x) → count P n → count Q k → count (fun x => P x ∨ Q x) (n + k).
Proof.
  intros Hdis (l & Hl & <- & Hx) (l' & Hl' & <- & Hx'). exists (l ++ l'). split_and!.
  - apply NoDup_app. split_and!; [done| |done]. intros x ?%Hx ?%Hx'. by eapply Hdis.
  - rewrite length_app. lia.
  - intros x. by rewrite Hx, Hx', elem_of_app.
Qed.
(** The multiples of [w] in an interval *)
Lemma count_multiples w a b : 0 < w → a ≤ b → count (fun x => ∃ k, x = w * k ∧ a ≤ k < b) (b - a).
Proof.
  intros Hw Hab. exists ((λ k, w * k) <$> seqZ a (b - a)). split_and!.
  - apply NoDup_fmap_2_strong; [|apply NoDup_seqZ]. intros x y _ _ Hxy. nia.
  - rewrite length_fmap, length_seqZ. lia.
  - intros x. rewrite list_elem_of_fmap. split; intros (k & -> & Hk); exists k; (split; [done|]); rewrite elem_of_seqZ in *; lia.
Qed.
