(* ===== verification/Frames.v ===== *)
(** * Interface to the physical frames of the x86_64 crate

    The page frame allocators and the paging code work on [PhysFrame] and
    [PhysFrameRange] of the third-party crate x86_64 0.14.  That crate is not
    part of the repository, so the model takes its operations as a class
    ([PhysFrameOps]) and what the kernel relies on as the laws of a second
    class ([PhysFrameLaws]).  [frame_model] is a concrete instance, on which
    every witness of the development is evaluated. *)

From S2P Require Import Prelude Counting.
From Stdlib Require Import Eqdep_dec.

Definition FRAME_SIZE : Z := 4096.

(** Operations of [PhysFrame<Size4KiB>] and [PhysFrameRange] the kernel calls. *)
Class PhysFrameOps := {
  PhysFrame : Type;
  (** [frame.start_address().as_u64()] *)
  frame_addr : PhysFrame → Z;
  (** [PhysFrame::from_start_address(PhysAddr::new(a)).unwrap()] *)
  frame_at : Z → res PhysFrame;
  (** [impl Add<u64> for PhysFrame], counting in frames *)
  frame_add : PhysFrame → Z → res PhysFrame;
  (** [impl Ord for PhysFrame] *)
  frame_cmp : PhysFrame → PhysFrame → comparison;
  (** [PhysFrameRange { start, end }.count()] *)
  frame_range_count : PhysFrame → PhysFrame → Z;
  (** [PhysAddr::new(a).align_up(align).as_u64()], and [align_down] *)
  phys_align_up : Z → Z → res Z;
  phys_align_down : Z → Z → res Z;
}.

(** The addresses a frame can start at: page aligned and below the
    architecture's limit of 52 physical address bits. *)
Definition valid_frame_addr (a : Z) : bool :=
  (0 <=? a) && (a <? 2 ^ 52) && (a mod FRAME_SIZE =? 0).

(** The least multiple of [align] that is not below [a]. *)
Definition round_up (a align : Z) : Z := (a + align - 1) / align * align.

(** Documented behaviour of the operations. *)
Class PhysFrameLaws `{PhysFrameOps} : Prop := {
  frame_addr_valid f : valid_frame_addr (frame_addr f) = true;
  frame_addr_inj f g : frame_addr f = frame_addr g → f = g;
  frame_at_valid a : valid_frame_addr a = true → ∃ f, frame_at a = Done f ∧ frame_addr f = a;
  frame_at_invalid a : valid_frame_addr a = false → ∃ msg, frame_at a = Panic msg;
  frame_add_valid f n :
    0 ≤ n → valid_frame_addr (frame_addr f + FRAME_SIZE * n) = true →
    ∃ g, frame_add f n = Done g ∧ frame_addr g = frame_addr f + FRAME_SIZE * n;
  frame_add_invalid f n :
    0 ≤ n → valid_frame_addr (frame_addr f + FRAME_SIZE * n) = false →
    ∃ msg, frame_add f n = Panic msg;
  frame_cmp_spec f g : frame_cmp f g = (frame_addr f ?= frame_addr g);
  frame_range_count_spec f g :
    frame_range_count f g = Z.max 0 ((frame_addr g - frame_addr f) / FRAME_SIZE);
  phys_align_up_spec a align :
    0 ≤ a → 0 < align → round_up a align < 2 ^ 52 → phys_align_up a align = Done (round_up a align);
  phys_align_down_spec a align :
    0 ≤ a < 2 ^ 52 → 0 < align → phys_align_down a align = Done (a / align * align);
}.

Record PhysFrameRange `{PhysFrameOps} := mkRange { start : PhysFrame; end_ : PhysFrame }.
Arguments mkRange {_} start end_.

Section Frames.
Context `{PhysFrameOps}.

(** Comparisons derived from [Ord]/[PartialEq]. *)
Definition frame_ltb (f g : PhysFrame) : bool :=
  match frame_cmp f g with Lt => true | _ => false end.
Definition frame_leb (f g : PhysFrame) : bool :=
  match frame_cmp f g with Gt => false | _ => true end.
Definition frame_eqb (f g : PhysFrame) : bool :=
  match frame_cmp f g with Eq => true | _ => false end.

(** [PhysFrameRange::count]. *)
Definition range_count (r : PhysFrameRange) : Z := frame_range_count (start r) (end_ r).

(** The addresses of the frames of a range. *)
Definition in_range (r : PhysFrameRange) (x : Z) : Prop :=
  frame_addr (start r) ≤ x < frame_addr (end_ r).

Context `{!PhysFrameLaws}.

Lemma frame_ltb_addr f g : frame_ltb f g = (frame_addr f <? frame_addr g).
Proof. unfold frame_ltb. by rewrite frame_cmp_spec. Qed.
Lemma frame_leb_addr f g : frame_leb f g = (frame_addr f <=? frame_addr g).
Proof. unfold frame_leb. rewrite frame_cmp_spec. unfold Z.leb. by destruct (_ ?= _). Qed.
Lemma frame_eqb_addr f g : frame_eqb f g = (frame_addr f =? frame_addr g).
Proof.
  unfold frame_eqb. rewrite frame_cmp_spec.
  destruct (Z.eqb_spec (frame_addr f) (frame_addr g)) as [->|Hne].
  - by rewrite Z.compare_refl.
  - destruct (_ ?= _) eqn:E; [|done..]. apply Z.compare_eq in E. congruence.
Qed.

Lemma valid_frame_addr_spec a :
  valid_frame_addr a = true ↔ 0 ≤ a < 2 ^ 52 ∧ a mod FRAME_SIZE = 0.
Proof.
  unfold valid_frame_addr. rewrite !andb_true_iff, Z.leb_le, Z.ltb_lt, Z.eqb_eq. tauto.
Qed.

Lemma frame_addr_range f : 0 ≤ frame_addr f < 2 ^ 52.
Proof. pose proof (frame_addr_valid f) as Hf. by apply valid_frame_addr_spec in Hf as [Hf _]. Qed.

(** A frame's address as a multiple of the page size, for [lia]. *)
Lemma frame_addr_aligned f : ∃ k, frame_addr f = FRAME_SIZE * k.
Proof.
  pose proof (frame_addr_valid f) as Hf. apply valid_frame_addr_spec in Hf as [_ Hf].
  exists (frame_addr f / FRAME_SIZE). by apply Z.div_exact.
Qed.

Lemma valid_frame_addr_intro a : 0 ≤ a < 2 ^ 52 → (∃ k, a = FRAME_SIZE * k) → valid_frame_addr a = true.
Proof.
  intros Ha [k ->]. apply valid_frame_addr_spec. split; [done|].
  rewrite Z.mul_comm. by apply Z.mod_mul.
Qed.

(** [frame_at] is the inverse of [frame_addr]. *)
Lemma frame_at_addr f : frame_at (frame_addr f) = Done f.
Proof.
  destruct (frame_at_valid (frame_addr f) (frame_addr_valid f)) as (g & -> & Hg).
  by rewrite (frame_addr_inj g f).
Qed.

Lemma frame_at_done a f : frame_at a = Done f → frame_addr f = a.
Proof.
  intros Ha. destruct (valid_frame_addr a) eqn:E.
  - destruct (frame_at_valid a E) as (g & Hg & <-). congruence.
  - destruct (frame_at_invalid a E) as [msg Hm]. congruence.
Qed.

Lemma frame_add_done f n g : 0 ≤ n → frame_add f n = Done g → frame_addr g = frame_addr f + FRAME_SIZE * n.
Proof.
  intros Hn Hg. destruct (valid_frame_addr (frame_addr f + FRAME_SIZE * n)) eqn:E.
  - destruct (frame_add_valid f n Hn E) as (g' & Hg' & <-). congruence.
  - destruct (frame_add_invalid f n Hn E) as [msg Hm]. congruence.
Qed.

Lemma range_count_nonneg r : 0 ≤ range_count r.
Proof. unfold range_count. rewrite frame_range_count_spec. lia. Qed.

(** A range's end is its start plus its frames, unless it is reversed. *)
Lemma range_count_end r :
  frame_addr (start r) ≤ frame_addr (end_ r) →
  frame_addr (end_ r) = frame_addr (start r) + FRAME_SIZE * range_count r.
Proof.
  intros Hle. unfold range_count. rewrite frame_range_count_spec.
  destruct (frame_addr_aligned (start r)) as [k Hk], (frame_addr_aligned (end_ r)) as [k' Hk'].
  rewrite Hk, Hk' in *. unfold FRAME_SIZE in *.
  replace (4096 * k' - 4096 * k) with ((k' - k) * 4096) by lia.
  rewrite Z.div_mul by lia. lia.
Qed.

(** The frames in an interval of whole frames *)
Lemma frames_between a b : 0 ≤ a → a ≤ b → FRAME_SIZE * b ≤ 2 ^ 52 →
  count (fun x => valid_frame_addr x = true ∧ FRAME_SIZE * a ≤ x < FRAME_SIZE * b) (b - a).
Proof.
  intros Ha Hab Hb. eapply count_proper; [|apply (count_multiples FRAME_SIZE a b); done]. intros x. cbn. split.
  - intros (k & -> & Hk). unfold FRAME_SIZE in *. split; [apply valid_frame_addr_intro; [lia|by exists k]|lia].
  - intros ([_ Hx]%valid_frame_addr_spec & Hr). apply Z.mod_divide in Hx as [k ->]; [|done]. exists k. unfold FRAME_SIZE in *. lia.
Qed.
End Frames.

#[export] Hint Rewrite @frame_ltb_addr @frame_leb_addr @frame_eqb_addr using typeclasses eauto : hhu_rw.

(** ** The concrete instance *)

Record frame4k := Frame4K { f4_addr : Z; f4_valid : valid_frame_addr f4_addr = true }.

Lemma frame4k_eq f g : f4_addr f = f4_addr g → f = g.
Proof.
  destruct f as [a Ha], g as [b Hb]; cbn. intros ->.
  by rewrite (UIP_dec bool_dec Ha Hb).
Qed.

(** The proof component is rebuilt by computation, so that frames with equal
    addresses are syntactically equal after evaluation. *)
Definition frame4k_at (a : Z) : res frame4k :=
  match valid_frame_addr a as b return valid_frame_addr a = b → res frame4k with
  | true => fun H => Done (Frame4K a H)
  | false => fun _ => Panic "the address is not aligned to the page size"
  end eq_refl.

#[export] Instance frame_model : PhysFrameOps := {|
  PhysFrame := frame4k;
  frame_addr := f4_addr;
  frame_at := frame4k_at;
  frame_add f n := frame4k_at (f4_addr f + FRAME_SIZE * n);
  frame_cmp f g := (f4_addr f ?= f4_addr g);
  frame_range_count f g := Z.max 0 ((f4_addr g - f4_addr f) / FRAME_SIZE);
  phys_align_up a align :=
    if (0 <=? a) && (a <? 2 ^ 52) && (round_up a align <? 2 ^ 52) then Done (round_up a align)
    else Panic "physical addresses must not have any bits in the range 52 to 64 set";
  phys_align_down a align :=
    if (0 <=? a) && (a <? 2 ^ 52) then Done (a / align * align)
    else Panic "physical addresses must not have any bits in the range 52 to 64 set";
|}.

Lemma frame4k_at_valid a :
  valid_frame_addr a = true → ∃ f, frame4k_at a = Done f ∧ f4_addr f = a.
Proof.
  intros Ha. exists (Frame4K a Ha). split; [|done]. unfold frame4k_at.
  generalize (eq_refl (valid_frame_addr a)).
  generalize (Frame4K a). rewrite Ha. intros F E. by rewrite (UIP_dec bool_dec E eq_refl).
Qed.

Lemma frame4k_at_invalid a :
  valid_frame_addr a = false → ∃ msg, frame4k_at a = Panic msg.
Proof.
  intros Ha. eexists. unfold frame4k_at.
  generalize (eq_refl (valid_frame_addr a)).
  generalize (Frame4K a). rewrite Ha. intros F E. reflexivity.
Qed.

#[export] Instance frame_model_laws : PhysFrameLaws.
Proof.
  split; cbn; intros.
  - apply f4_valid.
  - by apply frame4k_eq.
  - by apply frame4k_at_valid.
  - by apply frame4k_at_invalid.
  - by apply frame4k_at_valid.
  - by apply frame4k_at_invalid.
  - done.
  - done.
  - assert (a ≤ round_up a align) by (unfold round_up; pose proof (Z.div_mod (a + align - 1) align); pose proof (Z.mod_pos_bound (a + align - 1) align); lia).
    by rewrite (proj2 (Z.leb_le _ _)), !(proj2 (Z.ltb_lt _ _)) by lia.
  - by rewrite (proj2 (Z.leb_le _ _)), (proj2 (Z.ltb_lt _ _)) by lia.
Qed.

(** Frame number [n], for concrete inputs. *)
Definition frame_no (n : Z) : res (@PhysFrame frame_model) := frame4k_at (FRAME_SIZE * n).
Definition range_no (m n : Z) : res (@PhysFrameRange frame_model) :=
  f ← frame_no m; g ← frame_no n; Done (mkRange f g).
