(* ===== verification/PageFrameList.v ===== *)
(** * The page frame list allocator (os/kernel/src/memory/physical.rs)

    [PageFrameListAllocator] keeps free physical memory as a linked list whose
    nodes are written into the free blocks themselves.  The model keeps that
    representation: a memory that maps addresses to nodes, nodes that point to
    the next node by address, and loops that follow a place ([current] of the
    source) through that memory.  [represents] relates such a state to the
    list of blocks it stands for, and the theorems state what the operations
    do to that list and to the memory it covers. *)

From S2P Require Import Prelude Frames.

(** [struct PageFrameNode]; [Option<&'static mut PageFrameNode>] is an address. *)
Record PageFrameNode := mkNode { frame_count : Z; next : option Z }.

#[export] Instance PageFrameNode_eq_dec : EqDecision PageFrameNode.
Proof. solve_decision. Defined.

(** [PageFrameNode::new] *)
Definition node_new (count : Z) : PageFrameNode := mkNode count None.

(** [struct PageFrameListAllocator] *)
Record PageFrameListAllocator := mkAllocator { head : PageFrameNode }.

(** [PageFrameListAllocator::new] *)
Definition allocator_new : PageFrameListAllocator := mkAllocator (node_new 0).

(** The nodes in physical memory, by address. *)
Abbreviation node_memory := (gmap Z PageFrameNode).

(** An allocator and the memory its list lives in. *)
Record list_state := mkState { self : PageFrameListAllocator; mem : node_memory }.

(** What [current: &mut PageFrameNode] refers to. *)
Inductive place := Head | At (p : Z).

#[export] Instance place_eq_dec : EqDecision place.
Proof. solve_decision. Defined.

Definition deref (s : list_state) (p : Z) : res PageFrameNode :=
  match mem s !! p with
  | Some n => Done n
  | None => Undef "dangling pointer in the free list"
  end.

Definition read (s : list_state) (c : place) : res PageFrameNode :=
  match c with Head => Done (head (self s)) | At p => deref s p end.

Definition write (s : list_state) (c : place) (n : PageFrameNode) : list_state :=
  match c with
  | Head => mkState (mkAllocator n) (mem s)
  | At p => mkState (self s) (<[p := n]> (mem s))
  end.

(** [current.next = o] (and [current.next.take()], with [o = None]). *)
Definition set_next (s : list_state) (c : place) (o : option Z) : res list_state :=
  n ← read s c; Done (write s c (mkNode (frame_count n) o)).

(** [ptr.write(node)] on a raw pointer: any address but the null pointer. *)
Definition ptr_write (s : list_state) (p : Z) (n : PageFrameNode) : res list_state :=
  if p =? 0 then Undef "write through the null pointer"
  else Done (write s (At p) n).

(** The lists the loops walk have no more nodes than the memory holds. *)
Definition walk_fuel (s : list_state) : nat := S (size (mem s)).

Section Allocator.
Context `{PhysFrameOps} `{Profile}.

(** [PageFrameNode::start] *)
Definition node_start (p : Z) : res PhysFrame := frame_at p.

(** [PageFrameNode::end] *)
Definition node_end (p : Z) (n : PageFrameNode) : res PhysFrame :=
  f ← node_start p; frame_add f (frame_count n).

(** [PageFrameNode::range] *)
Definition node_range (p : Z) (n : PageFrameNode) : res PhysFrameRange :=
  f ← node_start p; g ← frame_add f (frame_count n); Done (mkRange f g).

(** [PageFrameListAllocator::insert]: the search loop. *)
Fixpoint insert_loop (fuel : nat) (s : list_state) (current : place)
    (frames : PhysFrameRange) (new_block : PageFrameNode) : res list_state :=
  match fuel with
  | O => NoFuel
  | S fuel =>
      let new_block_ptr := frame_addr (start frames) in
      cur ← read s current;
      match next cur with
      | Some block =>
          block_start ← node_start block;
          if frame_addr (start frames) <? frame_addr block_start then
            s1 ← set_next s current None;
            s2 ← ptr_write s1 new_block_ptr (mkNode (frame_count new_block) (Some block));
            set_next s2 current (Some new_block_ptr)
          else insert_loop fuel s (At block) frames new_block
      | None =>
          s1 ← ptr_write s new_block_ptr (mkNode (frame_count new_block) None);
          set_next s1 current (Some new_block_ptr)
      end
  end.

(** [PageFrameListAllocator::insert] *)
Definition insert (s : list_state) (frames : PhysFrameRange) : res list_state :=
  let new_block := node_new (range_count frames) in
  let new_block_ptr := frame_addr (start frames) in
  match next (head (self s)) with
  | None =>
      s1 ← ptr_write s new_block_ptr (mkNode (frame_count new_block) None);
      set_next s1 Head (Some new_block_ptr)
  | Some _ => insert_loop (walk_fuel s) s Head frames new_block
  end.

(** [PageFrameListAllocator::find_free_block]: the loop from [current]. *)
Fixpoint find_free_block_loop (fuel : nat) (s : list_state) (current : place)
    (count : Z) : res (option Z * list_state) :=
  match fuel with
  | O => NoFuel
  | S fuel =>
      cur ← read s current;
      match next cur with
      | Some block =>
          blk ← deref s block;
          if count <=? frame_count blk then
            s1 ← set_next s (At block) None;
            s2 ← set_next s1 current None;
            s3 ← set_next s2 current (next blk);
            Done (Some block, s3)
          else find_free_block_loop fuel s (At block) count
      | None => Done (None, s)
      end
  end.

(** [PageFrameListAllocator::find_free_block] *)
Definition find_free_block (s : list_state) (count : Z) : res (option Z * list_state) :=
  find_free_block_loop (walk_fuel s) s Head count.

(** [PageFrameListAllocator::alloc_block] *)
Definition alloc_block (s : list_state) (count : Z) : res (PhysFrameRange * list_state) :=
  '(found, s1) ← find_free_block s count;
  match found with
  | Some block =>
      block_start ← node_start block;
      remaining_start ← frame_add block_start count;
      blk ← deref s1 block;
      remaining_end ← node_end block blk;
      let remaining := mkRange remaining_start remaining_end in
      s2 ← (if 0 <? range_count remaining then insert s1 remaining else Done s1);
      Done (mkRange block_start (start remaining), s2)
  | None => Panic "PageFrameAllocator: Out of memory!"
  end.

(** [PageFrameListAllocator::free_block]: the loop from [current]. *)
Fixpoint free_block_loop (fuel : nat) (s : list_state) (current : place)
    (frames : PhysFrameRange) : res list_state :=
  match fuel with
  | O => NoFuel
  | S fuel =>
      cur ← read s current;
      match next cur with
      | Some block =>
          block_start ← node_start block;
          blk ← deref s block;
          if frame_eqb (end_ frames) block_start then
            count ← add_w 64 (frame_count blk) (range_count frames);
            s1 ← set_next s (At block) None;
            ptr_write s1 (frame_addr (start frames)) (mkNode count (next blk))
          else
            block_end ← node_end block blk;
            if frame_eqb block_end (start frames) then
              count ← add_w 64 (frame_count blk) (range_count frames);
              ptr_write s (frame_addr block_start) (node_new count)
            else if frame_ltb (start frames) block_end then
              insert s frames
            else free_block_loop fuel s (At block) frames
      | None => insert s frames
      end
  end.

(** [PageFrameListAllocator::free_block] *)
Definition free_block (s : list_state) (frames : PhysFrameRange) : res list_state :=
  free_block_loop (walk_fuel s) s Head frames.

(** [impl Debug for PageFrameListAllocator]: the ranges written, then the
    available memory in KiB. *)
Fixpoint fmt_loop (fuel : nat) (s : list_state) (current : place) (available : Z) :
    res (list PhysFrameRange * Z) :=
  match fuel with
  | O => NoFuel
  | S fuel =>
      cur ← read s current;
      match next cur with
      | Some block =>
          blk ← deref s block;
          r ← node_range block blk;
          available' ← add_w 64 available (frame_count blk);
          '(rs, total) ← fmt_loop fuel s (At block) available';
          Done (r :: rs, total)
      | None => total ← mul_w 64 available FRAME_SIZE; Done ([], total / 1024)
      end
  end.

Definition fmt (s : list_state) : res (list PhysFrameRange * Z) :=
  fmt_loop (walk_fuel s) s Head 0.
End Allocator.

(** ** The blocks a free list stands for *)

(** A free block: the address it starts at and its number of frames. *)
Abbreviation block := (Z * Z)%type.
Definition block_end (b : block) : Z := b.1 + FRAME_SIZE * b.2.
Definition addrs (l : list block) : list Z := fst <$> l.

(** Following [next] pointers from [o] visits exactly the blocks [l]. *)
Fixpoint seg (m : node_memory) (o : option Z) (l : list block) : Prop :=
  match l with
  | [] => o = None
  | b :: l' => o = Some b.1 ∧ ∃ nx, m !! b.1 = Some (mkNode b.2 nx) ∧ seg m nx l'
  end.

Definition represents (s : list_state) (l : list block) : Prop :=
  seg (mem s) (next (head (self s))) l.

(** A block of whole frames that starts above address 0 and whose end is a
    physical address. *)
Definition block_ok (b : block) : Prop :=
  valid_frame_addr b.1 = true ∧ 0 < b.1 ∧ 0 < b.2 ∧ block_end b < 2 ^ 52.

(** Ascending, disjoint, non-empty blocks at or above [lo]. *)
Fixpoint wf_from (lo : Z) (l : list block) : Prop :=
  match l with
  | [] => True
  | b :: l' => lo ≤ b.1 ∧ block_ok b ∧ wf_from (block_end b) l'
  end.
Definition wf (l : list block) : Prop := wf_from 0 l.

(** The memory a list of blocks covers. *)
Definition covers (l : list block) (x : Z) : Prop := ∃ b, b ∈ l ∧ b.1 ≤ x < block_end b.

Definition disjoint_blocks (b b' : block) : Prop :=
  block_end b ≤ b'.1 ∨ block_end b' ≤ b.1.

(** Insertion before the first block with a larger address. *)
Fixpoint insert_sorted (b : block) (l : list block) : list block :=
  match l with
  | [] => [b]
  | x :: l' => if b.1 <? x.1 then b :: x :: l' else x :: insert_sorted b l'
  end.

(** The first block with at least [n] frames, and the list without it. *)
Fixpoint first_fit (n : Z) (l : list block) : option (block * list block) :=
  match l with
  | [] => None
  | x :: l' =>
      if n <=? x.2 then Some (x, l')
      else match first_fit n l' with
           | Some (b, l'') => Some (b, x :: l'')
           | None => None
           end
  end.

(** *** Lists of blocks *)

Lemma block_ok_lt b : block_ok b → b.1 < block_end b.
Proof. unfold block_ok, block_end, FRAME_SIZE. lia. Qed.

Lemma wf_from_weaken lo lo' l : lo' ≤ lo → wf_from lo l → wf_from lo' l.
Proof. destruct l; cbn; [done|]. intros ? (? & ? & ?). split_and!; [lia|done..]. Qed.

Lemma wf_from_addrs lo l a : wf_from lo l → a ∈ addrs l → lo ≤ a.
Proof.
  revert lo. induction l as [|b l IH]; cbn; intros lo Hwf Ha; [by apply not_elem_of_nil in Ha|].
  destruct Hwf as (Hlo & Hb & Hwf). apply elem_of_cons in Ha as [->|Ha]; [done|].
  pose proof (block_ok_lt b Hb). specialize (IH _ Hwf Ha). lia.
Qed.

Lemma wf_from_block lo l b : wf_from lo l → b ∈ l → lo ≤ b.1 ∧ block_ok b.
Proof.
  revert lo. induction l as [|x l IH]; cbn; intros lo Hwf Hb; [by apply not_elem_of_nil in Hb|].
  destruct Hwf as (Hlo & Hx & Hwf). apply elem_of_cons in Hb as [->|Hb]; [done|].
  pose proof (block_ok_lt x Hx). destruct (IH _ Hwf Hb). split; [lia|done].
Qed.

Lemma wf_from_not_in lo l a : wf_from lo l → a < lo → a ∉ addrs l.
Proof. intros Hwf Hlt Ha. pose proof (wf_from_addrs _ _ _ Hwf Ha). lia. Qed.

Lemma wf_from_NoDup lo l : wf_from lo l → NoDup (addrs l).
Proof.
  revert lo. induction l as [|b l IH]; cbn; intros lo; [constructor|].
  intros (Hlo & Hb & Hwf). constructor; [|by eapply IH].
  eapply wf_from_not_in; [done|]. by apply block_ok_lt.
Qed.

Lemma wf_from_app lo l1 l2 :
  wf_from lo (l1 ++ l2) → wf_from lo l1 ∧ wf_from lo l2.
Proof.
  revert lo. induction l1 as [|b l1 IH]; cbn; intros lo; [done|].
  intros (Hlo & Hb & Hwf). apply IH in Hwf as [Hwf1 Hwf2].
  split_and!; [done..|]. eapply wf_from_weaken; [|done].
  pose proof (block_ok_lt b Hb). lia.
Qed.

(** Blocks before a block end at or below it. *)
Lemma wf_from_prefix lo l1 b l2 x :
  wf_from lo (l1 ++ b :: l2) → x ∈ l1 → block_end x ≤ b.1.
Proof.
  revert lo. induction l1 as [|y l1 IH]; cbn; intros lo; [by rewrite elem_of_nil|].
  intros (_ & _ & Hwf) [->|Hx]%elem_of_cons; [|by eapply IH].
  eapply wf_from_addrs; [exact Hwf|]. unfold addrs. rewrite fmap_app. set_solver.
Qed.

(** Blocks after a block start at or above its end. *)
Lemma wf_from_suffix lo l1 b l2 x :
  wf_from lo (l1 ++ b :: l2) → x ∈ l2 → block_end b ≤ x.1.
Proof.
  revert lo. induction l1 as [|y l1 IH]; cbn; intros lo (_ & _ & Hwf) Hx; [|by eapply IH].
  eapply wf_from_addrs; [exact Hwf|]. by apply list_elem_of_fmap_2.
Qed.

Lemma insert_sorted_perm b l : insert_sorted b l ≡ₚ b :: l.
Proof.
  induction l as [|x l IH]; cbn; [done|]. case_Z; [done|].
  rewrite IH. by constructor.
Qed.

#[export] Instance covers_proper : Proper ((≡ₚ) ==> eq ==> iff) covers.
Proof.
  intros l l' Hl x ? <-. unfold covers. by setoid_rewrite Hl.
Qed.

Lemma covers_nil x : ¬ covers [] x.
Proof. intros (b & Hb & _). by apply not_elem_of_nil in Hb. Qed.

Lemma covers_cons b l x : covers (b :: l) x ↔ b.1 ≤ x < block_end b ∨ covers l x.
Proof. unfold covers. set_solver. Qed.

Lemma covers_app l1 l2 x : covers (l1 ++ l2) x ↔ covers l1 x ∨ covers l2 x.
Proof. unfold covers. set_solver. Qed.

Lemma insert_sorted_wf lo b l :
  lo ≤ b.1 → block_ok b → wf_from lo l → Forall (disjoint_blocks b) l →
  wf_from lo (insert_sorted b l).
Proof.
  revert lo. induction l as [|x l IH]; cbn; intros lo Hlo Hb Hwf Hdis; [done|].
  destruct Hwf as (Hx & Hxok & Hwf). apply Forall_cons in Hdis as [Hd Hdis].
  pose proof (block_ok_lt x Hxok). pose proof (block_ok_lt b Hb).
  case_Z; cbn; unfold disjoint_blocks in *.
  - split_and!; try done; lia.
  - split_and!; try done. apply IH; [lia|done..].
Qed.

Lemma first_fit_spec n l b l' :
  first_fit n l = Some (b, l') →
  ∃ l1 l2, l = l1 ++ b :: l2 ∧ l' = l1 ++ l2 ∧ n ≤ b.2 ∧ Forall (fun x => x.2 < n) l1.
Proof.
  revert l'. induction l as [|x l IH]; cbn; intros l'; [done|]. case_Z.
  - intros [= -> ->]. exists [], l'. by rewrite Forall_nil.
  - destruct (first_fit n l) as [[b' l'']|]; [|done]. intros [= -> <-].
    destruct (IH _ eq_refl) as (l1 & l2 & -> & -> & ? & ?).
    exists (x :: l1), l2. by rewrite Forall_cons.
Qed.

Lemma first_fit_none n l : first_fit n l = None ↔ Forall (fun x => x.2 < n) l.
Proof.
  induction l as [|x l IH]; cbn; [done|]. rewrite Forall_cons, <-IH. case_Z.
  - split; [done|lia].
  - destruct (first_fit n l) as [[]|]; naive_solver.
Qed.

(** *** Lists in memory *)

Lemma seg_frame m m' o l :
  (∀ a, a ∈ addrs l → m' !! a = m !! a) → seg m o l → seg m' o l.
Proof.
  revert o. induction l as [|b l IH]; cbn; intros o Hm; [done|].
  intros (-> & nx & Hb & Hseg). split; [done|]. exists nx.
  split; [|apply IH; [set_solver|done]]. rewrite Hm; [done|set_solver].
Qed.

Lemma seg_dom m o l a : seg m o l → a ∈ addrs l → a ∈ dom m.
Proof.
  revert o. induction l as [|b l IH]; cbn; intros o; [by rewrite elem_of_nil|].
  intros (-> & nx & Hb & Hseg) [->|Ha]%elem_of_cons; [|by eapply IH].
  apply elem_of_dom. eauto.
Qed.

Lemma seg_length m o l lo : seg m o l → wf_from lo l → (length l ≤ size m)%nat.
Proof.
  intros Hseg Hwf. rewrite <-size_dom.
  rewrite <-(length_fmap fst l). change (fst <$> l) with (addrs l).
  rewrite <-(size_list_to_set (C := gset Z) (addrs l)) by (by eapply wf_from_NoDup).
  apply subseteq_size. intros a Ha%elem_of_list_to_set. by eapply seg_dom.
Qed.

(** A cut in the middle of a list: the nodes before it, and the pointer there. *)
Lemma seg_app m o l1 l2 :
  seg m o (l1 ++ l2) ↔
  ∃ o', seg m o' l2 ∧ (∀ m', (∀ a, a ∈ addrs l1 → m' !! a = m !! a) → ∀ l', seg m' o' l' → seg m' o (l1 ++ l')).
Proof.
  split.
  - revert o. induction l1 as [|b l1 IH]; cbn; intros o.
    + intros Hseg. exists o. auto.
    + intros (-> & nx & Hb & Hseg). destruct (IH nx Hseg) as (o' & Ho' & Hre).
      exists o'. split; [done|]. intros m' Hm' l' Hl'. split; [done|].
      exists nx. split; [rewrite Hm'; [done|set_solver]|]. apply Hre; [set_solver|done].
  - intros (o' & Ho' & Hre). by apply Hre.
Qed.

(** What [write] and [set_next] leave alone. *)
Lemma read_write s c n : read (write s c n) c = Done n.
Proof. destruct c; cbn; unfold deref; cbn; [done|]. by rewrite lookup_insert_eq. Qed.

Lemma read_write_ne s c c' n : c ≠ c' → read (write s c n) c' = read s c'.
Proof.
  intros Hne. destruct c, c'; cbn; unfold deref; cbn; try done.
  rewrite lookup_insert_ne; [done|congruence].
Qed.

Lemma mem_write_ne s c n p : c ≠ At p → mem (write s c n) !! p = mem s !! p.
Proof. intros Hne. destruct c; cbn; [done|]. apply lookup_insert_ne. congruence. Qed.

Lemma set_next_done s c cur o :
  read s c = Done cur → set_next s c o = Done (write s c (mkNode (frame_count cur) o)).
Proof. unfold set_next. by intros ->. Qed.

Lemma ptr_write_done s p n : p ≠ 0 → ptr_write s p n = Done (write s (At p) n).
Proof. intros Hp. unfold ptr_write. by destruct (Z.eqb_spec p 0). Qed.

Lemma seg_write s c n o l :
  (∀ a, a ∈ addrs l → c ≠ At a) → seg (mem s) o l → seg (mem (write s c n)) o l.
Proof. intros Hc. apply seg_frame. intros a Ha. by apply mem_write_ne, Hc. Qed.

(** The pointer held by place [c] leads to exactly [l]. *)
Definition leads (s : list_state) (c : place) (cur : PageFrameNode) (l : list block) : Prop :=
  read s c = Done cur ∧ seg (mem s) (next cur) l ∧ (∀ a, a ∈ addrs l → c ≠ At a).

(** A step of a loop: from [c] to the first node behind it. *)
Lemma leads_next s c cur b l lo :
  leads s c cur (b :: l) → wf_from lo (b :: l) →
  next cur = Some b.1 ∧ ∃ nx, leads s (At b.1) (mkNode b.2 nx) l ∧ deref s b.1 = Done (mkNode b.2 nx).
Proof.
  intros (Hr & (-> & nx & Hb & Hseg) & Hc) (_ & Hok & Hwf). split; [done|].
  exists nx. unfold leads. cbn. unfold deref. rewrite Hb. split_and!; try done.
  intros a Ha [= <-]. by apply (wf_from_not_in _ _ b.1 Hwf); [apply block_ok_lt|].
Qed.

Lemma leads_represents s l :
  represents s l ↔ leads s Head (head (self s)) l.
Proof. unfold leads, represents. naive_solver. Qed.

Lemma walk_fuel_enough s l : represents s l → wf l → (length l < walk_fuel s)%nat.
Proof. unfold walk_fuel. intros Hs Hwf. pose proof (seg_length _ _ _ _ Hs Hwf). lia. Qed.

(** The result of an operation at place [c]: [c] now leads to [l'], its own
    frame count is the same, and no node outside of [c] and [X] changed. *)
Definition relinked (s s' : list_state) (c : place) (cur : PageFrameNode)
    (X : list Z) (l' : list block) : Prop :=
  (∃ o, leads s' c (mkNode (frame_count cur) o) l') ∧
  (c ≠ Head → self s' = self s) ∧
  (∀ p, p ∉ X → c ≠ At p → mem s' !! p = mem s !! p).

(** Stepping back from the node behind [c] to [c] itself. *)
Lemma relinked_step s s' c cur b nx X l l' :
  leads s c cur (b :: l) → relinked s s' (At b.1) (mkNode b.2 nx) X l' →
  c ≠ At b.1 → (∀ p, p ∈ X → c ≠ At p) → (∀ a, a ∈ addrs l' → c ≠ At a) →
  relinked s s' c cur (b.1 :: X) (b :: l').
Proof.
  intros (Hr & (Hn & _) & Hc) ([o (Hr' & Hseg' & Hc')] & Hself & Hmem) Hne HX Hl'.
  assert (Hrc : read s' c = read s c).
  { destruct c as [|p]; cbn; [by rewrite Hself|]. unfold deref.
    rewrite Hmem; [done| |congruence]. intros Hp. by apply (HX p Hp). }
  split_and!.
  - exists (next cur). rewrite Hr in Hrc. split_and!; [by destruct cur| |].
    + split; [done|]. exists o. split; [|done].
      cbn in Hr'. unfold deref in Hr'. by destruct (mem s' !! b.1); inv_res.
    + set_solver.
  - intros _. by apply Hself.
  - intros p Hp Hcp. apply Hmem; set_solver.
Qed.

Lemma relinked_represents s s' X l' :
  relinked s s' Head (head (self s)) X l' → represents s' l'.
Proof.
  intros ([o (Hr & Hseg & _)] & _). cbn in Hr. injection Hr as Hr.
  unfold represents. by rewrite Hr.
Qed.

(** Writing a node at [a] that points to [o] and hooking it behind [c]. *)
Lemma link_front s c n a k o l :
  read s c = Done n → seg (mem s) o l → (∀ a', a' ∈ addrs l → c ≠ At a') →
  a ∉ addrs l → a ≠ 0 → c ≠ At a →
  ∃ s', (s1 ← ptr_write s a (mkNode k o); set_next s1 c (Some a)) = Done s' ∧
    leads s' c (mkNode (frame_count n) (Some a)) ((a, k) :: l) ∧
    (c ≠ Head → self s' = self s) ∧
    (∀ p, p ≠ a → c ≠ At p → mem s' !! p = mem s !! p).
Proof.
  intros Hr Hseg Hc Ha Hnz Hca.
  rewrite ptr_write_done, res_bind_ret_l by done.
  rewrite (set_next_done _ _ n) by (rewrite read_write_ne; [done|congruence]).
  eexists. split; [done|]. split_and!.
  - split; [apply read_write|]. split.
    + split; [done|]. exists o. split.
      * rewrite mem_write_ne by done. cbn. apply lookup_insert_eq.
      * apply seg_write; [done|]. apply seg_write; [set_solver|done].
    + intros a' [->|Ha']%elem_of_cons; [done|]. by apply Hc.
  - by destruct c.
  - intros p Hpa Hcp. rewrite !mem_write_ne by congruence. done.
Qed.

(** Unhooking: [c] holds [None] for a moment. *)
Lemma set_next_none s c cur l :
  leads s c cur l →
  ∃ s', set_next s c None = Done s' ∧ read s' c = Done (mkNode (frame_count cur) None) ∧
    seg (mem s') (next cur) l ∧ (c ≠ Head → self s' = self s) ∧
    (∀ p, c ≠ At p → mem s' !! p = mem s !! p).
Proof.
  intros (Hr & Hseg & Hc). rewrite (set_next_done _ _ cur) by done.
  eexists. split; [done|]. rewrite read_write. split_and!; [done|by apply seg_write|by destruct c|].
  intros p. apply mem_write_ne.
Qed.

(** What is left of a block after its first [n] frames are taken. *)
Definition remainder (b : block) (n : Z) : list block :=
  if n <? b.2 then [(b.1 + FRAME_SIZE * n, b.2 - n)] else [].

Lemma remainder_ok b n b' :
  0 ≤ n → block_ok b → b' ∈ remainder b n → block_ok b' ∧ b.1 ≤ b'.1 ∧ block_end b' = block_end b.
Proof.
  unfold remainder. intros Hn (Hv & Hpos & Hc & Hend). case_Z; [|by intros ?%elem_of_nil].
  intros ->%list_elem_of_singleton. unfold block_ok, block_end, FRAME_SIZE in *. cbn in *.
  split_and!; try lia. apply valid_frame_addr_spec in Hv as [Hr Hm].
  apply valid_frame_addr_intro; [unfold FRAME_SIZE; lia|].
  exists (b.1 / FRAME_SIZE + n). rewrite Z.mul_add_distr_l. unfold FRAME_SIZE in *.
  rewrite <-Z.div_exact in Hm by lia. lia.
Qed.

(** A block inside [b]'s place goes where [b] was. *)
Lemma insert_sorted_middle lo l1 b l2 b' :
  wf_from lo (l1 ++ b :: l2) → b.1 ≤ b'.1 → b'.1 < block_end b →
  insert_sorted b' (l1 ++ l2) = l1 ++ b' :: l2.
Proof.
  revert lo. induction l1 as [|x l1 IH]; cbn; intros lo Hwf Hle Hlt.
  - destruct l2 as [|y l2]; [done|]. destruct Hwf as (_ & _ & Hy & _). cbn. case_Z; [done|lia].
  - destruct Hwf as (Hlo & Hok & Hwf). pose proof (block_ok_lt x Hok).
    assert (block_end x ≤ b.1).
    { eapply wf_from_addrs; [exact Hwf|]. unfold addrs. rewrite fmap_app. set_solver. }
    case_Z; [lia|]. f_equal. by eapply IH.
Qed.

Lemma wf_replace lo l1 b l2 r :
  wf_from lo (l1 ++ b :: l2) → (length r ≤ 1)%nat →
  (∀ b', b' ∈ r → block_ok b' ∧ b.1 ≤ b'.1 ∧ block_end b' ≤ block_end b) →
  wf_from lo (l1 ++ r ++ l2).
Proof.
  intros Hwf Hlen Hr. revert lo Hwf. induction l1 as [|x l1 IH]; cbn; intros lo (Hlo & Hok & Hwf).
  - pose proof (block_ok_lt b Hok). destruct r as [|b' [|]]; cbn in *; [|destruct (Hr b'); [set_solver|]|lia].
    + eapply wf_from_weaken; [|done]. lia.
    + split_and!; [lia|done|]. eapply wf_from_weaken; [|done]. lia.
  - split_and!; [done..|]. by apply IH.
Qed.

Lemma remainder_covers b n x :
  0 ≤ n ≤ b.2 →
  b.1 ≤ x < block_end b ↔ (b.1 ≤ x < b.1 + FRAME_SIZE * n) ∨ covers (remainder b n) x.
Proof.
  unfold remainder, block_end, FRAME_SIZE. intros Hn. case_Z.
  - rewrite covers_cons. unfold block_end, FRAME_SIZE. cbn.
    pose proof (covers_nil x). intuition lia.
  - pose proof (covers_nil x). replace n with b.2 by lia. tauto.
Qed.

Lemma remainder_length b n : (length (remainder b n) ≤ 1)%nat.
Proof. unfold remainder. case_Z; cbn; lia. Qed.

Section Refinement.
Context `{PhysFrameOps} `{!PhysFrameLaws} `{Profile}.

Lemma node_start_ok b : block_ok b → ∃ f, node_start b.1 = Done f ∧ frame_addr f = b.1.
Proof. intros (Hv & _). by apply frame_at_valid. Qed.

Lemma block_end_valid b : block_ok b → valid_frame_addr (block_end b) = true.
Proof.
  intros (Hv & Hpos & Hc & Hend). apply valid_frame_addr_spec in Hv as [Hr Hmod].
  apply valid_frame_addr_intro; [unfold block_end, FRAME_SIZE in *; lia|].
  exists (b.1 / FRAME_SIZE + b.2). unfold block_end.
  rewrite Z.mul_add_distr_l. f_equal. by apply Z.div_exact.
Qed.

Lemma node_end_ok b nx :
  block_ok b → ∃ f, node_end b.1 (mkNode b.2 nx) = Done f ∧ frame_addr f = block_end b.
Proof.
  intros Hb. destruct (node_start_ok b Hb) as (f & Hf & Haddr).
  unfold node_end. rewrite Hf, res_bind_ret_l. cbn.
  destruct (frame_add_valid f b.2) as (g & Hg & Hga); [destruct Hb; lia| |].
  - rewrite Haddr. by apply block_end_valid.
  - exists g. by rewrite Hga, Haddr.
Qed.

Lemma insert_loop_spec fuel s c cur frames nb l lo :
  let a := frame_addr (start frames) in
  (length l < fuel)%nat → leads s c cur l → wf_from lo l →
  a ∉ addrs l → a ≠ 0 → c ≠ At a →
  ∃ s', insert_loop fuel s c frames nb = Done s' ∧
    relinked s s' c cur (a :: addrs l) (insert_sorted (a, frame_count nb) l).
Proof.
  cbv zeta. revert fuel s c cur lo.
  induction l as [|b l IH]; intros [|fuel] s c cur lo Hfuel Hl Hwf Ha Hnz Hca; cbn in Hfuel; try lia.
  - pose proof Hl as (Hr & Hseg & Hc). cbn in Hseg. cbn [insert_loop].
    rewrite Hr, res_bind_ret_l, Hseg.
    destruct (link_front s c cur (frame_addr (start frames)) (frame_count nb) None [] Hr)
      as (s' & -> & Hl' & Hself & Hmem); [done..|].
    exists s'. split; [done|]. split_and!; [eauto|done|set_solver].
  - pose proof Hl as (Hr & Hseg & Hc). pose proof Hwf as (Hlo & Hok & Hwf').
    destruct (leads_next _ _ _ _ _ _ Hl Hwf) as (Hn & nx & Hl' & Hd).
    destruct (node_start_ok b Hok) as (f & Hf & Hfa).
    cbn [insert_loop insert_sorted fst]. rewrite Hr, res_bind_ret_l, Hn, Hf, res_bind_ret_l, Hfa. case_Z.
    + destruct (set_next_none s c cur _ Hl) as (s1 & -> & Hr1 & Hseg1 & Hself1 & Hmem1).
      rewrite res_bind_ret_l. rewrite Hn in Hseg1.
      destruct (link_front s1 c _ (frame_addr (start frames)) (frame_count nb) (Some b.1) (b :: l) Hr1)
        as (s' & -> & Hl2 & Hself & Hmem); [done..|].
      exists s'. split; [done|]. split_and!.
      * eauto.
      * intros ?. by rewrite Hself, Hself1.
      * intros p Hp Hcp. rewrite Hmem by set_solver. by apply Hmem1.
    + destruct (IH fuel s (At b.1) _ _ ltac:(lia) Hl' Hwf') as (s' & -> & Hre); [set_solver..|].
      exists s'. split; [done|].
      eapply relinked_step in Hre; [|exact Hl|set_solver..|].
      * destruct Hre as (? & ? & Hmem). split_and!; [done..|]. intros p Hp. apply Hmem. set_solver.
      * intros x. unfold addrs. rewrite insert_sorted_perm. set_solver.
Qed.

(** The list operation [insert] implements. *)
Lemma insert_spec s l frames :
  let b := (frame_addr (start frames), range_count frames) in
  represents s l → wf l → b.1 ∉ addrs l → b.1 ≠ 0 →
  ∃ s', insert s frames = Done s' ∧ represents s' (insert_sorted b l) ∧
    (∀ p, p ∉ b.1 :: addrs l → mem s' !! p = mem s !! p).
Proof.
  cbv zeta. cbn [fst]. intros Hs Hwf Ha Hnz.
  assert (Hex : ∃ s', insert s frames = Done s' ∧ relinked s s' Head (head (self s))
    (frame_addr (start frames) :: addrs l) (insert_sorted (frame_addr (start frames), range_count frames) l)).
  { pose proof (insert_loop_spec (walk_fuel s) s Head (head (self s)) frames
      (node_new (range_count frames)) l 0 ltac:(by apply walk_fuel_enough)
      (proj1 (leads_represents s l) Hs) Hwf Ha Hnz ltac:(done)) as Hloop.
    unfold insert. destruct (next (head (self s))) eqn:E; [exact Hloop|].
    destruct l as [|b l]; [|destruct Hs; congruence].
    unfold walk_fuel in Hloop. cbn in Hloop. rewrite E in Hloop. exact Hloop. }
  destruct Hex as (s' & Hs' & Hre). exists s'. split_and!; [done| |].
  - by eapply relinked_represents.
  - intros p Hp. by apply Hre.
Qed.

Lemma find_free_block_loop_spec fuel s c cur n l lo :
  (length l < fuel)%nat → leads s c cur l → wf_from lo l →
  match first_fit n l with
  | Some (b, l') => ∃ s', find_free_block_loop fuel s c n = Done (Some b.1, s') ∧
      relinked s s' c cur (addrs l) l' ∧ deref s' b.1 = Done (mkNode b.2 None)
  | None => find_free_block_loop fuel s c n = Done (None, s)
  end.
Proof.
  revert fuel s c cur lo.
  induction l as [|b l IH]; intros [|fuel] s c cur lo Hfuel Hl Hwf; cbn in Hfuel; try lia.
  - destruct Hl as (Hr & Hseg & Hc). cbn. by rewrite Hr, res_bind_ret_l, Hseg.
  - pose proof Hl as (Hr & Hseg & Hc). pose proof Hwf as (Hlo & Hok & Hwf').
    destruct (leads_next _ _ _ _ _ _ Hl Hwf) as (Hn & nx & Hl' & Hd).
    cbn [find_free_block_loop first_fit]. rewrite Hr, res_bind_ret_l, Hn, Hd, res_bind_ret_l.
    cbn [frame_count next]. case_Z.
    + destruct Hl' as (Hrb & Hsegb & Hcb). cbn [next] in Hsegb.
      assert (Hcne : c ≠ At b.1) by (apply Hc; set_solver).
      rewrite (set_next_done _ _ _ _ Hrb), res_bind_ret_l.
      rewrite (set_next_done _ c cur) by (by rewrite read_write_ne). rewrite res_bind_ret_l.
      erewrite set_next_done by apply read_write. rewrite res_bind_ret_l. cbn [frame_count].
      eexists. split; [done|]. split; [split_and!|].
      * exists nx. split_and!; [apply read_write| |set_solver].
        do 2 (apply seg_write; [set_solver|]). apply seg_write; [|done]. set_solver.
      * by destruct c.
      * intros p Hp Hcp. rewrite !mem_write_ne; [done|set_solver..].
      * change (deref ?s ?p) with (read s (At p)). rewrite !read_write_ne by done.
        by rewrite read_write.
    + specialize (IH fuel s (At b.1) _ _ ltac:(lia) Hl' Hwf').
      destruct (first_fit n l) as [[b' l']|] eqn:E; [|done].
      destruct IH as (s' & -> & Hre & Hb'). exists s'. split_and!; [done| |done].
      eapply relinked_step in Hre; [exact Hre|exact Hl|set_solver..|].
      apply first_fit_spec in E as (l1 & l2 & -> & -> & _).
      intros a Ha. apply Hc. unfold addrs in *. cbn. rewrite fmap_app in *. cbn. set_solver.
Qed.

(** [alloc_block] cuts [n] frames from the start of the first block that has
    them, and leaves the rest of that block in its place. *)
Lemma alloc_block_spec s l1 b l2 n :
  represents s (l1 ++ b :: l2) → wf (l1 ++ b :: l2) → 0 ≤ n ≤ b.2 →
  Forall (fun x => x.2 < n) l1 →
  ∃ r s', alloc_block s n = Done (r, s') ∧
    frame_addr (start r) = b.1 ∧ frame_addr (end_ r) = b.1 + FRAME_SIZE * n ∧
    represents s' (l1 ++ remainder b n ++ l2) ∧
    (∀ p, p ∉ addrs (remainder b n) → p ∉ addrs (l1 ++ b :: l2) → mem s' !! p = mem s !! p).
Proof.
  intros Hs Hwf Hn Hl1.
  pose proof (find_free_block_loop_spec (walk_fuel s) s Head (head (self s)) n _ 0
    ltac:(by eapply walk_fuel_enough) (proj1 (leads_represents s _) Hs) Hwf) as Hfind.
  assert (Hff : first_fit n (l1 ++ b :: l2) = Some (b, l1 ++ l2)).
  { clear -Hl1 Hn. induction Hl1 as [|x l1 Hx Hl1 IH]; cbn; [by case_Z; [|lia]|].
    case_Z; [lia|]. by rewrite IH. }
  rewrite Hff in Hfind. destruct Hfind as (s1 & Hfind & Hre & Hd).
  unfold alloc_block, find_free_block. rewrite Hfind, res_bind_ret_l.
  destruct (wf_from_block _ _ b Hwf) as [_ Hok]; [set_solver|].
  destruct (node_start_ok b Hok) as (f & -> & Hfa). rewrite res_bind_ret_l.
  assert (Hv : valid_frame_addr (b.1 + FRAME_SIZE * n) = true).
  { destruct (Z.eq_dec n b.2) as [->|Hne]; [by apply block_end_valid|].
    apply (remainder_ok b n (b.1 + FRAME_SIZE * n, b.2 - n)); [lia|done|].
    unfold remainder. case_Z; [set_solver|lia]. }
  destruct (frame_add_valid f n) as (g & -> & Hga); [lia|by rewrite Hfa|].
  rewrite res_bind_ret_l, Hd, res_bind_ret_l.
  destruct (node_end_ok b None Hok) as (e & -> & Hea). rewrite res_bind_ret_l.
  assert (Hcount : range_count (mkRange g e) = b.2 - n).
  { unfold range_count. rewrite frame_range_count_spec. cbn. rewrite Hea, Hga, Hfa.
    unfold block_end. replace (_ - _) with ((b.2 - n) * FRAME_SIZE) by lia.
    rewrite Z.div_mul by done. lia. }
  pose proof (relinked_represents _ _ _ _ Hre) as Hs1.
  rewrite Hcount. unfold remainder. rewrite Hfa in Hga. cbn [start].
  destruct (Z.ltb_spec 0 (b.2 - n)) as [Hlt|Hge].
  - rewrite (proj2 (Z.ltb_lt n b.2)) by lia.
    destruct (insert_spec s1 (l1 ++ l2) (mkRange g e)) as (s' & -> & Hs' & Hmem); cbn [start] in *.
    + done.
    + by apply (wf_replace 0 l1 b l2 []); [|cbn; lia|set_solver].
    + rewrite Hga. intros Hin. unfold addrs in Hin. rewrite fmap_app in Hin.
      apply elem_of_app in Hin as [Hin|Hin]; apply list_elem_of_fmap in Hin as (x & Hx & Hin).
      * pose proof (wf_from_prefix _ _ _ _ _ Hwf Hin) as Hpre.
        assert (block_ok x) as Hxok%block_ok_lt by (eapply wf_from_block; [exact Hwf|set_solver]).
        cbn in Hx. unfold FRAME_SIZE in *. lia.
      * pose proof (wf_from_suffix _ _ _ _ _ Hwf Hin). cbn in Hx. unfold block_end, FRAME_SIZE in *. lia.
    + cbn. rewrite Hga. destruct Hok. unfold FRAME_SIZE. lia.
    + rewrite res_bind_ret_l. exists (mkRange f g), s'. split_and!; [done..| |].
      * rewrite Hga, Hcount in Hs'. erewrite insert_sorted_middle in Hs'; [exact Hs'|exact Hwf|..]; cbn;
          unfold block_end, FRAME_SIZE; lia.
      * intros p Hp Hp'. rewrite Hmem.
        -- by apply Hre.
        -- rewrite Hga. unfold addrs in *. rewrite !fmap_app in *. cbn in *. set_solver.
  - rewrite (proj2 (Z.ltb_ge n b.2)) by lia.
    rewrite res_bind_ret_l. exists (mkRange f g), s1. split_and!; [done..|].
    intros p _ Hp. by apply Hre.
Qed.

(** [free_block] walks over the blocks that end strictly below the frames. *)
Lemma free_block_loop_skip fuel s c cur frames l1 l2 lo :
  (length l1 < fuel)%nat → leads s c cur (l1 ++ l2) → wf_from lo (l1 ++ l2) →
  frame_addr (start frames) ≤ frame_addr (end_ frames) →
  (∀ x, x ∈ l1 → block_end x < frame_addr (start frames)) →
  ∃ c' cur' fuel', free_block_loop fuel s c frames = free_block_loop (S fuel') s c' frames ∧
    leads s c' cur' l2.
Proof.
  intros Hfuel Hl Hwf Hrange Hskip. revert fuel s c cur lo Hfuel Hl Hwf.
  induction l1 as [|b l1 IH]; intros [|fuel] s c cur lo Hfuel Hl Hwf; cbn in Hfuel; try lia.
  - exists c, cur, fuel. done.
  - cbn [app] in Hl, Hwf. pose proof Hl as (Hr & Hseg & Hc). pose proof Hwf as (Hlo & Hok & Hwf').
    destruct (leads_next _ _ _ _ _ _ Hl Hwf) as (Hn & nx & Hl' & Hd).
    destruct (node_start_ok b Hok) as (f & Hf & Hfa).
    destruct (node_end_ok b nx Hok) as (e & He & Hea).
    specialize (IH ltac:(set_solver) fuel s (At b.1) _ _ ltac:(lia) Hl' Hwf')
      as (c' & cur' & fuel' & IH & Hl2).
    exists c', cur', fuel'. split; [|done]. rewrite <-IH.
    pose proof (block_ok_lt b Hok). pose proof (Hskip b ltac:(set_solver)).
    cbn [free_block_loop]. rewrite Hr, res_bind_ret_l, Hn, Hf, res_bind_ret_l, Hd, res_bind_ret_l.
    rewrite frame_eqb_addr, Hfa, (proj2 (Z.eqb_neq _ _)) by lia.
    rewrite He, res_bind_ret_l, frame_eqb_addr, Hea, (proj2 (Z.eqb_neq _ _)) by lia.
    by rewrite frame_ltb_addr, Hea, (proj2 (Z.ltb_ge _ _)) by lia.
Qed.

Lemma free_block_skip s frames l1 l2 :
  represents s (l1 ++ l2) → wf (l1 ++ l2) →
  frame_addr (start frames) ≤ frame_addr (end_ frames) →
  (∀ x, x ∈ l1 → block_end x < frame_addr (start frames)) →
  ∃ c' cur' fuel', free_block s frames = free_block_loop (S fuel') s c' frames ∧
    leads s c' cur' l2.
Proof.
  intros Hs Hwf Hrange Hskip. unfold free_block.
  eapply free_block_loop_skip; [|by apply leads_represents|exact Hwf|done|done].
  pose proof (walk_fuel_enough s _ Hs Hwf). rewrite length_app in *. lia.
Qed.

(** The freed range as a block. *)
Definition range_block (r : PhysFrameRange) : block := (frame_addr (start r), range_count r).

Lemma range_block_end r :
  frame_addr (start r) ≤ frame_addr (end_ r) → block_end (range_block r) = frame_addr (end_ r).
Proof. intros Hr. unfold block_end. cbn. by rewrite <-range_count_end. Qed.

Lemma range_block_ok r :
  0 < frame_addr (start r) < frame_addr (end_ r) → block_ok (range_block r).
Proof.
  intros Hr. pose proof (frame_addr_range (end_ r)).
  pose proof (range_block_end r ltac:(lia)) as Hend. unfold block_ok. rewrite Hend.
  split_and!; [apply frame_addr_valid|cbn; lia| |lia].
  unfold block_end in Hend. cbn in *. unfold FRAME_SIZE in *. lia.
Qed.

Lemma range_block_covers r x :
  frame_addr (start r) ≤ frame_addr (end_ r) →
  (range_block r).1 ≤ x < block_end (range_block r) ↔ in_range r x.
Proof. intros Hr. by rewrite range_block_end. Qed.

(** Frames without a neighbour in the list get a node of their own. *)
Lemma free_block_separate s l frames :
  represents s l → wf l →
  0 < frame_addr (start frames) < frame_addr (end_ frames) →
  (∀ x, x ∈ l → block_end x < frame_addr (start frames) ∨ frame_addr (end_ frames) < x.1) →
  ∃ s', free_block s frames = Done s' ∧ represents s' (insert_sorted (range_block frames) l) ∧
    (∀ p, p ∉ frame_addr (start frames) :: addrs l → mem s' !! p = mem s !! p).
Proof.
  intros Hs Hwf Hrange Hsep.
  set (low := fun x : block => block_end x < frame_addr (start frames)).
  assert (Hsplit : ∃ l1 l2, l = l1 ++ l2 ∧ (∀ x, x ∈ l1 → low x) ∧
      (∀ x l2', l2 = x :: l2' → ¬ low x)).
  { clear. induction l as [|x l (l1 & l2 & -> & H1 & H2)].
    - exists [], []. split_and!; [done|set_solver|done].
    - destruct (decide (low x)) as [Hx|Hx].
      + exists (x :: l1), l2. split_and!; [done|set_solver|done].
      + exists [], (x :: l1 ++ l2). split_and!; [done|set_solver|naive_solver]. }
  destruct Hsplit as (l1 & l2 & -> & Hlow & Hhigh).
  destruct (free_block_skip s frames l1 l2 Hs Hwf ltac:(lia) Hlow) as (c & cur & fuel & -> & Hl).
  assert (Hins : free_block_loop (S fuel) s c frames = insert s frames).
  { pose proof Hl as (Hr & Hseg & Hc). cbn [free_block_loop]. rewrite Hr, res_bind_ret_l.
    destruct l2 as [|b l2]; [by rewrite Hseg|]. apply wf_from_app in Hwf as [_ Hwf].
    pose proof Hwf as (_ & Hok & _).
    destruct (leads_next _ _ _ _ _ _ Hl Hwf) as (Hn & nx & Hl' & Hd).
    destruct (node_start_ok b Hok) as (f & Hf & Hfa).
    destruct (node_end_ok b nx Hok) as (e & He & Hea).
    pose proof (block_ok_lt b Hok). destruct (Hsep b); [set_solver|by destruct (Hhigh b l2)|].
    rewrite Hn, Hf, res_bind_ret_l, Hd, res_bind_ret_l.
    rewrite frame_eqb_addr, Hfa, (proj2 (Z.eqb_neq _ _)) by lia.
    rewrite He, res_bind_ret_l, frame_eqb_addr, Hea, (proj2 (Z.eqb_neq _ _)) by lia.
    by rewrite frame_ltb_addr, Hea, (proj2 (Z.ltb_lt _ _)) by lia. }
  rewrite Hins. apply insert_spec; [done|done| |cbn; lia].
  cbn. intros (x & Hx & Hin)%list_elem_of_fmap.
  destruct (wf_from_block _ _ x Hwf Hin) as [_ Hok%block_ok_lt]. destruct (Hsep x Hin); lia.
Qed.

(** Overwriting one node of a list: what follows it becomes [l2']. *)
Lemma represents_overwrite s m l1 b l2 c o lo l2' :
  represents s (l1 ++ b :: l2) → wf_from lo (l1 ++ b :: l2) →
  m !! b.1 = Some (mkNode c o) → (∀ p, p ∈ addrs l1 → m !! p = mem s !! p) →
  seg m o l2' →
  represents (mkState (self s) m) (l1 ++ (b.1, c) :: l2').
Proof.
  intros Hs Hwf Hb Hm Hseg. unfold represents in *. cbn.
  apply seg_app in Hs as (o' & (-> & _) & Hre). apply Hre; [done|]. cbn. eauto.
Qed.

Lemma addrs_prefix_ne lo l1 b l2 p : wf_from lo (l1 ++ b :: l2) → p ∈ addrs l1 → p ≠ b.1.
Proof.
  intros Hwf (x & -> & Hin)%list_elem_of_fmap.
  pose proof (wf_from_prefix _ _ _ _ _ Hwf Hin).
  assert (block_ok x) as Hxok%block_ok_lt by (eapply wf_from_block; [exact Hwf|set_solver]). lia.
Qed.

Lemma block_count_bound b : block_ok b → 0 < b.2 < 2 ^ 52.
Proof. unfold block_ok, block_end, FRAME_SIZE. lia. Qed.

(** Frames that start where block [b] ends: [b] grows, and everything behind
    [b] is cut off the list. *)
Lemma free_block_top s l1 b l2 frames :
  represents s (l1 ++ b :: l2) → wf (l1 ++ b :: l2) →
  0 < frame_addr (start frames) < frame_addr (end_ frames) →
  block_end b = frame_addr (start frames) →
  ∃ s', free_block s frames = Done s' ∧
    represents s' (l1 ++ [(b.1, b.2 + range_count frames)]) ∧
    (∀ p, p ≠ b.1 → mem s' !! p = mem s !! p).
Proof.
  intros Hs Hwf Hrange Hb.
  destruct (wf_from_block _ _ b Hwf) as [_ Hok]; [set_solver|]. pose proof (block_ok_lt b Hok).
  destruct (free_block_skip s frames l1 (b :: l2) Hs Hwf) as (c & cur & fuel & -> & Hl); [lia| |].
  { intros x Hx. pose proof (wf_from_prefix _ _ _ _ _ Hwf Hx). lia. }
  pose proof Hl as (Hr & _). apply wf_from_app in Hwf as Hwf2. destruct Hwf2 as [_ Hwf2].
  destruct (leads_next _ _ _ _ _ _ Hl Hwf2) as (Hn & nx & Hl' & Hd).
  destruct (node_start_ok b Hok) as (f & Hf & Hfa).
  destruct (node_end_ok b nx Hok) as (e & He & Hea).
  pose proof (block_count_bound _ (range_block_ok frames Hrange)). cbn in *.
  pose proof (block_count_bound b Hok).
  rewrite Hr, res_bind_ret_l, Hn, Hf, res_bind_ret_l, Hd, res_bind_ret_l.
  rewrite frame_eqb_addr, Hfa, (proj2 (Z.eqb_neq _ _)) by lia.
  rewrite He, res_bind_ret_l, frame_eqb_addr, Hea, (proj2 (Z.eqb_eq _ _)) by lia.
  rewrite add_w_ok by (cbn; lia). rewrite res_bind_ret_l. cbn [frame_count].
  rewrite ptr_write_done by (destruct Hok; lia).
  eexists. split_and!; [done| |].
  - eapply represents_overwrite with (o := None); [exact Hs|exact Hwf|apply lookup_insert_eq| |done].
    intros p Hp. apply lookup_insert_ne. symmetry. by eapply addrs_prefix_ne.
  - intros p Hp. by apply lookup_insert_ne.
Qed.

(** Frames that end where block [b] starts: the merged node is written but
    nothing points to it, and [b], still in the list, lost its successor. *)
Lemma free_block_bottom s l1 b l2 frames :
  represents s (l1 ++ b :: l2) → wf (l1 ++ b :: l2) →
  0 < frame_addr (start frames) < frame_addr (end_ frames) →
  frame_addr (end_ frames) = b.1 →
  (∀ x, x ∈ l1 → block_end x < frame_addr (start frames)) →
  ∃ s', free_block s frames = Done s' ∧ represents s' (l1 ++ [b]) ∧
    ∃ o, mem s' !! frame_addr (start frames) = Some (mkNode (b.2 + range_count frames) o).
Proof.
  intros Hs Hwf Hrange Hb Hlow.
  destruct (wf_from_block _ _ b Hwf) as [_ Hok]; [set_solver|]. pose proof (block_ok_lt b Hok).
  destruct (free_block_skip s frames l1 (b :: l2) Hs Hwf) as (c & cur & fuel & -> & Hl); [lia|done|].
  pose proof Hl as (Hr & _). apply wf_from_app in Hwf as Hwf2. destruct Hwf2 as [_ Hwf2].
  destruct (leads_next _ _ _ _ _ _ Hl Hwf2) as (Hn & nx & (Hrb & _) & Hd).
  destruct (node_start_ok b Hok) as (f & Hf & Hfa).
  pose proof (block_count_bound _ (range_block_ok frames Hrange)) as Hcb. cbn in Hcb.
  cbn [free_block_loop].
  pose proof (block_count_bound b Hok).
  rewrite Hr, res_bind_ret_l, Hn, Hf, res_bind_ret_l, Hd, res_bind_ret_l.
  rewrite frame_eqb_addr, Hfa, (proj2 (Z.eqb_eq _ _)) by lia.
  rewrite add_w_ok by (cbn; lia). rewrite res_bind_ret_l. cbn [frame_count next].
  rewrite (set_next_done _ (At b.1) _ _ Hrb), res_bind_ret_l, ptr_write_done by lia.
  clear Hcb.
  eexists. split_and!; [done| |eexists; apply lookup_insert_eq].
  destruct b as [ba bc]. cbn in *.
  eapply (represents_overwrite _ _ _ (ba, bc)) with (o := None); [exact Hs|exact Hwf| | |done].
  - cbn. rewrite lookup_insert_ne by lia. apply lookup_insert_eq.
  - intros p Hp. pose proof (addrs_prefix_ne _ _ _ _ _ Hwf Hp). cbn in *.
    rewrite lookup_insert_ne; [by apply lookup_insert_ne|].
    apply list_elem_of_fmap in Hp as (x & -> & Hin).
    assert (block_ok x) as Hxok%block_ok_lt by (eapply wf_from_block; [exact Hwf|set_solver]).
    pose proof (Hlow x Hin). lia.
Qed.
End Refinement.

(** *** Consequences for the memory the list covers *)

Lemma covers_wf_disjoint lo l1 b l2 b' x :
  wf_from lo (l1 ++ b :: l2) → b.1 ≤ b'.1 → block_end b' ≤ block_end b →
  b'.1 ≤ x < block_end b' → ¬ covers (l1 ++ l2) x.
Proof.
  intros Hwf Hlo Hhi Hx (y & [Hy|Hy]%elem_of_app & Hyx).
  - pose proof (wf_from_prefix _ _ _ _ _ Hwf Hy). lia.
  - pose proof (wf_from_suffix _ _ _ _ _ Hwf Hy). lia.
Qed.

Lemma not_covers_addrs l p : wf l → ¬ covers l p → p ∉ addrs l.
Proof.
  intros Hwf Hp (x & -> & Hx)%list_elem_of_fmap. apply Hp. exists x. split; [done|].
  destruct (wf_from_block _ _ x Hwf Hx) as [_ Hok%block_ok_lt]. lia.
Qed.

Section Properties.
Context `{PhysFrameOps} `{!PhysFrameLaws} `{Profile}.

(** [alloc_block] returns the first [n] frames of the first block that
    has at least [n]; afterwards the free list is still well formed, the
    memory it covered is split exactly into the returned range and the memory
    it covers now, and no memory outside of the free blocks was written. *)
Lemma alloc_block_correct s l1 b l2 n :
  represents s (l1 ++ b :: l2) → wf (l1 ++ b :: l2) → 0 ≤ n ≤ b.2 →
  Forall (fun x => x.2 < n) l1 →
  ∃ r s' l', alloc_block s n = Done (r, s') ∧
    frame_addr (start r) = b.1 ∧ range_count r = n ∧
    represents s' l' ∧ wf l' ∧
    (∀ x, covers (l1 ++ b :: l2) x ↔ in_range r x ∨ covers l' x) ∧
    (∀ x, in_range r x → ¬ covers l' x) ∧
    (∀ p, ¬ covers (l1 ++ b :: l2) p → mem s' !! p = mem s !! p).
Proof.
  intros Hs Hwf Hn Hl1.
  destruct (alloc_block_spec s l1 b l2 n Hs Hwf Hn Hl1) as (r & s' & Hr & Hst & Hen & Hs' & Hmem).
  destruct (wf_from_block _ _ b Hwf) as [_ Hok]; [set_solver|].
  exists r, s', (l1 ++ remainder b n ++ l2). split_and!; try done.
  - unfold range_count. rewrite frame_range_count_spec, Hst, Hen.
    replace (_ - _) with (n * FRAME_SIZE) by lia. rewrite Z.div_mul by done. lia.
  - apply (wf_replace 0 l1 b l2); [done|apply remainder_length|].
    intros b' Hb'. destruct (remainder_ok b n b' ltac:(lia) Hok Hb') as (? & ? & ->). done.
  - intros x. rewrite !covers_app, covers_cons, (remainder_covers b n x Hn).
    unfold in_range. rewrite Hst, Hen. tauto.
  - intros x. unfold in_range. rewrite Hst, Hen. intros Hx.
    rewrite !covers_app. intros [Hc|[Hc|Hc]].
    + eapply (covers_wf_disjoint 0 l1 b l2 (b.1, n)); [exact Hwf|cbn; lia| |exact Hx|apply covers_app; tauto].
      unfold block_end, FRAME_SIZE. cbn. lia.
    + unfold remainder in Hc. destruct (n <? b.2); [|by apply covers_nil in Hc].
      apply covers_cons in Hc as [Hc|Hc]; [cbn in Hc; lia|by apply covers_nil in Hc].
    + eapply (covers_wf_disjoint 0 l1 b l2 (b.1, n)); [exact Hwf|cbn; lia| |exact Hx|apply covers_app; tauto].
      unfold block_end, FRAME_SIZE. cbn. lia.
  - intros p Hp. apply Hmem; [|by eapply not_covers_addrs].
    intros (x & -> & Hx)%list_elem_of_fmap. apply Hp. exists b. split; [set_solver|].
    destruct (remainder_ok b n x ltac:(lia) Hok Hx) as (Hxok%block_ok_lt & ? & ?). lia.
Qed.

(** When no block has [n] frames, [alloc_block] panics with the
    out-of-memory message instead of returning. *)
Theorem alloc_block_out_of_memory s l n :
  represents s l → wf l → Forall (fun x => x.2 < n) l →
  alloc_block s n = Panic "PageFrameAllocator: Out of memory!".
Proof.
  intros Hs Hwf Hl%first_fit_none.
  pose proof (find_free_block_loop_spec (walk_fuel s) s Head (head (self s)) n _ 0
    ltac:(by eapply walk_fuel_enough) (proj1 (leads_represents s _) Hs) Hwf) as Hfind.
  rewrite Hl in Hfind. unfold alloc_block, find_free_block. by rewrite Hfind.
Qed.

(** Freeing frames that touch no block of the list, or only the top of
    its last block, does what the documentation promises: the list stays
    well formed and now covers what it covered before and the freed frames,
    and only free memory was written. *)
Lemma free_block_correct s l frames :
  represents s l → wf l →
  0 < frame_addr (start frames) < frame_addr (end_ frames) →
  (∀ x, x ∈ l → block_end x < frame_addr (start frames) ∨ frame_addr (end_ frames) < x.1)
  ∨ (∃ l1 b, l = l1 ++ [b] ∧ block_end b = frame_addr (start frames)) →
  ∃ s' l', free_block s frames = Done s' ∧ represents s' l' ∧ wf l' ∧
    (∀ x, covers l' x ↔ covers l x ∨ in_range frames x) ∧
    (∀ p, ¬ covers l p → ¬ in_range frames p → mem s' !! p = mem s !! p).
Proof.
  intros Hs Hwf Hrange Hcase. pose proof (range_block_ok frames Hrange) as Hrok.
  destruct Hcase as [Hsep|(l1 & b & -> & Hb)].
  - destruct (free_block_separate s l frames Hs Hwf Hrange Hsep) as (s' & ? & Hs' & Hmem).
    exists s', (insert_sorted (range_block frames) l). split_and!; [done..| | |].
    + apply insert_sorted_wf; [cbn; lia|done|done|]. apply Forall_forall. intros x Hx.
      unfold disjoint_blocks. rewrite range_block_end by lia. cbn. destruct (Hsep x Hx); lia.
    + intros x. rewrite insert_sorted_perm, covers_cons, range_block_covers by lia. tauto.
    + intros p Hp Hr. apply Hmem. apply not_elem_of_cons. split; [|by apply not_covers_addrs].
      intros ->. apply Hr. unfold in_range. lia.
  - destruct (free_block_top s l1 b [] frames Hs Hwf Hrange Hb) as (s' & ? & Hs' & Hmem).
    eexists s', _. split_and!; [done|exact Hs'| | |].
    + apply wf_from_app in Hwf as Hwf'. destruct Hwf' as [_ (_ & Hok & _)].
      destruct Hrok as (Hv & _ & Hc & Hend). cbn in Hc.
      assert (block_end (b.1, b.2 + range_count frames) = block_end (range_block frames)) as Heq.
      { unfold block_end in *. cbn. unfold FRAME_SIZE in *. lia. }
      clear -Hwf Hok Hend Heq Hc. revert Hwf. unfold wf. generalize 0.
      induction l1 as [|y l1 IH]; cbn; intros lo (Hlo & Hy & Hwf).
      * split_and!; [done| |done]. unfold block_ok in *. rewrite Heq. cbn. intuition lia.
      * split_and!; [done..|]. by apply IH.
    + intros x. rewrite !covers_app, !covers_cons. unfold in_range.
      rewrite <-(range_block_end frames), <-Hb by lia. pose proof (covers_nil x).
      assert (b.1 < block_end b) by (apply block_ok_lt; eapply wf_from_block; [exact Hwf|set_solver]).
      pose proof (block_ok_lt _ Hrok). unfold block_end in *. cbn in *. unfold FRAME_SIZE in *. intuition lia.
    + intros p Hp _. apply Hmem. intros ->. eapply not_covers_addrs; [exact Hwf|exact Hp|].
      unfold addrs. rewrite fmap_app. set_solver.
Qed.

(** C4: freeing frames next to a block loses memory.  When the frames start
    at the end of block [b], [b] grows but every block behind [b] leaves the
    list; when they end at the start of [b], the freed frames are lost too. *)
Theorem free_block_fusion_loses_blocks s l1 b l2 frames :
  represents s (l1 ++ b :: l2) → wf (l1 ++ b :: l2) →
  0 < frame_addr (start frames) < frame_addr (end_ frames) →
  (block_end b = frame_addr (start frames) →
     ∃ s', free_block s frames = Done s' ∧
       represents s' (l1 ++ [(b.1, b.2 + range_count frames)])) ∧
  (frame_addr (end_ frames) = b.1 →
   (∀ x, x ∈ l1 → block_end x < frame_addr (start frames)) →
     ∃ s', free_block s frames = Done s' ∧ represents s' (l1 ++ [b])).
Proof.
  intros Hs Hwf Hrange. split.
  - intros Hb. destruct (free_block_top s l1 b l2 frames Hs Hwf Hrange Hb) as (s' & ? & ? & _). eauto.
  - intros Hb Hlow. destruct (free_block_bottom s l1 b l2 frames Hs Hwf Hrange Hb Hlow) as (s' & ? & ? & _). eauto.
Qed.

(** C5: allocating [n] frames from a larger block and freeing them again
    does not restore the free list: the allocated frames are lost, together
    with every block above the one they were taken from. *)
Theorem alloc_then_free_leaks s l1 b l2 n :
  represents s (l1 ++ b :: l2) → wf (l1 ++ b :: l2) → 0 < n < b.2 →
  Forall (fun x => x.2 < n) l1 → (∀ x, x ∈ l1 → block_end x < b.1) →
  ∃ r s1 s2, alloc_block s n = Done (r, s1) ∧ free_block s1 r = Done s2 ∧
    represents s2 (l1 ++ [(b.1 + FRAME_SIZE * n, b.2 - n)]).
Proof.
  intros Hs Hwf Hn Hl1 Hgap.
  destruct (alloc_block_spec s l1 b l2 n Hs Hwf ltac:(lia) Hl1) as (r & s1 & Hr & Hst & Hen & Hs1 & _).
  destruct (wf_from_block _ _ b Hwf) as [_ Hok]; [set_solver|].
  assert (Hrem : remainder b n = [(b.1 + FRAME_SIZE * n, b.2 - n)]).
  { unfold remainder. by rewrite (proj2 (Z.ltb_lt _ _)) by lia. }
  assert (Hwf1 : wf (l1 ++ remainder b n ++ l2)).
  { apply (wf_replace 0 l1 b l2); [done|apply remainder_length|].
    intros b' Hb'. destruct (remainder_ok b n b' ltac:(lia) Hok Hb') as (? & ? & ->). done. }
  rewrite Hrem in Hs1, Hwf1.
  destruct (free_block_bottom s1 l1 _ l2 r Hs1 Hwf1) as (s2 & Hf & Hs2 & _).
  - rewrite Hst, Hen. destruct Hok. unfold FRAME_SIZE. lia.
  - by rewrite Hen.
  - rewrite Hst. done.
  - eauto 10.
Qed.
End Properties.

(** ** Concrete free lists *)

Section Examples.
#[local] Existing Instance development.

Definition demo_blocks : list block := [(65536, 4); (131072, 8); (262144, 2)].
Definition demo_state : list_state :=
  mkState (mkAllocator (mkNode 0 (Some 65536)))
    (list_to_map [(65536, mkNode 4 (Some 131072)); (131072, mkNode 8 (Some 262144)); (262144, mkNode 2 None)]).

Lemma demo_represents : represents demo_state demo_blocks.
Proof. repeat (split; [reflexivity|]; eexists; split; [reflexivity|]). reflexivity. Qed.

Lemma demo_wf : wf demo_blocks.
Proof. repeat split; vm_compute; try done; by intros. Qed.

(** The frames a free call is made with. *)
Definition demo_range (m n : Z) : @PhysFrameRange frame_model :=
  match range_no m n with
  | Done r => r
  | _ => mkRange (Frame4K 0 eq_refl) (Frame4K 0 eq_refl)
  end.

(** The blocks a list holds after an operation, read back from memory. *)
Definition blocks_of (m : res list_state) : res (list (Z * Z)) :=
  s ← m; out ← fmt s;
  Done (List.map (fun r : PhysFrameRange => (frame_addr (start r), range_count r)) (fst out)).

Lemma alloc_block_correct_witness :
  ∃ r s' l', alloc_block demo_state 6 = Done (r, s') ∧ frame_addr (start r) = 131072 ∧
    range_count r = 6 ∧ represents s' l' ∧ wf l' ∧ ∀ x, in_range r x → ¬ covers l' x.
Proof.
  destruct (alloc_block_correct demo_state [(65536, 4)] (131072, 8) [(262144, 2)] 6
    demo_represents demo_wf ltac:(cbn; lia) ltac:(repeat constructor))
    as (r & s' & l' & ? & ? & ? & ? & ? & _ & ? & _).
  exists r, s', l'. split_and!; assumption.
Defined.

Lemma alloc_block_out_of_memory_witness :
  alloc_block demo_state 9 = Panic "PageFrameAllocator: Out of memory!".
Proof.
  apply (alloc_block_out_of_memory demo_state demo_blocks 9 demo_represents demo_wf).
  repeat constructor.
Defined.

Lemma free_block_correct_witness :
  ∃ s' l', free_block demo_state (demo_range 48 50) = Done s' ∧ represents s' l' ∧ wf l' ∧
    (∀ x, covers l' x ↔ covers demo_blocks x ∨ in_range (demo_range 48 50) x) ∧
    (∀ p, ¬ covers demo_blocks p → ¬ in_range (demo_range 48 50) p → mem s' !! p = mem demo_state !! p).
Proof.
  apply (free_block_correct demo_state demo_blocks (demo_range 48 50) demo_represents demo_wf).
  - vm_compute. done.
  - left. intros x Hx. unfold demo_blocks in Hx.
    repeat (apply elem_of_cons in Hx as [->|Hx]; [vm_compute; by (left + right)|]).
    by apply elem_of_nil in Hx.
Defined.

Lemma free_block_fusion_loses_blocks_witness :
  (∃ s', free_block demo_state (demo_range 20 22) = Done s' ∧
     represents s' [(65536, 6)]) ∧
  (∃ s', free_block demo_state (demo_range 30 32) = Done s' ∧
     represents s' [(65536, 4); (131072, 8)]).
Proof.
  split.
  - destruct (free_block_fusion_loses_blocks demo_state [] (65536, 4) [(131072, 8); (262144, 2)]
      (demo_range 20 22) demo_represents demo_wf ltac:(vm_compute; done)) as [Htop _].
    apply Htop. reflexivity.
  - destruct (free_block_fusion_loses_blocks demo_state [(65536, 4)] (131072, 8) [(262144, 2)]
      (demo_range 30 32) demo_represents demo_wf ltac:(vm_compute; done)) as [_ Hbot].
    apply Hbot; [reflexivity|]. intros x ->%list_elem_of_singleton. reflexivity.
Defined.

Lemma alloc_then_free_leaks_witness :
  ∃ r s1 s2, alloc_block demo_state 6 = Done (r, s1) ∧ free_block s1 r = Done s2 ∧
    represents s2 [(65536, 4); (155648, 2)].
Proof.
  apply (alloc_then_free_leaks demo_state [(65536, 4)] (131072, 8) [(262144, 2)] 6
    demo_represents demo_wf); [cbn; lia|repeat constructor|].
  intros x ->%list_elem_of_singleton. reflexivity.
Defined.

(** The same, by running the operations. *)
Example free_block_demo :
  blocks_of (free_block demo_state (demo_range 48 50))
    = Done [(65536, 4); (131072, 8); (196608, 2); (262144, 2)].
Proof. vm_compute. reflexivity. Qed.
Example free_block_top_demo :
  blocks_of (free_block demo_state (demo_range 20 22)) = Done [(65536, 6)].
Proof. vm_compute. reflexivity. Qed.
Example alloc_then_free_demo :
  blocks_of ('(r, s1) ← alloc_block demo_state 6; free_block s1 r)
    = Done [(65536, 4); (155648, 2)].
Proof. vm_compute. reflexivity. Qed.
End Examples.
