(* ===== verification/Physical.v ===== *)
(** * Physical memory management (os/kernel/src/memory/physical.rs)

    The two page frame allocators of the kernel, the limits that separate
    them, and [init], which decides how much memory the kernel keeps and hands
    every available region to one of the allocators. *)

From S2P Require Import Prelude Frames PageFrameList.

(** [enum MemorySpace] and [PAGE_SIZE] (memory/mod.rs) *)
Inductive MemorySpace := Kernel | User.
Definition PAGE_SIZE : Z := 4096.

#[export] Instance MemorySpace_eq_dec : EqDecision MemorySpace.
Proof. solve_decision. Defined.

Section Physical.
Context `{PhysFrameOps} `{Profile}.

(** The statics of the module; [Once] cells are options. *)
Record phys_state := mkPhys {
  KERNEL_PAGE_FRAME_ALLOCATOR : PageFrameListAllocator;
  USER_PAGE_FRAME_ALLOCATOR : PageFrameListAllocator;
  node_mem : node_memory;
  PHYS_LIMIT : option PhysFrame;
  KERNEL_PHYS_LIMIT : option PhysFrame;
}.

(** The state before [init]. *)
Definition phys_new (m : node_memory) : phys_state :=
  mkPhys allocator_new allocator_new m None None.

(** [Once::call_once] *)
Definition call_once {A} (cell : option A) (f : res A) : res (option A) :=
  match cell with
  | Some _ => Done cell
  | None => a ← f; Done (Some a)
  end.

(** [phys_limit] *)
Definition phys_limit (st : phys_state) : res PhysFrame :=
  expect "PageFrameAllocator: 'PHYS_LIMIT' accessed before initialization!" (PHYS_LIMIT st).

(** [kernel_phys_limit] *)
Definition kernel_phys_limit (st : phys_state) : res PhysFrame :=
  expect "PageFrameAllocator: 'KERNEL_PHYS_LIMIT' accessed before initialization!" (KERNEL_PHYS_LIMIT st).

(** One of the two allocators, with the memory both live in. *)
Definition get_list (st : phys_state) (space : MemorySpace) : list_state :=
  mkState (match space with
           | Kernel => KERNEL_PAGE_FRAME_ALLOCATOR st
           | User => USER_PAGE_FRAME_ALLOCATOR st
           end) (node_mem st).
Definition set_list (st : phys_state) (space : MemorySpace) (s : list_state) : phys_state :=
  match space with
  | Kernel => mkPhys (self s) (USER_PAGE_FRAME_ALLOCATOR st) (mem s) (PHYS_LIMIT st) (KERNEL_PHYS_LIMIT st)
  | User => mkPhys (KERNEL_PAGE_FRAME_ALLOCATOR st) (self s) (mem s) (PHYS_LIMIT st) (KERNEL_PHYS_LIMIT st)
  end.

(** [alloc] *)
Definition alloc (st : phys_state) (frame_count : Z) (space : MemorySpace) :
    res (PhysFrameRange * phys_state) :=
  match space with
  | Kernel =>
      '(r, s) ← alloc_block (get_list st Kernel) frame_count;
      Done (r, set_list st Kernel s)
  | User =>
      '(r, s) ← alloc_block (get_list st User) frame_count;
      Done (r, set_list st User s)
  end.

(** [free] *)
Definition free (st : phys_state) (frames : PhysFrameRange) : res phys_state :=
  limit ← kernel_phys_limit st;
  if frame_ltb (start frames) limit then
    s ← free_block (get_list st Kernel) frames; Done (set_list st Kernel s)
  else
    s ← free_block (get_list st User) frames; Done (set_list st User s).

(** [calc_page_table_memory]: the loop that fills [page_table_sizes]. *)
Definition page_table_size (available_memory : Z) (sizes : list Z) (level : nat) : Z :=
  match level with
  | O => available_memory / PAGE_SIZE / 512
  | S previous =>
      let size := default 0 (sizes !! previous) / 512 in
      if size =? 0 then 1 else size
  end.
Definition page_table_sizes (available_memory : Z) (levels : nat) : list Z :=
  foldl (fun sizes level => sizes ++ [page_table_size available_memory sizes level]) []
    (List.seq 0 levels).

(** [Iterator::sum::<usize>] *)
Fixpoint sum_usize (l : list Z) (acc : Z) : res Z :=
  match l with
  | [] => Done acc
  | x :: l' => acc' ← add_w 64 acc x; sum_usize l' acc'
  end.

(** [calc_page_table_memory] *)
Definition calc_page_table_memory (st : phys_state) (levels : nat) : res Z :=
  limit ← phys_limit st;
  available_memory ← phys_align_up (frame_addr limit) 0x200000;
  total ← sum_usize (page_table_sizes available_memory levels) 0;
  mul_w 64 total PAGE_SIZE.

(** [init]: [regions.sort_by(|r1, r2| r1.start.cmp(&r2.start))], a stable sort *)
Fixpoint insert_region (r : PhysFrameRange) (rs : list PhysFrameRange) : list PhysFrameRange :=
  match rs with
  | [] => [r]
  | x :: rs' => if frame_leb (start r) (start x) then r :: rs else x :: insert_region r rs'
  end.
Definition sort_regions (rs : list PhysFrameRange) : list PhysFrameRange :=
  foldr insert_region [] rs.

(** [init]: [max_by(|r1, r2| r1.end.cmp(&r2.end))] *)
Definition max_by_end (rs : list PhysFrameRange) : option PhysFrameRange :=
  foldl (fun best r =>
    match best with
    | None => Some r
    | Some b => match frame_cmp (end_ b) (end_ r) with Gt => Some b | _ => Some r end
    end) None rs.

(** [init]: the loop that searches the physical kernel limit. *)
Fixpoint kernel_limit_loop (page_table_memory available_kernel_memory : Z)
    (limit : PhysFrame) (region_iter : list PhysFrameRange) : res PhysFrame :=
  if available_kernel_memory <? page_table_memory then
    required_memory ← sub_w 64 page_table_memory available_kernel_memory;
    match region_iter with
    | [] => Panic "Not enough physical memory for required page tables available!"
    | region :: region_iter' =>
        size ← mul_w 64 (range_count region) PAGE_SIZE;
        if required_memory <=? size then
          available' ← add_w 64 available_kernel_memory required_memory;
          limit' ← frame_add (start region) (required_memory / PAGE_SIZE);
          kernel_limit_loop page_table_memory available' limit' region_iter'
        else
          available' ← add_w 64 available_kernel_memory size;
          kernel_limit_loop page_table_memory available' (end_ region) region_iter'
    end
  else Done limit.

(** [init]: one pass of the loop that frees the regions. *)
Definition free_region (st : phys_state) (limit : PhysFrame) (region : PhysFrameRange) : res phys_state :=
  if frame_ltb (start region) limit && frame_leb limit (end_ region) then
    st1 ← free st (mkRange (start region) limit);
    free st1 (mkRange limit (end_ region))
  else free st region.

Fixpoint free_regions (st : phys_state) (limit : PhysFrame) (regions : list PhysFrameRange) : res phys_state :=
  match regions with
  | [] => Done st
  | r :: rs => st' ← free_region st limit r; free_regions st' limit rs
  end.

(** [init] *)
Definition init (st : phys_state) (regions : list PhysFrameRange) (kernel_heap_end : PhysFrame) : res phys_state :=
  let regions := sort_regions regions in
  pl ← call_once (PHYS_LIMIT st) (r ← unwrap (max_by_end regions); Done (end_ r));
  let st := mkPhys (KERNEL_PAGE_FRAME_ALLOCATOR st) (USER_PAGE_FRAME_ALLOCATOR st) (node_mem st)
              pl (KERNEL_PHYS_LIMIT st) in
  page_table_memory ← calc_page_table_memory st 4%nat;
  limit ← kernel_limit_loop page_table_memory 0 kernel_heap_end regions;
  let limit := if frame_ltb limit kernel_heap_end then kernel_heap_end else limit in
  kl ← call_once (KERNEL_PHYS_LIMIT st) (Done limit);
  let st := mkPhys (KERNEL_PAGE_FRAME_ALLOCATOR st) (USER_PAGE_FRAME_ALLOCATOR st) (node_mem st)
              (PHYS_LIMIT st) kl in
  free_regions st limit regions.
End Physical.

(** ** The two allocators together *)

Section TwoAllocators.
Context `{PhysFrameOps} `{!PhysFrameLaws} `{Profile}.

(** Kernel memory is below the limit, user memory starts at it. *)
Definition zone (limit : PhysFrame) (space : MemorySpace) (x : Z) : Prop :=
  match space with
  | Kernel => x < frame_addr limit
  | User => frame_addr limit ≤ x
  end.

Definition other (space : MemorySpace) : MemorySpace :=
  match space with Kernel => User | User => Kernel end.

Definition set_blocks (L : MemorySpace → list block) (space : MemorySpace) (l : list block) :
    MemorySpace → list block :=
  fun sp => if decide (sp = space) then l else L sp.

(** Invariant of the module after [init]: each list is well formed and keeps
    to its side of the limit. *)
Definition phys_ok (st : phys_state) (limit : PhysFrame) (L : MemorySpace → list block) : Prop :=
  KERNEL_PHYS_LIMIT st = Some limit ∧
  ∀ sp, represents (get_list st sp) (L sp) ∧ wf (L sp) ∧ (∀ x, covers (L sp) x → zone limit sp x).

Lemma set_blocks_eq L sp l : set_blocks L sp l sp = l.
Proof. unfold set_blocks. by rewrite decide_True. Qed.
Lemma set_blocks_ne L sp l : set_blocks L sp l (other sp) = L (other sp).
Proof. unfold set_blocks. rewrite decide_False; [done|]. by destruct sp. Qed.

Lemma space_cases (P : MemorySpace → Prop) sp : P sp → P (other sp) → ∀ sp', P sp'.
Proof. destruct sp; intros ? ? []; done. Qed.

Lemma zone_disjoint limit sp x : zone limit sp x → ¬ zone limit (other sp) x.
Proof. destruct sp; cbn; lia. Qed.

Lemma get_set_list st sp s : get_list (set_list st sp s) sp = s.
Proof. by destruct sp, s. Qed.
Lemma get_set_list_other st sp s :
  get_list (set_list st sp s) (other sp) = mkState (self (get_list st (other sp))) (mem s).
Proof. by destruct sp. Qed.
Lemma set_list_limit st sp s : KERNEL_PHYS_LIMIT (set_list st sp s) = KERNEL_PHYS_LIMIT st.
Proof. by destruct sp. Qed.

(** A change of one list that writes only to its own side keeps the other. *)
Lemma phys_ok_update st limit L sp s l' :
  phys_ok st limit L → represents s l' → wf l' → (∀ x, covers l' x → zone limit sp x) →
  (∀ p, ¬ zone limit sp p → mem s !! p = node_mem st !! p) →
  phys_ok (set_list st sp s) limit (set_blocks L sp l').
Proof.
  intros [Hlim HL] Hs Hwf Hz Hmem. split; [by rewrite set_list_limit|].
  apply (space_cases _ sp).
  - by rewrite get_set_list, set_blocks_eq.
  - rewrite get_set_list_other, set_blocks_ne. destruct (HL (other sp)) as (Ho & Hwfo & Hzo).
    split_and!; [|done|done]. unfold represents in *. cbn.
    eapply seg_frame; [|exact Ho]. intros a Ha. rewrite Hmem.
    + by destruct sp.
    + apply list_elem_of_fmap in Ha as (x & -> & Hx).
      intros Hzs. eapply zone_disjoint; [exact Hzs|]. apply Hzo. exists x. split; [done|].
      destruct (wf_from_block _ _ x Hwfo Hx) as [_ Hok%block_ok_lt]. lia.
Qed.

Lemma alloc_eq st n sp :
  alloc st n sp = ('(r, s) ← alloc_block (get_list st sp) n; Done (r, set_list st sp s)).
Proof. by destruct sp. Qed.

Lemma get_list_mem st sp : mem (get_list st sp) = node_mem st.
Proof. done. Qed.

Lemma not_zone_not_covers limit l sp p :
  (∀ x, covers l x → zone limit sp x) → ¬ zone limit sp p → ¬ covers l p.
Proof. naive_solver. Qed.

Lemma free_eq st limit frames :
  KERNEL_PHYS_LIMIT st = Some limit →
  free st frames =
    let sp := if frame_addr (start frames) <? frame_addr limit then Kernel else User in
    s ← free_block (get_list st sp) frames; Done (set_list st sp s).
Proof.
  intros Hlim. unfold free, kernel_phys_limit. rewrite Hlim. cbn [expect]. rewrite res_bind_ret_l.
  rewrite frame_ltb_addr. cbv zeta. by case_Z.
Qed.

(** Frames whose whole range is in the zone of their start address, and that
    either touch no free block or continue the last one of their zone. *)
Definition freeable (limit : PhysFrame) (L : MemorySpace → list block) (frames : PhysFrameRange) (sp : MemorySpace) : Prop :=
  0 < frame_addr (start frames) < frame_addr (end_ frames) ∧
  (∀ x, in_range frames x → zone limit sp x) ∧
  ((∀ x, x ∈ L sp → block_end x < frame_addr (start frames) ∨ frame_addr (end_ frames) < x.1)
   ∨ (∃ l1 b, L sp = l1 ++ [b] ∧ block_end b = frame_addr (start frames))).

Lemma freeable_space limit L frames sp :
  freeable limit L frames sp →
  (if frame_addr (start frames) <? frame_addr limit then Kernel else User) = sp.
Proof.
  intros (Hr & Hz & _). specialize (Hz (frame_addr (start frames))).
  unfold in_range, zone in Hz. destruct sp; case_Z; lia || done.
Qed.

Lemma free_sound st limit L frames sp :
  phys_ok st limit L → freeable limit L frames sp →
  ∃ st' l', free st frames = Done st' ∧ phys_ok st' limit (set_blocks L sp l') ∧
    (∀ x, covers l' x ↔ covers (L sp) x ∨ in_range frames x).
Proof.
  intros Hok Hfree. pose proof (freeable_space _ _ _ _ Hfree) as Hsp.
  destruct Hfree as (Hr & Hzr & Hcase). pose proof (proj2 Hok sp) as (Hs & Hwf & Hz).
  destruct (free_block_correct _ _ _ Hs Hwf Hr Hcase) as (s' & l' & Hf & Hs' & Hwf' & Hcov & Hmem).
  exists (set_list st sp s'), l'. rewrite (free_eq st limit) by apply Hok. cbv zeta.
  rewrite Hsp, Hf, res_bind_ret_l. split_and!; [done| |done].
  apply phys_ok_update; [done..| |].
  - intros x [?|?]%Hcov; auto.
  - intros p Hp. apply Hmem; [by eapply not_zone_not_covers|naive_solver].
Qed.

(** *** Freeing regions in ascending order *)

Lemma set_blocks_covers L sp l sp' x :
  covers (set_blocks L sp l sp') x ↔ (sp' = sp ∧ covers l x) ∨ (sp' ≠ sp ∧ covers (L sp') x).
Proof. unfold set_blocks. case_decide; naive_solver. Qed.

Lemma freeable_append limit L frames sp :
  wf (L sp) → 0 < frame_addr (start frames) < frame_addr (end_ frames) →
  (∀ x, in_range frames x → zone limit sp x) →
  (∀ x, covers (L sp) x → x < frame_addr (start frames)) →
  freeable limit L frames sp.
Proof.
  intros Hwf Hr Hz Hbelow. split_and!; [lia..|done|].
  assert (Hend : ∀ x, x ∈ L sp → block_end x ≤ frame_addr (start frames)).
  { intros x Hx. destruct (wf_from_block _ _ x Hwf Hx) as [_ Hok%block_ok_lt].
    assert (covers (L sp) (block_end x - 1)) as Hc%Hbelow; [|lia]. exists x. split; [done|lia]. }
  destruct (L sp) as [|b l _] eqn:E using rev_ind; [left; set_solver|].
  destruct (Z.eq_dec (block_end b) (frame_addr (start frames))) as [Hb|Hb]; [right; eauto|].
  left. intros x Hx. left. pose proof (Hend x Hx) as Hle. pose proof (Hend b ltac:(set_solver)).
  apply elem_of_app in Hx as [Hx| ->%list_elem_of_singleton]; [|lia].
  pose proof (wf_from_prefix _ _ _ _ _ Hwf Hx).
  destruct (wf_from_block _ _ b Hwf) as [_ Hok%block_ok_lt]; [set_solver|]. lia.
Qed.

Lemma free_append st limit L frames sp :
  phys_ok st limit L → 0 < frame_addr (start frames) < frame_addr (end_ frames) →
  (∀ x, in_range frames x → zone limit sp x) →
  (∀ sp' x, covers (L sp') x → x < frame_addr (start frames)) →
  ∃ st' L', free st frames = Done st' ∧ phys_ok st' limit L' ∧
    (∀ sp' x, covers (L' sp') x ↔ covers (L sp') x ∨ (sp' = sp ∧ in_range frames x)).
Proof.
  intros Hok Hr Hz Hbelow.
  destruct (free_sound st limit L frames sp) as (st' & l' & Hf & Hok' & Hcov); [done| |].
  { apply freeable_append; [apply Hok|done|done|apply Hbelow]. }
  exists st', (set_blocks L sp l'). split_and!; [done..|].
  intros sp' x. rewrite set_blocks_covers, Hcov.
  destruct (decide (sp' = sp)) as [->|]; naive_solver.
Qed.

Definition region_ok (r : PhysFrameRange) : Prop := 0 < frame_addr (start r) < frame_addr (end_ r).

Lemma free_region_sound st limit L r :
  phys_ok st limit L → region_ok r → end_ r ≠ limit →
  (∀ sp x, covers (L sp) x → x < frame_addr (start r)) →
  ∃ st' L', free_region st limit r = Done st' ∧ phys_ok st' limit L' ∧
    (∀ sp x, covers (L' sp) x ↔ covers (L sp) x ∨ (in_range r x ∧ zone limit sp x)).
Proof.
  intros Hok Hr Hne Hbelow. unfold region_ok in Hr.
  assert (Hne' : frame_addr (end_ r) ≠ frame_addr limit) by (intros ?%frame_addr_inj; done).
  unfold free_region. rewrite frame_ltb_addr, frame_leb_addr.
  destruct (Z.ltb_spec (frame_addr (start r)) (frame_addr limit)); cbn [andb].
  - destruct (Z.leb_spec (frame_addr limit) (frame_addr (end_ r))).
    + destruct (free_append st limit L (mkRange (start r) limit) Kernel) as (st1 & L1 & -> & Hok1 & Hcov1);
        [done|cbn; lia|unfold in_range; cbn; lia|done|]. rewrite res_bind_ret_l.
      destruct (free_append st1 limit L1 (mkRange limit (end_ r)) User) as (st2 & L2 & -> & Hok2 & Hcov2);
        [done|cbn; lia|unfold in_range; cbn; lia| |].
      { unfold in_range in Hcov1. cbn in *. intros sp x [Hx%Hbelow|?]%Hcov1; lia. }
      exists st2, L2. split_and!; [done..|]. intros sp x. rewrite Hcov2, Hcov1.
      unfold in_range, zone. cbn. destruct sp; intuition (try discriminate; try lia).
    + destruct (free_append st limit L r Kernel) as (st1 & L1 & -> & Hok1 & Hcov1);
        [done|lia|unfold in_range; cbn; lia|done|].
      exists st1, L1. split_and!; [done..|]. intros sp x. rewrite Hcov1.
      unfold in_range, zone. destruct sp; intuition (try discriminate; try lia).
  - destruct (free_append st limit L r User) as (st1 & L1 & -> & Hok1 & Hcov1);
      [done|lia|unfold in_range; cbn; lia|done|].
    exists st1, L1. split_and!; [done..|]. intros sp x. rewrite Hcov1.
    unfold in_range, zone. destruct sp; intuition (try discriminate; try lia).
Qed.

(** Ascending, disjoint regions from [lo] on. *)
Fixpoint regions_from (lo : Z) (rs : list PhysFrameRange) : Prop :=
  match rs with
  | [] => True
  | r :: rs' => lo ≤ frame_addr (start r) ∧ region_ok r ∧ regions_from (frame_addr (end_ r)) rs'
  end.

Lemma free_regions_sound st limit L rs lo :
  phys_ok st limit L → regions_from lo rs → Forall (fun r => end_ r ≠ limit) rs →
  (∀ sp x, covers (L sp) x → x < lo) →
  ∃ st' L', free_regions st limit rs = Done st' ∧ phys_ok st' limit L' ∧
    (∀ sp x, covers (L' sp) x ↔ covers (L sp) x ∨ (∃ r, r ∈ rs ∧ in_range r x ∧ zone limit sp x)).
Proof.
  revert st L lo. induction rs as [|r rs IH]; cbn; intros st L lo Hok Hrs Hne Hbelow.
  - exists st, L. split_and!; [done..|]. intros sp x. set_solver.
  - destruct Hrs as (Hlo & Hr & Hrs). apply Forall_cons in Hne as [Hner Hne].
    destruct (free_region_sound st limit L r Hok Hr Hner) as (st1 & L1 & -> & Hok1 & Hcov1).
    { intros sp x Hx%Hbelow. lia. }
    rewrite res_bind_ret_l.
    destruct (IH st1 L1 _ Hok1 Hrs Hne) as (st2 & L2 & -> & Hok2 & Hcov2).
    { intros sp x [Hx%Hbelow|[Hx _]]%Hcov1; unfold region_ok, in_range in *; lia. }
    exists st2, L2. split_and!; [done..|]. intros sp x. rewrite Hcov2, Hcov1. set_solver.
Qed.

(** *** Sorting *)

Lemma insert_region_perm r rs : insert_region r rs ≡ₚ r :: rs.
Proof.
  induction rs as [|x rs IH]; cbn; [done|]. destruct (frame_leb _ _); [done|].
  rewrite IH. by constructor.
Qed.

Lemma sort_regions_perm rs : sort_regions rs ≡ₚ rs.
Proof. induction rs as [|r rs IH]; cbn; [done|]. by rewrite insert_region_perm, IH. Qed.

Definition disjoint_regions (r r' : PhysFrameRange) : Prop :=
  frame_addr (end_ r) ≤ frame_addr (start r') ∨ frame_addr (end_ r') ≤ frame_addr (start r).

Lemma insert_region_from lo r rs :
  lo ≤ frame_addr (start r) → region_ok r → regions_from lo rs → Forall (disjoint_regions r) rs →
  regions_from lo (insert_region r rs).
Proof.
  revert lo. induction rs as [|x rs IH]; cbn; intros lo Hlo Hr Hrs Hdis; [done|].
  destruct Hrs as (Hx & Hxok & Hrs). apply Forall_cons in Hdis as [Hd Hdis].
  rewrite frame_leb_addr. unfold disjoint_regions, region_ok in *. case_Z; cbn.
  - split_and!; try done; unfold region_ok; lia.
  - split_and!; try done; unfold region_ok; try lia. apply IH; [lia|done..].
Qed.

Lemma sort_regions_from rs :
  Forall region_ok rs → ForallOrdPairs disjoint_regions rs → regions_from 0 (sort_regions rs).
Proof.
  intros Hok Hdis. induction Hdis as [|r rs Hr Hdis IH]; cbn; [done|].
  apply Forall_cons in Hok as [Hrok Hok]. apply insert_region_from; [unfold region_ok in Hrok; lia|done|auto|].
  change (Forall (disjoint_regions r) (sort_regions rs)). by rewrite sort_regions_perm.
Qed.
End TwoAllocators.

(** ** Sizes and limits *)

Definition at_least_one (z : Z) : Z := if z =? 0 then 1 else z.

(** What [calc_page_table_memory] computes for four levels. *)
Definition page_table_bytes (available_memory : Z) : Z :=
  let n1 := available_memory / 4096 / 512 in
  let n2 := at_least_one (n1 / 512) in
  let n3 := at_least_one (n2 / 512) in
  let n4 := at_least_one (n3 / 512) in
  (n1 + n2 + n3 + n4) * PAGE_SIZE.

Definition div_up (a b : Z) : Z := (a + b - 1) / b.

(** The tables that mapping [n1] full level-1 tables takes: every level needs
    enough tables to point to all tables of the level below. *)
Definition tables_needed (n1 : Z) : Z :=
  let n2 := div_up n1 512 in
  let n3 := div_up n2 512 in
  let n4 := div_up n3 512 in
  n1 + n2 + n3 + n4.

Lemma at_least_one_bound a : 0 ≤ a → 1 ≤ at_least_one (a / 512) ≤ a / 512 + 1.
Proof. intros Ha. unfold at_least_one. pose proof (Z.div_pos a 512 ltac:(done) ltac:(lia)). case_Z; lia. Qed.

Lemma at_least_one_le_div_up a b : 0 < a ≤ b → at_least_one (a / 512) ≤ div_up b 512.
Proof.
  intros Hab. unfold at_least_one, div_up.
  pose proof (Z.div_le_mono a (b + 512 - 1) 512 ltac:(lia) ltac:(lia)).
  pose proof (Z.div_le_mono 512 (b + 512 - 1) 512 ltac:(lia) ltac:(lia)) as H512.
  change (512 / 512) with 1 in H512. case_Z; lia.
Qed.

Lemma div_up_pos a : 0 < a → 0 < div_up a 512.
Proof. intros Ha. unfold div_up. apply Z.div_str_pos. lia. Qed.

Section Limits.
Context `{PhysFrameOps} `{!PhysFrameLaws} `{Profile}.

Lemma sum_usize_done l acc :
  Forall (fun x => 0 ≤ x) l → 0 ≤ acc → acc + foldr Z.add 0 l < 2 ^ 64 →
  sum_usize l acc = Done (acc + foldr Z.add 0 l).
Proof.
  revert acc. induction l as [|x l IH]; cbn [sum_usize foldr]; intros acc Hl Hacc Hsum.
  - by rewrite Z.add_0_r.
  - apply Forall_cons in Hl as [Hx Hl].
    assert (0 ≤ foldr Z.add 0 l).
    { clear -Hl. induction Hl; cbn; lia. }
    rewrite add_w_ok by lia. rewrite res_bind_ret_l, IH; [by rewrite Z.add_assoc|done|lia..].
Qed.

Lemma calc_page_table_memory_eq st top :
  PHYS_LIMIT st = Some top → round_up (frame_addr top) 0x200000 < 2 ^ 52 →
  calc_page_table_memory st 4 = Done (page_table_bytes (round_up (frame_addr top) 0x200000)).
Proof.
  intros Htop Hup. pose proof (frame_addr_range top).
  unfold calc_page_table_memory, phys_limit. rewrite Htop. cbn [expect]. rewrite res_bind_ret_l.
  rewrite phys_align_up_spec by lia. rewrite res_bind_ret_l.
  assert (0 ≤ round_up (frame_addr top) 0x200000).
  { unfold round_up. apply Z.mul_nonneg_nonneg; [apply Z.div_pos|]; lia. }
  set (a := round_up (frame_addr top) 0x200000) in *.
  change (page_table_sizes a 4) with
    (let n1 := a / PAGE_SIZE / 512 in let n2 := at_least_one (n1 / 512) in
     let n3 := at_least_one (n2 / 512) in [n1; n2; n3; at_least_one (n3 / 512)]).
  cbv zeta. unfold page_table_bytes, PAGE_SIZE.
  assert (0 ≤ a / 4096 / 512 < 2 ^ 32).
  { split; [do 2 (apply Z.div_pos; [|lia]); lia|].
    apply Z.div_lt_upper_bound; [lia|]. apply Z.div_lt_upper_bound; lia. }
  set (n1 := a / 4096 / 512) in *.
  pose proof (at_least_one_bound n1 ltac:(lia)). set (n2 := at_least_one (n1 / 512)) in *.
  pose proof (at_least_one_bound n2 ltac:(lia)). set (n3 := at_least_one (n2 / 512)) in *.
  pose proof (at_least_one_bound n3 ltac:(lia)). set (n4 := at_least_one (n3 / 512)) in *.
  assert (n1 / 512 ≤ n1 ∧ n2 / 512 ≤ n2 ∧ n3 / 512 ≤ n3) as (? & ? & ?).
  { split_and!; apply Z.div_le_upper_bound; lia. }
  rewrite sum_usize_done; cbn [foldr]; [|repeat (apply Forall_cons; split; [lia|]); done|lia..].
  rewrite res_bind_ret_l, mul_w_ok by lia. f_equal. lia.
Qed.

(** Bytes of the regions below an address. *)
Fixpoint bytes_below (limit : Z) (rs : list PhysFrameRange) : Z :=
  match rs with
  | [] => 0
  | r :: rs' => Z.max 0 (Z.min (frame_addr (end_ r)) limit - frame_addr (start r)) + bytes_below limit rs'
  end.
Fixpoint total_bytes (rs : list PhysFrameRange) : Z :=
  match rs with
  | [] => 0
  | r :: rs' => frame_addr (end_ r) - frame_addr (start r) + total_bytes rs'
  end.

Lemma bytes_below_above limit lo rs : regions_from lo rs → limit ≤ lo → bytes_below limit rs = 0.
Proof.
  revert lo. induction rs as [|r rs IH]; cbn; intros lo; [done|].
  intros (Hlo & Hr & Hrs) Hle. unfold region_ok in Hr. rewrite (IH _ Hrs); lia.
Qed.

Lemma region_bytes r : region_ok r →
  range_count r * PAGE_SIZE = frame_addr (end_ r) - frame_addr (start r).
Proof.
  intros Hr. unfold region_ok in Hr. pose proof (range_count_end r ltac:(lia)).
  unfold FRAME_SIZE, PAGE_SIZE in *. lia.
Qed.

(** The least address below which the regions have [P] bytes *)
Definition reserving (P : Z) (rs : list PhysFrameRange) (x : Z) : Prop :=
  bytes_below x rs = P ∧ ∀ y, y < x → bytes_below y rs < P.

(** The limit loop: from [available] bytes on, it takes the missing bytes from
    the start of the regions, and panics when they do not have them. *)
Lemma kernel_limit_loop_spec rs : ∀ lo P available limit,
  regions_from lo rs → 0 ≤ available < P → P < 2 ^ 64 → (PAGE_SIZE | P - available) →
  if P - available <=? total_bytes rs then
    ∃ limit', kernel_limit_loop P available limit rs = Done limit' ∧
      lo ≤ frame_addr limit' ∧ reserving (P - available) rs (frame_addr limit')
  else kernel_limit_loop P available limit rs
       = Panic "Not enough physical memory for required page tables available!".
Proof.
  induction rs as [|r rs IH]; intros lo P available limit Hrs Hav HP Hdiv.
  - cbn [total_bytes]. rewrite (proj2 (Z.leb_gt _ _)) by lia. cbn [kernel_limit_loop].
    rewrite (proj2 (Z.ltb_lt _ _)), sub_w_ok by lia. done.
  - destruct Hrs as (Hlo & Hr & Hrs). pose proof (region_bytes r Hr) as Hbytes.
    pose proof (range_count_nonneg r). unfold region_ok in Hr.
    pose proof (frame_addr_range (end_ r)). pose proof (frame_addr_range (start r)).
    cbn [kernel_limit_loop total_bytes].
    rewrite (proj2 (Z.ltb_lt _ _)), sub_w_ok, res_bind_ret_l by lia.
    rewrite mul_w_ok, res_bind_ret_l, Hbytes by lia.
    assert (0 ≤ total_bytes rs) as Htot.
    { clear -Hrs. revert Hrs. generalize (frame_addr (end_ r)).
      induction rs as [|x rs IH]; cbn; [lia|]. intros lo (_ & Hx & Hrs).
      unfold region_ok in Hx. specialize (IH _ Hrs). lia. }
    destruct (Z.leb_spec (P - available) (frame_addr (end_ r) - frame_addr (start r))).
    + rewrite (proj2 (Z.leb_le _ _)) by lia. rewrite add_w_ok, res_bind_ret_l by lia.
      destruct Hdiv as [k Hk]. rewrite Hk in *. rewrite Z.div_mul by done. unfold PAGE_SIZE in *.
      destruct (frame_addr_aligned (end_ r)) as [ke Hke]. unfold FRAME_SIZE in *.
      destruct (frame_add_valid (start r) k) as (g & -> & Hg); [lia| |].
      { destruct (frame_addr_aligned (start r)) as [ks Hks]. unfold FRAME_SIZE in *.
        apply valid_frame_addr_intro; [lia|]. exists (ks + k). unfold FRAME_SIZE. lia. }
      rewrite res_bind_ret_l. unfold FRAME_SIZE in Hg. exists g. split_and!; [|lia|].
      * destruct rs; cbn [kernel_limit_loop]; by rewrite (proj2 (Z.ltb_ge _ _)) by lia.
      * split; [cbn [bytes_below]; rewrite (bytes_below_above _ _ _ Hrs); lia|].
        intros y Hy. cbn [bytes_below]. rewrite (bytes_below_above y _ _ Hrs); lia.
    + rewrite add_w_ok, res_bind_ret_l by lia.
      specialize (IH _ P (available + (frame_addr (end_ r) - frame_addr (start r))) (end_ r) Hrs
        ltac:(lia) ltac:(done)) as IHr.
      destruct (Z.leb_spec (P - (available + (frame_addr (end_ r) - frame_addr (start r)))) (total_bytes rs)).
      * rewrite (proj2 (Z.leb_le _ _)) by lia.
        destruct IHr as (limit' & -> & Hlo' & Hb & Hleast).
        { rewrite <-Hbytes. replace (P - (available + range_count r * PAGE_SIZE))
            with ((P - available) - range_count r * PAGE_SIZE) by lia.
          apply Z.divide_sub_r; [done|]. apply Z.divide_factor_r. }
        exists limit'. split; [done|]. split; [lia|]. split; [cbn [bytes_below]; lia|].
        intros y Hy. specialize (Hleast y Hy). cbn [bytes_below]. lia.
      * rewrite (proj2 (Z.leb_gt _ _)) by lia. apply IHr.
        rewrite <-Hbytes. replace (P - (available + range_count r * PAGE_SIZE))
          with ((P - available) - range_count r * PAGE_SIZE) by lia.
        apply Z.divide_sub_r; [done|]. apply Z.divide_factor_r.
Qed.

Lemma max_by_end_spec rs :
  rs ≠ [] → ∃ r, max_by_end rs = Some r ∧ r ∈ rs ∧ ∀ x, x ∈ rs → frame_addr (end_ x) ≤ frame_addr (end_ r).
Proof.
  induction rs as [|r rs IH] using rev_ind; [done|]. intros _.
  unfold max_by_end in *. rewrite foldl_app. cbn.
  destruct rs as [|y rs]; [exists r; set_solver|].
  destruct IH as (b & -> & Hb & Hmax); [done|]. rewrite frame_cmp_spec.
  destruct (Z.compare_spec (frame_addr (end_ b)) (frame_addr (end_ r))) as [E|E|E].
  - exists r. split_and!; [done|set_solver|]. intros x [Hx%Hmax| ->%list_elem_of_singleton]%elem_of_app; lia.
  - exists r. split_and!; [done|set_solver|]. intros x [Hx%Hmax| ->%list_elem_of_singleton]%elem_of_app; lia.
  - exists b. split_and!; [done|set_solver|]. intros x [Hx%Hmax| ->%list_elem_of_singleton]%elem_of_app; lia.
Qed.
End Limits.

#[export] Instance bytes_below_proper `{PhysFrameOps} limit : Proper ((≡ₚ) ==> eq) (bytes_below limit).
Proof. intros rs rs' Hrs. induction Hrs; cbn; lia. Qed.
#[export] Instance total_bytes_proper `{PhysFrameOps} : Proper ((≡ₚ) ==> eq) total_bytes.
Proof. intros rs rs' Hrs. induction Hrs; cbn; lia. Qed.

Lemma bytes_below_mono `{PhysFrameOps} limit limit' rs :
  limit ≤ limit' → bytes_below limit rs ≤ bytes_below limit' rs.
Proof. intros Hle. induction rs as [|r rs IH]; cbn; lia. Qed.

Lemma page_table_bytes_pos a : 0 ≤ a → 0 < page_table_bytes a ∧ (PAGE_SIZE | page_table_bytes a).
Proof.
  intros Ha. unfold page_table_bytes. split; [|apply Z.divide_factor_r].
  assert (0 ≤ a / 4096 / 512) by (do 2 (apply Z.div_pos; [|lia]); lia).
  pose proof (at_least_one_bound (a / 4096 / 512) ltac:(lia)) as H2.
  pose proof (at_least_one_bound _ (Z.le_trans _ _ _ Z.le_0_1 (proj1 H2))) as H3.
  pose proof (at_least_one_bound _ (Z.le_trans _ _ _ Z.le_0_1 (proj1 H3))) as H4.
  unfold PAGE_SIZE. lia.
Qed.

Section Properties.
Context `{PhysFrameOps} `{!PhysFrameLaws} `{Profile}.

(** What [alloc] does, for [alloc_correct] below and for the page tables (PagingAlloc.v). *)
Lemma alloc_sound st limit L space n l1 b l2 :
  phys_ok st limit L → L space = l1 ++ b :: l2 → 0 ≤ n ≤ b.2 → Forall (fun x => x.2 < n) l1 →
  ∃ r st' l', alloc st n space = Done (r, st') ∧ phys_ok st' limit (set_blocks L space l') ∧
    frame_addr (start r) = b.1 ∧ range_count r = n ∧
    (∀ x, covers (L space) x ↔ in_range r x ∨ covers l' x) ∧
    (∀ x, in_range r x → ¬ covers l' x) ∧
    (∀ p, ¬ covers (L space) p → node_mem st' !! p = node_mem st !! p).
Proof.
  intros Hok HL Hn Hl1. pose proof (proj2 Hok space) as (Hs & Hwf & Hz). rewrite HL in Hs, Hwf, Hz.
  destruct (alloc_block_correct _ _ _ _ _ Hs Hwf Hn Hl1)
    as (r & s' & l' & Ha & Hst & Hc & Hs' & Hwf' & Hcov & Hdis & Hmem).
  exists r, (set_list st space s'), l'. rewrite alloc_eq, Ha, res_bind_ret_l, HL.
  assert (∀ p, ¬ covers (l1 ++ b :: l2) p → node_mem (set_list st space s') !! p = node_mem st !! p) as Hm
    by (destruct space; exact Hmem).
  split_and!; [done| |done..]. apply phys_ok_update; [done..| |].
  - intros x Hx. apply Hz, Hcov. by right.
  - intros p Hp. apply Hmem. by eapply not_zone_not_covers.
Qed.

(** C1: [alloc] serves a request from the list of the requested memory space:
    it returns the first [n] frames of the first block that has them, these
    frames were free and are not free any more, all other free memory of the
    space stays free, and the list of the other space is unchanged. *)
Theorem alloc_correct st limit L space n l1 b l2 :
  phys_ok st limit L → L space = l1 ++ b :: l2 → 0 ≤ n ≤ b.2 → Forall (fun x => x.2 < n) l1 →
  ∃ r st' l', alloc st n space = Done (r, st') ∧ phys_ok st' limit (set_blocks L space l') ∧
    frame_addr (start r) = b.1 ∧ range_count r = n ∧
    (∀ x, covers (L space) x ↔ in_range r x ∨ covers l' x) ∧
    (∀ x, in_range r x → ¬ covers l' x).
Proof.
  intros Hok HL Hn Hl1. destruct (alloc_sound st limit L space n l1 b l2 Hok HL Hn Hl1)
    as (r & st' & l' & ? & ? & ? & ? & ? & ? & _). by exists r, st', l'.
Qed.

(** C2: [free] gives frames to the allocator of the zone they start in; when
    they lie in one zone and touch no free block (or continue the last one),
    that allocator now has its old memory and the freed frames, and the
    invariant of the two lists is kept. *)
Theorem free_correct st limit L frames space :
  phys_ok st limit L → freeable limit L frames space →
  ∃ st' l', free st frames = Done st' ∧ phys_ok st' limit (set_blocks L space l') ∧
    (∀ x, covers l' x ↔ covers (L space) x ∨ in_range frames x).
Proof. apply free_sound. Qed.

(** The highest address of the regions. *)
Fixpoint top_addr (rs : list PhysFrameRange) : Z :=
  match rs with
  | [] => 0
  | r :: rs' => Z.max (frame_addr (end_ r)) (top_addr rs')
  end.

Lemma top_addr_max rs r :
  r ∈ rs → (∀ x, x ∈ rs → frame_addr (end_ x) ≤ frame_addr (end_ r)) → frame_addr (end_ r) = top_addr rs.
Proof.
  intros Hr Hmax. pose proof (frame_addr_range (end_ r)).
  assert (∀ l, (∀ x, x ∈ l → frame_addr (end_ x) ≤ frame_addr (end_ r)) → top_addr l ≤ frame_addr (end_ r)) as Hle.
  { induction l as [|x l IH]; cbn; intros Hl; [lia|].
    pose proof (Hl x ltac:(set_solver)). pose proof (IH ltac:(set_solver)). lia. }
  pose proof (Hle rs Hmax).
  assert (frame_addr (end_ r) ≤ top_addr rs); [|lia].
  clear -Hr. induction rs as [|x rs IH]; cbn; [by apply elem_of_nil in Hr|].
  apply elem_of_cons in Hr as [->|Hr]; [lia|]. specialize (IH Hr). lia.
Qed.

(** [free] changes neither limit. *)
Definition limits (st : phys_state) : option PhysFrame * option PhysFrame := (PHYS_LIMIT st, KERNEL_PHYS_LIMIT st).
Lemma free_limits st r st' : free st r = Done st' → limits st' = limits st.
Proof. unfold free. intros Hf. inv_res. destruct (frame_ltb _ _); by inv_res. Qed.
Lemma free_regions_limits limit rs : ∀ st st', free_regions st limit rs = Done st' → limits st' = limits st.
Proof.
  induction rs as [|r rs IH]; cbn; intros st st' Hf; [by inv_res|].
  apply res_bind_done in Hf as (st1 & Hr & ->%IH). unfold free_region in Hr. destruct (_ && _); [|by eapply free_limits].
  apply res_bind_done in Hr as (st2 & Hr2 & Hr). by rewrite (free_limits _ _ _ Hr), (free_limits _ _ _ Hr2).
Qed.
(** [init] takes the highest address for the limit of the memory. *)
Lemma init_phys_limit m regions heap_end st : init (phys_new m) regions heap_end = Done st →
  ∃ top, phys_limit st = Done top ∧ frame_addr top = top_addr regions.
Proof.
  unfold init, phys_new. cbn [PHYS_LIMIT call_once]. destruct (max_by_end (sort_regions regions)) as [r|] eqn:Hmax; [|done].
  cbn [unwrap expect]. rewrite !res_bind_ret_l. intros Hf. inv_res. apply free_regions_limits in Hf. injection Hf as Hf _.
  exists (end_ r). unfold phys_limit. rewrite Hf. split; [done|].
  destruct (max_by_end_spec (sort_regions regions)) as (r' & Hmax' & Hr & Hle); [intros E; by rewrite E in Hmax|].
  rewrite Hmax in Hmax'. injection Hmax' as <-. pose proof (sort_regions_perm regions) as Hperm.
  rewrite Hperm in Hr. setoid_rewrite Hperm in Hle. by apply top_addr_max.
Qed.

Lemma total_bytes_bound lo rs :
  0 ≤ lo ≤ 2 ^ 52 → regions_from lo rs → total_bytes rs ≤ 2 ^ 52 - lo.
Proof.
  revert lo. induction rs as [|r rs IH]; cbn; intros lo Hlo; [lia|].
  intros (Hr & Hrok & Hrs). unfold region_ok in Hrok. pose proof (frame_addr_range (end_ r)).
  specialize (IH (frame_addr (end_ r)) ltac:(lia) Hrs). lia.
Qed.

(** [init] once the limits are known. *)
Lemma init_eq m regions heap_end r P limit0 :
  max_by_end (sort_regions regions) = Some r →
  round_up (frame_addr (end_ r)) 0x200000 < 2 ^ 52 →
  page_table_bytes (round_up (frame_addr (end_ r)) 0x200000) = P →
  kernel_limit_loop P 0 heap_end (sort_regions regions) = Done limit0 →
  init (phys_new m) regions heap_end =
    (let limit := if frame_addr limit0 <? frame_addr heap_end then heap_end else limit0 in
     free_regions (mkPhys allocator_new allocator_new m (Some (end_ r)) (Some limit)) limit
       (sort_regions regions)).
Proof.
  intros Hmax Hup HP Hloop. unfold init, phys_new. cbn [PHYS_LIMIT call_once]. rewrite Hmax. cbn [unwrap expect].
  rewrite !res_bind_ret_l, (calc_page_table_memory_eq _ (end_ r)) by (done || exact Hup).
  by rewrite res_bind_ret_l, HP, Hloop, res_bind_ret_l, frame_ltb_addr.
Qed.

(** What [init] does, for [init_correct] below and for the boot sequence (BootMap.v). *)
Lemma init_sound m regions heap_end :
  Forall region_ok regions → ForallOrdPairs disjoint_regions regions →
  round_up (top_addr regions) 0x200000 < 2 ^ 52 →
  page_table_bytes (round_up (top_addr regions) 0x200000) ≤ total_bytes regions →
  ∃ limit, frame_addr heap_end ≤ frame_addr limit ∧
    page_table_bytes (round_up (top_addr regions) 0x200000) ≤ bytes_below (frame_addr limit) regions ∧
    (limit = heap_end ∨
     bytes_below (frame_addr limit) regions = page_table_bytes (round_up (top_addr regions) 0x200000)) ∧
    ((∀ r, r ∈ regions → end_ r ≠ limit) →
     ∃ st' L, init (phys_new m) regions heap_end = Done st' ∧ phys_ok st' limit L ∧
       ∀ sp x, covers (L sp) x ↔ zone limit sp x ∧ ∃ r, r ∈ regions ∧ in_range r x) ∧
    (∀ st', init (phys_new m) regions heap_end = Done st' → kernel_phys_limit st' = Done limit) ∧
    ∃ x, reserving (page_table_bytes (round_up (top_addr regions) 0x200000)) regions x ∧
      frame_addr limit = Z.max (frame_addr heap_end) x.
Proof.
  intros Hok Hdis Hup Htotal.
  pose proof (sort_regions_perm regions) as Hperm.
  pose proof (sort_regions_from regions Hok Hdis) as Hfrom.
  assert (sort_regions regions ≠ []) as Hne.
  { intros Hnil. rewrite Hnil in Hperm. apply Permutation_nil in Hperm. subst.
    cbn in Htotal. pose proof (page_table_bytes_pos (round_up 0 0x200000) ltac:(done)). cbn in *. lia. }
  destruct (max_by_end_spec _ Hne) as (r & Hmax & Hr & Hle).
  rewrite Hperm in Hr. setoid_rewrite Hperm in Hle.
  pose proof (top_addr_max regions r Hr Hle) as Htop. rewrite <-Htop in Hup.
  set (P := page_table_bytes (round_up (top_addr regions) 0x200000)) in *.
  assert (0 ≤ round_up (top_addr regions) 0x200000) as Hround.
  { rewrite <-Htop. pose proof (frame_addr_range (end_ r)). unfold round_up.
    apply Z.mul_nonneg_nonneg; [apply Z.div_pos|]; lia. }
  destruct (page_table_bytes_pos _ Hround) as [HPpos HPdiv]. fold P in HPpos, HPdiv.
  pose proof (kernel_limit_loop_spec (sort_regions regions) 0 P 0 heap_end Hfrom) as Hloop.
  rewrite Z.sub_0_r, (proj2 (Z.leb_le _ _)) in Hloop by (by rewrite Hperm).
  pose proof (total_bytes_bound 0 _ ltac:(lia) Hfrom) as Hsmall. rewrite Hperm in Hsmall.
  destruct Hloop as (limit0 & Hloop & _ & Hbelow & Hleast); [lia..|done|].
  rewrite Hperm in Hbelow. setoid_rewrite Hperm in Hleast.
  exists (if frame_addr limit0 <? frame_addr heap_end then heap_end else limit0).
  split; [case_Z; lia|split; [|split; [case_Z; auto|]]].
  { rewrite <-Hbelow. apply bytes_below_mono. case_Z; lia. }
  assert (init (phys_new m) regions heap_end = free_regions (mkPhys allocator_new allocator_new m (Some (end_ r))
    (Some (if frame_addr limit0 <? frame_addr heap_end then heap_end else limit0))) (if frame_addr limit0 <? frame_addr heap_end then heap_end else limit0)
    (sort_regions regions)) as Hinit by (apply (init_eq _ _ _ r P limit0); [done..|by rewrite Htop|done]).
  split; [|split; [intros st' Hst; rewrite Hinit in Hst; apply free_regions_limits in Hst; injection Hst as _ Hst; unfold kernel_phys_limit; by rewrite Hst|]].
  2: { exists (frame_addr limit0). split; [by split|]. case_Z; lia. }
  intros Hedge. set (limit := if _ <? _ then heap_end else limit0) in *.
  set (st := mkPhys allocator_new allocator_new m (Some (end_ r)) (Some limit)).
  destruct (free_regions_sound st limit (fun _ => []) (sort_regions regions) 0)
    as (st' & L & Hfree & Hphys & Hcov).
  - split; [done|]. intros sp. split_and!; [by destruct sp|done|]. by intros x ?%covers_nil.
  - done.
  - rewrite Hperm. by apply Forall_forall.
  - by intros sp x ?%covers_nil.
  - exists st', L. split_and!; [|done|].
    + rewrite Hinit. exact Hfree.
    + intros sp x. rewrite Hcov. setoid_rewrite Hperm. pose proof (covers_nil x). naive_solver.
Qed.

(** C3: on disjoint, non-empty regions with enough memory, [init] sets a limit
    at or above the kernel heap's end that leaves the kernel at least the memory
    it computed for page tables (exactly that much, or up to the heap's end), and, unless a region ends exactly at that
    limit, puts exactly the memory of the regions below the limit into the
    kernel's free list and exactly the memory above it into the user's. *)
Theorem init_correct m regions heap_end :
  Forall region_ok regions → ForallOrdPairs disjoint_regions regions →
  round_up (top_addr regions) 0x200000 < 2 ^ 52 →
  page_table_bytes (round_up (top_addr regions) 0x200000) ≤ total_bytes regions →
  ∃ limit, frame_addr heap_end ≤ frame_addr limit ∧
    page_table_bytes (round_up (top_addr regions) 0x200000) ≤ bytes_below (frame_addr limit) regions ∧
    (limit = heap_end ∨
     bytes_below (frame_addr limit) regions = page_table_bytes (round_up (top_addr regions) 0x200000)) ∧
    ((∀ r, r ∈ regions → end_ r ≠ limit) →
     ∃ st' L, init (phys_new m) regions heap_end = Done st' ∧ phys_ok st' limit L ∧
       ∀ sp x, covers (L sp) x ↔ zone limit sp x ∧ ∃ r, r ∈ regions ∧ in_range r x).
Proof.
  intros Hok Hdis Hup Htotal. destruct (init_sound m regions heap_end Hok Hdis Hup Htotal) as (limit & Hl & Hb & Hlim & Hinit & _). by exists limit.
Qed.

(** What [init] reserves for page tables, and what they take *)
Lemma page_table_bytes_bound top : 0 < top →
  let n1 := round_up top 0x200000 / 0x200000 in
  page_table_bytes (round_up top 0x200000) ≤ PAGE_SIZE * tables_needed n1 ∧
  (512 < n1 → n1 mod 512 ≠ 0 → page_table_bytes (round_up top 0x200000) < PAGE_SIZE * tables_needed n1) ∧
  (n1 ≤ 512 → page_table_bytes (round_up top 0x200000) = PAGE_SIZE * tables_needed n1).
Proof.
  intros Hpos. cbv zeta. set (a := round_up top 0x200000) in *.
  assert (0 < a / 0x200000) as Hn1.
  { unfold a, round_up. rewrite Z.div_mul by done. apply Z.div_str_pos. lia. }
  unfold page_table_bytes, tables_needed. rewrite (Z.div_div a 4096 512) by done.
  change (4096 * 512) with 0x200000. set (n1 := a / 0x200000) in *.
  pose proof (at_least_one_le_div_up n1 n1 ltac:(lia)) as Hl2.
  pose proof (at_least_one_bound n1 ltac:(lia)). pose proof (div_up_pos n1 Hn1).
  pose proof (at_least_one_le_div_up (at_least_one (n1 / 512)) (div_up n1 512) ltac:(lia)) as Hl3.
  pose proof (at_least_one_bound (at_least_one (n1 / 512)) ltac:(lia)).
  pose proof (div_up_pos (div_up n1 512) ltac:(lia)).
  pose proof (at_least_one_le_div_up (at_least_one (at_least_one (n1 / 512) / 512))
    (div_up (div_up n1 512) 512) ltac:(lia)) as Hl4.
  unfold PAGE_SIZE. split; [lia|split].
  - intros Hbig Hmod. assert (at_least_one (n1 / 512) < div_up n1 512); [|lia].
    unfold at_least_one, div_up. pose proof (Z.div_mod n1 512 ltac:(done)) as Hdm.
    pose proof (Z.mod_pos_bound n1 512 ltac:(lia)).
    assert (n1 / 512 + 1 ≤ (n1 + 512 - 1) / 512) by (apply Z.div_le_lower_bound; lia).
    assert (1 ≤ n1 / 512) by (apply Z.div_le_lower_bound; lia). case_Z; lia.
  - intros Hsmall. assert (∀ x, 0 < x ≤ 512 → div_up x 512 = 1 ∧ at_least_one (x / 512) = 1) as Hone.
    { intros x Hx. unfold div_up, at_least_one. split; [symmetry; apply (Z.div_unique _ _ _ (x - 1)); lia|].
      destruct (decide (x = 512)) as [->|]; [done|]. by rewrite Z.div_small by lia. }
    destruct (Hone n1) as [-> ->]; [lia|]. destruct (Hone 1) as [E E']; [lia|]. rewrite !E, !E'. lia.
Qed.

(** For a physical memory of [n1] level-1 tables, [calc_page_table_memory]
    never asks for more than the tables that map it, but rounds the upper
    levels down: with more than 512 level-1 tables that do not fill their
    level-2 tables, it returns less than the mapping takes. *)
Theorem calc_page_table_memory_underestimates st top :
  PHYS_LIMIT st = Some top → 0 < frame_addr top → round_up (frame_addr top) 0x200000 < 2 ^ 52 →
  let n1 := round_up (frame_addr top) 0x200000 / 0x200000 in
  ∃ bytes, calc_page_table_memory st 4 = Done bytes ∧ bytes ≤ PAGE_SIZE * tables_needed n1 ∧
    (512 < n1 → n1 mod 512 ≠ 0 → bytes < PAGE_SIZE * tables_needed n1).
Proof.
  intros Htop Hpos Hup. cbv zeta. eexists. split; [by apply calc_page_table_memory_eq|].
  destruct (page_table_bytes_bound (frame_addr top) Hpos) as (? & ? & _). done.
Qed.

(** A region that ends exactly at the kernel limit makes [init] free the
    empty range at the limit to the user allocator: a node of zero frames is
    written to the address of the limit, which is part of no free memory. *)
Theorem free_region_writes_at_limit st limit L r :
  phys_ok st limit L → region_ok r → end_ r = limit → L User = [] →
  (∀ sp x, covers (L sp) x → x < frame_addr (start r)) →
  ∃ st', free_region st limit r = Done st' ∧
    node_mem st' !! frame_addr limit = Some (mkNode 0 None) ∧
    represents (get_list st' User) [(frame_addr limit, 0)] ∧
    ¬ in_range r (frame_addr limit).
Proof.
  intros Hok Hr <- HU Hbelow. unfold region_ok in Hr.
  assert (Hf : freeable (end_ r) L (mkRange (start r) (end_ r)) Kernel).
  { apply freeable_append; [apply Hok|cbn; lia|unfold in_range; cbn; lia|apply Hbelow]. }
  destruct (free_sound st (end_ r) L _ Kernel Hok Hf) as (st1 & l1 & Hfree & [Hlim Hok1] & _).
  destruct (Hok1 User) as (HsU & _). rewrite (set_blocks_ne L Kernel) in HsU. cbn [other] in HsU. rewrite HU in HsU.
  unfold represents in HsU. cbn in HsU.
  unfold free_region. rewrite frame_ltb_addr, frame_leb_addr, (proj2 (Z.ltb_lt _ _)), Z.leb_refl by lia.
  cbn [andb]. rewrite Hfree, res_bind_ret_l, (free_eq st1 (end_ r)) by done. cbn [start].
  cbv zeta. rewrite Z.ltb_irrefl. unfold free_block, walk_fuel. cbn [free_block_loop read].
  cbn. rewrite HsU. unfold insert. cbn. rewrite HsU. rewrite ptr_write_done by lia.
  cbn. eexists. split; [done|]. cbn.
  assert (range_count (mkRange (end_ r) (end_ r)) = 0) as ->.
  { unfold range_count. rewrite frame_range_count_spec. cbn. by rewrite Z.sub_diag. }
  split_and!; [apply lookup_insert_eq|done| |unfold in_range; lia].
  eexists. split; [apply lookup_insert_eq|done].
Qed.
End Properties.

(** ** A concrete machine *)

Section Examples.
#[local] Existing Instance development.

Definition demo_frame (n : Z) : @PhysFrame frame_model :=
  match frame_no n with Done f => f | _ => Frame4K 0 eq_refl end.

(** 12 MiB of memory in two regions, listed in descending order. *)
Definition demo_regions : list (@PhysFrameRange frame_model) := [demo_range 64 3000; demo_range 1 32].

Lemma demo_regions_disjoint : ForallOrdPairs disjoint_regions demo_regions.
Proof.
  apply FOP_cons; [|apply FOP_cons; [done|apply FOP_nil]].
  apply list.Forall_singleton. right. vm_compute. done.
Qed.

Definition demo_init : res phys_state := init (phys_new ∅) demo_regions (demo_frame 40).

Lemma init_correct_witness :
  ∃ limit st' L, demo_init = Done st' ∧ phys_ok st' limit L ∧
    ∀ sp x, covers (L sp) x ↔ zone limit sp x ∧ ∃ r, r ∈ demo_regions ∧ in_range r x.
Proof.
  destruct (init_correct ∅ demo_regions (demo_frame 40)) as (limit & Hheap & _ & Hlim & Hinit).
  - repeat constructor; vm_compute; done.
  - apply demo_regions_disjoint.
  - vm_compute. done.
  - vm_compute. done.
  - exists limit. apply Hinit. intros r Hr <-.
    unfold demo_regions in Hr. apply elem_of_cons in Hr as [->|Hr].
    + destruct Hlim as [Hlim|Hlim]; [apply (f_equal f4_addr) in Hlim|]; vm_compute in Hlim; done.
    + apply list_elem_of_singleton in Hr as ->. vm_compute in Hheap. by apply Hheap.
Defined.

Definition demo_phys : phys_state :=
  match demo_init with Done st => st | _ => phys_new ∅ end.

(** The state [init] leaves behind, with the blocks of both lists. *)
Definition demo_lists (sp : MemorySpace) : list block :=
  match sp with
  | Kernel => [(4096, 31)]
  | User => [(262144, 2936)]
  end.
Lemma demo_phys_ok : phys_ok demo_phys (demo_frame 40) demo_lists.
Proof.
  split; [vm_compute; reflexivity|]. intros []; (split_and!; [|vm_compute; intuition (try discriminate)|]).
  - split; [vm_compute; reflexivity|]. eexists. split; vm_compute; reflexivity.
  - intros x (b & ->%list_elem_of_singleton & Hx). unfold zone.
    change (frame_addr (demo_frame 40)) with 163840. unfold block_end, FRAME_SIZE in *. cbn in *. lia.
  - split; [vm_compute; reflexivity|]. eexists. split; vm_compute; reflexivity.
  - intros x (b & ->%list_elem_of_singleton & Hx). unfold zone.
    change (frame_addr (demo_frame 40)) with 163840. unfold block_end, FRAME_SIZE in *. cbn in *. lia.
Qed.

Lemma alloc_correct_witness :
  ∃ r st' l', alloc demo_phys 2 User = Done (r, st') ∧
    phys_ok st' (demo_frame 40) (set_blocks demo_lists User l') ∧ frame_addr (start r) = 262144.
Proof.
  destruct (alloc_correct demo_phys (demo_frame 40) demo_lists User 2 [] (262144, 2936) []
    demo_phys_ok eq_refl ltac:(cbn; lia) (List.Forall_nil _))
    as (r & st' & l' & ? & ? & ? & _). eauto 10.
Defined.

Lemma free_correct_witness :
  ∃ st' l', free demo_phys (demo_range 34 36) = Done st' ∧
    phys_ok st' (demo_frame 40) (set_blocks demo_lists Kernel l').
Proof.
  destruct (free_correct demo_phys (demo_frame 40) demo_lists (demo_range 34 36) Kernel demo_phys_ok)
    as (st' & l' & ? & ? & _); [|eauto].
  apply freeable_append; [apply demo_phys_ok|vm_compute; done|..].
  - intros x Hx. unfold in_range in Hx. unfold zone.
    change (frame_addr (demo_frame 40)) with 163840.
    change (frame_addr (end_ (demo_range 34 36))) with 147456 in Hx. lia.
  - intros x (b & ->%list_elem_of_singleton & Hx).
    change (frame_addr (start (demo_range 34 36))) with 139264.
    unfold block_end, FRAME_SIZE in *. cbn in *. lia.
Defined.

(** 1.5 GiB: 768 level-1 tables need two level-2 tables, one is reserved. *)
Lemma calc_page_table_memory_underestimates_witness :
  ∃ bytes, calc_page_table_memory
      (mkPhys allocator_new allocator_new ∅ (Some (demo_frame 0x60000)) None) 4 = Done bytes ∧
    bytes < PAGE_SIZE * tables_needed 768.
Proof.
  destruct (calc_page_table_memory_underestimates
    (mkPhys allocator_new allocator_new ∅ (Some (demo_frame 0x60000)) None) (demo_frame 0x60000) eq_refl)
    as (bytes & ? & _ & Hlt); [vm_compute; done..|].
  exists bytes. split; [done|]. apply Hlt; vm_compute; done.
Defined.

Definition demo_start : phys_state := mkPhys allocator_new allocator_new ∅ None (Some (demo_frame 40)).
Lemma demo_start_ok : phys_ok demo_start (demo_frame 40) (fun _ => []).
Proof.
  split; [done|]. intros sp. split_and!; [by destruct sp|done|]. by intros x ?%covers_nil.
Qed.

Lemma free_region_writes_at_limit_witness :
  ∃ st', free_region demo_start (demo_frame 40) (demo_range 16 40) = Done st' ∧
    node_mem st' !! 163840 = Some (mkNode 0 None).
Proof.
  destruct (free_region_writes_at_limit demo_start (demo_frame 40) (fun _ => []) (demo_range 16 40)
    demo_start_ok) as (st' & ? & ? & _); [vm_compute; done|by apply frame4k_eq|done| |eauto].
  by intros sp x ?%covers_nil.
Defined.
End Examples.
