(* ===== verification/BootMap.v ===== *)
(** * From the bootloader's memory map to the free regions (os/kernel/src/boot.rs)

    [start] takes the memory map from EFI or from the Multiboot2 information,
    chooses a place for the kernel heap, cuts the null page, the kernel image
    and the heap out of the available regions, and passes the rest to
    [memory::physical::init] (Physical.v). *)

From S2P Require Import Prelude Frames PageFrameList Physical.

Definition INIT_HEAP_PAGES : Z := 0x400.

(** The memory types of the uefi crate that boot.rs names; all others are
    [OTHER]. *)
Inductive MemoryType :=
  | LOADER_CODE | LOADER_DATA | BOOT_SERVICES_CODE | BOOT_SERVICES_DATA | CONVENTIONAL
  | OTHER (ty : Z).

(** What boot.rs reads of an EFI memory descriptor. *)
Record efi_area := mkEfiArea { ty : MemoryType; phys_start : Z; page_count : Z }.

(** What boot.rs reads of a Multiboot2 memory area: whether its type is
    [Available], and the results of the methods [start_address], [size] and
    [end_address]. *)
Record mb_area := mkMbArea { mb_available : bool; start_address : Z; size : Z; end_address : Z }.

(** [Iterator::min_by] with [cmp] on a key: the first least element. *)
Definition min_by_key {A} (key : A → Z) (l : list A) : option A :=
  foldl (fun best x =>
    match best with
    | None => Some x
    | Some b => match key b ?= key x with Gt => Some x | _ => Some b end
    end) None l.

(** The filter on usable EFI memory. *)
Definition efi_usable (area : efi_area) : bool :=
  match ty area with
  | CONVENTIONAL | LOADER_CODE | LOADER_DATA | BOOT_SERVICES_CODE | BOOT_SERVICES_DATA => true
  | OTHER _ => false
  end.

Section BootMap.
Context `{PhysFrameOps}.

(** [kernel_image_region]; the two linker symbols are arguments. *)
Definition kernel_image_region (data_start data_end : Z) : res PhysFrameRange :=
  first ← frame_at data_start;
  end_addr ← phys_align_up data_end PAGE_SIZE;
  last ← frame_at end_addr;
  Done (mkRange first last).

(** The regions pushed for the usable areas. *)
Fixpoint efi_regions (areas : list efi_area) : res (list PhysFrameRange) :=
  match areas with
  | [] => Done []
  | area :: areas' =>
      addr ← phys_align_up (phys_start area) PAGE_SIZE;
      first ← frame_at addr;
      last ← frame_add first (page_count area);
      regions ← efi_regions areas';
      Done (mkRange first last :: regions)
  end.

(** [scan_efi_memory_map]: the available regions and the heap region. *)
Definition scan_efi_memory_map (kernel_region : PhysFrameRange) (memory_map : list efi_area) :
    res (list PhysFrameRange * PhysFrameRange) :=
  heap_area ← expect "Failed to find memory region usable for kernel heap!"
    (min_by_key phys_start (List.filter (fun area =>
       efi_usable area && (INIT_HEAP_PAGES <=? page_count area) &&
       (frame_addr (end_ kernel_region) <=? phys_start area)) memory_map));
  heap_start ← frame_at (phys_start heap_area);
  heap_end ← frame_add heap_start INIT_HEAP_PAGES;
  regions ← efi_regions (List.filter efi_usable memory_map);
  Done (regions, mkRange heap_start heap_end).

(** [scan_efi_multiboot2_memory_map] is the same code over the EFI memory map
    tag of the Multiboot2 information. *)
Definition scan_efi_multiboot2_memory_map (kernel_region : PhysFrameRange) (memory_areas : list efi_area) :
    res (list PhysFrameRange * PhysFrameRange) :=
  scan_efi_memory_map kernel_region memory_areas.

Fixpoint mb_regions (areas : list mb_area) : res (list PhysFrameRange) :=
  match areas with
  | [] => Done []
  | area :: areas' =>
      first_addr ← phys_align_up (start_address area) PAGE_SIZE;
      first ← frame_at first_addr;
      last_addr ← phys_align_down (end_address area) PAGE_SIZE;
      last ← frame_at last_addr;
      regions ← mb_regions areas';
      Done (mkRange first last :: regions)
  end.

(** [scan_multiboot2_memory_map] *)
Definition scan_multiboot2_memory_map (kernel_region : PhysFrameRange) (memory_areas : list mb_area) :
    res (list PhysFrameRange * PhysFrameRange) :=
  heap_area ← expect "Failed to find memory region usable for kernel heap!"
    (min_by_key start_address (List.filter (fun area =>
       mb_available area && (INIT_HEAP_PAGES <=? size area / PAGE_SIZE) &&
       (frame_addr (end_ kernel_region) <=? start_address area)) memory_areas));
  heap_addr ← phys_align_up (start_address heap_area) PAGE_SIZE;
  heap_start ← frame_at heap_addr;
  heap_end ← frame_add heap_start INIT_HEAP_PAGES;
  regions ← mb_regions (List.filter mb_available memory_areas);
  Done (regions, mkRange heap_start heap_end).

(** [cut_region]: the regions pushed for one region. *)
Definition cut_one (reserved_region region : PhysFrameRange) : list PhysFrameRange :=
  if frame_ltb (start region) (start reserved_region) && frame_leb (start reserved_region) (end_ region) then
    if frame_leb (end_ region) (end_ reserved_region) then
      [mkRange (start region) (start reserved_region)]
    else
      [mkRange (start region) (start reserved_region); mkRange (end_ reserved_region) (end_ region)]
  else if frame_leb (start region) (end_ reserved_region) && frame_leb (start reserved_region) (end_ region) then
    if frame_leb (end_ region) (end_ reserved_region) then []
    else [mkRange (end_ reserved_region) (end_ region)]
  else [region].

(** [cut_region] *)
Fixpoint cut_region (regions : list PhysFrameRange) (reserved_region : PhysFrameRange) : list PhysFrameRange :=
  match regions with
  | [] => []
  | region :: regions' => cut_one reserved_region region ++ cut_region regions' reserved_region
  end.

(** [start]: the regions that are passed to the page frame allocator. *)
Definition available_memory_regions (bootloader_memory_regions : list PhysFrameRange)
    (kernel_region heap_region : PhysFrameRange) : res (list PhysFrameRange) :=
  null_start ← frame_at 0;
  null_end ← frame_at PAGE_SIZE;
  let null_region := mkRange null_start null_end in
  let available := cut_region bootloader_memory_regions null_region in
  let available := cut_region available kernel_region in
  let available := cut_region available heap_region in
  Done available.

(** What the Multiboot2 information offers: [efi_bs_not_exited_tag] with the
    map returned by [exit_boot_services], [efi_memory_map_tag] and
    [memory_map_tag]. *)
Record boot_information := mkBootInfo {
  efi_boot_services : option (list efi_area);
  efi_memory_map_tag : option (list efi_area);
  memory_map_tag : option (list mb_area);
}.

(** [start]: which map is scanned. *)
Definition scan_memory_map (multiboot : boot_information) (kernel_region : PhysFrameRange) :
    res (list PhysFrameRange * PhysFrameRange) :=
  match efi_boot_services multiboot with
  | Some memory_map => scan_efi_memory_map kernel_region memory_map
  | None =>
      match efi_memory_map_tag multiboot with
      | Some memory_map => scan_efi_multiboot2_memory_map kernel_region memory_map
      | None =>
          match memory_map_tag multiboot with
          | Some memory_map => scan_multiboot2_memory_map kernel_region memory_map
          | None => Panic "No memory information available!"
          end
      end
  end.

(** [start]: memory setup, from the memory map to the page frame allocator. *)
Definition boot_memory `{Profile} (data_start data_end : Z) (multiboot : boot_information)
    (m : node_memory) : res (phys_state * PhysFrameRange) :=
  kernel_region ← kernel_image_region data_start data_end;
  '(regions, heap_region) ← scan_memory_map multiboot kernel_region;
  available ← available_memory_regions regions kernel_region heap_region;
  st ← init (phys_new m) available (end_ heap_region);
  Done (st, heap_region).

(** ** Cutting regions out of the map *)

(** A region that is not reversed, and one that has a frame. *)
Definition ordered (r : PhysFrameRange) : Prop := frame_addr (start r) ≤ frame_addr (end_ r).
Definition nonempty (r : PhysFrameRange) : Prop := frame_addr (start r) < frame_addr (end_ r).

(** The memory of a list of regions. *)
Definition memory_of (rs : list PhysFrameRange) (x : Z) : Prop := ∃ r, r ∈ rs ∧ in_range r x.

(** What cutting one region promises: parts of it, none empty, that keep
    exactly the memory outside the reserved region. *)
Definition cut_spec (reserved : PhysFrameRange) (rs rs' : list PhysFrameRange) : Prop :=
  Forall nonempty rs' ∧ ForallOrdPairs disjoint_regions rs' ∧
  (∀ x, memory_of rs' x ↔ memory_of rs x ∧ ¬ in_range reserved x).

Context `{!PhysFrameLaws}.

Lemma memory_of_nil x : memory_of [] x ↔ False.
Proof. split; [intros (r & Hr & _); by apply elem_of_nil in Hr|done]. Qed.
Lemma memory_of_cons r rs x : memory_of (r :: rs) x ↔ in_range r x ∨ memory_of rs x.
Proof. unfold memory_of. setoid_rewrite elem_of_cons. naive_solver. Qed.
Lemma memory_of_app rs rs' x : memory_of (rs ++ rs') x ↔ memory_of rs x ∨ memory_of rs' x.
Proof. unfold memory_of. setoid_rewrite elem_of_app. naive_solver. Qed.

#[local] Hint Rewrite memory_of_nil memory_of_cons : hhu_rw.

Lemma cut_one_spec reserved r :
  ordered reserved → nonempty r →
  cut_spec reserved [r] (cut_one reserved r) ∧
  Forall (fun p => frame_addr (start r) ≤ frame_addr (start p) ∧
                   frame_addr (end_ p) ≤ frame_addr (end_ r)) (cut_one reserved r).
Proof.
  unfold ordered, nonempty, cut_spec, cut_one. intros Hres Hr.
  autorewrite with hhu_rw.
  repeat case_Z; cbn [andb]; split_and!;
    first [intros x; autorewrite with hhu_rw; unfold in_range
          |repeat constructor; unfold nonempty, disjoint_regions]; cbn; lia.
Qed.

Lemma disjoint_parts r r' p p' :
  disjoint_regions r r' →
  frame_addr (start r) ≤ frame_addr (start p) ∧ frame_addr (end_ p) ≤ frame_addr (end_ r) →
  frame_addr (start r') ≤ frame_addr (start p') ∧ frame_addr (end_ p') ≤ frame_addr (end_ r') →
  disjoint_regions p p'.
Proof. unfold disjoint_regions. lia. Qed.

Lemma ord_pairs_app {A} (R : A → A → Prop) l l' :
  ForallOrdPairs R l → ForallOrdPairs R l' → (∀ x y, x ∈ l → y ∈ l' → R x y) →
  ForallOrdPairs R (l ++ l').
Proof.
  induction 1 as [|x l Hx _ IH]; intros Hl' Hcross; cbn; [done|].
  constructor; [|apply IH; set_solver].
  apply Forall_app; split; [done|]. apply Forall_forall. set_solver.
Qed.

(** The parts a region list is cut into lie inside the regions. *)
Lemma cut_region_parts reserved rs p :
  ordered reserved → Forall nonempty rs → p ∈ cut_region rs reserved →
  ∃ r, r ∈ rs ∧ frame_addr (start r) ≤ frame_addr (start p) ∧ frame_addr (end_ p) ≤ frame_addr (end_ r).
Proof.
  intros Hres. induction rs as [|r rs IH]; cbn; [intros _ Hp; by apply elem_of_nil in Hp|].
  intros [Hr Hrs]%Forall_cons [Hp|Hp]%elem_of_app.
  - exists r. split; [apply elem_of_cons; by left|].
    pose proof (proj2 (cut_one_spec reserved r Hres Hr)) as Hparts.
    by apply (proj1 (Forall_forall _ _) Hparts).
  - destruct (IH Hrs Hp) as (r' & Hr' & ?). exists r'. split; [apply elem_of_cons; by right|done].
Qed.

Lemma cut_region_spec reserved rs :
  ordered reserved → Forall nonempty rs → ForallOrdPairs disjoint_regions rs →
  cut_spec reserved rs (cut_region rs reserved).
Proof.
  intros Hres. induction rs as [|r rs IH]; intros Hne Hdis; cbn.
  { split_and!; [constructor..|]. intros x. autorewrite with hhu_rw. tauto. }
  apply Forall_cons in Hne as [Hr Hrs]. inversion Hdis as [|? ? Hrd Hd]; subst.
  destruct (IH Hrs Hd) as (IH1 & IH2 & IH3).
  destruct (cut_one_spec reserved r Hres Hr) as [(H1 & H2 & H3) Hparts].
  split_and!.
  - by apply Forall_app.
  - apply ord_pairs_app; [done..|]. intros p p' Hp Hp'.
    destruct (cut_region_parts _ _ _ Hres Hrs Hp') as (r' & Hr' & Hin').
    eapply disjoint_parts; [|by apply (proj1 (Forall_forall _ _) Hparts)|done].
    by apply (proj1 (List.Forall_forall _ _) Hrd), list_elem_of_In.
  - intros x. rewrite memory_of_app, IH3, H3. autorewrite with hhu_rw. tauto.
Qed.

(** The regions [start] hands to the page frame allocator. *)
Lemma available_memory_regions_spec rs kernel heap :
  Forall nonempty rs → ForallOrdPairs disjoint_regions rs → ordered kernel → ordered heap →
  ∃ available, available_memory_regions rs kernel heap = Done available ∧
    Forall region_ok available ∧ ForallOrdPairs disjoint_regions available ∧
    (∀ x, memory_of available x ↔
      memory_of rs x ∧ ¬ 0 ≤ x < PAGE_SIZE ∧ ¬ in_range kernel x ∧ ¬ in_range heap x).
Proof.
  intros Hne Hdis Hk Hh. unfold available_memory_regions.
  destruct (frame_at_valid 0 eq_refl) as (f0 & -> & Hf0).
  destruct (frame_at_valid PAGE_SIZE eq_refl) as (f1 & -> & Hf1). rewrite !res_bind_ret_l.
  set (null := mkRange f0 f1).
  assert (ordered null) as Hn by (unfold ordered, null; cbn; rewrite Hf0, Hf1; unfold PAGE_SIZE; lia).
  destruct (cut_region_spec null rs Hn Hne Hdis) as (H1 & H2 & H3).
  destruct (cut_region_spec kernel _ Hk H1 H2) as (H4 & H5 & H6).
  destruct (cut_region_spec heap _ Hh H4 H5) as (H7 & H8 & H9).
  assert (∀ x, in_range null x ↔ 0 ≤ x < PAGE_SIZE) as Hnull
    by (intros x; unfold in_range, null; cbn; by rewrite Hf0, Hf1).
  setoid_rewrite H6 in H9. setoid_rewrite H3 in H9. setoid_rewrite Hnull in H9.
  eexists. split_and!; [done| |done|intros x; rewrite H9; tauto].
  apply Forall_forall. intros r Hr. pose proof (proj1 (Forall_forall _ _) H7 r Hr) as Hr'.
  unfold nonempty, region_ok in *. split; [|done].
  assert (memory_of (cut_region (cut_region (cut_region rs null) kernel) heap) (frame_addr (start r)))
    as Hin by (exists r; split; [done|unfold in_range; lia]).
  apply H9 in Hin. pose proof (frame_addr_range (start r)). unfold PAGE_SIZE in *. lia.
Qed.

(** The regions that [start] hands to the page frame allocator are non-empty,
    pairwise disjoint and never contain address 0, and hold exactly the memory of
    the bootloader's regions outside the null page, the kernel image and the
    kernel heap. *)
Theorem available_memory_regions_exact rs kernel heap :
  Forall nonempty rs → ForallOrdPairs disjoint_regions rs → ordered kernel → ordered heap →
  ∃ available, available_memory_regions rs kernel heap = Done available ∧
    Forall region_ok available ∧ ForallOrdPairs disjoint_regions available ∧
    (∀ x, memory_of available x ↔
      memory_of rs x ∧ ¬ 0 ≤ x < PAGE_SIZE ∧ ¬ in_range kernel x ∧ ¬ in_range heap x).
Proof. apply available_memory_regions_spec. Qed.

(** ** Scanning the memory maps *)

Lemma foldl_min {A} (key : A → Z) l : ∀ b, ∃ a,
  foldl (fun best x => match best with
                       | None => Some x
                       | Some b => match key b ?= key x with Gt => Some x | _ => Some b end
                       end) (Some b) l = Some a ∧
  (a = b ∨ a ∈ l) ∧ key a ≤ key b ∧ ∀ c, c ∈ l → key a ≤ key c.
Proof.
  induction l as [|x l IH]; intros b; cbn.
  { exists b. split_and!; [done|by left|done|]. by intros c ?%elem_of_nil. }
  assert (∃ b', (match key b ?= key x with Gt => Some x | _ => Some b end) = Some b' ∧
    (b' = b ∨ b' = x) ∧ key b' ≤ key b ∧ key b' ≤ key x) as (b' & -> & Hb' & ? & ?).
  { destruct (Z.compare_spec (key b) (key x)); eexists; split_and!; try done; auto; lia. }
  destruct (IH b') as (a & -> & Ha & Hle & Hmin). exists a. split_and!; [done| |lia|].
  - rewrite elem_of_cons. intuition congruence.
  - intros c [->|Hc]%elem_of_cons; [lia|auto].
Qed.

Lemma min_by_key_spec {A} (key : A → Z) l :
  l ≠ [] → ∃ a, min_by_key key l = Some a ∧ a ∈ l ∧ ∀ b, b ∈ l → key a ≤ key b.
Proof.
  destruct l as [|x l]; [done|intros _]. unfold min_by_key. cbn.
  destruct (foldl_min key l x) as (a & -> & Ha & Hle & Hmin). exists a. split_and!; [done| |].
  - rewrite elem_of_cons. tauto.
  - intros b [->|Hb]%elem_of_cons; auto.
Qed.

(** What UEFI promises of a memory descriptor. *)
Definition efi_valid (area : efi_area) : Prop :=
  valid_frame_addr (phys_start area) = true ∧ 0 < page_count area ∧
  valid_frame_addr (phys_start area + FRAME_SIZE * page_count area) = true.
Definition efi_in (area : efi_area) (x : Z) : Prop :=
  phys_start area ≤ x < phys_start area + FRAME_SIZE * page_count area.
Definition efi_disjoint (a b : efi_area) : Prop :=
  phys_start a + FRAME_SIZE * page_count a ≤ phys_start b ∨
  phys_start b + FRAME_SIZE * page_count b ≤ phys_start a.

(** The areas among which the kernel heap's place is chosen. *)
Definition efi_candidate (kernel_region : PhysFrameRange) (area : efi_area) : bool :=
  efi_usable area && (INIT_HEAP_PAGES <=? page_count area) &&
  (frame_addr (end_ kernel_region) <=? phys_start area).

Lemma round_up_aligned a : valid_frame_addr a = true → round_up a PAGE_SIZE = a.
Proof.
  intros [_ Ha]%valid_frame_addr_spec. unfold round_up, PAGE_SIZE, FRAME_SIZE in *.
  apply Z.div_exact in Ha; [|done]. rewrite Ha at 1.
  replace (4096 * (a / 4096) + 4096 - 1) with (4095 + a / 4096 * 4096) by lia.
  rewrite Z.div_add by done. change (4095 / 4096) with 0. lia.
Qed.

(** A region that holds exactly an area. *)
Definition efi_region (r : PhysFrameRange) (area : efi_area) : Prop :=
  frame_addr (start r) = phys_start area ∧
  frame_addr (end_ r) = phys_start area + FRAME_SIZE * page_count area.

Lemma efi_regions_spec areas :
  Forall efi_valid areas → ∃ rs, efi_regions areas = Done rs ∧
    Forall2 efi_region rs areas.
Proof.
  induction 1 as [|a areas (Hs & Hn & He) _ (rs & Hrs & IH)]; cbn; [eauto|].
  pose proof (proj1 (valid_frame_addr_spec _) Hs) as [Hrange _].
  rewrite phys_align_up_spec, round_up_aligned by (rewrite ?round_up_aligned; done || lia).
  rewrite res_bind_ret_l.
  destruct (frame_at_valid _ Hs) as (f & -> & Hf). rewrite res_bind_ret_l.
  rewrite <-Hf in He. destruct (frame_add_valid f (page_count a) ltac:(lia) He) as (g & -> & Hg).
  rewrite res_bind_ret_l, Hrs, res_bind_ret_l. rewrite Hf in Hg.
  eexists. split; [done|]. by constructor.
Qed.

Lemma efi_regions_memory rs areas :
  Forall2 efi_region rs areas →
  ∀ x, memory_of rs x ↔ ∃ area, area ∈ areas ∧ efi_in area x.
Proof.
  intros HF x. induction HF as [|r a rs areas [H1 H2] _ IH]; autorewrite with hhu_rw.
  - split; [done|]. by intros (a & ?%elem_of_nil & _).
  - rewrite IH. setoid_rewrite elem_of_cons. unfold in_range, efi_in. rewrite H1, H2. naive_solver.
Qed.

Lemma efi_regions_disjoint rs areas :
  Forall2 efi_region rs areas →
  Forall efi_valid areas → ForallOrdPairs efi_disjoint areas →
  Forall nonempty rs ∧ ForallOrdPairs disjoint_regions rs.
Proof.
  induction 1 as [|r a rs areas [H1 H2] HF IH]; intros Hval Hdis; [split; constructor|].
  apply Forall_cons in Hval as [(_ & Hn & _) Hval]. inversion Hdis as [|? ? Had Hd]; subst.
  destruct (IH Hval Hd) as [IH1 IH2]. unfold FRAME_SIZE in *. split; constructor; try done.
  { unfold nonempty. lia. }
  clear -HF Had H1 H2. induction HF as [|r' a' rs areas [H1' H2'] _ IH]; constructor.
  - apply Forall_cons in Had as [Had _]. unfold efi_disjoint, disjoint_regions, FRAME_SIZE in *. lia.
  - apply IH. by apply Forall_cons in Had as [_ Had].
Qed.

Lemma elem_of_filter_b {A} (f : A → bool) (l : list A) x : x ∈ List.filter f l ↔ x ∈ l ∧ f x = true.
Proof. by rewrite !list_elem_of_In, List.filter_In. Qed.

Lemma filter_Forall {A} (P : A → Prop) (f : A → bool) l : Forall P (List.filter f l) ↔ ∀ x, x ∈ l → f x = true → P x.
Proof.
  rewrite Forall_forall. setoid_rewrite elem_of_filter_b. naive_solver.
Qed.

Lemma filter_ord_pairs {A} (R : A → A → Prop) (f : A → bool) l :
  ForallOrdPairs R l → ForallOrdPairs R (List.filter f l).
Proof.
  induction 1 as [|x l Hx _ IH]; cbn; [constructor|]. destruct (f x); [|done]. constructor; [|done].
  rewrite List.Forall_forall in Hx |- *. intros y [Hy _]%List.filter_In. auto.
Qed.

(** C35: on a well-formed EFI memory map, [scan_efi_memory_map] puts the kernel
    heap of [INIT_HEAP_PAGES] pages at the start of the lowest usable area of that
    size above the kernel image, inside that area, and returns disjoint non-empty
    regions that hold exactly the memory of the usable areas. *)
Theorem scan_efi_memory_map_correct kernel_region memory_map :
  (∀ area, area ∈ memory_map → efi_usable area = true → efi_valid area) →
  ForallOrdPairs efi_disjoint (List.filter efi_usable memory_map) →
  (∃ area, area ∈ memory_map ∧ efi_candidate kernel_region area = true) →
  ∃ regions heap_region area,
    scan_efi_memory_map kernel_region memory_map = Done (regions, heap_region) ∧
    area ∈ memory_map ∧ efi_candidate kernel_region area = true ∧
    (∀ other, other ∈ memory_map → efi_candidate kernel_region other = true →
       phys_start area ≤ phys_start other) ∧
    frame_addr (start heap_region) = phys_start area ∧
    frame_addr (end_ heap_region) = phys_start area + FRAME_SIZE * INIT_HEAP_PAGES ∧
    (∀ x, in_range heap_region x → efi_in area x) ∧
    Forall nonempty regions ∧ ForallOrdPairs disjoint_regions regions ∧
    (∀ x, memory_of regions x ↔ ∃ a, a ∈ memory_map ∧ efi_usable a = true ∧ efi_in a x).
Proof.
  intros Hval Hdis (c & Hc & Hcand).
  destruct (min_by_key_spec phys_start (List.filter (efi_candidate kernel_region) memory_map))
    as (a & Hmin & [Ha Hac]%elem_of_filter_b & Hle).
  { intros Hnil. eapply elem_of_nil. rewrite <-Hnil. by apply elem_of_filter_b. }
  apply filter_Forall in Hval as Hval'. destruct (efi_regions_spec _ Hval') as (rs & Hrs & HF).
  destruct (efi_regions_disjoint _ _ HF Hval' Hdis) as [Hne Hd].
  unfold scan_efi_memory_map.
  change (min_by_key _ _) with (min_by_key phys_start (List.filter (efi_candidate kernel_region) memory_map)).
  rewrite Hmin. cbn [expect]. rewrite res_bind_ret_l.
  assert (efi_usable a = true ∧ INIT_HEAP_PAGES ≤ page_count a) as [Hu Hn]
    by (clear -Hac; unfold efi_candidate in Hac; bool_to_prop; tauto).
  destruct (Hval a Ha Hu) as (Hs & _ & He).
  pose proof (proj1 (valid_frame_addr_spec _) Hs) as [Hrange _].
  pose proof (proj1 (valid_frame_addr_spec _) He) as [Herange _].
  destruct (frame_at_valid _ Hs) as (f & -> & Hf). rewrite res_bind_ret_l.
  destruct (frame_add_valid f INIT_HEAP_PAGES ltac:(done)) as (g & -> & Hg).
  { rewrite Hf. destruct (frame_addr_aligned f) as [k Hk]. apply valid_frame_addr_intro.
    - unfold INIT_HEAP_PAGES, FRAME_SIZE in *. lia.
    - exists (k + INIT_HEAP_PAGES). rewrite <-Hf, Hk. lia. }
  rewrite res_bind_ret_l, Hrs, res_bind_ret_l. rewrite Hf in Hg.
  eexists _, _, a. split_and!; try done.
  - intros b Hb Hbc. apply Hle. by apply elem_of_filter_b.
  - intros x. unfold in_range, efi_in. cbn. rewrite Hf, Hg. unfold FRAME_SIZE in *. lia.
  - intros x. rewrite (efi_regions_memory _ _ HF x). setoid_rewrite elem_of_filter_b. naive_solver.
Qed.

(** Scanning a Multiboot2 memory map can place the kernel heap beyond the area
    it was chosen in: the heap starts at the next page boundary, but only the
    unaligned area is known to hold [INIT_HEAP_PAGES] pages.  The heap then
    reserves memory the map does not declare available. *)
Theorem scan_multiboot2_heap_exceeds_area kernel_region memory_areas area regions heap_region :
  min_by_key start_address (List.filter (fun area =>
    mb_available area && (INIT_HEAP_PAGES <=? size area / PAGE_SIZE) &&
    (frame_addr (end_ kernel_region) <=? start_address area)) memory_areas) = Some area →
  0 ≤ start_address area → end_address area = start_address area + size area →
  round_up (start_address area) PAGE_SIZE < 2 ^ 52 →
  scan_multiboot2_memory_map kernel_region memory_areas = Done (regions, heap_region) →
  end_address area < frame_addr (end_ heap_region) ↔
    size area < PAGE_SIZE * INIT_HEAP_PAGES + (round_up (start_address area) PAGE_SIZE - start_address area).
Proof.
  intros Hmin Hpos Hend Hup. unfold scan_multiboot2_memory_map. rewrite Hmin.
  cbn [expect]. rewrite res_bind_ret_l, phys_align_up_spec, res_bind_ret_l by done.
  intros Hscan. inv_res.
  apply frame_at_done in H1. apply frame_add_done in H2; [|done]. cbn.
  rewrite H2, H1, Hend. unfold PAGE_SIZE, FRAME_SIZE. lia.
Qed.

(** C6: from any scan that yields well-formed regions, the boot sequence sets up
    the page frame allocators so that no free frame ever lies in the null page, in
    the kernel image or in the kernel heap, and every other frame of the
    bootloader's regions is free.  Free memory is split at the end of the heap or at the least address below which the memory
    for the page tables lies, whichever is greater; no region may end exactly there. *)
Theorem boot_memory_correct `{Profile} data_start data_end multiboot m kernel rs heap available :
  kernel_image_region data_start data_end = Done kernel →
  scan_memory_map multiboot kernel = Done (rs, heap) →
  available_memory_regions rs kernel heap = Done available →
  ordered kernel → ordered heap → Forall nonempty rs → ForallOrdPairs disjoint_regions rs →
  round_up (top_addr available) 0x200000 < 2 ^ 52 →
  page_table_bytes (round_up (top_addr available) 0x200000) ≤ total_bytes available →
  ∃ limit x, reserving (page_table_bytes (round_up (top_addr available) 0x200000)) available x ∧
    frame_addr limit = Z.max (frame_addr (end_ heap)) x ∧
    ((∀ r, r ∈ available → end_ r ≠ limit) →
     ∃ st L, boot_memory data_start data_end multiboot m = Done (st, heap) ∧ kernel_phys_limit st = Done limit ∧ phys_ok st limit L ∧
       ∀ sp x, covers (L sp) x ↔ zone limit sp x ∧ memory_of rs x ∧ ¬ 0 ≤ x < PAGE_SIZE ∧
         ¬ in_range kernel x ∧ ¬ in_range heap x).
Proof.
  intros Hk Hscan Hav Hko Hho Hne Hdis Hup Htotal.
  destruct (available_memory_regions_spec rs kernel heap Hne Hdis Hko Hho) as (av & Hav' & Hok & Hd & Hmem).
  rewrite Hav' in Hav. injection Hav as <-.
  destruct (init_sound m av (end_ heap) Hok Hd Hup Htotal) as (limit & _ & _ & _ & Hinit & Hlim & x0 & Hx & Hmax).
  exists limit, x0. split; [done|]. split; [done|]. intros Hnolimit. destruct (Hinit Hnolimit) as (st & L & Hst & Hphys & Hcov).
  exists st, L. split_and!; [|by apply Hlim|done|].
  - unfold boot_memory. rewrite Hk, res_bind_ret_l, Hscan, res_bind_ret_l, Hav', res_bind_ret_l, Hst. done.
  - intros sp x. rewrite Hcov. change (∃ r, r ∈ av ∧ in_range r x) with (memory_of av x). by rewrite Hmem.
Qed.
End BootMap.

(** ** Concrete inputs *)
Section Examples.
#[local] Existing Instance development.

(** 640 KiB below 1 MiB, the kernel image at 2 MiB in a large area. *)
Definition demo_map : list efi_area :=
  [mkEfiArea CONVENTIONAL 0x100000 0x100; mkEfiArea (OTHER 0) 0xa0000 0x60;
   mkEfiArea BOOT_SERVICES_DATA 0x800000 0x8000; mkEfiArea CONVENTIONAL 0 0xa0;
   mkEfiArea LOADER_DATA 0x200000 0x600].
Definition demo_kernel : @PhysFrameRange frame_model :=
  match kernel_image_region 0x200000 0x2ffff0 with Done k => k | _ => demo_range 0x200 0x300 end.
Definition demo_multiboot : boot_information := mkBootInfo (Some demo_map) None None.

Lemma demo_map_valid area : area ∈ demo_map → efi_usable area = true → efi_valid area.
Proof.
  intros Harea Hu. assert (Forall (fun a => efi_usable a = true → efi_valid a) demo_map) as HF.
  { repeat constructor; try discriminate. }
  exact (proj1 (Forall_forall _ _) HF area Harea Hu).
Qed.
Lemma demo_map_disjoint : ForallOrdPairs efi_disjoint (List.filter efi_usable demo_map).
Proof. repeat constructor; unfold efi_disjoint, FRAME_SIZE; cbn; lia. Qed.

Lemma scan_efi_memory_map_correct_witness :
  ∃ regions heap_region, scan_efi_memory_map demo_kernel demo_map = Done (regions, heap_region) ∧
    frame_addr (start heap_region) = 0x800000 ∧ frame_addr (end_ heap_region) = 0xc00000.
Proof.
  destruct (scan_efi_memory_map_correct demo_kernel demo_map demo_map_valid demo_map_disjoint)
    as (rs & heap & a & Hscan & Ha & Hc & _ & Hs & He & _).
  - exists (mkEfiArea BOOT_SERVICES_DATA 0x800000 0x8000). split; [|reflexivity].
    unfold demo_map. set_solver.
  - exists rs, heap. split; [done|]. rewrite Hs, He. clear -Ha Hc. unfold demo_map in Ha.
    repeat (apply elem_of_cons in Ha as [->|Ha]; [vm_compute in Hc |- *; try discriminate; done|]).
    by apply elem_of_nil in Ha.
Defined.

(** Results are evaluated down to addresses. *)
Definition addrs (r : @PhysFrameRange frame_model) : Z * Z := (frame_addr (start r), frame_addr (end_ r)).

Lemma regions_by_addrs rs l :
  map addrs rs = l → Forall (fun p => p.1 < p.2) l →
  ForallOrdPairs (fun p q => p.2 ≤ q.1 ∨ q.2 ≤ p.1) l →
  Forall nonempty rs ∧ ForallOrdPairs disjoint_regions rs.
Proof.
  intros <-. induction rs as [|r rs IH]; cbn; [split; constructor|].
  intros [Hr Hrs]%Forall_cons Hd. inversion Hd as [|? ? Hrd Hd']; subst.
  destruct (IH Hrs Hd') as [IH1 IH2]. split; constructor; try done.
  by apply List.Forall_map in Hrd.
Qed.

Definition demo_scan : list (@PhysFrameRange frame_model) * PhysFrameRange :=
  match scan_efi_memory_map demo_kernel demo_map with Done r => r | _ => ([], demo_kernel) end.
Lemma demo_scan_eq : scan_efi_memory_map demo_kernel demo_map = Done demo_scan.
Proof. apply done_or. vm_compute. reflexivity. Qed.

Lemma demo_scan_ok : Forall nonempty demo_scan.1 ∧ ForallOrdPairs disjoint_regions demo_scan.1.
Proof.
  eapply regions_by_addrs; [vm_compute; reflexivity|..]; repeat constructor; cbn; lia.
Qed.

Lemma available_memory_regions_exact_witness :
  ∃ available, available_memory_regions demo_scan.1 demo_kernel demo_scan.2 = Done available ∧
    memory_of available 0x1000 ∧ ¬ memory_of available 0.
Proof.
  destruct (available_memory_regions_exact demo_scan.1 demo_kernel demo_scan.2)
    as (av & ? & _ & _ & Hm); [apply demo_scan_ok..|by vm_compute|by vm_compute|].
  exists av. split; [done|]. rewrite !Hm. split; [|unfold PAGE_SIZE; lia].
  split_and!; [|unfold PAGE_SIZE; lia|intros [Hs _]; vm_compute in Hs; by apply Hs..].
  assert ((0, 0xa0000) ∈ map addrs demo_scan.1) as (r & Hr & Hin)%list_elem_of_fmap
    by (vm_compute; set_solver).
  exists r. split; [done|]. unfold in_range. change (frame_addr (start r)) with (addrs r).1. change (frame_addr (end_ r)) with (addrs r).2. rewrite <-Hr. cbn. lia.
Defined.

Definition demo_mb_area : mb_area := mkMbArea true 0x400800 0x400000 0x800800.
Definition demo_mb_scan : list (@PhysFrameRange frame_model) * PhysFrameRange :=
  match scan_multiboot2_memory_map demo_kernel [demo_mb_area] with Done r => r | _ => ([], demo_kernel) end.
Lemma scan_multiboot2_heap_exceeds_area_witness :
  scan_multiboot2_memory_map demo_kernel [demo_mb_area] = Done demo_mb_scan ∧
  end_address demo_mb_area < frame_addr (end_ demo_mb_scan.2).
Proof.
  assert (scan_multiboot2_memory_map demo_kernel [demo_mb_area] = Done demo_mb_scan) as Hscan
    by (apply done_or; vm_compute; reflexivity).
  split; [done|].
  refine (proj2 (scan_multiboot2_heap_exceeds_area demo_kernel [demo_mb_area] demo_mb_area demo_mb_scan.1
    demo_mb_scan.2 _ _ _ _ _) _); [vm_compute; reflexivity|done|done|done|exact Hscan|done].
Defined.

Definition demo_available : list (@PhysFrameRange frame_model) :=
  match available_memory_regions demo_scan.1 demo_kernel demo_scan.2 with Done r => r | _ => [] end.

(** The heap ends above the memory for the page tables, and no region ends there. *)
Lemma demo_available_ends r : r ∈ demo_available → frame_addr (end_ r) ≠ 0xc00000.
Proof.
  intros Hr. assert (Forall (fun p => p.2 ≠ 0xc00000) (map addrs demo_available)) as HF by (vm_compute; by repeat constructor).
  rewrite Forall_forall in HF. apply (HF (addrs r)). by apply (list_elem_of_fmap_2 addrs).
Qed.
Lemma boot_memory_correct_witness :
  ∃ limit st L, boot_memory 0x200000 0x2ffff0 demo_multiboot ∅ = Done (st, demo_scan.2) ∧
    kernel_phys_limit st = Done limit ∧ frame_addr limit = 0xc00000 ∧ phys_ok st limit L.
Proof.
  assert (frame_addr (end_ demo_scan.2) = 0xc00000) as Hend by (vm_compute; reflexivity).
  destruct (boot_memory_correct 0x200000 0x2ffff0 demo_multiboot ∅ demo_kernel
    demo_scan.1 demo_scan.2 demo_available) as (limit & x & [_ Hleast] & Hl & Hst).
  - apply done_or. vm_compute. reflexivity.
  - rewrite <-surjective_pairing. exact demo_scan_eq.
  - apply done_or. vm_compute. reflexivity.
  - by vm_compute.
  - by vm_compute.
  - apply demo_scan_ok.
  - apply demo_scan_ok.
  - by vm_compute.
  - by vm_compute.
  - assert (x ≤ 0xc00000) as Hx.
    { apply Z.nlt_ge. intros Hx%Hleast. vm_compute in Hx. discriminate. }
    assert (frame_addr limit = 0xc00000) as Hlimit by (clear -Hl Hend Hx; lia).
    destruct Hst as (st & L & Hst & Hk & Hok & _); [intros r Hr <-; by apply (demo_available_ends r)|].
    exists limit, st, L. exact (conj Hst (conj Hk (conj Hlimit Hok))).
Defined.
End Examples.
