(* ===== verification/Heap.v ===== *)
(** * The kernel's heap (os/kernel/src/memory/alloc.rs)

    [KernelAllocator] is the global allocator and an [Allocator] for collections that are
    given one (the ACPI tables).  Both hand requests to one heap of the crate
    linked_list_allocator, which lies in the region that the boot sequence reserved
    (BootMap.v).  A pointer is its address; 0 is the null pointer. *)

From S2P Require Import Prelude Counting Frames PageFrameList Physical BootMap.
#[local] Open Scope Z_scope.

(** [core::alloc::Layout] *)
Record Layout := mkLayout { size : Z; align : Z }.
Definition layout_ok (l : Layout) : Prop := 0 ≤ size l ∧ ∃ k, 0 ≤ k ∧ align l = 2 ^ k.
(** [layout.dangling()] *)
Definition dangling (l : Layout) : Z := align l.

(** The heap of the crate: [Heap::empty], [init], [allocate_first_fit], [deallocate] and [size] *)
Class HeapOps := {
  heap : Type;
  heap_empty : heap;
  heap_init : Z → Z → heap → heap;
  allocate_first_fit : Layout → heap → option (Z * heap);
  heap_deallocate : Z → Layout → heap → heap;
  heap_size : heap → Z;
}.

Abbreviation blocks := (list (Z * Layout)).
Definition overlap (b c : Z * Layout) : Prop := b.1 < c.1 + size c.2 ∧ c.1 < b.1 + size b.2.

(** A block that is aligned, in the memory of the heap and apart from others *)
Definition placed (bottom bytes : Z) (live : blocks) (b : Z * Layout) : Prop :=
  bottom ≤ b.1 ∧ b.1 + size b.2 ≤ bottom + bytes ∧ (align b.2 | b.1) ∧ ∀ c, c ∈ live → ¬ overlap b c.

(** Documented behaviour: the heap manages the memory it is initialized with; it hands out blocks of
    positive size that are not in use, and takes back blocks that are. *)
Class HeapLaws `{HeapOps} := {
  heap_holds : heap → Z → Z → blocks → Prop;
  heap_init_ok bottom bytes : 0 < bottom → (4096 | bottom) → 4096 ≤ bytes →
    heap_holds (heap_init bottom bytes heap_empty) bottom bytes [] ∧ heap_size (heap_init bottom bytes heap_empty) = bytes;
  heap_empty_size : heap_size heap_empty = 0;
  allocate_first_fit_ok h bottom bytes live l : heap_holds h bottom bytes live → layout_ok l → 0 < size l →
    match allocate_first_fit l h with
    | Some (p, h') => placed bottom bytes live (p, l) ∧ heap_holds h' bottom bytes ((p, l) :: live)
    | None => True
    end;
  heap_holds_perm h bottom bytes live live' : live ≡ₚ live' → heap_holds h bottom bytes live → heap_holds h bottom bytes live';
  heap_deallocate_ok h bottom bytes live live' p l : heap_holds h bottom bytes live → live ≡ₚ (p, l) :: live' →
    heap_holds (heap_deallocate p l h) bottom bytes live';
}.

Section Heap.
Context `{Profile} `{HeapOps}.

(** [GlobalAlloc for KernelAllocator]: [alloc] and [dealloc] *)
Definition alloc (l : Layout) (h : heap) : Z * heap :=
  match allocate_first_fit l h with
  | Some (p, h') => (p, h')
  | None => (0, h)
  end.
Definition dealloc (p : Z) (l : Layout) (h : heap) : heap := heap_deallocate p l h.

(** [Allocator for KernelAllocator]: [allocate], which returns a slice, and [deallocate] *)
Definition allocate (l : Layout) (h : heap) : option (Z * Z) * heap :=
  if size l =? 0 then (Some (dangling l, 0), h)
  else
    match allocate_first_fit l h with
    | Some (p, h') => (Some (p, size l), h')
    | None => (None, h)
    end.
Definition deallocate (p : Z) (l : Layout) (h : heap) : heap :=
  if size l =? 0 then h else heap_deallocate p l h.

(** [Allocator for AcpiAllocator], for the allocator that it refers to *)
Definition acpi_allocate (l : Layout) (h : heap) : option (Z * Z) * heap := allocate l h.
Definition acpi_deallocate (p : Z) (l : Layout) (h : heap) : heap := deallocate p l h.

(** [AcpiHandler::map_physical_region]: the fields of the [PhysicalMapping] *)
Record PhysicalMapping := mkMapping { physical_start : Z; virtual_start : Z; region_length : Z; mapped_length : Z }.
Definition map_physical_region (physical_address size : Z) : res PhysicalMapping :=
  p ← unwrap (if physical_address =? 0 then None else Some physical_address);
  Done (mkMapping physical_address p size size).

Definition kernel_allocator_new : heap := heap_empty.
Definition is_initialized (h : heap) : bool := 0 <? heap_size h.

Context `{PhysFrameOps}.

(** [init], and [init_kernel_heap] of boot.rs *)
Definition heap_init_frames (frames : PhysFrameRange) (h : heap) : res heap :=
  bytes ← mul_w 64 (range_count frames) PAGE_SIZE;
  Done (heap_init (frame_addr (start frames)) bytes h).
Definition init_kernel_heap (heap_region : PhysFrameRange) : res heap := heap_init_frames heap_region kernel_allocator_new.
End Heap.

(** ** Clients of the allocator *)

(** What clients do: they ask for memory through one of the two traits, and return a block that they have. *)
Inductive request :=
  | GlobalAlloc (l : Layout)
  | Allocate (l : Layout)
  | GlobalDealloc (index : nat)
  | Deallocate (index : nat).

Section Clients.
Context `{HeapOps}.

(** The heap and the blocks that clients have; [None] is a request that the traits do not allow: a layout
    that is none, one of size 0 for the global allocator, or a block that nobody has. *)
Definition layout_valid (l : Layout) : bool := (0 <=? size l) && (0 <? align l) && (align l =? 2 ^ Z.log2 (align l)).
Definition serve (r : request) (s : heap * blocks) : option (heap * blocks) :=
  match r with
  | GlobalAlloc l =>
      if layout_valid l && negb (size l =? 0) then
        let '(p, h) := alloc l s.1 in Some (h, if p =? 0 then s.2 else (p, l) :: s.2)
      else None
  | Allocate l =>
      if layout_valid l then
        match allocate l s.1 with
        | (Some (p, _), h) => Some (h, (p, l) :: s.2)
        | (None, h) => Some (h, s.2)
        end
      else None
  | GlobalDealloc i =>
      b ← s.2 !! i;
      if size b.2 =? 0 then None else Some (dealloc b.1 b.2 s.1, delete i s.2)
  | Deallocate i =>
      b ← s.2 !! i;
      Some (deallocate b.1 b.2 s.1, delete i s.2)
  end.
Fixpoint serve_all (rs : list request) (s : heap * blocks) : option (heap * blocks) :=
  match rs with
  | [] => Some s
  | r :: rs => s ← serve r s; serve_all rs s
  end.
End Clients.

(** ** Blocks are apart from each other and from all free frames *)

Section Blocks.
Context `{Profile} `{HeapLaws} `{PhysFrameOps} `{!PhysFrameLaws}.

(** The blocks that take memory *)
Definition real (b : Z * Layout) : Prop := size b.2 ≠ 0.
#[local] Instance real_dec b : Decision (real b).
Proof. unfold real. apply _. Defined.

(** The invariant: the heap knows the real blocks, each of them was placed apart from the others; the rest dangle. *)
Definition client_ok (bottom bytes : Z) (s : heap * blocks) : Prop :=
  heap_holds s.1 bottom bytes (filter real s.2) ∧
  ForallOrdPairs (fun b c => real b → real c → ¬ overlap b c) s.2 ∧
  Forall (fun b => layout_ok b.2 ∧ if decide (real b) then bottom ≤ b.1 ∧ b.1 + size b.2 ≤ bottom + bytes ∧ (align b.2 | b.1)
                   else b.1 = align b.2) s.2.

Lemma layout_valid_ok l : layout_valid l = true → layout_ok l.
Proof.
  unfold layout_valid. rewrite !andb_true_iff, Z.leb_le, Z.ltb_lt, Z.eqb_eq. intros [[Hs _] Ha].
  split; [done|]. exists (Z.log2 (align l)). split; [apply Z.log2_nonneg|done].
Qed.

Lemma client_ok_add bottom bytes h h' live b : client_ok bottom bytes (h, live) → layout_ok b.2 → real b →
  placed bottom bytes (filter real live) b → heap_holds h' bottom bytes (b :: filter real live) → client_ok bottom bytes (h', b :: live).
Proof.
  intros (Hh & Hd & Hall) Hl Hb (Hlo & Hhi & Hal & Hapart) Hh'. unfold client_ok. cbn [fst snd] in *.
  rewrite filter_cons_True by done. split; [done|split].
  - apply FOP_cons; [|done]. apply Forall_forall. intros c Hc _ Hrc. apply Hapart. by apply list_elem_of_filter.
  - apply Forall_cons. split; [|done]. split; [done|]. by rewrite decide_True.
Qed.

Lemma ord_pairs_delete {A} (R : A → A → Prop) l i : ForallOrdPairs R l → ForallOrdPairs R (delete i l).
Proof.
  intros Hl. revert i. induction Hl as [|x l Hx Hl IH]; intros i; [destruct i; apply FOP_nil|].
  destruct i as [|i]; cbn; [done|]. apply FOP_cons; [|apply IH]. by apply Forall_delete.
Qed.

Lemma client_ok_delete bottom bytes h live i b : client_ok bottom bytes (h, live) → live !! i = Some b →
  client_ok bottom bytes (if decide (real b) then heap_deallocate b.1 b.2 h else h, delete i live).
Proof.
  intros (Hh & Hd & Hall) Hi. pose proof (delete_Permutation live i b Hi) as Hp. unfold client_ok. cbn [fst snd] in *.
  split; [|split; [by apply ord_pairs_delete|by apply Forall_delete]]. pose proof (filter_Permutation real _ _ Hp) as Hf. destruct (decide (real b)) as [Hb|Hb].
  - rewrite filter_cons_True in Hf by done. destruct b as [p l]. by eapply heap_deallocate_ok.
  - rewrite filter_cons_False in Hf by done. by eapply heap_holds_perm.
Qed.
(** Every request keeps the invariant. *)
Lemma serve_ok bottom bytes r h live s' : 0 < bottom → client_ok bottom bytes (h, live) → serve r (h, live) = Some s' → client_ok bottom bytes s'.
Proof.
  intros Hpos Hok. assert (∀ l, layout_valid l = true → size l ≠ 0 → ∀ p h', allocate_first_fit l h = Some (p, h') →
    p ≠ 0 ∧ client_ok bottom bytes (h', (p, l) :: live)) as Hfit.
  { intros l Hl Hs p h' Hp. apply layout_valid_ok in Hl. destruct Hok as (Hh & Hrest). unfold layout_ok in Hl.
    pose proof (allocate_first_fit_ok h bottom bytes _ l Hh Hl ltac:(lia)) as Hfit. rewrite Hp in Hfit. destruct Hfit as [Hpl Hh'].
    split; [destruct Hpl as (? & _); cbn in *; lia|]. eapply client_ok_add; [exact (conj Hh Hrest)|done|done|done|done]. }
  destruct r as [l|l|i|i]; cbn [serve fst snd].
  - unfold alloc. destruct (layout_valid l) eqn:Hl; [|done]. destruct (Z.eqb_spec (size l) 0) as [|Hs]; [done|]. cbn [andb negb].
    destruct (allocate_first_fit l h) as [[p h']|] eqn:Hp; [|by intros [= <-]].
    destruct (Hfit l Hl Hs p h' Hp) as [Hnz Hc]. rewrite (proj2 (Z.eqb_neq p 0)) by done. by intros [= <-].
  - unfold allocate. destruct (layout_valid l) eqn:Hl; [|done]. destruct (Z.eqb_spec (size l) 0) as [Hs|Hs].
    + intros [= <-]. destruct Hok as (Hh & Hd & Hall). unfold client_ok. cbn [fst snd] in *.
      assert (¬ real (dangling l, l)) as Hn by (unfold real; cbn; lia). rewrite filter_cons_False by done. split; [done|split].
      * apply FOP_cons; [|done]. by apply Forall_forall.
      * apply Forall_cons. split; [|done]. split; [by apply layout_valid_ok|]. by rewrite decide_False.
    + destruct (allocate_first_fit l h) as [[p h']|] eqn:Hp; [|by intros [= <-]]. intros [= <-]. by apply Hfit.
  - destruct (live !! i) as [b|] eqn:Hi; [|done]. cbn. destruct (Z.eqb_spec (size b.2) 0); [done|]. intros [= <-].
    pose proof (client_ok_delete bottom bytes h live i b Hok Hi) as Hc. by rewrite decide_True in Hc.
  - destruct (live !! i) as [b|] eqn:Hi; [|done]. cbn. intros [= <-]. unfold deallocate.
    pose proof (client_ok_delete bottom bytes h live i b Hok Hi) as Hc.
    destruct (Z.eqb_spec (size b.2) 0); [by rewrite decide_False in Hc by (unfold real; lia)|by rewrite decide_True in Hc].
Qed.

Lemma serve_all_ok bottom bytes rs : 0 < bottom → ∀ s s', client_ok bottom bytes s → serve_all rs s = Some s' → client_ok bottom bytes s'.
Proof.
  intros Hpos. induction rs as [|r rs IH]; intros [h live] s' Hok; cbn; [by intros [= <-]|].
  destruct (serve r (h, live)) as [s1|] eqn:Hs; [|done]. cbn. apply IH. by eapply serve_ok.
Qed.

(** The heap in a region *)
Lemma init_kernel_heap_ok heap_region : 0 < frame_addr (start heap_region) < frame_addr (end_ heap_region) →
  ∃ h, init_kernel_heap heap_region = Done h ∧ is_initialized h = true ∧
    client_ok (frame_addr (start heap_region)) (frame_addr (end_ heap_region) - frame_addr (start heap_region)) (h, []).
Proof.
  intros Hr. unfold init_kernel_heap, heap_init_frames, range_count. rewrite frame_range_count_spec.
  destruct (frame_addr_aligned (start heap_region)) as [i Hi], (frame_addr_aligned (end_ heap_region)) as [j Hj].
  pose proof (frame_addr_range (end_ heap_region)) as Hend. rewrite Hi, Hj in *.
  replace (FRAME_SIZE * j - FRAME_SIZE * i) with ((j - i) * FRAME_SIZE) by ring. rewrite Z.div_mul by done. unfold FRAME_SIZE, PAGE_SIZE in *.
  rewrite Z.max_r, mul_w_ok, res_bind_ret_l by lia.
  destruct (heap_init_ok (4096 * i) ((j - i) * 4096)) as [Hh Hs]; [lia|by exists i; lia|lia|].
  eexists. split; [done|split; [|split; [exact Hh|by split; constructor]]].
  unfold is_initialized, kernel_allocator_new. rewrite Hs. apply Z.ltb_lt. lia.
Qed.

(** C7: memory of the heap belongs to one client at a time.  [init_kernel_heap] initializes the heap with the
    reserved region.  After any sequence of requests that the traits allow, made through either of them and
    returned through either, the blocks that clients have are aligned, lie in the region, do not overlap
    each other and contain no frame that the page frame allocators have (they are kept out of the region by
    the boot sequence).  Blocks of size zero do not touch the heap: they are aligned, not null and take no memory. *)
Theorem heap_blocks_separate heap_region (L : MemorySpace → list block) :
  0 < frame_addr (start heap_region) < frame_addr (end_ heap_region) →
  (∀ sp x, covers (L sp) x → ¬ in_range heap_region x) →
  ∃ h, init_kernel_heap heap_region = Done h ∧ is_initialized h = true ∧
    ∀ rs h' live, serve_all rs (h, []) = Some (h', live) →
      (∀ i b, live !! i = Some b → (align b.2 | b.1) ∧ b.1 ≠ 0 ∧
         (∀ x, b.1 ≤ x < b.1 + size b.2 → in_range heap_region x ∧ ∀ sp, ¬ covers (L sp) x) ∧
         ∀ j c, live !! j = Some c → (i < j)%nat → size b.2 ≠ 0 → size c.2 ≠ 0 → ¬ overlap b c).
Proof.
  intros Hr HL. destruct (init_kernel_heap_ok heap_region Hr) as (h & Hh & Hinit & Hok).
  exists h. split; [done|split; [done|]]. intros rs h' live Hrs i b Hi.
  pose proof (serve_all_ok _ _ rs (proj1 Hr) _ _ Hok Hrs) as (_ & Hd & Hall). cbn [fst snd] in *.
  rewrite Forall_forall in Hall. destruct (Hall b (list_elem_of_lookup_2 _ _ _ Hi)) as [[Hs (k & Hk & Hal)] Hb].
  assert (0 < align b.2) by (rewrite Hal; lia).
  split; [|split; [|split]].
  - case_decide; [tauto|]. by rewrite Hb.
  - case_decide; lia.
  - intros x Hx. case_decide as Hreal; [|unfold real in Hreal; lia]. assert (in_range heap_region x) as Hin by (unfold in_range; lia).
    split; [done|]. intros sp Hc. by eapply HL.
  - intros j c Hj Hij Hb0 Hc0. assert (∀ (l : blocks) i j, ForallOrdPairs (fun b c => real b → real c → ¬ overlap b c) l →
      l !! i = Some b → l !! j = Some c → (i < j)%nat → ¬ overlap b c) as Hpairs; [|by eapply Hpairs].
    clear -Hb0 Hc0. intros l i j Hl. revert i j. induction Hl as [|x l Hx Hl IH]; intros i j Hi Hj Hij; [done|].
    destruct i as [|i], j as [|j]; try lia; cbn in Hi, Hj; [|by eapply (IH i j); lia || done].
    injection Hi as ->. rewrite Forall_forall in Hx. apply Hx; [by eapply list_elem_of_lookup_2|done|done].
Qed.
End Blocks.

(** ** A concrete heap: new blocks lie above all others. *)
Section Examples.
#[local] Existing Instance development.

#[local] Instance layout_eq_dec : EqDecision Layout.
Proof. solve_decision. Defined.

Definition top (bottom : Z) (live : blocks) : Z := foldr (fun b t => Z.max (b.1 + size b.2) t) bottom live.
Record demo_heap := mkDemoHeap { bottom : Z; bytes : Z; live_blocks : blocks }.
#[local] Instance demo_heap_ops : HeapOps := {|
  heap := demo_heap; heap_empty := mkDemoHeap 0 0 [];
  heap_init b n _ := mkDemoHeap b n [];
  allocate_first_fit l h :=
    let p := round_up (top (bottom h) (live_blocks h)) (align l) in
    if p + size l <=? bottom h + bytes h then Some (p, mkDemoHeap (bottom h) (bytes h) ((p, l) :: live_blocks h)) else None;
  heap_deallocate p l h :=
    mkDemoHeap (bottom h) (bytes h)
      (match list_find (eq (p, l)) (live_blocks h) with Some (i, _) => delete i (live_blocks h) | None => live_blocks h end);
  heap_size := bytes;
|}.

Lemma top_ge b live : b ≤ top b live ∧ ∀ c, c ∈ live → c.1 + size c.2 ≤ top b live.
Proof.
  unfold top. induction live as [|d live [IH1 IH2]]; cbn [foldr]; [split; [lia|by intros c ?%elem_of_nil]|].
  split; [lia|]. intros c [->|Hc]%elem_of_cons; [lia|]. specialize (IH2 c Hc). lia.
Qed.

Definition demo_holds (h : demo_heap) (b n : Z) (live : blocks) : Prop := bottom h = b ∧ bytes h = n ∧ live_blocks h ≡ₚ live.
#[local] Instance demo_heap_laws : HeapLaws.
Proof.
  refine {| heap_holds := demo_holds : heap → Z → Z → blocks → Prop |}; unfold demo_holds.
  - intros b n Hb _ Hn. done.
  - done.
  - intros h b n live l (<- & <- & Hp) [Hs (k & Hk & Ha)] Hpos. cbn. set (t := top (bottom h) (live_blocks h)).
    destruct (top_ge (bottom h) (live_blocks h)) as [Hb Ht]. fold t in Hb, Ht.
    assert (t ≤ round_up t (align l)) as Hup.
    { unfold round_up. pose proof (Z.mul_succ_div_gt (t + align l - 1) (align l)). lia. }
    destruct (Z.leb_spec (round_up t (align l) + size l) (bottom h + bytes h)); [|done]. split.
    + unfold placed. cbn. split; [lia|split; [lia|split; [by eexists|]]]. intros c Hc [Ho _]. cbn in *.
      rewrite <-Hp in Hc. specialize (Ht c Hc). lia.
    + cbn. by rewrite Hp.
  - intros h b n live live' Hl (Hb & Hn & Hp). cbn. by rewrite Hp.
  - intros h b n live live' p l (Hb & Hn & Hp) Hl. split; [done|split; [done|]]. rewrite Hl in Hp. cbn.
    destruct (list_find (eq (p, l)) (live_blocks h)) as [[i b']|] eqn:Hk.
    + apply list_find_Some in Hk as (Hi & <- & _). rewrite (delete_Permutation _ _ _ Hi) in Hp. by apply Permutation_cons_inv in Hp.
    + apply list_find_None in Hk. rewrite Forall_forall in Hk. destruct (Hk (p, l)); [|done]. rewrite Hp. by left.
Qed.

(** Two blocks, one without memory, and a block that is returned *)
Definition demo_requests : list request :=
  [GlobalAlloc (mkLayout 24 8); Allocate (mkLayout 0 16); Allocate (mkLayout 100 64); Deallocate 2; GlobalAlloc (mkLayout 8 8)].
Lemma heap_blocks_separate_witness :
  ∃ h h', init_kernel_heap demo_scan.2 = Done h ∧
    serve_all demo_requests (h, []) = Some (h', [(0x8000a8, mkLayout 8 8); (0x800040, mkLayout 100 64); (16, mkLayout 0 16)]) ∧
    ¬ overlap (0x8000a8, mkLayout 8 8) (0x800040, mkLayout 100 64).
Proof.
  destruct (heap_blocks_separate demo_scan.2 (fun _ => [(0x1000, 16)])) as (h & Hh & _ & Hall).
  - vm_compute. intuition congruence.
  - intros sp x (b & ->%list_elem_of_singleton & Hb) [Hx _]. change (frame_addr (start demo_scan.2)) with 0x800000 in Hx.
    unfold block_end, FRAME_SIZE in Hb. cbn in Hb. lia.
  - injection Hh as <-. eexists _, _. split; [reflexivity|]. split; [reflexivity|].
    destruct (Hall demo_requests _ _ eq_refl 0%nat _ eq_refl) as (_ & _ & _ & Hpair).
    exact (Hpair 1%nat _ eq_refl ltac:(lia) ltac:(discriminate) ltac:(discriminate)).
Defined.
End Examples.
