(* ===== verification/Paging.v ===== *)
(** * Page tables (os/kernel/src/memory/virtual.rs)

    Address spaces with four levels of page tables in physical memory, mapping
    of page ranges and copying of address spaces.  Pages, page table entries and
    physical addresses belong to the crate x86_64; page frames come from the
    physical memory management, of which this file uses only the interface
    [FrameAllocator] (PagingAlloc.v implements it by Physical.v). *)

From S2P Require Import Prelude Frames Physical.
#[local] Open Scope Z_scope.

(** Pages of 4 KiB of the virtual address space *)
Class PageOps := {
  Page : Type;
  (** [page.start_address().as_u64()] *)
  page_addr : Page → Z;
  (** [Page::containing_address(VirtAddr::new(a))] *)
  page_containing : Z → res Page;
  (** [Page::from_start_address(VirtAddr::new(a)).ok()] *)
  page_from_start : Z → res (option Page);
  (** [VirtAddr::new(a).align_up(align)] *)
  virt_align_up : Z → Z → res Z;
  (** [impl Add<u64> for Page], counting in pages *)
  page_add : Page → Z → res Page;
  (** [impl Ord for Page] *)
  page_cmp : Page → Page → comparison;
  (** [PageRange { start, end }.count()] *)
  page_range_count : Page → Page → Z;
  (** [PhysAddr::new(a)] and [impl Add<usize> for PhysAddr] *)
  phys_new : Z → res Z;
  phys_add : Z → Z → res Z;
}.

(** The number of a page *)
Definition pn `{PageOps} (p : Page) : Z := page_addr p / FRAME_SIZE.

(** Pages in the lower half of the address space, to which the kernel keeps. *)
Definition LOWER_HALF : Z := 2 ^ 35.
Class PageLaws `{PageOps} : Prop := {
  page_addr_range p : 0 ≤ page_addr p < 2 ^ 64;
  page_addr_pn p : page_addr p = FRAME_SIZE * pn p;
  page_containing_ok a :
    0 ≤ a < FRAME_SIZE * LOWER_HALF → ∃ p, page_containing a = Done p ∧ pn p = a / FRAME_SIZE;
  page_from_start_ok a :
    0 ≤ a < FRAME_SIZE * LOWER_HALF → a mod FRAME_SIZE = 0 → ∃ p, page_from_start a = Done (Some p) ∧ pn p = a / FRAME_SIZE;
  page_from_start_unaligned a :
    0 ≤ a < FRAME_SIZE * LOWER_HALF → a mod FRAME_SIZE ≠ 0 → page_from_start a = Done None;
  virt_align_up_ok a : 0 ≤ a → round_up a FRAME_SIZE < FRAME_SIZE * LOWER_HALF → virt_align_up a FRAME_SIZE = Done (round_up a FRAME_SIZE);
  page_add_ok p n :
    0 ≤ n → pn p + n < LOWER_HALF → ∃ q, page_add p n = Done q ∧ pn q = pn p + n;
  page_cmp_spec p q : page_cmp p q = (page_addr p ?= page_addr q);
  page_range_count_spec p q : page_range_count p q = Z.max 0 (pn q - pn p);
  phys_new_ok a : 0 ≤ a < 2 ^ 52 → phys_new a = Done a;
  phys_add_ok a n : 0 ≤ a → 0 ≤ n → a + n < 2 ^ 52 → phys_add a n = Done (a + n);
}.

(** Page table entries, 64-bit words *)
Class EntryOps := {
  is_unused : Z → bool;
  entry_addr : Z → Z;
  entry_flags : Z → Z;
  (** [set_addr] and [set_frame]: the new value of the entry *)
  set_addr : Z → Z → res Z;
  set_frame : Z → Z → res Z;
  (** Flags that do not ask for a huge page *)
  flags_ok : Z → Prop;
}.
Definition PRESENT : Z := 1.
Definition WRITABLE : Z := 2.
Definition USER_ACCESSIBLE : Z := 4.
Definition NO_CACHE : Z := 16.
Definition TABLE_FLAGS : Z := Z.lor (Z.lor PRESENT WRITABLE) USER_ACCESSIBLE.
Definition DEVICE_FLAGS : Z := Z.lor TABLE_FLAGS NO_CACHE.

Class EntryLaws `{EntryOps} : Prop := {
  is_unused_spec e : is_unused e = (e =? 0);
  entry_addr_zero : entry_addr 0 = 0;
  set_addr_ok a f : valid_frame_addr a = true → flags_ok f →
    ∃ e, set_addr a f = Done e ∧ entry_addr e = a ∧ entry_flags e = f;
  set_frame_ok a f : valid_frame_addr a = true → flags_ok f →
    ∃ e, set_frame a f = Done e ∧ entry_addr e = a ∧ entry_flags e = f;
  (** Copying an entry *)
  set_addr_copy e : set_addr (entry_addr e) (entry_flags e) = Done e;
  table_flags_ok : flags_ok TABLE_FLAGS;
  device_flags_ok : flags_ok DEVICE_FLAGS;
}.

(** Words of page tables: the table's address and the index of the entry. *)
Abbreviation words := (Z → Z → Z).

(** The panic of [alloc_block] *)
Definition OUT_OF_MEMORY : string := "PageFrameAllocator: Out of memory!".

(** [m] has no undefined behaviour and terminates, and its only panic is the page
    frame allocator's; otherwise its result satisfies [Q]. *)
Definition runs {A} (m : res A) (Q : A → Prop) : Prop :=
  match m with
  | Done a => Q a
  | Panic msg => msg = OUT_OF_MEMORY
  | _ => False
  end.

Lemma runs_bind {A B} (m : res A) (k : A → res B) (P : A → Prop) (Q : B → Prop) :
  runs m P → (∀ a, P a → runs (k a) Q) → runs (m ≫= k) Q.
Proof. destruct m; cbn; auto. Qed.
Lemma runs_weaken {A} (m : res A) (P Q : A → Prop) : runs m P → (∀ a, P a → Q a) → runs m Q.
Proof. destruct m; cbn; auto. Qed.

Lemma runs_self {A} (m : res A) (Q : A → Prop) : runs m Q → runs m (fun a => m = Done a).
Proof. by destruct m. Qed.
Lemma runs_done {A} (m : res A) (Q : A → Prop) : runs m Q → is_done m = true → ∃ a, m = Done a ∧ Q a.
Proof. destruct m; cbn; eauto; discriminate. Qed.

(** What the paging code uses of the physical memory management: allocation of one
    frame.  The free lists are stored in the free frames themselves; [nodes_in]
    is the memory after the step from one pool to another. *)
Class FrameAllocator `{PhysFrameOps} := {
  pool : Type;
  alloc_page_frame : MemorySpace → pool → res (PhysFrame * pool);
  nodes_in : pool → pool → words → words;
  (** The pool is well-formed, and these are its free frames. *)
  pool_holds : pool → (MemorySpace → Z → Prop) → Prop;
}.
Class FrameAllocatorLaws `{FrameAllocator} : Prop := {
  alloc_page_frame_ok sp st F : pool_holds st F →
    runs (alloc_page_frame sp st) (fun r => F sp (frame_addr r.1) ∧ frame_addr r.1 ≠ 0 ∧
      pool_holds r.2 (fun sp' a => F sp' a ∧ a ≠ frame_addr r.1) ∧
      ∀ m a i, (∀ sp', ¬ F sp' a) → nodes_in st r.2 m a i = m a i);
  alloc_page_frame_some sp st F a : pool_holds st F → F sp a → is_done (alloc_page_frame sp st) = true;
  alloc_page_frame_none sp st F : pool_holds st F → (∀ a, ¬ F sp a) → alloc_page_frame sp st = Panic OUT_OF_MEMORY;
  pool_disjoint st F sp sp' a : pool_holds st F → F sp a → F sp' a → sp = sp';
  pool_holds_unique st F F' sp a : pool_holds st F → pool_holds st F' → F sp a → F' sp a;
}.

Section Paging.
Context `{Profile} `{FrameAllocator} `{PageOps} `{EntryOps}.

(** The physical memory: the pool of free frames and the page tables *)
Record vm := mkVm { frames : pool; ptes : words }.

Definition write_entry (table i e : Z) (s : vm) : vm :=
  mkVm (frames s) (fun a j => if (a =? table) && (j =? i) then e else ptes s a j).
(** [PageTable::zero] *)
Definition zero (table : Z) (s : vm) : vm :=
  mkVm (frames s) (fun a j => if a =? table then 0 else ptes s a j).

(** [physical::alloc(1, space).start] *)
Definition alloc_frame (space : MemorySpace) (s : vm) : res (PhysFrame * vm) :=
  r ← alloc_page_frame space (frames s);
  Done (r.1, mkVm r.2 (nodes_in (frames s) r.2 (ptes s))).

(** [(addr as *mut PageTable).as_mut().unwrap()] *)
Definition table_ref (a : Z) : res Z := if a =? 0 then unwrap None else Done a.

Definition page_table_index (virt_addr : Z) (level : nat) : res Z :=
  l ← sub_w 8 (Z.of_nat level) 1;
  s ← mul_w 8 l 9;
  Done (wrap 16 (Z.shiftr (Z.shiftr virt_addr 12) s) mod 512).

Record AddressSpace := mkSpace { root_table : Z; depth : nat }.

Definition address_space_new (depth : nat) (s : vm) : res (AddressSpace * vm) :=
  r ← alloc_frame Kernel s;
  t ← table_ref (frame_addr r.1);
  Done (mkSpace t depth, zero t r.2).

Definition page_table_address (a : AddressSpace) : res PhysFrame := frame_at (root_table a).

(** A [PageRange] *)
Record pages := mkPages { pstart : Page; pend : Page }.
Definition page_geb (p q : Page) : bool := match page_cmp p q with Lt => false | _ => true end.

(** [map_in_table]: the next level's table of an entry, allocated if it is empty *)
Definition next_table (table i : Z) (s : vm) : res (Z * vm) :=
  if entry_addr (ptes s table i) =? 0 then
    r ← alloc_frame Kernel s;
    e ← set_frame (frame_addr r.1) TABLE_FLAGS;
    let s := write_entry table i e r.2 in
    t ← table_ref (entry_addr e);
    Done (t, zero t s)
  else
    t ← table_ref (entry_addr (ptes s table i));
    Done (t, s).

(** [map_in_table], above the last level: the loop over the entries *)
Fixpoint map_entries (rec : Z → pages → vm → res (Z * vm)) (l : list Z) (table : Z) (ps : pages) (total : Z) (s : vm)
  : res (Z * vm) :=
  match l with
  | [] => Done (total, s)
  | i :: l =>
      ts ← next_table table i s;
      r ← rec ts.1 ps ts.2;
      start ← page_add (pstart ps) r.1;
      total ← add_w 64 total r.1;
      if page_geb start (pend ps) then Done (total, r.2)
      else map_entries rec l table (mkPages start (pend ps)) total r.2
  end.

(** [map_in_table], on the last level: the loops over the entries, with their
    number in the iteration *)
Fixpoint map_kernel_entries (l : list (Z * Z)) (table limit flags frame_addr : Z) (s : vm) : res vm :=
  match l with
  | [] => Done s
  | (index, i) :: l =>
      if limit <=? index then Done s
      else
        e ← set_addr frame_addr flags;
        frame_addr ← phys_add frame_addr PAGE_SIZE;
        map_kernel_entries l table limit flags frame_addr (write_entry table i e s)
  end.
Fixpoint map_user_entries (l : list (Z * Z)) (table limit flags : Z) (s : vm) : res vm :=
  match l with
  | [] => Done s
  | (index, i) :: l =>
      if limit <=? index then Done s
      else
        r ← alloc_frame User s;
        e ← set_frame (frame_addr r.1) flags;
        map_user_entries l table limit flags (write_entry table i e r.2)
  end.

(** [table.iter_mut().skip(start_index)], and with [enumerate] *)
Definition skip (start_index : Z) : list Z := seqZ start_index (512 - start_index).
Definition enumerate_skip (start_index : Z) : list (Z * Z) := imap (fun k i => (Z.of_nat k, i)) (skip start_index).

Fixpoint map_in_table (level : nat) (table : Z) (ps : pages) (space : MemorySpace) (flags : Z) (s : vm) {struct level}
  : res (Z * vm) :=
  start_index ← page_table_index (page_addr (pstart ps)) level;
  match level with
  | S (S _ as level') =>
      map_entries (fun t ps s => map_in_table level' t ps space flags s) (skip start_index) table ps 0 s
  | _ =>
      let alloc_count := Z.min (page_range_count (pstart ps) (pend ps)) (512 - start_index) in
      limit ← add_w 64 start_index alloc_count;
      s ← match space with
          | Kernel =>
              frame_addr ← phys_new (page_addr (pstart ps));
              map_kernel_entries (enumerate_skip start_index) table limit flags frame_addr s
          | User => map_user_entries (enumerate_skip start_index) table limit flags s
          end;
      Done (alloc_count, s)
  end.

Definition map_space (a : AddressSpace) (ps : pages) (space : MemorySpace) (flags : Z) (s : vm) : res (Z * vm) :=
  t ← table_ref (root_table a);
  map_in_table (depth a) t ps space flags s.

(** [copy_table], above the last level: one used entry *)
Definition copy_entry (rec : Z → Z → vm → res vm) (source target i : Z) (s : vm) : res vm :=
  r ← alloc_frame Kernel s;
  e ← set_frame (frame_addr r.1) (entry_flags (ptes r.2 source i));
  let s := write_entry target i e r.2 in
  next_level_source ← table_ref (entry_addr (ptes s source i));
  next_level_target ← table_ref (entry_addr e);
  rec next_level_source next_level_target s.

(** [copy_table]: the loops over the entries *)
Fixpoint copy_entries (rec : Z → Z → vm → res vm) (l : list Z) (source target : Z) (s : vm) : res vm :=
  match l with
  | [] => Done s
  | i :: l =>
      if is_unused (ptes s source i) then copy_entries rec l source target s
      else
        s ← copy_entry rec source target i s;
        copy_entries rec l source target s
  end.
Fixpoint copy_leaf_entries (l : list Z) (source target : Z) (s : vm) : res vm :=
  match l with
  | [] => Done s
  | i :: l =>
      e ← set_addr (entry_addr (ptes s source i)) (entry_flags (ptes s source i));
      copy_leaf_entries l source target (write_entry target i e s)
  end.
Fixpoint copy_table (source target : Z) (level : nat) (s : vm) {struct level} : res vm :=
  match level with
  | S (S _ as level') => copy_entries (fun src tgt s => copy_table src tgt level' s) (skip 0) source target s
  | _ => copy_leaf_entries (skip 0) source target s
  end.

Definition from_other (other : AddressSpace) (s : vm) : res (AddressSpace * vm) :=
  r ← address_space_new (depth other) s;
  source ← table_ref (root_table other);
  target ← table_ref (root_table r.1);
  s ← copy_table source target (depth other) r.2;
  Done (r.1, s).

(** [Drop]: [todo!()] *)
Definition drop_address_space (a : AddressSpace) : res unit := Panic "not yet implemented".

(** [create_address_space]; [spaces] is [ADDRESS_SPACES]. *)
Definition create_address_space (phys_limit : Z) (spaces : list AddressSpace) (s : vm)
  : res (AddressSpace * list AddressSpace * vm) :=
  match spaces with
  | [] =>
      r ← address_space_new 4 s;
      first ← page_containing 0;
      last ← page_containing phys_limit;
      m ← map_space r.1 (mkPages first last) Kernel TABLE_FLAGS r.2;
      Done (r.1, spaces ++ [r.1], m.2)
  | kernel_space :: _ =>
      r ← from_other kernel_space s;
      Done (r.1, spaces, r.2)
  end.

Definition current_address_space (cr3 : Z) (spaces : list AddressSpace) : res AddressSpace :=
  unwrap (List.find (fun a => root_table a =? cr3) spaces).
Definition kernel_address_space (spaces : list AddressSpace) : res AddressSpace :=
  expect "Trying to access kernel address space before initialization!" (spaces !! 0%nat).
End Paging.
