(* ===== verification/PagingMap.v ===== *)
(** * Mapping pages: the page tables as a map of pages

    A predicate that relates a tree of page tables in memory to the map of pages it
    stands for and to the frames it occupies, and the proof that the functions of
    Paging.v implement their operations on that map. *)

From S2P Require Import Prelude Frames Physical Paging.
#[local] Open Scope Z_scope.
#[local] Ltac Zify.zify_post_hook ::= Z.to_euclidean_division_equations.

Section Tree.
Context `{PageOps} `{EntryOps}.

(** The number of pages that a table covers *)
Definition span (level : nat) : Z := 512 ^ Z.of_nat level.

(** [tree level m a B O f]: the table at [a] covers the pages from [B] on, it and
    the tables below occupy the frames [O], no frame twice, no entry that leads to
    a table asks for a huge page, and the last level's entry of page [p] is [f p], 0 if there is no table for it. *)
Fixpoint tree (level : nat) (m : words) (a B : Z) (O : Z → Prop) (f : Z → Z) : Prop :=
  match level with
  | 0%nat => False
  | 1%nat => (∀ x, O x ↔ x = a) ∧ ∀ i, 0 ≤ i < 512 → f (B + i) = m a i
  | S level' =>
      ∃ Os : Z → Z → Prop,
        (∀ x, O x ↔ x = a ∨ ∃ i, 0 ≤ i < 512 ∧ Os i x) ∧
        (∀ i, 0 ≤ i < 512 → ¬ Os i a) ∧
        (∀ i j x, 0 ≤ i < 512 → 0 ≤ j < 512 → Os i x → Os j x → i = j) ∧
        ∀ i, 0 ≤ i < 512 →
          if entry_addr (m a i) =? 0 then
            m a i = 0 ∧ (∀ x, ¬ Os i x) ∧ ∀ p, B + i * span level' ≤ p < B + (i + 1) * span level' → f p = 0
          else flags_ok (entry_flags (m a i)) ∧ tree level' m (entry_addr (m a i)) (B + i * span level') (Os i) f
  end.

Lemma tree_S l m a B O f :
  tree (S (S l)) m a B O f = ∃ Os : Z → Z → Prop,
        (∀ x, O x ↔ x = a ∨ ∃ i, 0 ≤ i < 512 ∧ Os i x) ∧
        (∀ i, 0 ≤ i < 512 → ¬ Os i a) ∧
        (∀ i j x, 0 ≤ i < 512 → 0 ≤ j < 512 → Os i x → Os j x → i = j) ∧
        ∀ i, 0 ≤ i < 512 →
          if entry_addr (m a i) =? 0 then
            m a i = 0 ∧ (∀ x, ¬ Os i x) ∧ ∀ p, B + i * span (S l) ≤ p < B + (i + 1) * span (S l) → f p = 0
          else flags_ok (entry_flags (m a i)) ∧ tree (S l) m (entry_addr (m a i)) (B + i * span (S l)) (Os i) f.
Proof. reflexivity. Qed.

Lemma span_S l : span (S l) = 512 * span l.
Proof. unfold span. by rewrite Nat2Z.inj_succ, Z.pow_succ_r by lia. Qed.
Lemma span_pos l : 0 < span l.
Proof. unfold span. apply Z.pow_pos_nonneg; lia. Qed.

Lemma tree_root l m a B O f : tree l m a B O f → O a.
Proof.
  destruct l as [|[|l]]; [done|intros [HO _]; by apply HO|].
  rewrite tree_S. intros (Os & HO & _). apply HO. by left.
Qed.

(** The child's part of the pages *)
Lemma child_range l B i p :
  0 ≤ i < 512 → B + i * span l ≤ p < B + (i + 1) * span l → B ≤ p < B + span (S l).
Proof. rewrite span_S. pose proof (span_pos l). nia. Qed.

(** A tree depends on its own frames and its own pages only. *)
Lemma tree_frame l : ∀ m m' a B O f f',
  tree l m a B O f → (∀ x i, O x → m' x i = m x i) → (∀ p, B ≤ p < B + span l → f' p = f p) → tree l m' a B O f'.
Proof.
  induction l as [|[|l] IH]; intros m m' a B O f f' Ht Hm Hf; [done| |].
  - destruct Ht as [HO Hleaf]. split; [done|]. intros i Hi. rewrite Hf, Hm by (done || by apply HO || (unfold span; lia)).
    by apply Hleaf.
  - rewrite tree_S in *. destruct Ht as (Os & HO & Hroot & Hdis & Hch). exists Os. split_and!; [done..|].
    intros i Hi. rewrite Hm by (apply HO; by left). specialize (Hch i Hi).
    assert (∀ p, B + i * span (S l) ≤ p < B + (i + 1) * span (S l) → f' p = f p) as Hf'
      by (intros p Hp; apply Hf; by eapply child_range).
    destruct (entry_addr (m a i) =? 0).
    + destruct Hch as (He & Hno & Hz). split_and!; [done..|]. intros p Hp. rewrite Hf' by done. by apply Hz.
    + destruct Hch as [Hfl Hch]. split; [done|]. eapply IH; [exact Hch| |].
      * intros x j Hx. apply Hm. apply HO. right. eauto.
      * intros p Hp. apply Hf'. lia.
Qed.

(** The predicate for the occupied frames may be replaced by an equivalent one. *)
Lemma tree_proper l m a B O O' f : (∀ x, O x ↔ O' x) → tree l m a B O f → tree l m a B O' f.
Proof.
  intros HO. destruct l as [|[|l]]; [done| |].
  - intros [HO1 Hleaf]. split; [|done]. intros x. by rewrite <-HO.
  - rewrite !tree_S. intros (Os & HO1 & Hrest). exists Os. split; [|done]. intros x. by rewrite <-HO.
Qed.

(** A table of zeroes maps nothing. *)
Lemma tree_zero `{!EntryLaws} l m a B f :
  (∀ i, 0 ≤ i < 512 → m a i = 0) → (∀ p, B ≤ p < B + span (S l) → f p = 0) → tree (S l) m a B (eq a) f.
Proof.
  intros Hm Hf. destruct l as [|l].
  - split; [naive_solver|]. intros i Hi. rewrite Hm by done. apply Hf. unfold span. lia.
  - rewrite tree_S. exists (fun _ _ => False). split_and!; [|naive_solver..|].
    + intros x. naive_solver.
    + intros i Hi. rewrite Hm, entry_addr_zero by done. cbn. split_and!; [done|tauto|].
      intros p Hp. apply Hf. by eapply child_range.
Qed.

(** ** The children of a table *)

Definition child (l : nat) (m : words) (a B i : Z) (Oi : Z → Prop) (f : Z → Z) : Prop :=
  if entry_addr (m a i) =? 0 then
    m a i = 0 ∧ (∀ x, ¬ Oi x) ∧ ∀ p, B + i * span l ≤ p < B + (i + 1) * span l → f p = 0
  else flags_ok (entry_flags (m a i)) ∧ tree l m (entry_addr (m a i)) (B + i * span l) Oi f.

Lemma child_tree l m a B i Oi f : child l m a B i Oi f → entry_addr (m a i) ≠ 0 →
  flags_ok (entry_flags (m a i)) ∧ tree l m (entry_addr (m a i)) (B + i * span l) Oi f.
Proof. unfold child. intros Hch Hne. by rewrite (proj2 (Z.eqb_neq _ _)) in Hch by done. Qed.

(** The table at [a] with the frames [Os i] below entry [i]; only the children below
    the entries in [live] need to be well-formed. *)
Definition node_on (live : Z → Prop) (l : nat) (m : words) (a B : Z) (Os : Z → Z → Prop) (f : Z → Z) : Prop :=
  (∀ i, 0 ≤ i < 512 → ¬ Os i a) ∧
  (∀ i j x, 0 ≤ i < 512 → 0 ≤ j < 512 → Os i x → Os j x → i = j) ∧
  ∀ i, 0 ≤ i < 512 → live i → child l m a B i (Os i) f.
Definition all (i : Z) : Prop := True.
#[local] Abbreviation node := (node_on all).
Definition owned (a : Z) (Os : Z → Z → Prop) (x : Z) : Prop := x = a ∨ ∃ i, 0 ≤ i < 512 ∧ Os i x.

Lemma tree_node l m a B O f :
  tree (S (S l)) m a B O f ↔ ∃ Os, (∀ x, O x ↔ owned a Os x) ∧ node (S l) m a B Os f.
Proof.
  rewrite tree_S. unfold node_on, owned, child, all. split; intros (Os & HO & Hroot & Hdis & Hch); exists Os;
    (split; [exact HO|split; [exact Hroot|split; [exact Hdis|]]]); intros i Hi; [intros _|]; by apply Hch.
Qed.

Lemma child_frame l m m' a B i Oi f f' :
  child (S l) m a B i Oi f → m' a i = m a i → (∀ x j, Oi x → m' x j = m x j) →
  (∀ p, B + i * span (S l) ≤ p < B + (i + 1) * span (S l) → f' p = f p) → child (S l) m' a B i Oi f'.
Proof.
  unfold child. intros Hc -> Hm Hf. destruct (_ =? 0).
  - destruct Hc as (He & Hno & Hz). split_and!; [done..|]. intros p Hp. rewrite Hf by done. by apply Hz.
  - destruct Hc as [Hfl Hc]. split; [done|]. eapply tree_frame; [exact Hc|exact Hm|]. intros p Hp. apply Hf. lia.
Qed.

Definition upd (Os : Z → Z → Prop) (i : Z) (Oi : Z → Prop) : Z → Z → Prop := fun j => if j =? i then Oi else Os j.

(** Children do not overlap. *)
Lemma child_ranges_disjoint l B i j p :
  i ≠ j → B + i * span l ≤ p < B + (i + 1) * span l → ¬ B + j * span l ≤ p < B + (j + 1) * span l.
Proof. pose proof (span_pos l). intros Hne Hi Hj. destruct (Z.lt_trichotomy i j) as [|[|]]; nia. Qed.

(** Changing the subtree below entry [i] *)
Lemma node_update live l m m' a B Os f f' i Oi :
  node_on live (S l) m a B Os f → 0 ≤ i < 512 →
  child (S l) m' a B i Oi f' → ¬ Oi a → (∀ j x, 0 ≤ j < 512 → j ≠ i → Oi x → ¬ Os j x) →
  (∀ j, 0 ≤ j < 512 → j ≠ i → m' a j = m a j ∧ ∀ x k, Os j x → m' x k = m x k) →
  (∀ p, B ≤ p < B + span (S (S l)) → ¬ B + i * span (S l) ≤ p < B + (i + 1) * span (S l) → f' p = f p) →
  node_on live (S l) m' a B (upd Os i Oi) f'.
Proof.
  intros (Hroot & Hdis & Hch) Hi Hc Hna Hsep Hm Hf. unfold upd. split_and!.
  - intros j Hj. case_Z; [done|by apply Hroot].
  - intros j k x Hj Hk. destruct (Z.eqb_spec j i) as [->|Hji], (Z.eqb_spec k i) as [->|Hki]; try done.
    + intros HOi HOk. by apply (Hsep k x) in HOi.
    + intros HOj HOi. by apply (Hsep j x) in HOi.
    + by apply Hdis.
  - intros j Hj Hlive. destruct (Z.eqb_spec j i) as [->|Hne]; [done|].
    destruct (Hm j Hj Hne) as [Hmj Hmx]. eapply child_frame; [by apply Hch|done|intros; by apply Hmx|].
    intros p Hp. apply Hf; [by eapply child_range|by eapply child_ranges_disjoint].
Qed.

Lemma owned_upd a Os i Oi x :
  0 ≤ i < 512 → owned a (upd Os i Oi) x ↔ x = a ∨ Oi x ∨ ∃ j, 0 ≤ j < 512 ∧ j ≠ i ∧ Os j x.
Proof.
  intros Hi. unfold owned, upd. split.
  - intros [->|(j & Hj & Hx)]; [by left|]. destruct (Z.eqb_spec j i) as [->|]; eauto 10.
  - intros [->|[HOi|(j & Hj & Hne & Hx)]]; [by left|right; exists i; by rewrite Z.eqb_refl|].
    right. exists j. by rewrite (proj2 (Z.eqb_neq _ _) Hne).
Qed.
End Tree.
Abbreviation node := (node_on all).

(** ** Growing trees *)
Section Map.
Context `{Profile} `{FrameAllocatorLaws} `{!PhysFrameLaws} `{PageLaws} `{EntryLaws}.

Definition fresh (F : MemorySpace → Z → Prop) (x : Z) : Prop := ∃ sp, F sp x.

(** Frames are only taken from the pool, and other memory does not change. *)
Definition grows (O O' : Z → Prop) (F F' : MemorySpace → Z → Prop) (s s' : vm) : Prop :=
  pool_holds (frames s') F' ∧ (∀ x, O x → O' x) ∧ (∀ sp x, F' sp x → F sp x) ∧ (∀ x, O' x → O x ∨ fresh F x) ∧
  (∀ x, O' x → ¬ fresh F' x) ∧ (∀ x i, ¬ O x → ¬ fresh F x → ptes s' x i = ptes s x i).

Lemma grows_refl O F s : pool_holds (frames s) F → (∀ x, O x → ¬ fresh F x) → grows O O F F s s.
Proof. intros HF Hsep. unfold grows. naive_solver. Qed.

Lemma grows_trans O O1 O2 F F1 F2 s s1 s2 :
  grows O O1 F F1 s s1 → grows O1 O2 F1 F2 s1 s2 → grows O O2 F F2 s s2.
Proof.
  intros (_ & HO1 & HF1 & HOF1 & _ & Hm1) (Hp2 & HO2 & HF2 & HOF2 & Hsep2 & Hm2).
  assert (∀ x, fresh F1 x → fresh F x) as Hfr by (intros x [sp Hx]; exists sp; auto).
  split_and!; [done|naive_solver..| |done|].
  - intros x Hx. destruct (HOF2 x Hx) as [Hx1|Hx1]; [by apply HOF1|right; by apply Hfr].
  - intros x i HnO HnF. rewrite Hm2; [by apply Hm1| |].
    + intros Hx. destruct (HOF1 x Hx); naive_solver.
    + intros Hx. by apply HnF, Hfr.
Qed.

(** Allocating a frame *)
Lemma alloc_frame_ok sp s F :
  pool_holds (frames s) F →
  runs (alloc_frame sp s) (fun r => F sp (frame_addr r.1) ∧ frame_addr r.1 ≠ 0 ∧
    pool_holds (frames r.2) (fun sp' x => F sp' x ∧ x ≠ frame_addr r.1) ∧
    ∀ x i, ¬ fresh F x → ptes r.2 x i = ptes s x i).
Proof.
  intros HF. unfold alloc_frame. eapply runs_bind; [by apply alloc_page_frame_ok|].
  intros [fr st] (Hfr & Hnz & Hst & Hm). cbn [fst snd] in *. split_and!; [done|done|done|].
  intros x i Hx. apply Hm. intros sp' HFx. apply Hx. by exists sp'.
Qed.

Lemma table_ref_ok a : a ≠ 0 → table_ref a = Done a.
Proof. intros Ha. unfold table_ref. by rewrite (proj2 (Z.eqb_neq _ _) Ha). Qed.

(** The other entries of the table at [a], and the tables below them, are unchanged. *)
Definition others (a i : Z) (Os : Z → Z → Prop) (s s' : vm) : Prop :=
  ∀ j, 0 ≤ j < 512 → j ≠ i → ptes s' a j = ptes s a j ∧ ∀ x k, Os j x → ptes s' x k = ptes s x k.

Lemma next_table_ok live l s a B Os f F i :
  node_on live (S l) (ptes s) a B Os f → pool_holds (frames s) F → (∀ x, owned a Os x → ¬ fresh F x) → 0 ≤ i < 512 → live i →
  runs (next_table a i s) (fun r => ∃ Os' F', node_on live (S l) (ptes r.2) a B Os' f ∧
    grows (owned a Os) (owned a Os') F F' s r.2 ∧ entry_addr (ptes r.2 a i) = r.1 ∧ r.1 ≠ 0 ∧
    others a i Os s r.2 ∧ ∀ j, j ≠ i → Os' j = Os j).
Proof.
  intros Hn HF Hsep Hi Hlive. unfold next_table. destruct (Z.eqb_spec (entry_addr (ptes s a i)) 0) as [He|He].
  2:{ rewrite table_ref_ok, res_bind_ret_l by done. exists Os, F. split_and!; [done|by apply grows_refl|done|done|done|done]. }
  eapply runs_bind; [by apply alloc_frame_ok|]. intros [fr s1] (Hfr & Hnz & HF1 & Hm1). cbn [fst snd] in *.
  set (t := frame_addr fr) in *. destruct (set_frame_ok t TABLE_FLAGS) as (e & -> & Hea & Hef);
    [apply frame_addr_valid|apply table_flags_ok|]. rewrite res_bind_ret_l, Hea, table_ref_ok, res_bind_ret_l by done.
  set (s2 := zero t (write_entry a i e s1)).
  assert (fresh F t) as Hft by (by exists Kernel).
  assert (t ≠ a) as Hta by (intros ->; by apply (Hsep a); [left|]).
  assert (∀ x j, owned a Os x → (x, j) ≠ (a, i) → ptes s2 x j = ptes s x j) as Hkeep.
  { intros x j Hx Hne. cbn. rewrite (proj2 (Z.eqb_neq x t)) by (intros ->; by apply (Hsep t)).
    destruct (Z.eqb_spec x a) as [->|]; [destruct (Z.eqb_spec j i) as [->|]; [done|]|]; cbn; by apply Hm1, Hsep. }
  assert (ptes s2 a i = e) as Hai by (cbn; by rewrite (proj2 (Z.eqb_neq a t)), !Z.eqb_refl by done).
  exists (upd Os i (eq t)), (fun sp' x => F sp' x ∧ x ≠ t). cbn [fst snd]. fold s2.
  assert (others a i Os s s2) as Hoth.
  { intros j Hj Hne. split; [apply Hkeep; [by left|congruence]|]. intros x k Hx. apply Hkeep; [right; eauto|].
    intros [= -> ->]. destruct Hn as (Hroot & _). by apply (Hroot j Hj). }
  split_and!; [| |by rewrite Hai|done|exact Hoth|intros j Hj; unfold upd; by rewrite (proj2 (Z.eqb_neq j i))].
  - pose proof Hn as (_ & _ & Hch). specialize (Hch i Hi Hlive). unfold child in Hch. rewrite He in Hch. cbn in Hch.
    destruct Hch as (_ & _ & Hz). eapply node_update; [exact Hn|done| |naive_solver| | |done].
    + unfold child. rewrite Hai, Hea, Hef, (proj2 (Z.eqb_neq t 0)) by done. split; [apply table_flags_ok|]. apply tree_zero.
      * intros k Hk. cbn. by rewrite Z.eqb_refl.
      * intros p Hp. apply Hz. lia.
    + intros j x Hj Hne <- Hx. apply (Hsep t); [right; eauto|done].
    + exact Hoth.
  - unfold grows. split_and!; [done| | | | |].
    + intros x [->|(j & Hj & Hx)]; apply (owned_upd _ _ _ _ _ Hi); [by left|]. right. right. exists j. split; [done|split; [|done]].
      intros ->. destruct Hn as (_ & _ & Hch). specialize (Hch i Hi Hlive). unfold child in Hch. rewrite He in Hch. cbn in Hch. naive_solver.
    + naive_solver.
    + intros x [->|[<-|(j & Hj & Hne & Hx)]]%(owned_upd _ _ _ _ _ Hi); [left; by left|by right|left; right; eauto].
    + intros x [->|[<-|(j & Hj & Hne & Hx)]]%(owned_upd _ _ _ _ _ Hi) [sp [HFx Hxt]]; [|done|].
      * apply (Hsep a); [by left|by exists sp].
      * apply (Hsep x); [right; eauto|by exists sp].
    + intros x j HnO HnF. cbn. rewrite (proj2 (Z.eqb_neq x t)) by (intros ->; done).
      rewrite (proj2 (Z.eqb_neq x a)) by (intros ->; apply HnO; by left). cbn. by apply Hm1.
Qed.

(** ** The last level *)

(** The entries from the [k]-th one on, with their numbers in the iteration *)
Definition slots (start : Z) (k n : nat) : list (Z * Z) :=
  map (fun j => (Z.of_nat j, start + Z.of_nat j)) (seq k n).

Lemma enumerate_skip_slots start : 0 ≤ start ≤ 512 → enumerate_skip start = slots start 0 (Z.to_nat (512 - start)).
Proof.
  intros Hs. unfold enumerate_skip, skip, slots. apply list_eq. intros i.
  rewrite list_lookup_imap. change (map ?f (seq 0 ?n)) with (f <$> seq 0 n). rewrite list_lookup_fmap.
  destruct (decide (i < Z.to_nat (512 - start))%nat) as [Hi|Hi].
  - rewrite lookup_seqZ_lt, lookup_seq_lt by lia. done.
  - rewrite lookup_seqZ_ge, lookup_seq_ge by lia. done.
Qed.

(** The entries that a loop of the last level writes, from number [k] on *)
Definition in_slots (start limit : Z) (k n : nat) (j : Z) : Prop :=
  start + Z.of_nat k ≤ j < start + Z.min (Z.of_nat (k + n)) limit.

Lemma map_kernel_entries_ok start limit flags a P n : ∀ k s,
  0 ≤ start → 0 ≤ P → P + Z.of_nat (k + n) ≤ LOWER_HALF → flags_ok flags →
  ∃ s', map_kernel_entries (slots start k n) a limit flags (FRAME_SIZE * (P + Z.of_nat k)) s = Done s' ∧
    frames s' = frames s ∧
    (∀ x j, ¬ (x = a ∧ in_slots start limit k n j) → ptes s' x j = ptes s x j) ∧
    (∀ j, in_slots start limit k n j →
       entry_addr (ptes s' a j) = FRAME_SIZE * (P + (j - start)) ∧ entry_flags (ptes s' a j) = flags).
Proof.
  unfold in_slots, LOWER_HALF, FRAME_SIZE. induction n as [|n IH]; intros k s Hs HP Hbound Hfl; cbn [slots seq map map_kernel_entries].
  { exists s. split_and!; [done|done|done|]. intros j Hj. lia. }
  destruct (Z.leb_spec limit (Z.of_nat k)) as [Hl|Hl].
  { exists s. split_and!; [done|done|done|]. intros j Hj. lia. }
  destruct (set_addr_ok (4096 * (P + Z.of_nat k)) flags) as (e & -> & Hea & Hef).
  { apply valid_frame_addr_intro; [lia|]. by eexists. }
  { done. }
  unfold PAGE_SIZE. rewrite res_bind_ret_l, phys_add_ok, res_bind_ret_l by lia.
  replace (4096 * (P + Z.of_nat k) + 4096) with (4096 * (P + Z.of_nat (S k))) by lia.
  destruct (IH (S k) (write_entry a (start + Z.of_nat k) e s)) as (s' & Hrun & Hfr & Hkeep & Hset); [lia..|done|].
  exists s'. split_and!; [exact Hrun|done| |].
  - intros x j Hne. rewrite Hkeep by lia. cbn. destruct (Z.eqb_spec x a), (Z.eqb_spec j (start + Z.of_nat k)); try done. lia.
  - intros j Hj. destruct (decide (j = start + Z.of_nat k)) as [->|Hne]; [|apply Hset; lia].
    rewrite Hkeep by lia. cbn. rewrite !Z.eqb_refl. cbn. split; [rewrite Hea; lia|done].
Qed.

(** What is known of the frames that pages from [p] to [q] are mapped to: a page of
    the kernel has its own number, pages of a user get different frames of the
    pool, none of which is a page table. *)
Definition frames_for (space : MemorySpace) (F F' : MemorySpace → Z → Prop) (O' : Z → Prop) (p q : Z) (g : Z → Z) : Prop :=
  match space with
  | Kernel => ∀ x, p ≤ x < q → g x = FRAME_SIZE * x
  | User =>
      (∀ x, p ≤ x < q → F User (g x) ∧ ¬ fresh F' (g x) ∧ ¬ O' (g x)) ∧
      (∀ x y, p ≤ x < q → p ≤ y < q → g x = g y → x = y)
  end.

Lemma frames_for_trans space F F1 F2 O0 O1 O2 p r q g1 g2 s1 s2 :
  grows O0 O2 F1 F2 s1 s2 → (∀ x, O0 x → O1 x) → (∀ sp x, F1 sp x → F sp x) →
  frames_for space F F1 O1 p r g1 → frames_for space F1 F2 O2 r q g2 →
  frames_for space F F2 O2 p q (fun x => if x <? r then g1 x else g2 x).
Proof.
  intros (_ & _ & HF12 & HOF & _) HO01 HF1 Hg1 Hg2. destruct space.
  - intros x Hx. case_Z; [apply Hg1|apply Hg2]; lia.
  - destruct Hg1 as [Hg1 Hinj1], Hg2 as [Hg2 Hinj2]. split.
    + intros x Hx. case_Z.
      * destruct (Hg1 x) as (Hf & Hn & HnO); [lia|]. split_and!; [done| |].
        -- intros [sp Hx']. apply Hn. exists sp. by apply HF12.
        -- intros HO2. destruct (HOF _ HO2) as [HO|HO]; [by apply HnO, HO01|done].
      * destruct (Hg2 x) as (Hf & Hn & HnO); [lia|]. split_and!; [by apply HF1|done|done].
    + intros x y Hx Hy. repeat case_Z.
      * apply Hinj1; lia.
      * intros Heq. destruct (Hg1 x) as (_ & Hn & _); [lia|]. destruct (Hg2 y) as (Hf & _); [lia|].
        exfalso. apply Hn. rewrite Heq. by exists User.
      * intros Heq. destruct (Hg1 y) as (_ & Hn & _); [lia|]. destruct (Hg2 x) as (Hf & _); [lia|].
        exfalso. apply Hn. rewrite <-Heq. by exists User.
      * apply Hinj2; lia.
Qed.

Lemma map_user_entries_ok start limit flags a n : ∀ k s F,
  0 ≤ start → pool_holds (frames s) F → ¬ fresh F a → flags_ok flags →
  runs (map_user_entries (slots start k n) a limit flags s) (fun s' => ∃ F' g,
    grows (eq a) (eq a) F F' s s' ∧
    (∀ j, ¬ in_slots start limit k n j → ptes s' a j = ptes s a j) ∧
    (∀ j, in_slots start limit k n j → entry_addr (ptes s' a j) = g j ∧ entry_flags (ptes s' a j) = flags) ∧
    frames_for User F F' (eq a) (start + Z.of_nat k) (start + Z.min (Z.of_nat (k + n)) limit) g).
Proof.
  unfold in_slots. induction n as [|n IH]; intros k s F Hs HF Ha Hfl; cbn [slots seq map map_user_entries].
  { exists F, id. split_and!; [apply grows_refl; [done|by intros x <-]|done|intros; lia|split; intros; lia]. }
  destruct (Z.leb_spec limit (Z.of_nat k)) as [Hl|Hl].
  { exists F, id. split_and!; [apply grows_refl; [done|by intros x <-]|done|intros; lia|split; intros; lia]. }
  eapply runs_bind; [by apply alloc_frame_ok|]. intros [fr s1] (Hfr & Hnz & HF1 & Hm1). cbn [fst snd] in *.
  set (t := frame_addr fr) in *. destruct (set_frame_ok t flags) as (e & -> & Hea & Hef); [apply frame_addr_valid|done|].
  rewrite res_bind_ret_l. set (s2 := write_entry a (start + Z.of_nat k) e s1). set (F1 := fun sp x => F sp x ∧ x ≠ t) in *.
  assert (grows (eq a) (eq a) F F1 s s2) as Hgrow.
  { unfold grows, F1. split_and!; [done|done|by intros sp x [? _]|by left| |].
    - intros x <- [sp [HFa _]]. apply Ha. by exists sp.
    - intros x i Hne HnF. cbn. rewrite (proj2 (Z.eqb_neq x a)) by congruence. cbn. by apply Hm1. }
  assert (∀ j, j ≠ start + Z.of_nat k → ptes s2 a j = ptes s a j) as Hkeep2.
  { intros j Hj. cbn. rewrite (proj2 (Z.eqb_neq j _)) by done. rewrite andb_false_r. by apply Hm1. }
  eapply runs_weaken; [apply (IH (S k) s2 F1); [done|exact HF1| |done]|].
  { intros [sp [HFa _]]. apply Ha. by exists sp. }
  intros s' (F' & g & Hgrow' & Hkeep & Hset & Hg).
  exists F', (fun x => if x <? start + Z.of_nat (S k) then t else g x). split_and!.
  - by eapply grows_trans.
  - intros j Hj. rewrite Hkeep by lia. apply Hkeep2. lia.
  - intros j Hj. case_Z; [|apply Hset; lia]. assert (j = start + Z.of_nat k) as -> by lia.
    rewrite Hkeep by lia. cbn. by rewrite !Z.eqb_refl.
  - replace (k + S n)%nat with (S k + n)%nat by lia.
    apply (frames_for_trans User F F1 F' (eq a) (eq a) (eq a) _ (start + Z.of_nat (S k)) _ (fun _ => t) g s2 s');
      [exact Hgrow'|done|by intros sp x [? _]| |exact Hg].
    split.
    + intros x Hx. split_and!; [done|intros [sp [_ ?]]; done|intros ->; apply Ha; by exists User].
    + intros x y Hx Hy _. lia.
Qed.

(** ** The result of [map_in_table] *)

(** The end of the pages that are really mapped for the range from [p] to [q].  The
    loops of the last level count their entries from 0, but compare the count with
    a limit that includes the index they start at; a range that ends in the
    table in which it starts is extended by as many entries as lie before it. *)
Definition upto (p q : Z) : Z :=
  let table_end := p - p mod 512 + 512 in
  if q <=? table_end then Z.min table_end (q + p mod 512) else q.

Lemma upto_ge p q : q ≤ upto p q.
Proof. unfold upto. pose proof (Z.mod_pos_bound p 512). case_Z; lia. Qed.
Lemma upto_le p q e : p < e → (512 | e) → q ≤ e → upto p q ≤ e.
Proof. intros Hp [k ->] Hq. unfold upto. case_Z; lia. Qed.
Lemma upto_eq p q e : p < e → (512 | e) → e < q → upto p q = q.
Proof. intros Hp [k ->] Hq. unfold upto. case_Z; lia. Qed.
Lemma upto_aligned p q : (512 | p) → p < q → upto p q = q.
Proof. intros [k ->] Hq. unfold upto. rewrite Z_mod_mult. case_Z; lia. Qed.

Definition map_post (l : nat) (space : MemorySpace) (flags a B : Z) (O : Z → Prop) (f : Z → Z)
  (F : MemorySpace → Z → Prop) (p q : Z) (s s' : vm) : Prop :=
  let e := Z.min (upto p q) (B + span l) in
  ∃ O' F' f' g, tree l (ptes s') a B O' f' ∧ grows O O' F F' s s' ∧
    (∀ x, p ≤ x < e → entry_addr (f' x) = g x ∧ entry_flags (f' x) = flags) ∧
    (∀ x, B ≤ x < B + span l → ¬ p ≤ x < e → f' x = f x) ∧ frames_for space F F' O' p e g.

(** What the table's part of a range looks like *)
Definition mappable (l : nat) (a B : Z) (O : Z → Prop) (f : Z → Z) (F : MemorySpace → Z → Prop) (p q flags : Z) (s : vm) : Prop :=
  tree l (ptes s) a B O f ∧ pool_holds (frames s) F ∧ (∀ x, O x → ¬ fresh F x) ∧ (span l | B) ∧
  B ≤ p < B + span l ∧ 0 ≤ p < q ∧ q < LOWER_HALF ∧ flags_ok flags.

Lemma page_table_index_ok p l : (l < 8)%nat → page_table_index (page_addr p) (S l) = Done ((pn p / span l) mod 512).
Proof.
  intros Hl. pose proof (page_addr_range p) as Hr. rewrite page_addr_pn in *. unfold page_table_index, FRAME_SIZE in *.
  rewrite sub_w_ok, res_bind_ret_l by lia. rewrite mul_w_ok, res_bind_ret_l by lia. unfold wrap.
  rewrite !Z.shiftr_div_pow2 by lia. change (2 ^ 12) with 4096. rewrite (Z.mul_comm 4096), Z.div_mul by done.
  replace (2 ^ ((Z.of_nat (S l) - 1) * 9)) with (span l); [f_equal|].
  - change (2 ^ 16) with (512 * 128). generalize (pn p / span l). intros x. lia.
  - unfold span. change 512 with (2 ^ 9). rewrite <-Z.pow_mul_r by lia. f_equal. lia.
Qed.

Lemma index_in_table B sp i p :
  0 < sp → (512 * sp | B) → 0 ≤ i < 512 → B + i * sp ≤ p < B + (i + 1) * sp → (p / sp) mod 512 = i.
Proof.
  intros Hsp [k ->] Hi Hp. replace (p / sp) with (k * 512 + i).
  - rewrite Z.add_comm, Z_mod_plus_full. by apply Z.mod_small.
  - apply (Z.div_unique _ _ _ (p - (k * 512 + i) * sp)); [left|]; nia.
Qed.

Lemma index_range B sp p :
  0 < sp → B ≤ p < B + 512 * sp → let i := (p - B) / sp in 0 ≤ i < 512 ∧ B + i * sp ≤ p < B + (i + 1) * sp.
Proof.
  intros Hsp Hp. cbn zeta. split; [split; [apply Z.div_pos|apply Z.div_lt_upper_bound]; lia|].
  pose proof (Z.mul_div_le (p - B) sp Hsp) as Hlo. pose proof (Z.mul_succ_div_gt (p - B) sp Hsp) as Hhi.
  revert Hlo Hhi. generalize ((p - B) / sp). intros i Hlo Hhi. rewrite (Z.mul_comm sp i) in Hlo.
  rewrite (Z.mul_comm sp), <-Z.add_1_r in Hhi. generalize dependent (i * sp). generalize dependent ((i + 1) * sp). lia.
Qed.

Lemma multiple_nonneg sp B : 0 < sp → (sp | B) → 0 < B + sp → 0 ≤ B.
Proof.
  intros Hsp [k ->] Hpos. destruct (decide (0 ≤ k)) as [Hk|Hk]; [by apply Z.mul_nonneg_nonneg; lia|].
  assert (k * sp ≤ -1 * sp) by (apply Z.mul_le_mono_nonneg_r; lia). lia.
Qed.

(** The map that a table of the last level stands for *)
Definition leaf_view (m : words) (a B : Z) (f : Z → Z) (x : Z) : Z :=
  if (B <=? x) && (x <? B + 512) then m a (x - B) else f x.
Lemma leaf_view_in m a B f x : B ≤ x < B + 512 → leaf_view m a B f x = m a (x - B).
Proof. intros Hx. unfold leaf_view. by rewrite (proj2 (Z.leb_le _ _)), (proj2 (Z.ltb_lt _ _)) by lia. Qed.

Lemma grows_proper O O' F F' s s' : (∀ x, O x ↔ O' x) → grows O O F F' s s' → grows O' O' F F' s s'.
Proof.
  intros HO (G1 & G2 & G3 & G4 & G5 & G6). unfold grows. split_and!; [done|done|done| | |].
  - intros x Hx. by left.
  - intros x Hx. apply G5. by apply HO.
  - intros x j HnO. apply G6. by rewrite HO.
Qed.

(** The last level *)
Lemma map_leaf_eq a ps space flags s :
  0 ≤ pn (pstart ps) < pn (pend ps) → pn (pend ps) < LOWER_HALF → flags_ok flags →
  let p := pn (pstart ps) in let i := p mod 512 in let n := Z.min (pn (pend ps) - p) (512 - i) in
  let l := slots i 0 (Z.to_nat (512 - i)) in
  map_in_table 1 a ps space flags s =
    (s' ← match space with
          | Kernel => map_kernel_entries l a (i + n) flags (FRAME_SIZE * p) s
          | User => map_user_entries l a (i + n) flags s
          end;
     Done (n, s')).
Proof.
  intros Hpq Hq Hfl. cbn [map_in_table]. cbn zeta. rewrite page_table_index_ok, res_bind_ret_l by lia. rewrite page_range_count_spec.
  set (p := pn (pstart ps)) in *. set (q := pn (pend ps)) in *. change (span 0) with 1. rewrite Z.div_1_r.
  pose proof (Z.mod_pos_bound p 512 ltac:(done)) as Hi. rewrite Z.max_r by lia. unfold LOWER_HALF in *.
  rewrite add_w_ok, res_bind_ret_l by lia. rewrite enumerate_skip_slots by lia. destruct space; [|done].
  rewrite phys_new_ok, res_bind_ret_l by (rewrite page_addr_pn; fold p; unfold FRAME_SIZE; lia). by rewrite page_addr_pn.
Qed.

Lemma map_leaf_ok a B O f F ps space flags s :
  mappable 1 a B O f F (pn (pstart ps)) (pn (pend ps)) flags s →
  runs (map_in_table 1 a ps space flags s) (fun r =>
    r.1 = Z.min (pn (pend ps)) (B + span 1) - pn (pstart ps) ∧
    map_post 1 space flags a B O f F (pn (pstart ps)) (pn (pend ps)) s r.2).
Proof.
  intros ((HO & Hleaf) & HF & Hsep & HB & Hp & Hpq & Hq & Hfl). rewrite map_leaf_eq by done. cbn zeta.
  set (p := pn (pstart ps)) in *. set (q := pn (pend ps)) in *. change (span 1) with 512 in *.
  set (i := p mod 512). assert (B = p - i) as HBp by (destruct HB as [k ->]; unfold i; lia).
  assert (0 ≤ i < 512) as Hi by (by apply Z.mod_pos_bound). set (n := Z.min (q - p) (512 - i)). unfold LOWER_HALF in *.
  assert (∀ j, in_slots i (i + n) 0 (Z.to_nat (512 - i)) j ↔ p ≤ B + j < Z.min (upto p q) (B + 512)) as Hslots.
  { intros j. unfold in_slots, upto. fold i. case_Z; lia. }
  assert (n = Z.min q (B + 512) - p) as Hn by lia.
  assert (∀ s', (∀ x j, ¬ (x = a ∧ in_slots i (i + n) 0 (Z.to_nat (512 - i)) j) → O x → ptes s' x j = ptes s x j) →
    tree 1 (ptes s') a B O (leaf_view (ptes s') a B f) ∧
    ∀ x, B ≤ x < B + 512 → ¬ p ≤ x < Z.min (upto p q) (B + 512) → leaf_view (ptes s') a B f x = f x) as Htree.
  { intros s' Hkeep. split; [split; [done|]|].
    - intros j Hj. rewrite leaf_view_in by lia. f_equal. lia.
    - intros x Hx Hnx. rewrite leaf_view_in by lia.
      rewrite Hkeep; [|rewrite Hslots; lia|by apply HO]. rewrite <-Hleaf by lia. f_equal. lia. }
  destruct space.
  - destruct (map_kernel_entries_ok i (i + n) flags a p (Z.to_nat (512 - i)) 0 s) as (s' & Hrun & Hfr & Hkeep & Hset);
      [lia|lia|unfold LOWER_HALF; lia|done|].
    cbn [Nat.add Z.of_nat] in Hrun. rewrite Z.add_0_r in Hrun. rewrite Hrun, res_bind_ret_l. split; [done|].
    destruct (Htree s') as [Ht Hrest]; [intros x j Hne _; by apply Hkeep|].
    exists O, F, (leaf_view (ptes s') a B f), (fun x => FRAME_SIZE * x). split_and!; [exact Ht| | |exact Hrest|done].
    + unfold grows. cbn [snd]. rewrite Hfr. split_and!; try done; [naive_solver|].
      intros x j HnO _. apply Hkeep. intros [-> _]. apply HnO. by apply HO.
    + change (span 1) with 512. intros x Hx. rewrite leaf_view_in by lia.
      destruct (Hset (x - B)) as [Ha Hf]; [apply Hslots; lia|]. split; [rewrite Ha; f_equal; lia|done].
  - eapply runs_bind; [apply (map_user_entries_ok i (i + n) flags a _ 0 s F); [lia|done|by apply Hsep, HO|done]|].
    intros s' (F' & g & Hgrow & Hkeep & Hset & Hg). split; [done|].
    destruct (Htree s') as [Ht Hrest].
    { intros x j Hne HOx. assert (x = a) as -> by (by apply HO). apply Hkeep. tauto. }
    exists O, F', (leaf_view (ptes s') a B f), (fun x => g (x - B)). change (span 1) with 512.
    split_and!; [exact Ht| | |exact Hrest|].
    + eapply grows_proper; [|exact Hgrow]. intros x. rewrite HO. naive_solver.
    + intros x Hx. rewrite leaf_view_in by lia. apply Hset, Hslots. lia.
    + destruct Hg as [Hg Hinj]. split.
      * intros x Hx. destruct (Hg (x - B)) as (G1 & G2 & G3); [apply (proj2 (Hslots _)); lia|].
        split_and!; [done|done|]. intros HOx. apply G3. symmetry. by apply HO.
      * intros x y Hx Hy Heq. apply Hinj in Heq; [lia|apply (proj2 (Hslots _)); lia..].
Qed.

(** ** The upper levels *)

(** What the recursive call does for a child *)
Definition maps_child (l : nat) (space : MemorySpace) (flags : Z) (rec : Z → pages → vm → res (Z * vm)) : Prop :=
  ∀ a B O f F ps s, mappable l a B O f F (pn (pstart ps)) (pn (pend ps)) flags s →
    runs (rec a ps s) (fun r => r.1 = Z.min (pn (pend ps)) (B + span l) - pn (pstart ps) ∧
      map_post l space flags a B O f F (pn (pstart ps)) (pn (pend ps)) s r.2).

Lemma page_geb_spec p q : page_geb p q = (pn q <=? pn p).
Proof.
  unfold page_geb. rewrite page_cmp_spec, !page_addr_pn. unfold FRAME_SIZE.
  destruct (Z.leb_spec (pn q) (pn p)); destruct (Z.compare_spec (4096 * pn p) (4096 * pn q)); done || lia.
Qed.

(** The tree above a child that has grown *)
Lemma node_grow live l s s' a B Os f i Oi' F F' f' :
  node_on live (S l) (ptes s) a B Os f → (∀ x, owned a Os x → ¬ fresh F x) → 0 ≤ i < 512 → live i →
  entry_addr (ptes s a i) ≠ 0 → grows (Os i) Oi' F F' s s' →
  tree (S l) (ptes s') (entry_addr (ptes s a i)) (B + i * span (S l)) Oi' f' →
  (∀ p, B ≤ p < B + span (S (S l)) → ¬ B + i * span (S l) ≤ p < B + (i + 1) * span (S l) → f' p = f p) →
  node_on live (S l) (ptes s') a B (upd Os i Oi') f' ∧ grows (owned a Os) (owned a (upd Os i Oi')) F F' s s' ∧ others a i Os s s'.
Proof.
  intros Hn Hsep Hi Hlive Hnz (G1 & G2 & G3 & G4 & G5 & G6) Ht Hf. pose proof Hn as (Hroot & Hdis & Hch).
  assert (∀ j x, 0 ≤ j < 512 → j ≠ i → Os j x → ∀ k, ptes s' x k = ptes s x k) as Hother.
  { intros j x Hj Hne Hx k. apply G6; [|apply Hsep; right; eauto]. intros Hx'. by apply Hne, (Hdis j i x). }
  assert (∀ k, ptes s' a k = ptes s a k) as Hself by (intros k; apply G6; [by apply Hroot|apply Hsep; by left]).
  split_and!; [| |intros j Hj Hne; split; [apply Hself|intros x k Hx; by eapply Hother]].
  - eapply node_update; [exact Hn|done| | | | |exact Hf].
    + unfold child. rewrite Hself, (proj2 (Z.eqb_neq _ _)) by done. split; [|exact Ht]. by apply (child_tree (S l) _ a B i (Os i) f); [apply Hch|].
    + intros Ha. destruct (G4 a Ha) as [HOa|HFa]; [by apply (Hroot i)|]. apply (Hsep a); [by left|done].
    + intros j x Hj Hne Hx HOj. destruct (G4 x Hx) as [HOi|HFx]; [by apply Hne, (Hdis j i x)|].
      apply (Hsep x); [right; eauto|done].
    + intros j Hj Hne. split; [apply Hself|]. intros x k Hx. by eapply Hother.
  - unfold grows. split_and!; [done| |done| | |].
    + intros x [->|(j & Hj & Hx)]; apply (owned_upd _ _ _ _ _ Hi); [by left|].
      destruct (decide (j = i)) as [->|Hne]; [right; left; by apply G2|right; right; eauto].
    + intros x [->|[HOi|(j & Hj & Hne & Hx)]]%(owned_upd _ _ _ _ _ Hi); [left; by left| |left; right; eauto].
      destruct (G4 x HOi); [left; right; eauto|by right].
    + intros x [->|[HOi|(j & Hj & Hne & Hx)]]%(owned_upd _ _ _ _ _ Hi) [sp Hsp].
      * apply (Hsep a); [by left|exists sp; by apply G3].
      * apply (G5 x HOi). by exists sp.
      * apply (Hsep x); [right; eauto|exists sp; by apply G3].
    + intros x k HnO HnF. apply G6; [|done]. intros Hx. apply HnO. right. eauto.
Qed.

(** The function that is [f'] on the pages of child [i] and [f] elsewhere *)
Definition patch (lo hi : Z) (f' f : Z → Z) (x : Z) : Z := if (lo <=? x) && (x <? hi) then f' x else f x.
Lemma patch_in lo hi f' f x : lo ≤ x < hi → patch lo hi f' f x = f' x.
Proof. intros Hx. unfold patch. by rewrite (proj2 (Z.leb_le _ _)), (proj2 (Z.ltb_lt _ _)) by lia. Qed.
Lemma patch_out lo hi f' f x : ¬ lo ≤ x < hi → patch lo hi f' f x = f x.
Proof. intros Hx. unfold patch. destruct (Z.leb_spec lo x), (Z.ltb_spec x hi); try done. lia. Qed.

(** One round of the loop *)
Definition round_post (live : Z → Prop) (l : nat) (space : MemorySpace) (flags a B i : Z) (Os : Z → Z → Prop) (f : Z → Z)
  (F : MemorySpace → Z → Prop) (p q : Z) (s s' : vm) : Prop :=
  let hi := B + (i + 1) * span (S l) in
  let e := Z.min (upto p q) hi in
  ∃ Os' F' f' g, node_on live (S l) (ptes s') a B Os' f' ∧ grows (owned a Os) (owned a Os') F F' s s' ∧
    (∀ x, p ≤ x < e → entry_addr (f' x) = g x ∧ entry_flags (f' x) = flags) ∧
    (∀ x, B ≤ x < B + span (S (S l)) → ¬ p ≤ x < e → f' x = f x) ∧ frames_for space F F' (owned a Os') p e g ∧
    others a i Os s s'.

Lemma child_mappable live l a B i Os f F p q flags s :
  node_on live (S l) (ptes s) a B Os f → pool_holds (frames s) F → (∀ x, owned a Os x → ¬ fresh F x) →
  (span (S (S l)) | B) → 0 ≤ i < 512 → live i → B + i * span (S l) ≤ p < B + (i + 1) * span (S l) → 0 ≤ p < q →
  q < LOWER_HALF → flags_ok flags → entry_addr (ptes s a i) ≠ 0 →
  mappable (S l) (entry_addr (ptes s a i)) (B + i * span (S l)) (Os i) f F p q flags s.
Proof.
  intros (_ & _ & Hch) HF Hsep HB Hi Hlive Hp Hpq Hq Hfl Hnz. destruct (child_tree _ _ _ _ _ _ _ (Hch i Hi Hlive) Hnz) as [_ Ht].
  split_and!; try done; try lia.
  - intros x Hx. apply Hsep. right. eauto.
  - rewrite span_S in HB. destruct HB as [k ->]. exists (k * 512 + i). ring.
Qed.

Lemma map_round_ok live l space flags rec a B i Os f F ps s :
  maps_child (S l) space flags rec → node_on live (S l) (ptes s) a B Os f → pool_holds (frames s) F →
  (∀ x, owned a Os x → ¬ fresh F x) → (span (S (S l)) | B) → 0 ≤ i < 512 → live i →
  B + i * span (S l) ≤ pn (pstart ps) < B + (i + 1) * span (S l) → 0 ≤ pn (pstart ps) < pn (pend ps) →
  pn (pend ps) < LOWER_HALF → flags_ok flags →
  runs (ts ← next_table a i s; rec ts.1 ps ts.2) (fun r =>
    r.1 = Z.min (pn (pend ps)) (B + (i + 1) * span (S l)) - pn (pstart ps) ∧
    round_post live l space flags a B i Os f F (pn (pstart ps)) (pn (pend ps)) s r.2).
Proof.
  intros Hrec Hn HF Hsep HB Hi Hlive Hp Hpq Hq Hfl. set (p := pn (pstart ps)) in *. set (q := pn (pend ps)) in *.
  eapply runs_bind; [by apply (next_table_ok live l s a B Os f F i)|].
  intros [t s1] (Os1 & F1 & Hn1 & Hg1 & Ht & Hnz & Hoth1 & HOs1). cbn [fst snd] in *.
  pose proof Hg1 as (HF1 & _ & HFF1 & _ & Hsep1 & _).
  assert (B + (i + 1) * span (S l) = B + i * span (S l) + span (S l)) as Hhi by lia. rewrite Hhi in *.
  eapply runs_weaken; [apply (Hrec t (B + i * span (S l)) (Os1 i) f F1 ps s1)|].
  { rewrite <-Ht. apply (child_mappable live l a B i); rewrite ?Ht; done || lia. }
  fold p q. intros [n s2] [Hn2 (O2 & F2 & f2 & g & Ht2 & Hg2 & Hset & Hkeep & Hfr)]. cbn [fst snd] in *. split; [done|].
  set (lo := B + i * span (S l)) in *. set (hi := lo + span (S l)) in *.
  set (f3 := patch lo hi f2 f).
  destruct (node_grow live l s1 s2 a B Os1 f i O2 F1 F2 f3) as (Hn3 & Hg3 & Hoth3); [done|done|done|done|by rewrite Ht|done| | |].
  { rewrite Ht. eapply tree_frame; [exact Ht2|done|]. intros x Hx. apply patch_in. done. }
  { intros x _ Hx. apply patch_out. rewrite Hhi in Hx. exact Hx. }
  unfold round_post. rewrite Hhi. fold lo hi.
  exists (upd Os1 i O2), F2, f3, g. split_and!; [done|by eapply grows_trans| | | |].
  - intros x Hx. unfold f3. rewrite patch_in by lia. by apply Hset.
  - intros x Hx Hnx. unfold f3. destruct (decide (lo ≤ x < hi)) as [Hin|Hout]; [|by rewrite patch_out].
    rewrite patch_in by done. by apply Hkeep.
  - destruct space; [done|]. destruct Hfr as [Hfr Hinj]. split; [|done]. intros x Hx.
    destruct (Hfr x Hx) as (G1 & G2 & G3). split_and!; [by apply HFF1|done|].
    intros [Ha|[HO2|(j & Hj & Hne & HOj)]]%(owned_upd _ _ _ _ _ Hi); [|done|].
    + apply (Hsep1 (g x)); [by left|by exists User].
    + apply (Hsep1 (g x)); [right; eauto|by exists User].
  - intros j Hj Hne. destruct (Hoth1 j Hj Hne) as [Ha1 Hb1], (Hoth3 j Hj Hne) as [Ha3 Hb3]. split; [by rewrite Ha3|].
    intros x k Hx. rewrite Hb3 by (by rewrite HOs1). by apply Hb1.
Qed.

(** The rounds of a range that crosses into the next child fit together. *)
Lemma rounds_trans l space flags a B Os Os1 Os2 f f1 f2 F F1 F2 g1 g2 p m e s s1 s2 :
  p < m → m ≤ e →
  grows (owned a Os) (owned a Os1) F F1 s s1 → grows (owned a Os1) (owned a Os2) F1 F2 s1 s2 →
  (∀ x, p ≤ x < m → entry_addr (f1 x) = g1 x ∧ entry_flags (f1 x) = flags) →
  (∀ x, B ≤ x < B + span (S (S l)) → ¬ p ≤ x < m → f1 x = f x) →
  (∀ x, m ≤ x < e → entry_addr (f2 x) = g2 x ∧ entry_flags (f2 x) = flags) →
  (∀ x, B ≤ x < B + span (S (S l)) → ¬ m ≤ x < e → f2 x = f1 x) →
  frames_for space F F1 (owned a Os1) p m g1 → frames_for space F1 F2 (owned a Os2) m e g2 →
  B ≤ p → m ≤ B + span (S (S l)) →
  ∃ g, grows (owned a Os) (owned a Os2) F F2 s s2 ∧
    (∀ x, p ≤ x < e → entry_addr (f2 x) = g x ∧ entry_flags (f2 x) = flags) ∧
    (∀ x, B ≤ x < B + span (S (S l)) → ¬ p ≤ x < e → f2 x = f x) ∧ frames_for space F F2 (owned a Os2) p e g.
Proof.
  intros Hpm Hme Hg1 Hg2 Hset1 Hkeep1 Hset2 Hkeep2 Hfr1 Hfr2 HBp HmB.
  exists (fun x => if x <? m then g1 x else g2 x). split_and!.
  - by eapply grows_trans.
  - intros x Hx. case_Z; [|apply Hset2; lia]. rewrite Hkeep2 by lia. apply Hset1. lia.
  - intros x Hx Hnx. rewrite Hkeep2 by lia. apply Hkeep1; lia.
  - destruct Hg1 as (_ & _ & HFF1 & _).
    apply (frames_for_trans space F F1 F2 (owned a Os1) (owned a Os1) (owned a Os2) p m e g1 g2 s1 s2); done.
Qed.

(** The entries before [i] and those whose pages lie behind [q] stay as they are. *)
Definition untouched (l : nat) (a B i q : Z) (s s' : vm) : Prop :=
  ∀ j, 0 ≤ j < 512 → j < i ∨ q ≤ B + j * span l → ptes s' a j = ptes s a j.

Lemma map_entries_ok l space flags rec a B n : maps_child (S l) space flags rec → (span (S (S l)) | B) →
  ∀ i Os f F ps total s, i + Z.of_nat n = 512 → 0 ≤ i → node (S l) (ptes s) a B Os f → pool_holds (frames s) F →
  (∀ x, owned a Os x → ¬ fresh F x) →
  B + i * span (S l) ≤ pn (pstart ps) → (n = 0%nat → pn (pstart ps) = B + span (S (S l))) →
  (n ≠ 0%nat → pn (pstart ps) < B + (i + 1) * span (S l)) → 0 ≤ pn (pstart ps) < pn (pend ps) →
  pn (pend ps) < LOWER_HALF → flags_ok flags → 0 ≤ B →
  0 ≤ total → total + pn (pend ps) < LOWER_HALF + pn (pstart ps) →
  runs (map_entries rec (seqZ i (Z.of_nat n)) a ps total s) (fun r =>
    r.1 = total + (Z.min (pn (pend ps)) (B + span (S (S l))) - pn (pstart ps)) ∧
    let e := Z.min (upto (pn (pstart ps)) (pn (pend ps))) (B + span (S (S l))) in
    ∃ Os' F' f' g, node (S l) (ptes r.2) a B Os' f' ∧ grows (owned a Os) (owned a Os') F F' s r.2 ∧
      (∀ x, pn (pstart ps) ≤ x < e → entry_addr (f' x) = g x ∧ entry_flags (f' x) = flags) ∧
      (∀ x, B ≤ x < B + span (S (S l)) → ¬ pn (pstart ps) ≤ x < e → f' x = f x) ∧
      frames_for space F F' (owned a Os') (pn (pstart ps)) e g ∧ untouched (S l) a B i (pn (pend ps)) s r.2).
Proof.
  intros Hrec HB. pose proof (span_pos l) as Hsp. pose proof (span_S l) as HspS. pose proof (span_S (S l)) as HspSS.
  induction n as [|n IH]; intros i Os f F ps total s Hin Hi Hn HF Hsep Hlo Hz Hnz Hpq Hq Hfl HB0 Ht Htot.
  - specialize (Hz eq_refl). change (seqZ i (Z.of_nat 0)) with (@nil Z). cbn [map_entries]. pose proof (upto_ge (pn (pstart ps)) (pn (pend ps))).
    cbn [runs fst snd]. rewrite !Z.min_r by lia. rewrite Hz. split; [lia|].
    exists Os, F, f, (fun x => FRAME_SIZE * x). split; [done|split; [by apply grows_refl|split; [intros; lia|split; [done|split]]]].
    + destruct space; [by intros x Hx|split; intros; lia].
    + by intros j _ _.
  - specialize (Hnz ltac:(done)). rewrite seqZ_cons by lia. cbn [map_entries]. rewrite Nat2Z.inj_succ, Z.pred_succ.
    set (p := pn (pstart ps)) in *. set (q := pn (pend ps)) in *. set (hi := B + (i + 1) * span (S l)) in *.
    assert (hi ≤ B + span (S (S l))) as HhiB by (unfold hi; nia). assert (B ≤ p) as HBp by nia.
    assert (512 | hi) as Hal.
    { unfold hi. destruct HB as [k ->]. rewrite HspSS, HspS. exists (k * 512 * span l + (i + 1) * span l). ring. }
    rewrite <-(res_bind_assoc (next_table a i s) (fun ts => rec ts.1 ps ts.2)).
    eapply runs_bind; [apply (map_round_ok all l space flags rec a B i Os f F ps s); try done; lia|].
    fold p q hi. intros [n1 s1] [Hn1 (Os1 & F1 & f1 & g1 & Hnode1 & Hg1 & Hset1 & Hkeep1 & Hfr1 & Hoth1)].
    cbn [fst snd] in Hn1, Hg1, Hset1, Hkeep1, Hfr1, Hnode1 |- *. unfold LOWER_HALF in *. fold hi in Hset1, Hkeep1, Hfr1.
    destruct (page_add_ok (pstart ps) n1) as (start & Hadd & Hpn); [lia|fold p; unfold LOWER_HALF; lia|].
    fold p in Hpn. rewrite Hadd, res_bind_ret_l. rewrite add_w_ok, res_bind_ret_l by lia.
    rewrite page_geb_spec. fold q. rewrite Hpn, Hn1.
    destruct (Z.leb_spec q (p + (Z.min q hi - p))) as [Hdone|Hmore].
    + rewrite (Z.min_l q hi), (Z.min_l q (B + _)) by lia. split; [done|].
      pose proof (upto_le p q hi Hnz Hal ltac:(lia)) as Hupto. rewrite (Z.min_l _ hi) in Hset1, Hkeep1, Hfr1 by lia.
      rewrite Z.min_l by lia. exists Os1, F1, f1, g1. split; [done|split; [done|split; [done|split; [done|split; [done|]]]]].
      intros j Hj Hout. apply Hoth1; [done|]. intros ->. destruct Hout; [lia|]. nia.
    + rewrite (Z.min_r q hi) in * by lia. pose proof (upto_eq p q hi Hnz Hal ltac:(lia)) as Hupto. rewrite Hupto in *.
      rewrite (Z.min_r q hi) in Hset1, Hkeep1, Hfr1 by lia. assert (pn start = hi) as Hstart by lia. clear Hpn. rename Hstart into Hpn.
      pose proof Hg1 as (HF1 & _ & _ & _ & Hsep1 & _).
      eapply runs_weaken; [apply (IH (i + 1) Os1 f1 F1 (mkPages start (pend ps)) (total + (hi - p)) s1)|];
        cbn [pstart pend]; rewrite ?Hpn; fold q; try done; try lia; [unfold hi; nia..|].
      intros [n2 s2] (Hn2 & Os2 & F2 & f2 & g2 & Hnode2 & Hg2 & Hset2 & Hkeep2 & Hfr2 & Hun2). cbn [fst snd] in *.
      rewrite upto_aligned in Hset2, Hkeep2, Hfr2 by (done || lia). split; [lia|].
      destruct (rounds_trans l space flags a B Os Os1 Os2 f f1 f2 F F1 F2 g1 g2 p hi (Z.min q (B + span (S (S l)))) s s1 s2)
        as (g & HG1 & HG2 & HG3 & HG4); try done; try lia.
      exists Os2, F2, f2, g. split; [done|split; [done|split; [done|split; [done|split; [done|]]]]].
      intros j Hj Hout. rewrite Hun2 by (done || lia). apply Hoth1; [done|]. intros ->. destruct Hout; [lia|]. nia.
Qed.

(** The last round of the loop *)
Definition map_rest (rec : Z → pages → vm → res (Z * vm)) (l : list Z) (a : Z) (ps : pages) (total : Z) (r : Z * vm) : res (Z * vm) :=
  start ← page_add (pstart ps) r.1;
  total ← add_w 64 total r.1;
  if page_geb start (pend ps) then Done (total, r.2)
  else map_entries rec l a (mkPages start (pend ps)) total r.2.
Lemma map_entries_cons rec i l a ps total s :
  map_entries rec (i :: l) a ps total s = (ts ← next_table a i s; rec ts.1 ps ts.2) ≫= map_rest rec l a ps total.
Proof. cbn [map_entries]. by rewrite res_bind_assoc. Qed.
Lemma map_rest_last rec l a ps r : 0 ≤ pn (pstart ps) < pn (pend ps) → pn (pend ps) < LOWER_HALF → r.1 = pn (pend ps) - pn (pstart ps) →
  map_rest rec l a ps 0 r = Done r.
Proof.
  intros Hpq Hq Hr. unfold map_rest. destruct (page_add_ok (pstart ps) r.1) as (start & -> & Hpn); [lia..|].
  unfold LOWER_HALF in *. rewrite res_bind_ret_l, add_w_ok, res_bind_ret_l by lia. rewrite page_geb_spec, Hpn, Hr.
  rewrite (proj2 (Z.leb_le _ _)) by lia. destruct r. cbn in *. by subst.
Qed.

(** The loop, from the entry of the first page on *)
Lemma map_table_eq l a B O f F ps space flags s : (S l < 8)%nat →
  mappable (S (S l)) a B O f F (pn (pstart ps)) (pn (pend ps)) flags s →
  let i := (pn (pstart ps) - B) / span (S l) in
  0 ≤ B ∧ 0 ≤ i < 512 ∧ B + i * span (S l) ≤ pn (pstart ps) < B + (i + 1) * span (S l) ∧
  map_in_table (S (S l)) a ps space flags s =
    map_entries (fun t ps s => map_in_table (S l) t ps space flags s) (seqZ i (Z.of_nat (Z.to_nat (512 - i)))) a ps 0 s.
Proof.
  intros Hl (_ & _ & _ & HB & Hp & Hpq & _). set (p := pn (pstart ps)) in *. cbn zeta. set (i := (p - B) / span (S l)).
  pose proof (span_pos (S l)) as Hsp. pose proof (span_S (S l)) as HspSS.
  destruct (index_range B (span (S l)) p Hsp) as [Hi Hpi]; [by rewrite <-HspSS|]. fold i in Hi, Hpi.
  split; [apply (multiple_nonneg (span (S (S l)))); [by apply span_pos|done|lia]|split; [done|split; [done|]]].
  cbn [map_in_table]. rewrite page_table_index_ok, res_bind_ret_l by done. fold p.
  rewrite (index_in_table B (span (S l)) i p) by (done || by rewrite <-HspSS).
  unfold skip. by replace (Z.of_nat (Z.to_nat (512 - i))) with (512 - i) by lia.
Qed.

Lemma map_table_ok l a B O f F ps space flags s : (S l < 8)%nat →
  maps_child (S l) space flags (fun t ps s => map_in_table (S l) t ps space flags s) →
  mappable (S (S l)) a B O f F (pn (pstart ps)) (pn (pend ps)) flags s →
  runs (map_in_table (S (S l)) a ps space flags s) (fun r =>
    (r.1 = Z.min (pn (pend ps)) (B + span (S (S l))) - pn (pstart ps) ∧
     map_post (S (S l)) space flags a B O f F (pn (pstart ps)) (pn (pend ps)) s r.2) ∧
    untouched (S l) a B ((pn (pstart ps) - B) / span (S l)) (pn (pend ps)) s r.2).
Proof.
  intros Hl IH Hm. destruct (map_table_eq l a B O f F ps space flags s Hl Hm) as (HB0 & Hi & Hpi & ->).
  destruct Hm as (Ht & HF & Hsep & HB & Hp & Hpq & Hq & Hfl). destruct (proj1 (tree_node _ _ _ _ _ _) Ht) as (Os & HO & Hn).
  set (p := pn (pstart ps)) in *. set (i := (p - B) / span (S l)) in *.
  eapply runs_weaken; [apply (map_entries_ok l space flags _ a B (Z.to_nat (512 - i)) IH HB i Os f F ps 0 s)|];
    fold p; try done; try lia.
  { intros x Hx. by apply Hsep, HO. }
  intros [n s'] (Hn' & Os' & F' & f' & g & Hnode & Hg & Hset & Hkeep & Hfr & Hun). cbn [fst snd] in *. split; [|done]. split; [lia|].
  exists (owned a Os'), F', f', g. split_and!; [|  |exact Hset|exact Hkeep|exact Hfr].
  - apply tree_node. by exists Os'.
  - destruct Hg as (G1 & G2 & G3 & G4 & G5 & G6). unfold grows. split_and!; [done| |done| |done|].
    + intros x Hx. by apply G2, HO.
    + intros x Hx. rewrite HO. by apply G4.
    + intros x j HnO. apply G6. by rewrite <-HO.
Qed.

(** [map_in_table] on every level *)
Lemma map_in_table_ok l space flags : (l < 8)%nat →
  maps_child (S l) space flags (fun t ps s => map_in_table (S l) t ps space flags s).
Proof.
  induction l as [|l IH]; intros Hl a B O f F ps s Hm; [by apply map_leaf_ok|].
  eapply runs_weaken; [by apply (map_table_ok l a B O f F); [|apply IH; lia|]|]. by intros r [Hr _].
Qed.

(** A range within one entry: the other entries may lead anywhere. *)
Lemma map_one_entry_eq l a B i ps space flags s : (S l < 8)%nat → (span (S (S l)) | B) → 0 ≤ i < 512 →
  B + i * span (S l) ≤ pn (pstart ps) < B + (i + 1) * span (S l) →
  map_in_table (S (S l)) a ps space flags s =
    (ts ← next_table a i s; map_in_table (S l) ts.1 ps space flags ts.2) ≫=
      map_rest (fun t ps s => map_in_table (S l) t ps space flags s) (seqZ (Z.succ i) (Z.pred (512 - i))) a ps 0.
Proof.
  intros Hl HB Hi Hp. change (map_in_table (S (S l)) a ps space flags s) with
    (start_index ← page_table_index (page_addr (pstart ps)) (S (S l));
     map_entries (fun t ps s => map_in_table (S l) t ps space flags s) (skip start_index) a ps 0 s).
  rewrite page_table_index_ok, res_bind_ret_l by done.
  rewrite (index_in_table B (span (S l)) i) by (apply span_pos || done || by rewrite <-span_S).
  unfold skip. rewrite seqZ_cons by lia. apply map_entries_cons.
Qed.

Lemma map_one_entry_ok live l space flags a B i Os f F ps s : (S l < 8)%nat →
  node_on live (S l) (ptes s) a B Os f → pool_holds (frames s) F → (∀ x, owned a Os x → ¬ fresh F x) → (span (S (S l)) | B) →
  0 ≤ i < 512 → live i → B + i * span (S l) ≤ pn (pstart ps) < B + (i + 1) * span (S l) → 0 ≤ pn (pstart ps) < pn (pend ps) →
  pn (pend ps) ≤ B + (i + 1) * span (S l) → pn (pend ps) < LOWER_HALF → flags_ok flags →
  runs (map_in_table (S (S l)) a ps space flags s) (fun r => r.1 = pn (pend ps) - pn (pstart ps) ∧
    round_post live l space flags a B i Os f F (pn (pstart ps)) (pn (pend ps)) s r.2).
Proof.
  intros Hl Hn HF Hsep HB Hi Hlive Hp Hpq Hend Hq Hfl. rewrite (map_one_entry_eq l a B i) by done.
  eapply runs_bind; [apply (map_round_ok live l space flags _ a B i Os f F ps s (map_in_table_ok l space flags ltac:(lia))); done|].
  intros r [Hr Hpost]. rewrite Z.min_l in Hr by done. rewrite map_rest_last by done. done.
Qed.
End Map.
