(* ===== verification/PagingCount.v ===== *)
(** * How many frames mapping takes

    Mapping pages allocates the page tables that are missing and, for a user, a frame
    per page.  This file computes that number from the page tables in memory and
    proves that mapping succeeds exactly if the free lists hold as many frames:
    the only panic that PagingMap.v leaves open. *)

From S2P Require Import Prelude Counting Frames Physical Paging PagingMap.
#[local] Open Scope Z_scope.

(** ** Frames as a resource *)

Abbreviation budget := (MemorySpace → Z).
Definition none : budget := fun _ => 0.
Definition one (space : MemorySpace) : budget := fun sp => if decide (sp = space) then 1 else 0.
Definition plus (c d : budget) : budget := fun sp => c sp + d sp.
Definition less (n c : budget) : budget := fun sp => n sp - c sp.
Definition affordable (c n : budget) : bool := (c Kernel <=? n Kernel) && (c User <=? n User).

Lemma affordable_spec c n : affordable c n = true ↔ ∀ sp, c sp ≤ n sp.
Proof.
  unfold affordable. rewrite andb_true_iff, !Z.leb_le. split; [by intros [? ?] []|by intros Hall].
Qed.

Section Count.
Context `{Profile} `{FrameAllocatorLaws} `{!PhysFrameLaws} `{PageLaws} `{EntryLaws}.

(** The numbers of free frames *)
Definition left_over (s : vm) (n : budget) : Prop :=
  ∃ F, pool_holds (frames s) F ∧ ∀ sp, count (F sp) (n sp).

(** [m] costs [c] of the [n] free frames: it succeeds if there are that many, and
    otherwise runs out of memory.  [st] is the state in the result. *)
Definition costs {A} (st : A → vm) (m : res A) (c n : budget) : Prop :=
  if affordable c n then ∃ r, m = Done r ∧ left_over (st r) (less n c) else m = Panic OUT_OF_MEMORY.

Lemma left_over_proper s n n' : (∀ sp, n sp = n' sp) → left_over s n → left_over s n'.
Proof. intros Hn (F & HF & Hc). exists F. split; [done|]. intros sp. by rewrite <-Hn. Qed.
Lemma left_over_nonneg s n sp : left_over s n → 0 ≤ n sp.
Proof. intros (F & _ & Hc). by eapply count_nonneg. Qed.

Lemma costs_proper {A} (st : A → vm) m c c' n : (∀ sp, c sp = c' sp) → costs st m c n → costs st m c' n.
Proof.
  intros Hc. unfold costs, affordable. rewrite !Hc. destruct (_ && _); [|done].
  intros (r & Hr & Hl). exists r. split; [done|]. eapply left_over_proper; [|done]. intros sp. unfold less. by rewrite Hc.
Qed.

Lemma costs_done {A} (st : A → vm) m r n : m = Done r → left_over (st r) n → costs st m none n.
Proof.
  intros -> Hl. unfold costs. rewrite (proj2 (affordable_spec _ _)) by (intros sp; by apply left_over_nonneg with (s := st r)).
  exists r. split; [done|]. eapply left_over_proper; [|done]. intros sp. unfold less, none. lia.
Qed.

Lemma costs_bind {A B} (st : A → vm) (st' : B → vm) m k c d n :
  costs st m c n → (∀ sp, 0 ≤ d sp) → (∀ r, m = Done r → left_over (st r) (less n c) → costs st' (k r) d (less n c)) →
  costs st' (m ≫= k) (plus c d) n.
Proof.
  intros Hm Hd Hk. unfold costs in Hm. destruct (affordable c n) eqn:Hc.
  - destruct Hm as (r & -> & Hl). rewrite res_bind_ret_l. specialize (Hk r eq_refl Hl). unfold costs in *.
    assert (affordable (plus c d) n = affordable d (less n c)) as ->.
    { apply eq_true_iff_eq. rewrite !affordable_spec. unfold plus, less. split; intros Hall sp; specialize (Hall sp); lia. }
    destruct (affordable d (less n c)); [|done]. destruct Hk as (r' & Hr & Hl'). exists r'. split; [done|].
    eapply left_over_proper; [|done]. intros sp. unfold plus, less. lia.
  - rewrite Hm. unfold costs. destruct (affordable (plus c d) n) eqn:Hcd; [|done].
    rewrite <-not_true_iff_false, affordable_spec in Hc. rewrite affordable_spec in Hcd. destruct Hc.
    intros sp. specialize (Hd sp). specialize (Hcd sp). unfold plus in Hcd. lia.
Qed.

Lemma alloc_frame_costs space s n : left_over s n → costs snd (alloc_frame space s) (one space) n.
Proof.
  intros (F & HF & Hc). unfold costs, alloc_frame.
  assert (affordable (one space) n = (1 <=? n space)) as ->.
  { apply eq_true_iff_eq. rewrite affordable_spec, Z.leb_le. unfold one. split.
    - intros Hall. specialize (Hall space). by rewrite decide_True in Hall.
    - intros Hle sp. case_decide; [by subst|]. by eapply count_nonneg. }
  destruct (Z.leb_spec 1 (n space)) as [Hn|Hn].
  - destruct (count_pos _ _ (Hc space)) as (a & Ha); [lia|]. pose proof (alloc_page_frame_some space (frames s) F a HF Ha) as Hdone.
    destruct (runs_done _ _ (alloc_page_frame_ok space (frames s) F HF) Hdone) as ([fr st] & -> & Hfr & Hnz & HF' & _).
    cbn [fst snd] in *. rewrite res_bind_ret_l. eexists. split; [done|]. cbn [snd frames].
    eexists. split; [exact HF'|]. intros sp. cbn. unfold less, one. case_decide as Hsp.
    + subst sp. by apply count_remove.
    + replace (n sp - 0) with (n sp) by lia. eapply count_proper; [|apply Hc]. intros x. cbn. split; [|tauto].
      intros Hx. split; [done|]. intros ->. apply Hsp. by eapply (pool_disjoint _ _ _ _ _ HF).
  - rewrite (alloc_page_frame_none space (frames s) F HF); [done|]. pose proof (count_nonneg _ _ (Hc space)).
    apply count_zero. replace 0 with (n space) by lia. apply Hc.
Qed.
(** [m] succeeds with [Q] if [c] is affordable with [n] free frames, and leaves the
    rest of the frames; otherwise it panics out of memory. *)
Definition total {A} (st : A → vm) (m : res A) (c n : budget) (Q : A → Prop) : Prop :=
  if affordable c n then ∃ r, m = Done r ∧ Q r ∧ left_over (st r) (less n c) else m = Panic OUT_OF_MEMORY.

Lemma costs_total {A} (st : A → vm) m c n Q : costs st m c n → runs m Q → total st m c n Q.
Proof.
  unfold costs, total. destruct (affordable c n); [|done]. intros (r & -> & Hl) HQ. by exists r.
Qed.
Lemma total_done {A} (st : A → vm) m c n Q : total st m c n Q → affordable c n = true → ∃ r, m = Done r ∧ Q r ∧ left_over (st r) (less n c).
Proof. unfold total. intros Ht Ha. by rewrite Ha in Ht. Qed.

(** ** The cost of a range *)

Definition zero_words : words := fun _ _ => 0.

(** On the last level: a frame for each page that is written *)
Definition leaf_cost (space : MemorySpace) (p q : Z) : budget :=
  match space with
  | Kernel => none
  | User => fun sp => match sp with Kernel => 0 | User => Z.min (upto p q) (p - p mod 512 + 512) - p end
  end.

(** The entries of a table from [i] on, [n] of them, each covering [w] pages: an
    empty one costs a table and what the empty table below it costs. *)
Fixpoint entries_cost (child_cost : words → Z → Z → Z → budget) (w : Z) (m : words) (a i p q : Z) (n : nat) : budget :=
  match n with
  | O => none
  | S n =>
      let hi := (p / w + 1) * w in
      plus (if entry_addr (m a i) =? 0 then plus (one Kernel) (child_cost zero_words 0 p q)
            else child_cost m (entry_addr (m a i)) p q)
           (if q <=? hi then none else entries_cost child_cost w m a (i + 1) hi q n)
  end.

Fixpoint table_cost (space : MemorySpace) (level : nat) (m : words) (a p q : Z) {struct level} : budget :=
  match level with
  | S (S _ as level') =>
      let i := p / span level' mod 512 in
      entries_cost (table_cost space level') (span level') m a i p q (Z.to_nat (512 - i))
  | _ => leaf_cost space p q
  end.

Lemma table_cost_S space l m a p q :
  table_cost space (S (S l)) m a p q =
    let i := p / span (S l) mod 512 in entries_cost (table_cost space (S l)) (span (S l)) m a i p q (Z.to_nat (512 - i)).
Proof. reflexivity. Qed.

Lemma next_child w p : 0 < w → p < (p / w + 1) * w.
Proof. intros Hw. pose proof (Z.mul_succ_div_gt p w Hw). lia. Qed.

Lemma leaf_cost_nonneg space p q sp : p < q → 0 ≤ leaf_cost space p q sp.
Proof.
  intros Hp. destruct space, sp; cbn [leaf_cost]; try (unfold none; lia). pose proof (upto_ge p q). pose proof (Z.mod_pos_bound p 512 ltac:(done)). lia.
Qed.

Lemma entries_cost_nonneg cost w m a n sp : 0 < w → (∀ m a p q, p < q → 0 ≤ cost m a p q sp) →
  ∀ i p q, p < q → 0 ≤ entries_cost cost w m a i p q n sp.
Proof.
  intros Hw Hcost. induction n as [|n IH]; intros i p q Hp; [done|]. cbn [entries_cost]. cbn zeta. unfold plus at 1.
  apply Z.add_nonneg_nonneg.
  - destruct (_ =? 0); [|by apply Hcost]. unfold plus. specialize (Hcost zero_words 0 p q Hp).
    unfold one. case_decide; lia.
  - destruct (Z.leb_spec q ((p / w + 1) * w)); [done|]. by apply IH.
Qed.

Lemma table_cost_nonneg space l sp : ∀ m a p q, p < q → 0 ≤ table_cost space l m a p q sp.
Proof.
  induction l as [|[|l] IH]; intros m a p q Hp; [by apply leaf_cost_nonneg..|].
  rewrite table_cost_S. cbn zeta. apply entries_cost_nonneg; [apply span_pos|exact IH|done].
Qed.

(** The cost depends on the entries of the tables only. *)
Lemma entries_cost_ext cost cost' w m a m' a' n : ∀ i p q,
  (∀ j, i ≤ j < i + Z.of_nat n → entry_addr (m' a' j) = 0 ↔ entry_addr (m a j) = 0) →
  (∀ j p, i ≤ j < i + Z.of_nat n → entry_addr (m a j) ≠ 0 → ∀ sp, cost' m' (entry_addr (m' a' j)) p q sp = cost m (entry_addr (m a j)) p q sp) →
  (∀ p sp, cost' zero_words 0 p q sp = cost zero_words 0 p q sp) →
  ∀ sp, entries_cost cost' w m' a' i p q n sp = entries_cost cost w m a i p q n sp.
Proof.
  induction n as [|n IH]; intros i p q Hz Hc H0' sp; [done|]. cbn [entries_cost]. cbn zeta. unfold plus at 1 3. f_equal.
  - destruct (Z.eqb_spec (entry_addr (m a i)) 0) as [He|He], (Z.eqb_spec (entry_addr (m' a' i)) 0) as [He'|He'].
    + unfold plus. by rewrite H0'.
    + apply Hz in He; [done|lia].
    + apply Hz in He'; [done|lia].
    + apply Hc; [lia|done].
  - destruct (q <=? _); [done|]. apply IH; [intros j Hj; apply Hz; lia|intros j p' Hj; apply Hc; lia|done].
Qed.

Lemma table_cost_frame space l : ∀ m m' a B O f p q sp,
  tree l m a B O f → (∀ x i, O x → m' x i = m x i) → table_cost space l m' a p q sp = table_cost space l m a p q sp.
Proof.
  induction l as [|[|l] IH]; intros m m' a B O f p q sp Ht Hm; [done|done|].
  destruct (proj1 (tree_node _ _ _ _ _ _) Ht) as (Os & HO & _ & _ & Hch). rewrite !table_cost_S. cbn zeta.
  pose proof (Z.mod_pos_bound (p / span (S l)) 512 ltac:(done)) as Hi. set (i := p / span (S l) mod 512) in *.
  assert (∀ j, m' a j = m a j) as Hroot by (intros j; apply Hm; by eapply tree_root).
  apply entries_cost_ext; [intros j _; by rewrite Hroot| |done].
  intros j p' Hj Hne sp'. rewrite Hroot. specialize (Hch j ltac:(lia) I). unfold child in Hch.
  rewrite (proj2 (Z.eqb_neq _ _)) in Hch by done. eapply IH; [exact (proj2 Hch)|].
  intros x k Hx. apply Hm, HO. right. exists j. split; [lia|done].
Qed.

Lemma table_cost_zero space l m a p q sp :
  (∀ j, 0 ≤ j < 512 → m a j = 0) → table_cost space l m a p q sp = table_cost space l zero_words 0 p q sp.
Proof.
  intros Hm. destruct l as [|[|l]]; [done|done|]. rewrite !table_cost_S. cbn zeta.
  pose proof (Z.mod_pos_bound (p / span (S l)) 512 ltac:(done)) as Hi. set (i := p / span (S l) mod 512) in *.
  apply entries_cost_ext; [intros j Hj; by rewrite Hm by lia|intros j p' Hj Hne; by rewrite entry_addr_zero in Hne|done].
Qed.

(** ** Each step takes what it costs *)

Lemma next_table_costs table i s n : left_over s n →
  costs snd (next_table table i s) (if entry_addr (ptes s table i) =? 0 then one Kernel else none) n.
Proof.
  intros Hl. unfold next_table. destruct (Z.eqb_spec (entry_addr (ptes s table i)) 0) as [He|He].
  2:{ rewrite table_ref_ok, res_bind_ret_l by done. by eapply costs_done. }
  apply costs_proper with (c := plus (one Kernel) none); [intros sp; unfold plus, none; lia|].
  eapply costs_bind; [by apply alloc_frame_costs|done|]. intros [fr s1] Hr Hl1.
  pose proof Hl as (F & HF & _). pose proof (alloc_frame_ok Kernel s F HF) as Hok. rewrite Hr in Hok.
  destruct Hok as (_ & Hnz & _). cbn [fst snd] in *.
  destruct (set_frame_ok (frame_addr fr) TABLE_FLAGS) as (e & -> & Hea & _); [apply frame_addr_valid|apply table_flags_ok|].
  rewrite res_bind_ret_l, Hea, table_ref_ok, res_bind_ret_l by done. by eapply costs_done.
Qed.

(** The cost of a table that [next_table] returns *)
Lemma next_table_cost_of space l table i s t s1 p q sp : next_table table i s = Done (t, s1) →
  table_cost space l (ptes s1) t p q sp =
    (if entry_addr (ptes s table i) =? 0 then table_cost space l zero_words 0 p q
     else table_cost space l (ptes s) (entry_addr (ptes s table i)) p q) sp.
Proof.
  unfold next_table. destruct (Z.eqb_spec (entry_addr (ptes s table i)) 0) as [He|He].
  - destruct (alloc_frame Kernel s) as [[fr s']| | |]; try done. cbn. intros Hr.
    destruct (set_frame _ _) as [e| | |]; try done. cbn in Hr. unfold table_ref in Hr. destruct (entry_addr e =? 0); [done|].
    injection Hr as <- <-. apply table_cost_zero. intros j _. cbn. by rewrite Z.eqb_refl.
  - unfold table_ref. destruct (entry_addr (ptes s table i) =? 0) eqn:E; [by apply Z.eqb_eq in E|]. by intros [= <- <-].
Qed.

Lemma map_user_entries_costs start limit flags a l : ∀ k s n,
  flags_ok flags → left_over s n →
  costs id (map_user_entries (slots start k l) a limit flags s)
    (fun sp => match sp with Kernel => 0 | User => Z.max 0 (Z.min (Z.of_nat (k + l)) limit - Z.of_nat k) end) n.
Proof.
  induction l as [|l IH]; intros k s n Hfl Hl; cbn [slots seq map map_user_entries].
  { eapply costs_proper; [|by eapply costs_done]. intros []; unfold none; cbn -[Z.of_nat Z.max Z.min Z.add Z.sub]; lia. }
  destruct (Z.leb_spec limit (Z.of_nat k)) as [Hlim|Hlim].
  { eapply costs_proper; [|by eapply costs_done]. intros []; unfold none; cbn -[Z.of_nat Z.max Z.min Z.add Z.sub]; lia. }
  eapply costs_proper; [|eapply costs_bind; [by apply alloc_frame_costs| |]].
  2:{ intros sp. instantiate (1 := fun sp => match sp with Kernel => 0 | User => Z.max 0 (Z.min (Z.of_nat (S k + l)) limit - Z.of_nat (S k)) end).
      destruct sp; lia. }
  - intros []; unfold plus, one; case_decide; try done; cbn -[Z.of_nat Z.max Z.min Z.add Z.sub]; lia.
  - intros [fr s1] _ Hl1. cbn [fst snd]. destruct (set_frame_ok (frame_addr fr) flags) as (e & -> & _); [apply frame_addr_valid|done|].
    rewrite res_bind_ret_l. by apply IH.
Qed.

Lemma map_leaf_costs a ps space flags s n :
  0 ≤ pn (pstart ps) < pn (pend ps) → pn (pend ps) < LOWER_HALF → flags_ok flags → left_over s n →
  costs snd (map_in_table 1 a ps space flags s) (leaf_cost space (pn (pstart ps)) (pn (pend ps))) n.
Proof.
  intros Hpq Hq Hfl Hl. rewrite map_leaf_eq by done. cbn zeta.
  set (p := pn (pstart ps)) in *. set (q := pn (pend ps)) in *. pose proof (Z.mod_pos_bound p 512 ltac:(done)) as Hi.
  set (i := p mod 512) in *. unfold LOWER_HALF in *. destruct space.
  - destruct (map_kernel_entries_ok i (i + Z.min (q - p) (512 - i)) flags a p (Z.to_nat (512 - i)) 0 s) as (s' & Hrun & Hfr & _);
      [lia|lia|unfold LOWER_HALF, i; Z.to_euclidean_division_equations; lia|done|].
    cbn [Nat.add Z.of_nat] in Hrun. rewrite Z.add_0_r in Hrun. rewrite Hrun, res_bind_ret_l. eapply costs_done; [done|].
    destruct Hl as (F & HF & Hc). exists F. split; [cbn [snd]; by rewrite Hfr|done].
  - eapply costs_proper with (c := plus _ none); [|eapply costs_bind; [by apply map_user_entries_costs|done|]].
    + intros []; unfold plus, none; cbn [leaf_cost]; [lia|]. unfold upto. fold i. case_Z; lia.
    + intros s' _ Hl'. by eapply costs_done.
Qed.
(** What the recursive call costs for a child *)
Definition costs_child (l : nat) (space : MemorySpace) (flags : Z) (rec : Z → pages → vm → res (Z * vm)) : Prop :=
  ∀ a B O f F ps s n, mappable l a B O f F (pn (pstart ps)) (pn (pend ps)) flags s → left_over s n →
    costs snd (rec a ps s) (table_cost space l (ptes s) a (pn (pstart ps)) (pn (pend ps))) n.

(** The first entry's part of [entries_cost] *)
Definition entry_cost (space : MemorySpace) (l : nat) (m : words) (a i p q : Z) : budget :=
  if entry_addr (m a i) =? 0 then plus (one Kernel) (table_cost space l zero_words 0 p q)
  else table_cost space l m (entry_addr (m a i)) p q.

Lemma map_round_costs live l space flags rec a B i Os f F ps s n :
  costs_child (S l) space flags rec → node_on live (S l) (ptes s) a B Os f → pool_holds (frames s) F →
  (∀ x, owned a Os x → ¬ fresh F x) → (span (S (S l)) | B) → 0 ≤ i < 512 → live i →
  B + i * span (S l) ≤ pn (pstart ps) < B + (i + 1) * span (S l) → 0 ≤ pn (pstart ps) < pn (pend ps) →
  pn (pend ps) < LOWER_HALF → flags_ok flags → left_over s n →
  costs snd (ts ← next_table a i s; rec ts.1 ps ts.2) (entry_cost space (S l) (ptes s) a i (pn (pstart ps)) (pn (pend ps))) n.
Proof.
  intros Hrec Hn HF Hsep HB Hi Hlive Hp Hpq Hq Hfl Hl. set (p := pn (pstart ps)) in *. set (q := pn (pend ps)) in *.
  set (below := if entry_addr (ptes s a i) =? 0 then table_cost space (S l) zero_words 0 p q
                else table_cost space (S l) (ptes s) (entry_addr (ptes s a i)) p q).
  apply costs_proper with (c := plus (if entry_addr (ptes s a i) =? 0 then one Kernel else none) below).
  { intros sp. unfold entry_cost, below, plus, none. by destruct (_ =? 0). }
  eapply costs_bind; [by apply next_table_costs| |].
  { intros sp. unfold below. destruct (_ =? 0); (apply table_cost_nonneg; lia). }
  intros [t s1] Hr Hl1. pose proof (next_table_ok live l s a B Os f F i Hn HF Hsep Hi Hlive) as Hok. rewrite Hr in Hok.
  destruct Hok as (Os1 & F1 & Hn1 & Hg1 & Ht & Hnz & _ & _). cbn [fst snd] in *.
  pose proof Hg1 as (HF1 & _ & _ & _ & Hsep1 & _).
  apply costs_proper with (c := table_cost space (S l) (ptes s1) t p q).
  { intros sp. unfold below. rewrite (next_table_cost_of space (S l) a i s t s1 p q sp Hr). by destruct (_ =? 0). }
  apply (Hrec t (B + i * span (S l)) (Os1 i) f F1 ps s1); [|exact Hl1].
  rewrite <-Ht. apply (child_mappable live l a B i); rewrite ?Ht; done || lia.
Qed.

(** A range within one entry *)
Lemma map_one_entry_costs live l space flags a B i Os f F ps s n : (S l < 8)%nat →
  costs_child (S l) space flags (fun t ps s => map_in_table (S l) t ps space flags s) →
  node_on live (S l) (ptes s) a B Os f → pool_holds (frames s) F → (∀ x, owned a Os x → ¬ fresh F x) → (span (S (S l)) | B) →
  0 ≤ i < 512 → live i → B + i * span (S l) ≤ pn (pstart ps) < B + (i + 1) * span (S l) → 0 ≤ pn (pstart ps) < pn (pend ps) →
  pn (pend ps) ≤ B + (i + 1) * span (S l) → pn (pend ps) < LOWER_HALF → flags_ok flags → left_over s n →
  costs snd (map_in_table (S (S l)) a ps space flags s) (entry_cost space (S l) (ptes s) a i (pn (pstart ps)) (pn (pend ps))) n.
Proof.
  intros Hl Hrec Hn HF Hsep HB Hi Hlive Hp Hpq Hend Hq Hfl Hleft. rewrite (map_one_entry_eq l a B i) by done.
  eapply costs_proper with (c := plus _ none); cycle 1.
  - eapply costs_bind; [by eapply (map_round_costs live l space flags _ a B i Os f F ps s n Hrec)|done|].
    intros r Hr Hl1. pose proof (map_round_ok live l space flags _ a B i Os f F ps s (map_in_table_ok l space flags ltac:(lia))
      Hn HF Hsep HB Hi Hlive Hp Hpq Hq Hfl) as Hok.
    cbn beta in Hr, Hok. rewrite Hr in Hok. destruct Hok as [Hn1 _]. rewrite Z.min_l in Hn1 by done. rewrite map_rest_last by done. by eapply costs_done.
  - intros sp. unfold plus, none. lia.
Qed.

Lemma entries_cost_others l space a i Os B f s s' n p q :
  node (S l) (ptes s) a B Os f → others a i Os s s' → 0 ≤ i → i + 1 + Z.of_nat n = 512 →
  ∀ sp, entries_cost (table_cost space (S l)) (span (S l)) (ptes s') a (i + 1) p q n sp =
        entries_cost (table_cost space (S l)) (span (S l)) (ptes s) a (i + 1) p q n sp.
Proof.
  intros (_ & _ & Hch) Hoth Hi Hn sp. apply entries_cost_ext; [| |done].
  - intros j Hj. by rewrite (proj1 (Hoth j ltac:(lia) ltac:(lia))).
  - intros j p' Hj Hne sp'. destruct (Hoth j ltac:(lia) ltac:(lia)) as [Hj' Hx]. rewrite Hj'.
    destruct (child_tree _ _ _ _ _ _ _ (Hch j ltac:(lia) I) Hne) as [_ Ht]. by eapply table_cost_frame.
Qed.

(** Where the next child begins *)
Lemma next_child_eq l B i p : (span (S (S l)) | B) → B + i * span (S l) ≤ p < B + (i + 1) * span (S l) →
  (p / span (S l) + 1) * span (S l) = B + (i + 1) * span (S l).
Proof.
  rewrite span_S. intros [k ->] Hp. replace (p / span (S l)) with (k * 512 + i); [ring|].
  apply (Z.div_unique _ _ _ (p - (k * 512 + i) * span (S l))); [left; lia|ring].
Qed.

Lemma map_entries_costs l space flags rec a B k : maps_child (S l) space flags rec → costs_child (S l) space flags rec →
  (span (S (S l)) | B) →
  ∀ i Os f F ps total s n, i + Z.of_nat k = 512 → 0 ≤ i → node (S l) (ptes s) a B Os f → pool_holds (frames s) F →
  (∀ x, owned a Os x → ¬ fresh F x) → (k ≠ 0%nat → B + i * span (S l) ≤ pn (pstart ps) < B + (i + 1) * span (S l)) →
  0 ≤ pn (pstart ps) < pn (pend ps) → pn (pend ps) < LOWER_HALF → flags_ok flags → 0 ≤ B →
  0 ≤ total → total + pn (pend ps) < LOWER_HALF + pn (pstart ps) → left_over s n →
  costs snd (map_entries rec (seqZ i (Z.of_nat k)) a ps total s)
    (entries_cost (table_cost space (S l)) (span (S l)) (ptes s) a i (pn (pstart ps)) (pn (pend ps)) k) n.
Proof.
  intros Hmaps Hcosts HB. pose proof (span_pos (S l)) as Hsp.
  induction k as [|k IH]; intros i Os f F ps total s n Hik Hi Hn HF Hsep Hin Hpq Hq Hfl HB0 Ht Htot Hl.
  { change (seqZ i (Z.of_nat 0)) with (@nil Z). cbn [map_entries entries_cost]. by eapply costs_done. }
  specialize (Hin ltac:(done)). rewrite seqZ_cons by lia. cbn [map_entries entries_cost]. cbn zeta.
  rewrite Nat2Z.inj_succ, Z.pred_succ, (next_child_eq l B i) by done.
  set (p := pn (pstart ps)) in *. set (q := pn (pend ps)) in *. set (hi := B + (i + 1) * span (S l)) in *.
  rewrite <-(res_bind_assoc (next_table a i s) (fun ts => rec ts.1 ps ts.2)).
  eapply costs_bind; [apply (map_round_costs all l space flags rec a B i Os f F ps s n Hcosts); try done; lia| |].
  { intros sp. destruct (Z.leb_spec q hi); [done|]. apply entries_cost_nonneg; [done|by apply table_cost_nonneg|lia]. }
  intros [n1 s1] Hr Hl1.
  pose proof (map_round_ok all l space flags rec a B i Os f F ps s Hmaps Hn HF Hsep HB ltac:(lia) I Hin Hpq Hq Hfl) as Hok.
  rewrite Hr in Hok. destruct Hok as [Hn1 (Os1 & F1 & f1 & g1 & Hnode1 & Hg1 & _ & _ & _ & Hoth)].
  cbn [fst snd] in *. fold p q hi in Hn1. unfold LOWER_HALF in *.
  destruct (page_add_ok (pstart ps) n1) as (start & Hadd & Hpn); [lia|fold p; unfold LOWER_HALF; lia|].
  fold p in Hpn. rewrite Hadd, res_bind_ret_l. rewrite add_w_ok, res_bind_ret_l by lia.
  rewrite page_geb_spec. fold q. rewrite Hpn, Hn1.
  assert ((q <=? p + (Z.min q hi - p)) = (q <=? hi)) as -> by (apply eq_true_iff_eq; rewrite !Z.leb_le; lia).
  destruct (Z.leb_spec q hi) as [Hdone|Hmore]; [by eapply costs_done|].
  assert (pn start = hi) as Hstart by lia. clear Hpn. pose proof Hg1 as (HF1 & _ & _ & _ & Hsep1 & _).
  apply costs_proper with (c := entries_cost (table_cost space (S l)) (span (S l)) (ptes s1) a (i + 1) hi q k).
  { intros sp. eapply entries_cost_others; [exact Hn|exact Hoth|done|lia]. }
  pose proof (IH (i + 1) Os1 f1 F1 (mkPages start (pend ps)) (total + n1) s1) as Hrest. cbn [pstart pend] in Hrest.
  rewrite Hstart in Hrest. fold q in Hrest. rewrite <-Hn1. change (Z.succ i) with (i + 1).
  apply Hrest; try done; try lia.
Qed.

(** Mapping on every level costs what [table_cost] computes. *)
Lemma map_in_table_costs l space flags : (l < 8)%nat →
  costs_child (S l) space flags (fun t ps s => map_in_table (S l) t ps space flags s).
Proof.
  induction l as [|l IH]; intros Hl a B O f F ps s n Hm Hleft.
  { destruct Hm as (_ & _ & _ & _ & _ & Hpq & Hq & Hfl). by apply map_leaf_costs. }
  pose proof Hm as (Ht & HF & Hsep & HB & Hp & Hpq & Hq & Hfl). destruct (proj1 (tree_node _ _ _ _ _ _) Ht) as (Os & HO & Hn).
  cbn [map_in_table]. rewrite page_table_index_ok, res_bind_ret_l by done.
  set (p := pn (pstart ps)) in *. pose proof (span_pos (S l)) as Hsp. pose proof (span_S (S l)) as HspSS.
  destruct (index_range B (span (S l)) p Hsp) as [Hi Hpi]; [by rewrite <-HspSS|].
  rewrite table_cost_S. cbn zeta. rewrite (index_in_table B (span (S l)) ((p - B) / span (S l)) p) by (done || by rewrite <-HspSS).
  set (i := (p - B) / span (S l)) in *. unfold skip.
  replace (512 - i) with (Z.of_nat (Z.to_nat (512 - i))) at 1 by lia.
  apply (map_entries_costs l space flags _ a B (Z.to_nat (512 - i)) (map_in_table_ok l space flags ltac:(lia)) (IH ltac:(lia)) HB i Os f F);
    fold p; try done; try lia.
  - intros x Hx. by apply Hsep, HO.
  - apply (multiple_nonneg (span (S (S l)))); [by apply span_pos|done|lia].
Qed.
(** ** Empty tables *)

(** The number of tables of level [k] that the pages from [p] to [q] belong to, and
    of tables on the levels 1 to [l] *)
Definition tables_at (k : nat) (p q : Z) : Z := (q - 1) / span k - p / span k + 1.
Fixpoint tables (l : nat) (p q : Z) : Z :=
  match l with O => 0 | S l' => tables_at l p q + tables l' p q end.

Lemma tables_at_add k p m q : (span k | m) → tables_at k p m + tables_at k m q = tables_at k p q.
Proof.
  intros [c ->]. pose proof (span_pos k) as Hs. unfold tables_at. rewrite Z.div_mul by lia.
  replace ((c * span k - 1) / span k) with (c - 1); [lia|]. apply (Z.div_unique _ _ _ (span k - 1)); [left; lia|ring].
Qed.
Lemma tables_add l p m q : (span l | m) → tables l p m + tables l m q = tables l p q.
Proof.
  induction l as [|l IH]; intros Hm; [done|]. cbn [tables].
  rewrite <-(tables_at_add (S l) p m q Hm), <-IH; [lia|]. destruct Hm as [c ->]. exists (c * 512). rewrite span_S. ring.
Qed.
Lemma tables_at_one k u p q : u * span k ≤ p → p < q → q ≤ (u + 1) * span k → tables_at k p q = 1.
Proof.
  intros Hp Hpq Hq. pose proof (span_pos k). unfold tables_at.
  replace (p / span k) with u by (apply (Z.div_unique _ _ _ (p - u * span k)); [left; lia|ring]).
  replace ((q - 1) / span k) with u by (apply (Z.div_unique _ _ _ (q - 1 - u * span k)); [left; lia|ring]). lia.
Qed.

Lemma blank_entries_cost l n : (∀ p q, p < q → table_cost Kernel (S l) zero_words 0 p q Kernel =
    tables l p (Z.min q ((p / span (S l) + 1) * span (S l)))) →
  ∀ u p q, u * span (S l) ≤ p < (u + 1) * span (S l) → p < q → u mod 512 + Z.of_nat n = 512 →
  entries_cost (table_cost Kernel (S l)) (span (S l)) zero_words 0 (u mod 512) p q n Kernel =
    tables (S l) p (Z.min q ((u / 512 + 1) * 512 * span (S l))).
Proof.
  intros Hchild. set (w := span (S l)) in *. pose proof (span_pos (S l)) as Hw. fold w in Hw.
  induction n as [|n IH]; intros u p q Hp Hpq Hn; [pose proof (Z.mod_pos_bound u 512 ltac:(done)); lia|].
  cbn [entries_cost]. cbn zeta. unfold zero_words at 1. rewrite entry_addr_zero. cbn [Z.eqb].
  unfold plus, one. rewrite decide_True by done. rewrite Hchild by done. fold w.
  replace (p / w) with u by (apply (Z.div_unique _ _ _ (p - u * w)); [left; lia|ring]).
  pose proof (Z.div_mod u 512 ltac:(done)) as Hdm. pose proof (Z.mod_pos_bound u 512 ltac:(done)) as Hmod.
  assert ((u + 1) * w ≤ (u / 512 + 1) * 512 * w) as Hend by (apply Z.mul_le_mono_nonneg_r; lia).
  destruct (Z.leb_spec q ((u + 1) * w)) as [Hq|Hq].
  - rewrite !Z.min_l by lia. cbn [tables]. rewrite (tables_at_one (S l) u) by (fold w; lia). unfold none. lia.
  - rewrite Z.min_r by lia. destruct n as [|n].
    + replace ((u / 512 + 1) * 512) with (u + 1) by lia. rewrite Z.min_r by lia. cbn [tables entries_cost].
      rewrite (tables_at_one (S l) u) by (fold w; lia). unfold none. lia.
    + assert ((u + 1) mod 512 = u mod 512 + 1 ∧ (u + 1) / 512 = u / 512) as [Hm Hd].
      { split; symmetry; [apply (Z.mod_unique_pos _ _ (u / 512))|apply (Z.div_unique _ _ _ (u mod 512 + 1)); [left|]]; lia. }
      assert ((u + 1) * w < (u + 1 + 1) * w) as Hnext by (apply Z.mul_lt_mono_pos_r; lia).
      pose proof (IH (u + 1) ((u + 1) * w) q ltac:(lia) ltac:(lia) ltac:(lia)) as Hrest. rewrite Hm, Hd in Hrest. rewrite Hrest.
      set (e := Z.min q _). rewrite <-(tables_add (S l) p ((u + 1) * w) e) by (exists (u + 1); done).
      cbn [tables]. rewrite (tables_at_one (S l) u p) by (fold w; lia). lia.
Qed.

Lemma blank_cost l : ∀ p q, p < q → table_cost Kernel (S l) zero_words 0 p q Kernel =
  tables l p (Z.min q ((p / span (S l) + 1) * span (S l))).
Proof.
  induction l as [|l IH]; intros p q Hpq; [done|]. rewrite table_cost_S. cbn zeta.
  pose proof (span_pos (S l)) as Hw. pose proof (Z.mod_pos_bound (p / span (S l)) 512 ltac:(done)) as Hmod.
  rewrite (blank_entries_cost l _ IH (p / span (S l)) p q).
  - rewrite (span_S (S l)). rewrite (Z.mul_comm 512), <-Z.div_div by lia. f_equal. f_equal. ring.
  - pose proof (Z.mul_div_le p _ Hw). pose proof (Z.mul_succ_div_gt p _ Hw). lia.
  - done.
  - lia.
Qed.

(** Tables that exist already only save frames. *)
Lemma kernel_cost_blank l : ∀ m a p q, p < q → table_cost Kernel l m a p q Kernel ≤ table_cost Kernel l zero_words 0 p q Kernel.
Proof.
  induction l as [|[|l] IH]; intros m a p q Hpq; [done|done|]. rewrite !table_cost_S. cbn zeta.
  generalize (Z.to_nat (512 - p / span (S l) mod 512)). generalize (p / span (S l) mod 512). intros i n. revert p i Hpq.
  induction n as [|n IHn]; intros p i Hpq; [done|]. cbn [entries_cost]. cbn zeta. unfold plus at 1 3. apply Z.add_le_mono.
  - unfold zero_words at 2. rewrite entry_addr_zero. cbn [Z.eqb]. specialize (IH m (entry_addr (m a i)) p q Hpq).
    destruct (entry_addr (m a i) =? 0); [done|]. unfold plus, one. rewrite decide_True by done. lia.
  - destruct (Z.leb_spec q ((p / span (S l) + 1) * span (S l))); [done|]. by apply IHn.
Qed.
Lemma kernel_cost_tables l m a p q : p < q → table_cost Kernel (S l) m a p q Kernel ≤ tables l p q.
Proof.
  intros Hpq. etransitivity; [by apply kernel_cost_blank|]. rewrite blank_cost by done.
  assert (∀ k, p < k → k ≤ q → tables l p k ≤ tables l p q) as Hmono.
  { intros k _ Hk. clear Hpq. induction l as [|l IH]; [done|]. cbn [tables]. unfold tables_at. pose proof (span_pos (S l)).
    pose proof (Z.div_le_mono (k - 1) (q - 1) (span (S l)) ltac:(lia) ltac:(lia)). lia. }
  pose proof (span_pos (S l)). apply Hmono; [|lia]. pose proof (next_child (span (S l)) p ltac:(done)). lia.
Qed.

(** Mapping for the kernel takes no frames of the users. *)
Lemma kernel_cost_user l : ∀ m a p q, table_cost Kernel l m a p q User = 0.
Proof.
  induction l as [|[|l] IH]; intros m a p q; [done|done|]. rewrite table_cost_S. cbn zeta.
  generalize (Z.to_nat (512 - p / span (S l) mod 512)). generalize (p / span (S l) mod 512). intros i n. revert p i.
  induction n as [|n IHn]; intros p i; [done|]. cbn [entries_cost]. cbn zeta. unfold plus at 1.
  assert ((if entry_addr (m a i) =? 0 then plus (one Kernel) (table_cost Kernel (S l) zero_words 0 p q)
           else table_cost Kernel (S l) m (entry_addr (m a i)) p q) User = 0) as ->.
  { destruct (_ =? 0); [unfold plus; by rewrite IH|by rewrite IH]. }
  destruct (_ <=? _); [done|by rewrite IHn].
Qed.
End Count.
