(* ===== verification/PagingAlloc.v ===== *)
(** * Page frames for the page tables

    Physical.v implements the interface [FrameAllocator] that the paging code is
    proved against, and concrete pages and page table entries for the witnesses. *)

From S2P Require Import Prelude Counting Frames PageFrameList Physical Paging PagingMap PagingCount.
From Stdlib Require Import Eqdep_dec.
#[local] Open Scope Z_scope.

Section Allocator.
Context `{PhysFrameOps} `{!PhysFrameLaws} `{Profile}.

(** How the compiler lays a node out in the words of its frame *)
Class NodeLayout := node_words : PageFrameNode → Z → option Z.
Context `{NodeLayout}.

(** The words that change with the nodes of the lists; nodes lie at the start of
    frames. *)
Definition node_step (st st' : phys_state) (m : words) (a i : Z) : Z :=
  if valid_frame_addr a && bool_decide (node_mem st' !! a ≠ node_mem st !! a) then
    match node_mem st' !! a with Some n => default (m a i) (node_words n i) | None => m a i end
  else m a i.

(** The free frames of the lists of blocks [L] *)
Definition free_frame (L : MemorySpace → list block) (sp : MemorySpace) (a : Z) : Prop :=
  valid_frame_addr a = true ∧ covers (L sp) a.

#[export] Instance phys_allocator : FrameAllocator := {|
  pool := phys_state;
  alloc_page_frame sp st := '(r, st) ← alloc st 1 sp; Done (start r, st);
  nodes_in := node_step;
  pool_holds st F := ∃ limit L, phys_ok st limit L ∧ ∀ sp a, F sp a ↔ free_frame L sp a;
|}.

Lemma valid_in_range r a :
  range_count r = 1 → valid_frame_addr a = true → in_range r a ↔ a = frame_addr (start r).
Proof.
  intros Hc (_ & Ha)%valid_frame_addr_spec. pose proof (range_count_nonneg r).
  assert (frame_addr (start r) ≤ frame_addr (end_ r)) as Hle.
  { unfold range_count in Hc. rewrite frame_range_count_spec in Hc. destruct (Z.le_gt_cases (frame_addr (start r)) (frame_addr (end_ r))); [done|].
    assert ((frame_addr (end_ r) - frame_addr (start r)) / FRAME_SIZE < 0); [|lia].
    apply Z.div_lt_upper_bound; unfold FRAME_SIZE; lia. }
  pose proof (range_count_end r Hle) as Hend. destruct (frame_addr_aligned (start r)) as [k Hk].
  apply Z.mod_divide in Ha as [j ->]; [|done]. unfold in_range. rewrite Hend, Hk, Hc. unfold FRAME_SIZE. lia.
Qed.

(** Which block serves a request for one frame *)
Lemma list_of_blocks l : wf l → l = [] ∨ ∃ b l2, l = b :: l2 ∧ 0 ≤ 1 ≤ b.2 ∧ block_ok b.
Proof.
  intros Hwf. destruct l as [|b l2]; [by left|right]. destruct Hwf as (_ & Hb & _). exists b, l2.
  split_and!; [done|lia| |done]. destruct Hb as (_ & _ & ? & _). lia.
Qed.

Lemma alloc_empty st limit L sp : phys_ok st limit L → L sp = [] → alloc st 1 sp = Panic OUT_OF_MEMORY.
Proof.
  intros Hok HL. destruct (proj2 Hok sp) as (Hs & Hwf & _). rewrite HL in Hs, Hwf.
  by rewrite alloc_eq, (alloc_block_out_of_memory _ [] 1 Hs Hwf).
Qed.

(** The free frames are those of the lists in memory. *)
Lemma seg_unique m l : ∀ o l', seg m o l → seg m o l' → l = l'.
Proof.
  induction l as [|b l IH]; intros o [|b' l']; cbn; [done|by intros -> [? _]|by intros [-> _] ?|].
  intros [-> (nx & Hn & Hl)] [[= Hb] (nx' & Hn' & Hl')]. rewrite Hb, Hn' in Hn. injection Hn as Hc ->.
  destruct b, b'; cbn in *; subst. f_equal. by eapply IH.
Qed.

Lemma phys_allocator_ok sp st F : pool_holds st F →
  runs (alloc_page_frame sp st) (fun r => F sp (frame_addr r.1) ∧ frame_addr r.1 ≠ 0 ∧
      pool_holds r.2 (fun sp' a => F sp' a ∧ a ≠ frame_addr r.1) ∧
      ∀ m a i, (∀ sp', ¬ F sp' a) → nodes_in st r.2 m a i = m a i).
Proof.
  intros (limit & L & Hok & HF). cbn [alloc_page_frame phys_allocator].
  destruct (list_of_blocks (L sp)) as [HL|(b & l2 & HL & Hb & Hbok)]; [apply Hok| |].
  { by rewrite (alloc_empty st limit L sp). }
  destruct (alloc_sound st limit L sp 1 [] b l2 Hok HL Hb (List.Forall_nil _))
    as (r & st' & l' & -> & Hok' & Hst & Hc & Hcov & Hdis & Hmem). rewrite res_bind_ret_l.
  cbn [runs fst snd pool_holds nodes_in phys_allocator].
  assert (covers (L sp) (frame_addr (start r))) as Hfree.
  { apply Hcov. left. by apply valid_in_range; [|apply frame_addr_valid|]. }
  split_and!; [|rewrite Hst; destruct Hbok as (_ & ? & _); lia| |].
  - apply HF. split; [apply frame_addr_valid|done].
  - exists limit, (set_blocks L sp l'). split; [done|]. intros sp' a. rewrite HF. unfold free_frame.
    rewrite set_blocks_covers. split.
    + intros ([Hv Hca] & Hne). split; [done|]. destruct (decide (sp' = sp)) as [->|]; [left|by right].
      apply Hcov in Hca as [Hin|]; [|done]. by apply valid_in_range in Hin.
    + intros (Hv & [[-> Hl']|[Hne Hca]]).
      * split; [split; [done|apply Hcov; by right]|]. intros ->. apply (Hdis (frame_addr (start r))); [|done].
        by apply valid_in_range.
      * split; [done|]. intros ->. apply (zone_disjoint limit sp (frame_addr (start r))); [by apply Hok|].
        replace (other sp) with sp' by (by destruct sp, sp'). by apply Hok.
  - intros m a i Hnot. unfold node_step. destruct (valid_frame_addr a) eqn:Hv; [|done].
    rewrite bool_decide_eq_false_2; [done|]. intros Hne. apply Hne, Hmem. intros Hca. apply (Hnot sp), HF. done.
Qed.

(** The number of free frames of a list of blocks *)
Fixpoint frames_in (l : list block) : Z := match l with [] => 0 | b :: l => b.2 + frames_in l end.

Lemma count_covered l : ∀ lo, wf_from lo l → 0 ≤ lo → count (fun x => valid_frame_addr x = true ∧ covers l x) (frames_in l).
Proof.
  induction l as [|b l IH]; intros lo Hwf Hlo; [apply count_nil; by intros x [_ ?%covers_nil]|].
  destruct Hwf as (Hb & Hok & Hwf). pose proof (block_ok_lt b Hok) as Hlt. cbn [frames_in].
  destruct Hok as (Hv & Hb0 & Hn & Hend). destruct (proj1 (valid_frame_addr_spec _) Hv) as [_ Hal].
  apply Z.mod_divide in Hal as [k Hk]; [|done]. unfold block_end in *.
  assert (count (fun x => valid_frame_addr x = true ∧ b.1 ≤ x < b.1 + FRAME_SIZE * b.2) (k + b.2 - k)) as Hhere.
  { eapply count_proper; [|apply (frames_between k (k + b.2)); unfold FRAME_SIZE in *; lia].
    intros x. cbn. replace (FRAME_SIZE * k) with b.1 by lia. by replace (FRAME_SIZE * (k + b.2)) with (b.1 + FRAME_SIZE * b.2) by lia. }
  replace (k + b.2 - k) with b.2 in Hhere by lia.
  eapply count_proper; [|apply (count_or _ _ _ _) with (2 := Hhere) (3 := IH _ Hwf ltac:(lia))].
  - intros x. cbn. rewrite covers_cons. unfold block_end. tauto.
  - intros x [_ Hx] [_ (b' & Hb' & Hx')]. destruct (wf_from_block _ _ _ Hwf Hb'). lia.
Qed.

Lemma phys_left_over st limit L m : phys_ok st limit L →
  left_over (mkVm st m) (fun sp => frames_in (L sp)).
Proof.
  intros Hok. exists (free_frame L). split; [by exists limit, L|]. intros sp. by apply (count_covered _ 0); [apply Hok|].
Qed.

#[export] Instance phys_allocator_laws : FrameAllocatorLaws.
Proof.
  split.
  - apply phys_allocator_ok.
  - intros sp st F a (limit & L & Hok & HF) HFa. cbn [alloc_page_frame phys_allocator].
    destruct (list_of_blocks (L sp)) as [HL|(b & l2 & HL & Hb & _)]; [apply Hok| |].
    + apply HF in HFa as [_ Hc]. rewrite HL in Hc. by apply covers_nil in Hc.
    + by destruct (alloc_sound st limit L sp 1 [] b l2 Hok HL Hb (List.Forall_nil _)) as (r & st' & l' & -> & _).
  - intros sp st F (limit & L & Hok & HF) Hnone. cbn [alloc_page_frame phys_allocator].
    destruct (list_of_blocks (L sp)) as [HL|(b & l2 & HL & _ & Hbok)]; [apply Hok|by rewrite (alloc_empty st limit L sp)|].
    destruct (Hnone b.1). apply HF. split; [apply Hbok|]. apply block_ok_lt in Hbok. exists b. rewrite HL. split; [set_solver|lia].
  - intros st F sp sp' a (limit & L & Hok & HF) [_ Ha]%HF [_ Ha']%HF. apply Hok in Ha, Ha'.
    destruct sp, sp'; cbn in *; done || lia.
  - intros st F F' sp a (limit & L & Hok & HF) (limit' & L' & Hok' & HF') Ha. apply HF'. apply HF in Ha as [Hv Hc].
    split; [done|]. destruct (proj2 Hok sp) as (Hs & _), (proj2 Hok' sp) as (Hs' & _).
    by rewrite <-(seg_unique _ _ _ _ Hs Hs').
Qed.
End Allocator.

(** ** Concrete pages and entries *)

(** Pages with a canonical address, by number *)
Definition canonical_page (n : Z) : bool :=
  ((0 <=? n) && (n <? LOWER_HALF)) || ((2 ^ 52 - LOWER_HALF <=? n) && (n <? 2 ^ 52)).
Record page4k := Page4K { page_no : Z; page_valid : canonical_page page_no = true }.
Definition page4k_at (n : Z) : res page4k :=
  match canonical_page n as b return canonical_page n = b → res page4k with
  | true => fun H => Done (Page4K n H)
  | false => fun _ => Panic "address passed to VirtAddr::new must not contain any data in bits 48 to 64"
  end eq_refl.

Lemma page4k_at_valid n : canonical_page n = true → ∃ p, page4k_at n = Done p ∧ page_no p = n.
Proof.
  intros Hn. exists (Page4K n Hn). split; [|done]. unfold page4k_at.
  generalize (eq_refl (canonical_page n)). generalize (Page4K n). rewrite Hn. intros P E.
  by rewrite (UIP_dec bool_dec E eq_refl).
Qed.
Lemma lower_half_canonical n : 0 ≤ n < LOWER_HALF → canonical_page n = true.
Proof. intros Hn. unfold canonical_page. by rewrite (proj2 (Z.leb_le _ _)), (proj2 (Z.ltb_lt _ _)) by lia. Qed.
Lemma page_no_range p : 0 ≤ page_no p < 2 ^ 52.
Proof. destruct p as [n Hn]. cbn. unfold canonical_page, LOWER_HALF in Hn. repeat case_Z; cbn in Hn; done || lia. Qed.

Definition phys_addr_check (a : Z) : res Z :=
  if (0 <=? a) && (a <? 2 ^ 52) then Done a
  else Panic "physical addresses must not have any bits in the range 52 to 64 set".

#[export] Instance page_model : PageOps := {|
  Page := page4k;
  page_addr p := FRAME_SIZE * page_no p;
  page_containing a := page4k_at (a / FRAME_SIZE);
  page_from_start a := p ← page4k_at (a / FRAME_SIZE); Done (if a mod FRAME_SIZE =? 0 then Some p else None);
  virt_align_up a align := p ← page4k_at (round_up a align / FRAME_SIZE); Done (round_up a align);
  page_add p n := page4k_at (page_no p + n);
  page_cmp p q := (FRAME_SIZE * page_no p ?= FRAME_SIZE * page_no q);
  page_range_count p q := Z.max 0 (page_no q - page_no p);
  phys_new := phys_addr_check;
  phys_add a n := phys_addr_check (a + n);
|}.

Lemma pn_model (p : page4k) : pn p = page_no p.
Proof. unfold pn. cbn [page_addr page_model]. by rewrite Z.mul_comm, Z.div_mul. Qed.
Lemma phys_addr_check_ok a : 0 ≤ a < 2 ^ 52 → phys_addr_check a = Done a.
Proof. intros Ha. unfold phys_addr_check. by rewrite (proj2 (Z.leb_le _ _)), (proj2 (Z.ltb_lt _ _)) by lia. Qed.

Lemma page4k_of_address a : 0 ≤ a < FRAME_SIZE * LOWER_HALF → ∃ p, page4k_at (a / FRAME_SIZE) = Done p ∧ page_no p = a / FRAME_SIZE.
Proof.
  intros Ha. apply page4k_at_valid, lower_half_canonical.
  split; [apply Z.div_pos; [lia|done]|]. apply Z.div_lt_upper_bound; [done|lia].
Qed.

#[export] Instance page_model_laws : PageLaws.
Proof.
  split; intros; rewrite ?pn_model in *;
    cbn [page_addr page_containing page_from_start virt_align_up page_add page_cmp page_range_count phys_new phys_add page_model].
  - pose proof (page_no_range p). unfold FRAME_SIZE. lia.
  - done.
  - destruct (page4k_of_address a) as (p & -> & Hp); [done|]. exists p. by rewrite pn_model.
  - destruct (page4k_of_address a) as (p & -> & Hp); [done|]. exists p. by rewrite res_bind_ret_l, pn_model, H0.
  - destruct (page4k_of_address a) as (p & -> & Hp); [done|]. by rewrite res_bind_ret_l, (proj2 (Z.eqb_neq _ _)).
  - destruct (page4k_of_address (round_up a FRAME_SIZE)) as (p & -> & Hp); [|done]. split; [|done].
    unfold round_up. apply Z.mul_nonneg_nonneg; [apply Z.div_pos|]; unfold FRAME_SIZE; lia.
  - pose proof (page_no_range p). destruct (page4k_at_valid (page_no p + n)) as (q & -> & Hq).
    + apply lower_half_canonical. lia.
    + exists q. by rewrite pn_model.
  - done.
  - done.
  - by apply phys_addr_check_ok.
  - apply phys_addr_check_ok. lia.
Qed.

(** The bits of an entry that hold the address *)
Definition ADDR_MASK : Z := Z.ldiff (Z.ones 52) (Z.ones 12).
Definition word_of (a f : Z) : res Z :=
  if a mod FRAME_SIZE =? 0 then Done (Z.lor a f) else Panic "assertion failed: addr.is_aligned(Size4KiB::SIZE)".
#[export] Instance entry_model : EntryOps := {|
  is_unused e := e =? 0;
  entry_addr e := Z.land e ADDR_MASK;
  entry_flags e := Z.ldiff e ADDR_MASK;
  set_addr := word_of;
  set_frame a f := if Z.testbit f 7 then Panic "assertion failed: !flags.contains(PageTableFlags::HUGE_PAGE)" else word_of a f;
  flags_ok f := Z.land f ADDR_MASK = 0 ∧ Z.testbit f 7 = false;
|}.

Lemma ones_mul_div a n : 0 ≤ n → Z.ldiff a (Z.ones n) = a / 2 ^ n * 2 ^ n.
Proof. intros Hn. by rewrite Z.ldiff_ones_r, Z.shiftl_mul_pow2, Z.shiftr_div_pow2. Qed.
Lemma land_addr_mask a : Z.land a ADDR_MASK = Z.ldiff (a mod 2 ^ 52) (Z.ones 12).
Proof.
  rewrite <-(Z.land_ones a 52) by done. apply Z.bits_inj'. intros k Hk.
  unfold ADDR_MASK. by rewrite !Z.land_spec, !Z.ldiff_spec, Z.land_spec, andb_assoc.
Qed.
Lemma word_of_ok a f : valid_frame_addr a = true → Z.land f ADDR_MASK = 0 →
  word_of a f = Done (Z.lor a f) ∧ Z.land (Z.lor a f) ADDR_MASK = a ∧ Z.ldiff (Z.lor a f) ADDR_MASK = f.
Proof.
  intros [Ha Hal]%valid_frame_addr_spec Hf. unfold word_of. rewrite Hal. split; [done|].
  assert (Z.land a ADDR_MASK = a) as Hla.
  { rewrite land_addr_mask, ones_mul_div, Z.mod_small by done. change (2 ^ 12) with FRAME_SIZE.
    apply Z.mod_divide in Hal as [k ->]; [|done]. by rewrite Z.div_mul. }
  split; [by rewrite Z.land_lor_distr_l, Hla, Hf, Z.lor_0_r|]. 
  pose proof (Z.lor_ldiff_and a ADDR_MASK) as Hda. pose proof (Z.lor_ldiff_and f ADDR_MASK) as Hdf. rewrite Hf, Z.lor_0_r in Hdf.
  assert (Z.ldiff a ADDR_MASK = 0) as Hd by (rewrite <-Hla; apply Z.bits_inj'; intros k Hk; rewrite Z.ldiff_spec, Z.land_spec, Z.bits_0; by destruct (Z.testbit a k), (Z.testbit ADDR_MASK k)).
  rewrite <-Hdf at 2. apply Z.bits_inj'. intros k Hk. apply (f_equal (fun z => Z.testbit z k)) in Hd.
  rewrite Z.ldiff_spec, Z.bits_0 in Hd. rewrite !Z.ldiff_spec, Z.lor_spec.
  by destruct (Z.testbit a k), (Z.testbit f k), (Z.testbit ADDR_MASK k).
Qed.

#[export] Instance entry_model_laws : EntryLaws.
Proof.
  split; intros; cbn [is_unused entry_addr entry_flags set_addr set_frame flags_ok entry_model] in *.
  - done.
  - done.
  - destruct H0 as [Hf _]. exists (Z.lor a f). by apply word_of_ok.
  - destruct H0 as [Hf ->]. exists (Z.lor a f). by apply word_of_ok.
  - unfold word_of. rewrite land_addr_mask, ones_mul_div, Z.mod_mul by done.
    change (2 ^ 12) with FRAME_SIZE at 1. rewrite <-(ones_mul_div _ 12), <-land_addr_mask by done.
    rewrite Z.lor_comm. by rewrite Z.lor_ldiff_and.
  - by split.
  - by split.
Qed.
