(* ===== verification/PagingSpace.v ===== *)
(** * Address spaces: the translation that the page tables define

    The walk of the processor through the tables, well-formed address spaces, and
    what mapping pages does to them. *)

From S2P Require Import Prelude Frames PageFrameList Physical Paging PagingMap PagingCount.
#[local] Open Scope Z_scope.
#[local] Ltac Zify.zify_post_hook ::= Z.to_euclidean_division_equations.

Section Walk.
Context `{PageOps} `{EntryLaws}.

(** The last level's entry of page [p], found from the table at [a]; 0 if there is
    no table for the page *)
Fixpoint walk (level : nat) (m : words) (a p : Z) : Z :=
  match level with
  | 0%nat => 0
  | 1%nat => m a (p mod 512)
  | S level' =>
      let e := m a (p / span level' mod 512) in
      if entry_addr e =? 0 then 0 else walk level' m (entry_addr e) p
  end.

Lemma walk_S l m a p :
  walk (S (S l)) m a p =
    let e := m a (p / span (S l) mod 512) in if entry_addr e =? 0 then 0 else walk (S l) m (entry_addr e) p.
Proof. reflexivity. Qed.

(** The child of a table that a page belongs to *)
Lemma page_child l B p : (span (S l) | B) → B ≤ p < B + span (S l) →
  let i := p / span l mod 512 in 0 ≤ i < 512 ∧ B + i * span l ≤ p < B + (i + 1) * span l.
Proof.
  intros HB Hp. pose proof (span_pos l) as Hsp. rewrite span_S in *.
  destruct (index_range B (span l) p Hsp Hp) as [Hi Hpi].
  cbn zeta. by rewrite (index_in_table B (span l) ((p - B) / span l) p).
Qed.

Lemma child_divide l B i : (span (S l) | B) → (span l | B + i * span l).
Proof. rewrite span_S. intros [k ->]. exists (k * 512 + i). ring. Qed.

Lemma leaf_page B p : (512 | B) → B ≤ p < B + 512 → p = B + p mod 512.
Proof. intros [k ->] Hp. lia. Qed.

(** The map that a tree stands for is the walk. *)
Lemma walk_tree l : ∀ m a B O f p,
  tree l m a B O f → (span l | B) → B ≤ p < B + span l → walk l m a p = f p.
Proof.
  induction l as [|[|l] IH]; intros m a B O f p Ht HB Hp; [done| |].
  - destruct Ht as [_ Hleaf]. cbn [walk]. change (span 1) with 512 in *.
    rewrite <-Hleaf by (by apply Z.mod_pos_bound). by rewrite <-(leaf_page B p).
  - apply tree_node in Ht as (Os & _ & _ & _ & Hch). rewrite walk_S.
    destruct (page_child (S l) B p HB Hp) as [Hi Hpi]. specialize (Hch _ Hi I). unfold child in Hch. cbn zeta in *.
    destruct (_ =? 0); [symmetry; by apply Hch|]. apply (IH _ _ _ _ _ _ (proj2 Hch)); [by apply child_divide|lia].
Qed.

(** The same for a table of which only some entries are known to lead to trees *)
Lemma walk_on live l m a B Os f p :
  node_on live (S l) m a B Os f → (span (S (S l)) | B) → B ≤ p < B + span (S (S l)) → live (p / span (S l) mod 512) →
  walk (S (S l)) m a p = f p.
Proof.
  intros (_ & _ & Hch) HB Hp Hlive. rewrite walk_S.
  destruct (page_child (S l) B p HB Hp) as [Hi Hpi]. specialize (Hch _ Hi Hlive). unfold child in Hch. cbn zeta in *.
  destruct (_ =? 0); [symmetry; by apply Hch|]. apply (walk_tree _ _ _ _ _ _ _ (proj2 Hch)); [by apply child_divide|lia].
Qed.

(** A walk that stays in the frames [C] and meets no table twice *)
Fixpoint path (level : nat) (m : words) (C : Z → Prop) (a p e : Z) : Prop :=
  C a ∧
  match level with
  | 0%nat => False
  | 1%nat => m a (p mod 512) = e
  | S level' =>
      let x := m a (p / span level' mod 512) in entry_addr x ≠ 0 ∧ path level' m (fun y => C y ∧ y ≠ a) (entry_addr x) p e
  end.

Lemma path_walk l : ∀ m C a p e, path l m C a p e → walk l m a p = e.
Proof.
  induction l as [|[|l] IH]; intros m C a p e [HC Hp]; [done|done|].
  destruct Hp as [Hx Hp]. rewrite walk_S. cbn zeta in *. rewrite (proj2 (Z.eqb_neq _ _)) by done. by eapply IH.
Qed.

Lemma path_frame l : ∀ m m' C C' a p e,
  path l m C a p e → (∀ x i, C x → m' x i = m x i) → (∀ x, C x → C' x) → path l m' C' a p e.
Proof.
  induction l as [|[|l] IH]; intros m m' C C' a p e [HC Hp] Hm HC'; [done| |]; (split; [by apply HC'|]); cbn zeta in *.
  - by rewrite Hm.
  - rewrite Hm by done. destruct Hp as [Hx Hp]. split; [done|]. eapply IH; [exact Hp|by intros x i [Hx' _]; apply Hm|by intros x [Hx' ?]; split; [apply HC'|]].
Qed.
End Walk.

Section Spaces.
Context `{Profile} `{FrameAllocatorLaws} `{!PhysFrameLaws} `{PageLaws} `{EntryLaws}.

(** An address space in memory: its page tables are a tree in the frames [O], none
    of which is free. *)
Definition space_ok (a : AddressSpace) (O : Z → Prop) (F : MemorySpace → Z → Prop) (s : vm) : Prop :=
  root_table a ≠ 0 ∧ pool_holds (frames s) F ∧ (∀ x, O x → ¬ fresh F x) ∧ ∃ f, tree (depth a) (ptes s) (root_table a) 0 O f.

(** The entry that an address space has for page [p] *)
Definition entry_of (a : AddressSpace) (s : vm) (p : Z) : Z := walk (depth a) (ptes s) (root_table a) p.

Lemma map_space_ok a ps space flags O F s :
  space_ok a O F s → (0 < depth a ≤ 8)%nat →
  0 ≤ pn (pstart ps) < pn (pend ps) → pn (pend ps) ≤ span (depth a) → pn (pend ps) < LOWER_HALF → flags_ok flags →
  let p := pn (pstart ps) in let q := pn (pend ps) in
  runs (map_space a ps space flags s) (fun r =>
    r.1 = q - p ∧ ∃ O' F' g, space_ok a O' F' r.2 ∧ grows O O' F F' s r.2 ∧ frames_for space F F' O' p (upto p q) g ∧
    ∀ x, 0 ≤ x < span (depth a) →
      if (p <=? x) && (x <? upto p q) then entry_addr (entry_of a r.2 x) = g x ∧ entry_flags (entry_of a r.2 x) = flags
      else entry_of a r.2 x = entry_of a s x).
Proof.
  intros (Hnz & HF & Hsep & f & Ht) Hd Hpq Hq Hhalf Hfl p q. unfold map_space.
  rewrite table_ref_ok, res_bind_ret_l by done.
  destruct (depth a) as [|l] eqn:Hdepth; [lia|]. eapply runs_weaken; [apply (map_in_table_ok l space flags ltac:(lia) _ 0 O f F)|].
  { split_and!; try done; [by apply Z.divide_0_r|lia..]. }
  fold p q. intros [n s'] [Hn (O' & F' & f' & g & Ht' & Hg & Hset & Hkeep & Hfr)]. cbn [fst snd] in *.
  assert (upto p q ≤ span (S l)) as Hup.
  { apply upto_le; [lia| |done]. rewrite span_S. by exists (span l); ring. }
  rewrite Z.add_0_l, Z.min_l in * by lia. split; [done|]. exists O', F', g.
  split_and!; [|done|done|].
  { split_and!; [done|apply Hg|apply Hg|]. exists f'. by rewrite Hdepth. }
  intros x Hx. unfold entry_of. rewrite Hdepth.
  rewrite (walk_tree (S l) _ _ 0 O' f' x Ht'), (walk_tree (S l) _ _ 0 O f x Ht) by (try apply Z.divide_0_r; lia).
  destruct (Z.leb_spec p x), (Z.ltb_spec x (upto p q)); cbn [andb]; [by apply Hset|apply Hkeep; lia..].
Qed.

(** ** A new address space *)

Lemma address_space_new_ok d s F :
  pool_holds (frames s) F → (0 < d)%nat →
  runs (address_space_new d s) (fun r => depth r.1 = d ∧ root_table r.1 ≠ 0 ∧ F Kernel (root_table r.1) ∧
    ∃ F', grows (fun _ => False) (eq (root_table r.1)) F F' s r.2 ∧ ∀ i, ptes r.2 (root_table r.1) i = 0).
Proof.
  intros HF Hd. unfold address_space_new. eapply runs_bind; [by apply alloc_frame_ok|].
  intros [fr s1] (Hfr & Hnz & HF1 & Hm). cbn [fst snd] in *. rewrite table_ref_ok, res_bind_ret_l by done.
  cbn [runs fst snd root_table depth]. split_and!; [done|done|done|].
  exists (fun sp x => F sp x ∧ x ≠ frame_addr fr). split; [|intros i; cbn; by rewrite Z.eqb_refl].
  unfold grows. split_and!; [done|done|naive_solver| | |].
  - intros x <-. right. by exists Kernel.
  - intros x <- [sp [_ ?]]. done.
  - intros x i _ Hx. cbn. rewrite (proj2 (Z.eqb_neq _ _)); [by apply Hm|]. intros ->. apply Hx. by exists Kernel.
Qed.

Lemma address_space_new_root d s a s' : address_space_new d s = Done (a, s') → ∃ fr, page_table_address a = Done fr ∧ frame_addr fr = root_table a.
Proof.
  unfold address_space_new. intros Hnew. apply res_bind_done in Hnew as ([fr s1] & _ & Hnew). cbn [fst snd] in Hnew.
  apply res_bind_done in Hnew as (t & Ht & [= <- _]). unfold table_ref in Ht. destruct (_ =? 0); [done|]. injection Ht as <-.
  exists fr. split; [|done]. apply frame_at_addr.
Qed.

(** A root table of zeroes is an empty address space. *)
Lemma empty_space_ok d a F s :
  root_table a ≠ 0 → pool_holds (frames s) F → (∀ x, root_table a = x → ¬ fresh F x) → depth a = S d →
  (∀ i, ptes s (root_table a) i = 0) → space_ok a (eq (root_table a)) F s ∧ ∀ p, 0 ≤ p < span (depth a) → entry_of a s p = 0.
Proof.
  intros Hnz HF Hsep Hd Hz. assert (tree (depth a) (ptes s) (root_table a) 0 (eq (root_table a)) (fun _ => 0)) as Ht.
  { rewrite Hd. by apply tree_zero. }
  split; [by split_and!; [..|eexists]|]. intros p Hp. unfold entry_of.
  by rewrite (walk_tree (depth a) _ _ 0 (eq (root_table a)) (fun _ => 0) p Ht) by (try apply Z.divide_0_r; lia).
Qed.
End Spaces.
