(* ===== verification/PagingCopy.v ===== *)
(** * Copying address spaces

    What [copy_table] and [from_other] of Paging.v do: the copy translates every page
    that the original translates, in the same way; and how many frames it takes. *)

From S2P Require Import Prelude Frames Physical Paging PagingMap PagingCount PagingSpace.
#[local] Open Scope Z_scope.

Section Copy.
Context `{Profile} `{FrameAllocatorLaws} `{!PhysFrameLaws} `{PageLaws} `{EntryLaws}.

Lemma copy_leaf_entries_ok n : ∀ i src t s, i + Z.of_nat n = 512 → 0 ≤ i → src ≠ t →
  ∃ s', copy_leaf_entries (seqZ i (Z.of_nat n)) src t s = Done s' ∧ frames s' = frames s ∧
    (∀ x j, x ≠ t → ptes s' x j = ptes s x j) ∧ (∀ j, j < i → ptes s' t j = ptes s t j) ∧
    ∀ j, i ≤ j < 512 → ptes s' t j = ptes s src j.
Proof.
  induction n as [|n IH]; intros i src t s Hin Hi Hne.
  { change (seqZ i (Z.of_nat 0)) with (@nil Z). exists s. split_and!; try done. intros j Hj. lia. }
  rewrite seqZ_cons by lia. cbn [copy_leaf_entries]. rewrite set_addr_copy, res_bind_ret_l, Nat2Z.inj_succ, Z.pred_succ.
  destruct (IH (Z.succ i) src t (write_entry t i (ptes s src i) s)) as (s' & Hrun & Hfr & Hkeep & Hlow & Hset); [lia..|done|].
  exists s'. split_and!; [exact Hrun|done| | |].
  - intros x j Hx. rewrite Hkeep by done. cbn. by rewrite (proj2 (Z.eqb_neq x t)).
  - intros j Hj. rewrite Hlow by lia. cbn. rewrite (proj2 (Z.eqb_neq j i)) by lia. by rewrite andb_false_r.
  - intros j Hj. destruct (decide (j = i)) as [->|Hji].
    + rewrite Hlow by lia. cbn. by rewrite !Z.eqb_refl.
    + rewrite Hset by lia. cbn. by rewrite (proj2 (Z.eqb_neq src t)).
Qed.

(** The tables below [src], which stand for [f], can be copied to the table [t]. *)
Definition copyable (l : nat) (src B : Z) (O : Z → Prop) (f : Z → Z) (t : Z) (F : MemorySpace → Z → Prop) (s : vm) : Prop :=
  tree l (ptes s) src B O f ∧ (span l | B) ∧ pool_holds (frames s) F ∧
  (∀ x, O x → ¬ fresh F x) ∧ ¬ O t ∧ ¬ fresh F t.

(** What copying them gives *)
Definition copies (l : nat) (rec : Z → Z → vm → res vm) : Prop :=
  ∀ src B O f t F s, copyable l src B O f t F s →
    runs (rec src t s) (fun s' => ∃ C F', C t ∧ grows (eq t) C F F' s s' ∧
      (∀ p, B ≤ p < B + span l → f p ≠ 0 → path l (ptes s') C t p (f p)) ∧
      ∀ j, (1 < l)%nat → 0 ≤ j < 512 → ptes s src j = 0 → ptes s' t j = ptes s t j).

Lemma copy_leaf_ok : copies 1 (fun src t s => copy_table src t 1 s).
Proof.
  intros src B O f t F s ([HO Hleaf] & HB & HF & Hsep & HOt & Ht). cbn [copy_table]. change (skip 0) with (seqZ 0 (Z.of_nat 512)).
  destruct (copy_leaf_entries_ok 512 0 src t s) as (s' & -> & Hfr & Hkeep & _ & Hset);
    [done..|intros ->; apply HOt; by apply HO|].
  exists (eq t), F. split_and!; [done| | |intros j Hl; lia].
  - unfold grows. rewrite Hfr. split_and!; [done|done|done|by left|by intros x <-|].
    intros x i Hx _. apply Hkeep. congruence.
  - change (span 1) with 512 in *. intros p Hp _. split; [done|].
    pose proof (Z.mod_pos_bound p 512 ltac:(done)). rewrite Hset, <-Hleaf by lia. f_equal. symmetry. by apply leaf_page.
Qed.

(** The entries up to [i] of a table have been copied; [C] are the new tables below. *)
Definition copied (l : nat) (src : Z) (f : Z → Z) (B t i : Z) (C : Z → Prop) (F0 F : MemorySpace → Z → Prop) (s0 s : vm) : Prop :=
  grows (eq t) (fun x => x = t ∨ C x) F0 F s0 s ∧ ¬ C t ∧
  (∀ j, 0 ≤ j < 512 → i ≤ j ∨ ptes s0 src j = 0 → ptes s t j = ptes s0 t j) ∧
  ∀ j p, 0 ≤ j < i → B + j * span l ≤ p < B + (j + 1) * span l → f p ≠ 0 →
    entry_addr (ptes s t j) ≠ 0 ∧ path l (ptes s) C (entry_addr (ptes s t j)) p (f p).

(** One used entry: what is left to do after the allocation of its table, which can be
    copied in its turn *)
Lemma copy_entry_child l rec src B Os f t i F s0 s fr s1 :
  node (S l) (ptes s0) src B Os f → (span (S (S l)) | B) → (∀ x, owned src Os x → ¬ fresh F x) →
  (∀ x j, owned src Os x → ptes s x j = ptes s0 x j) → ¬ owned src Os t →
  0 ≤ i < 512 → entry_addr (ptes s0 src i) ≠ 0 → pool_holds (frames s) F → alloc_frame Kernel s = Done (fr, s1) →
  ∃ e, let a := frame_addr fr in let s2 := write_entry t i e s1 in
    entry_addr e = a ∧ a ≠ 0 ∧ F Kernel a ∧ (∀ x j, ¬ fresh F x → ptes s1 x j = ptes s x j) ∧
    (∀ x j, owned src Os x → ptes s2 x j = ptes s0 x j) ∧
    copy_entry rec src t i s = rec (entry_addr (ptes s0 src i)) a s2 ∧
    copyable (S l) (entry_addr (ptes s0 src i)) (B + i * span (S l)) (Os i) f a (fun sp x => F sp x ∧ x ≠ a) s2.
Proof.
  intros Hn HB Hsep Hsrc HOt Hi Hused HF Hr. pose proof (alloc_frame_ok Kernel s F HF) as Hok. rewrite Hr in Hok.
  destruct Hok as (Hfa & Hnz & HF1 & Hm1). cbn [fst snd] in *. set (a := frame_addr fr) in *.
  assert (∀ x j, owned src Os x → ptes s1 x j = ptes s0 x j) as Hsrc1.
  { intros x j Hx. rewrite Hm1; [by apply Hsrc|by apply Hsep]. }
  assert (owned src Os src) as Hroot by (by left).
  pose proof Hn as (_ & _ & Hch). destruct (child_tree _ _ _ _ _ _ _ (Hch i Hi I) Hused) as [Hfl Ht]. clear Hch.
  destruct (set_frame_ok a (entry_flags (ptes s0 src i))) as (e & He & Hea & _); [apply frame_addr_valid|done|].
  exists e. cbn zeta. set (s2 := write_entry t i e s1).
  assert (∀ x j, owned src Os x → ptes s2 x j = ptes s0 x j) as Hsrc2.
  { intros x j Hx. cbn. rewrite (proj2 (Z.eqb_neq x t)) by (by intros ->). by apply Hsrc1. }
  split_and!; [done|done|done|done|done| |].
  { unfold copy_entry. rewrite Hr, res_bind_ret_l. cbn [fst snd]. fold a. rewrite Hsrc1, He, res_bind_ret_l by done. fold s2.
    by rewrite Hsrc2, (table_ref_ok _ Hused), res_bind_ret_l, Hea, (table_ref_ok a Hnz), res_bind_ret_l by done. }
  assert (∀ x, Os i x → owned src Os x) as HOs by (intros x Hx; right; eauto).
  split_and!.
  - eapply tree_frame; [exact Ht|intros x j Hx; by apply Hsrc2, HOs|done].
  - by apply child_divide.
  - exact HF1.
  - intros x Hx [sp [HFx _]]. apply (Hsep x); [by apply HOs|]. by exists sp.
  - intros Hx. apply (Hsep a); [by apply HOs|by exists Kernel].
  - intros [sp [_ ?]]. done.
Qed.

Lemma copy_entry_ok l rec src B Os f t i C F0 F s0 s :
  copies (S l) rec → node (S l) (ptes s0) src B Os f → (span (S (S l)) | B) →
  (∀ x, owned src Os x → ¬ fresh F0 x) → ¬ owned src Os t → ¬ fresh F0 t →
  0 ≤ i < 512 → entry_addr (ptes s0 src i) ≠ 0 → copied (S l) src f B t i C F0 F s0 s →
  runs (copy_entry rec src t i s) (fun s' => ∃ C' F', copied (S l) src f B t (i + 1) C' F0 F' s0 s').
Proof.
  intros Hrec Hn HB Hsep HOt Ht Hi Hused (Hg & HCt & Hrest & Hdone).
  pose proof Hg as (HF & _ & HF0 & HC0 & HsepC & Hm).
  assert (∀ x, fresh F x → fresh F0 x) as Hfr by (intros x [sp Hx]; exists sp; auto).
  destruct (alloc_frame Kernel s) as [[fr s1]|msg| |] eqn:Hr.
  2:{ pose proof (alloc_frame_ok Kernel s F HF) as Hok. rewrite Hr in Hok. unfold copy_entry. by rewrite Hr. }
  2-3: pose proof (alloc_frame_ok Kernel s F HF) as Hok; by rewrite Hr in Hok.
  destruct (copy_entry_child l rec src B Os f t i F s0 s fr s1) as (e & Hea & Hnz & Hfa & Hm1 & Hsrc2 & -> & Hcopy); try done.
  { intros x Hx HxF. by apply (Hsep x), Hfr. }
  { intros x j Hx. apply Hm; [intros <-; by apply HOt|by apply Hsep]. }
  set (a := frame_addr fr) in *. set (F1 := fun sp x => F sp x ∧ x ≠ a) in *. set (s2 := write_entry t i e s1) in *.
  assert (fresh F a) as Haf by (by exists Kernel).
  eapply runs_weaken; [exact (Hrec _ _ _ _ _ _ _ Hcopy)|].
  intros s3 (C' & F3 & HCa & (G1 & _ & G3 & G4 & G5 & G6) & Hpath & _).
  assert (∀ x, C' x → fresh F x) as HC'.
  { intros x [<-|[sp [HFx _]]]%G4; [done|by exists sp]. }
  assert (∀ x j, ¬ fresh F x → x ≠ t ∨ j ≠ i → ptes s3 x j = ptes s x j) as Hkeep.
  { intros x j Hx Hne. rewrite G6; [|by intros <-|intros [sp [HFx _]]; apply Hx; by exists sp]. cbn.
    destruct (Z.eqb_spec x t) as [->|]; cbn; [rewrite (proj2 (Z.eqb_neq j i)) by naive_solver|]; by apply Hm1. }
  assert (∀ x, C x → ¬ fresh F x) as HCF by (intros x Hx; apply HsepC; by right).
  exists (fun x => C x ∨ C' x), F3. unfold copied. split; [|split; [|split]].
  - unfold grows. split_and!; [done|by left| | | |].
    + intros sp x [HFx _]%G3. by apply HF0.
    + intros x [->|[Hx|Hx]]; [by left|apply HC0; by right|right; by apply Hfr, HC'].
    + intros x [->|[Hx|Hx]] [sp HFx]; [| |by apply (G5 x Hx); exists sp]; apply G3 in HFx as [HFx _].
      * apply Ht, Hfr. by exists sp.
      * apply (HCF x Hx). by exists sp.
    + intros x j Hx HxF. rewrite Hkeep; [by apply Hm|by intros ?%Hfr|left; congruence].
  - intros [Hx|Hx]; [done|]. by apply Ht, Hfr, HC'.
  - intros j Hj Hun. rewrite Hkeep; [apply Hrest; [done|destruct Hun; [left; lia|by right]]|by intros ?%Hfr|right].
    intros ->. destruct Hun as [Hun|Hun]; [lia|]. by rewrite Hun, entry_addr_zero in Hused.
  - intros j p Hj Hp Hfp. destruct (decide (j = i)) as [->|Hji].
    + assert (ptes s3 t i = e) as ->.
      { rewrite G6; [cbn; by rewrite !Z.eqb_refl|intros <-; by apply Ht, Hfr|intros [sp [HFx _]]].
        apply Ht, Hfr. by exists sp. }
      rewrite Hea. split; [done|]. eapply path_frame; [apply Hpath; [lia|done]|done|by right].
    + rewrite Hkeep; [|by intros ?%Hfr|by right]. destruct (Hdone j p) as [Hx Hpj]; [lia|done..|]. split; [done|].
      eapply path_frame; [exact Hpj| |by left]. intros x k Hx'. apply Hkeep; [by apply HCF|left; by intros ->].
Qed.

Lemma copied_start l src f B t F s : pool_holds (frames s) F → ¬ fresh F t → copied l src f B t 0 (fun _ => False) F F s s.
Proof.
  intros HF Ht. unfold copied. split; [|split; [by intros []|split; [done|intros; lia]]].
  unfold grows. split_and!; [done|intros x <-; by left|done|intros x [->|[]]; by left|by intros x [->|[]]|done].
Qed.

(** Entries that the source does not use are skipped. *)
Lemma copied_unused l src B Os f t i C F0 F s0 s : node (S l) (ptes s0) src B Os f → 0 ≤ i < 512 → ptes s0 src i = 0 →
  copied (S l) src f B t i C F0 F s0 s → copied (S l) src f B t (Z.succ i) C F0 F s0 s.
Proof.
  intros (_ & _ & Hch) Hi Hz (Hg & HCt & Hrest & Hdone). split; [done|split; [done|split]].
  { intros j Hj Hun. apply Hrest; [done|]. destruct Hun; [left; lia|by right]. }
  intros j p Hj Hp Hfp. destruct (decide (j = i)) as [->|Hji]; [|apply Hdone; [lia|done..]].
  specialize (Hch i Hi I). unfold child in Hch. rewrite Hz, entry_addr_zero in Hch. cbn in Hch. destruct Hfp. by apply Hch.
Qed.

Lemma copy_entries_ok l rec src B Os f t F0 s0 n :
  copies (S l) rec → node (S l) (ptes s0) src B Os f → (span (S (S l)) | B) →
  (∀ x, owned src Os x → ¬ fresh F0 x) → ¬ owned src Os t → ¬ fresh F0 t →
  ∀ i C F s, i + Z.of_nat n = 512 → 0 ≤ i → copied (S l) src f B t i C F0 F s0 s →
  runs (copy_entries rec (seqZ i (Z.of_nat n)) src t s) (fun s' => ∃ C' F', copied (S l) src f B t 512 C' F0 F' s0 s').
Proof.
  intros Hrec Hn HB Hsep HOt Ht. induction n as [|n IH]; intros i C F s Hin Hi Hc.
  { change (seqZ i (Z.of_nat 0)) with (@nil Z). replace i with 512 in Hc by lia. by exists C, F. }
  rewrite seqZ_cons by lia. cbn [copy_entries]. rewrite Nat2Z.inj_succ, Z.pred_succ, is_unused_spec.
  pose proof Hc as ((_ & _ & _ & _ & _ & Hm) & _ & Hrest & Hdone).
  assert (ptes s src i = ptes s0 src i) as Hsrc.
  { apply Hm; [|apply Hsep; by left]. intros ->. apply HOt. by left. }
  destruct (Z.eqb_spec (ptes s src i) 0) as [Hz|Hz].
  - apply (IH _ C F); [lia..|]. apply (copied_unused l src B Os f t i C F0 F s0 s); (done || lia || by rewrite <-Hsrc).
  - pose proof Hn as (_ & _ & Hch). specialize (Hch i ltac:(lia) I). unfold child in Hch. rewrite <-Hsrc in Hch.
    destruct (Z.eqb_spec (entry_addr (ptes s src i)) 0) as [Ha|Ha]; [by destruct Hch|]. clear Hch.
    eapply runs_bind; [apply (copy_entry_ok l rec src B Os f t i C F0 F s0 s); try done; [lia|by rewrite <-Hsrc]|].
    intros s' (C' & F' & Hc'). apply (IH _ C' F'); [lia..|done].
Qed.

Lemma copy_table_ok l : copies (S l) (fun src t s => copy_table src t (S l) s).
Proof.
  induction l as [|l IH]; [by apply copy_leaf_ok|].
  intros src B O f t F s (Ht & HB & HF & Hsep & HOt & HtF). destruct (proj1 (tree_node _ _ _ _ _ _) Ht) as (Os & HO & Hn).
  cbn [copy_table]. change (skip 0) with (seqZ 0 (Z.of_nat 512)).
  eapply runs_weaken; [apply (copy_entries_ok l _ src B Os f t F s 512 IH Hn HB) with (C := fun _ => False) (F := F)|]; try done.
  - intros x Hx. by apply Hsep, HO.
  - by rewrite <-HO.
  - by apply copied_start.
  - intros s' (C & F' & Hg & HCt & Hrest & Hdone). exists (fun x => x = t ∨ C x), F'.
    split; [by left|split; [done|split; [|intros j _ Hj Hz; apply Hrest; auto]]].
    intros p Hp Hfp. destruct (page_child (S l) B p HB Hp) as [Hi Hpi]. cbn zeta in *.
    destruct (Hdone _ p Hi Hpi Hfp) as [Hx Hpath]. split; [by left|]. cbn zeta. split; [done|].
    eapply path_frame; [exact Hpath|done|]. intros x Hx'. split; [by right|]. by intros ->.
Qed.

(** The new root table is ready to take the copy. *)
Lemma from_other_copyable a b O f F F1 s s1 :
  tree (depth a) (ptes s) (root_table a) 0 O f → (∀ x, O x → ¬ fresh F x) → F Kernel (root_table b) →
  grows (fun _ => False) (eq (root_table b)) F F1 s s1 →
  copyable (depth a) (root_table a) 0 O f (root_table b) F1 s1 ∧ ∀ x i, O x → ptes s1 x i = ptes s x i.
Proof.
  intros Ht Hsep Hb (HF1 & _ & HFF1 & HC1 & Hsep1 & Hm1).
  assert (∀ x i, O x → ptes s1 x i = ptes s x i) as Hsrc1 by (intros x i Hx; apply Hm1; [tauto|by apply Hsep]).
  split; [|done]. split_and!; [|by apply Z.divide_0_r|done| | |by apply Hsep1].
  - eapply tree_frame; [exact Ht|exact Hsrc1|done].
  - intros x Hx [sp HFx]. apply (Hsep x Hx). exists sp. by apply HFF1.
  - intros HO. apply (Hsep (root_table b)); [done|by exists Kernel].
Qed.

Lemma from_other_ok a s O F :
  space_ok a O F s → (0 < depth a)%nat →
  runs (from_other a s) (fun r => depth r.1 = depth a ∧ F Kernel (root_table r.1) ∧ ∃ C F',
    grows (fun _ => False) C F F' s r.2 ∧ C (root_table r.1) ∧
    (∀ p, 0 ≤ p < span (depth a) → entry_of a r.2 p = entry_of a s p ∧
      (entry_of a s p ≠ 0 → path (depth a) (ptes r.2) C (root_table r.1) p (entry_of a s p))) ∧
    ∀ j, (1 < depth a)%nat → 0 ≤ j < 512 → ptes s (root_table a) j = 0 → ptes r.2 (root_table r.1) j = 0).
Proof.
  intros (Hnz & HF & Hsep & f & Ht) Hd. unfold from_other.
  eapply runs_bind; [by apply address_space_new_ok|]. intros [b s1] (Hdb & Hbnz & Hroot & F1 & Hg1 & Hbz). cbn [fst snd] in *.
  rewrite (table_ref_ok _ Hnz), res_bind_ret_l, (table_ref_ok _ Hbnz), res_bind_ret_l.
  pose proof Hg1 as (HF1 & _ & HFF1 & HC1 & Hsep1 & Hm1).
  destruct (from_other_copyable a b O f F F1 s s1) as [Hcopy Hsrc1]; try done. destruct (depth a) as [|l] eqn:Hda; [lia|].
  eapply runs_bind; [by apply (copy_table_ok l (root_table a) 0 O f (root_table b) F1 s1)|].
  intros s2 (C & F2 & HCb & Hg2 & Hpath & Hzero). cbn [runs fst snd].
  pose proof (grows_trans _ _ _ _ _ _ _ _ _ Hg1 Hg2) as Hg. split_and!; [done|done|]. exists C, F2.
  split; [done|split; [done|split]].
  - intros p Hp. destruct Hg as (_ & _ & _ & _ & _ & Hm). unfold entry_of. rewrite Hda.
    assert (∀ m, (∀ x i, O x → m x i = ptes s x i) → walk (S l) m (root_table a) p = f p) as Hwalk.
    { intros m Hmm. eapply walk_tree; [eapply tree_frame; [exact Ht|exact Hmm|done]|by apply Z.divide_0_r|lia]. }
    rewrite !Hwalk by (done || (intros x i Hx; apply Hm; [tauto|by apply Hsep])).
    split; [done|]. intros Hfp. by apply Hpath.
  - intros j Hl Hj Hz. rewrite Hzero; [by rewrite Hbz|done|done|]. rewrite Hsrc1; [done|by eapply tree_root].
Qed.

Lemma from_other_root a s b s' : from_other a s = Done (b, s') → root_table b ≠ 0 ∧ ∃ fr, page_table_address b = Done fr ∧ frame_addr fr = root_table b.
Proof.
  unfold from_other. intros Hr. apply res_bind_done in Hr as ([b' s1] & Hnew & Hr). apply res_bind_done in Hr as (? & _ & Hr).
  apply res_bind_done in Hr as (t & Ht & Hr). apply res_bind_done in Hr as (? & _ & [= <- _]). cbn [fst snd] in *.
  split; [|by eapply address_space_new_root]. unfold table_ref in Ht. destruct (Z.eqb_spec (root_table b') 0); [done|]. done.
Qed.

(** ** The frames that copying takes *)

Definition kernel_frames (k : Z) : budget := fun sp => match sp with Kernel => k | User => 0 end.

Fixpoint sum_over (g : Z → Z) (l : list Z) : Z :=
  match l with [] => 0 | i :: l => g i + sum_over g l end.

(** The tables below a table: one for each used entry above the last level *)
Fixpoint tables_below (level : nat) (m : words) (a : Z) {struct level} : Z :=
  match level with
  | S (S _ as level') =>
      sum_over (fun i => if m a i =? 0 then 0 else 1 + tables_below level' m (entry_addr (m a i))) (skip 0)
  | _ => 0
  end.

Lemma tables_below_S l m a : tables_below (S (S l)) m a =
  sum_over (fun i => if m a i =? 0 then 0 else 1 + tables_below (S l) m (entry_addr (m a i))) (seqZ 0 (Z.of_nat 512)).
Proof. reflexivity. Qed.

Lemma sum_over_ext g g' l : (∀ i, i ∈ l → g i = g' i) → sum_over g l = sum_over g' l.
Proof. induction l as [|i l IH]; intros Hg; [done|]. cbn. rewrite Hg, IH by set_solver. done. Qed.
Lemma sum_over_nonneg g l : (∀ i, 0 ≤ g i) → 0 ≤ sum_over g l.
Proof. intros Hg. induction l as [|i l IH]; cbn; [lia|]. specialize (Hg i). lia. Qed.

Lemma tables_below_nonneg l : ∀ m a, 0 ≤ tables_below l m a.
Proof.
  induction l as [|[|l] IH]; intros m a; [done..|]. rewrite tables_below_S. apply sum_over_nonneg. intros i.
  destruct (_ =? 0); [done|]. specialize (IH m (entry_addr (m a i))). lia.
Qed.

Lemma tables_below_frame l : ∀ m m' a B O f,
  tree l m a B O f → (∀ x i, O x → m' x i = m x i) → tables_below l m' a = tables_below l m a.
Proof.
  induction l as [|[|l] IH]; intros m m' a B O f Ht Hm; [done..|].
  destruct (proj1 (tree_node _ _ _ _ _ _) Ht) as (Os & HO & _ & _ & Hch). rewrite !tables_below_S. apply sum_over_ext.
  intros i Hi%elem_of_seqZ. rewrite Hm by (by eapply tree_root). destruct (Z.eqb_spec (m a i) 0) as [|Hne]; [done|].
  specialize (Hch i ltac:(lia) I). unfold child in Hch. destruct (entry_addr (m a i) =? 0); [by destruct Hch|].
  f_equal. eapply IH; [exact (proj2 Hch)|]. intros x j Hx. apply Hm, HO. right. exists i. split; [lia|done].
Qed.

Definition costs_copy (l : nat) (rec : Z → Z → vm → res vm) : Prop :=
  ∀ src B O f t F s n, copyable l src B O f t F s → left_over s n →
    costs id (rec src t s) (kernel_frames (tables_below l (ptes s) src)) n.

Lemma copy_entry_costs l rec src B Os f t i F s0 s n :
  costs_copy (S l) rec → node (S l) (ptes s0) src B Os f → (span (S (S l)) | B) → (∀ x, owned src Os x → ¬ fresh F x) →
  (∀ x j, owned src Os x → ptes s x j = ptes s0 x j) → ¬ owned src Os t →
  0 ≤ i < 512 → entry_addr (ptes s0 src i) ≠ 0 → pool_holds (frames s) F → left_over s n →
  costs id (copy_entry rec src t i s) (kernel_frames (1 + tables_below (S l) (ptes s0) (entry_addr (ptes s0 src i)))) n.
Proof.
  intros Hrec Hn HB Hsep Hsrc HOt Hi Hused HF Hl.
  apply costs_proper with (c := plus (one Kernel) (kernel_frames (tables_below (S l) (ptes s0) (entry_addr (ptes s0 src i))))).
  { intros []; unfold plus, one; case_decide; done. }
  eapply costs_bind; [by apply alloc_frame_costs| |].
  { intros []; cbn -[tables_below]; [apply tables_below_nonneg|done]. }
  intros [fr s1] Hr Hl1. destruct (copy_entry_child l rec src B Os f t i F s0 s fr s1) as (e & _ & _ & _ & _ & Hsrc2 & Heq & Hcopy); try done.
  unfold copy_entry in Heq. rewrite Hr, res_bind_ret_l in Heq. cbn [fst snd] in Heq |- *. rewrite Heq.
  apply costs_proper with (c := kernel_frames (tables_below (S l) (ptes (write_entry t i e s1)) (entry_addr (ptes s0 src i)))).
  2:{ by apply (Hrec _ _ _ _ _ _ _ _ Hcopy). }
  pose proof Hn as (_ & _ & Hch). destruct (child_tree _ _ _ _ _ _ _ (Hch i Hi I) Hused) as [_ Ht]. clear Hch.
  intros []; [|done]. unfold kernel_frames. eapply tables_below_frame; [exact Ht|]. intros x j Hx. apply Hsrc2. right. eauto.
Qed.

Lemma copy_entries_costs l rec src B Os f t F0 s0 k :
  copies (S l) rec → costs_copy (S l) rec → node (S l) (ptes s0) src B Os f → (span (S (S l)) | B) →
  (∀ x, owned src Os x → ¬ fresh F0 x) → ¬ owned src Os t → ¬ fresh F0 t →
  ∀ i C F s n, i + Z.of_nat k = 512 → 0 ≤ i → copied (S l) src f B t i C F0 F s0 s → left_over s n →
  costs id (copy_entries rec (seqZ i (Z.of_nat k)) src t s) (kernel_frames (sum_over (fun i =>
    if ptes s0 src i =? 0 then 0 else 1 + tables_below (S l) (ptes s0) (entry_addr (ptes s0 src i))) (seqZ i (Z.of_nat k)))) n.
Proof.
  intros Hrec Hcost Hn HB Hsep HOt Ht. set (g := fun i => if ptes s0 src i =? 0 then 0 else _).
  assert (∀ i, 0 ≤ g i) as Hg.
  { intros i. unfold g. pose proof (tables_below_nonneg (S l) (ptes s0) (entry_addr (ptes s0 src i))). destruct (_ =? 0); lia. }
  induction k as [|k IH]; intros i C F s n Hik Hi Hc Hl.
  { change (seqZ i (Z.of_nat 0)) with (@nil Z). cbn [copy_entries sum_over].
    apply costs_proper with (c := none); [by intros []|by eapply costs_done]. }
  rewrite seqZ_cons by lia. cbn [copy_entries sum_over]. rewrite Nat2Z.inj_succ, Z.pred_succ, is_unused_spec.
  pose proof Hc as ((HF & _ & HFF & _ & _ & Hm) & _ & Hrest & Hdone).
  assert (∀ x j, owned src Os x → ptes s x j = ptes s0 x j) as Hsrc.
  { intros x j Hx. apply Hm; [|by apply Hsep]. intros ->. by apply HOt. }
  assert (∀ x, owned src Os x → ¬ fresh F x) as HsepF by (intros x Hx [sp Hx']; apply (Hsep x Hx); exists sp; auto).
  pose proof Hn as (_ & _ & Hch). specialize (Hch i ltac:(lia) I). unfold child in Hch.
  rewrite Hsrc by (by left). unfold g at 1. destruct (Z.eqb_spec (ptes s0 src i) 0) as [Hz|Hz].
  - rewrite Z.add_0_l. apply (IH _ C F); [lia..| |done]. apply (copied_unused l src B Os f t i C F0 F s0 s); (done || lia).
  - destruct (Z.eqb_spec (entry_addr (ptes s0 src i)) 0) as [Ha|Ha]; [by destruct Hch|]. clear Hch.
    eapply costs_proper with (c := plus _ (kernel_frames (sum_over g (seqZ (Z.succ i) (Z.of_nat k))))); cycle 1.
    + eapply costs_bind; [eapply (copy_entry_costs l rec src B Os f t i F s0 s n); try done; lia| |].
      { intros []; cbn -[seqZ]; [by apply sum_over_nonneg|done]. }
      intros s' Hr Hl'. pose proof (copy_entry_ok l rec src B Os f t i C F0 F s0 s Hrec Hn HB Hsep HOt Ht ltac:(lia) Ha Hc) as Hok.
      rewrite Hr in Hok. destruct Hok as (C' & F' & Hc'). by apply (IH _ C' F'); [lia..| |].
    + intros []; unfold plus; cbn -[tables_below seqZ Z.add]; [lia|done].
Qed.

Lemma copy_table_costs l : costs_copy (S l) (fun src t s => copy_table src t (S l) s).
Proof.
  induction l as [|l IH]; intros src B O f t F s n Hcopy Hl.
  { apply costs_proper with (c := none); [by intros []|].
    destruct Hcopy as ([HO Hleaf] & _ & _ & _ & HOt & _). cbn [copy_table]. change (skip 0) with (seqZ 0 (Z.of_nat 512)).
    destruct (copy_leaf_entries_ok 512 0 src t s) as (s' & -> & Hfr & _); [done..|intros ->; apply HOt; by apply HO|].
    eapply costs_done; [done|]. destruct Hl as (F' & HF' & Hc). exists F'. cbn. by rewrite Hfr. }
  destruct Hcopy as (Ht & HB & HF & Hsep & HOt & HtF). destruct (proj1 (tree_node _ _ _ _ _ _) Ht) as (Os & HO & Hn).
  rewrite tables_below_S. cbn [copy_table]. change (skip 0) with (seqZ 0 (Z.of_nat 512)).
  apply (copy_entries_costs l _ src B Os f t F s 512 (copy_table_ok l) IH Hn HB) with (C := fun _ => False) (F := F); try done.
  - intros x Hx. by apply Hsep, HO.
  - by rewrite <-HO.
  - by apply copied_start.
Qed.

Lemma address_space_new_costs d s n : left_over s n → costs snd (address_space_new d s) (one Kernel) n.
Proof.
  intros Hl. apply costs_proper with (c := plus (one Kernel) none); [intros sp; unfold plus, none; lia|].
  unfold address_space_new. eapply costs_bind; [by apply alloc_frame_costs|done|]. intros [fr s1] Hr Hl1.
  pose proof Hl as (F & HF & _). pose proof (alloc_frame_ok Kernel s F HF) as Hok. rewrite Hr in Hok.
  destruct Hok as (_ & Hnz & _). cbn [fst snd] in *. rewrite table_ref_ok, res_bind_ret_l by done. by eapply costs_done.
Qed.

(** The frames that [from_other] takes: a root table and a table for each of the
    original's other tables *)
Lemma from_other_costs a s O F n :
  space_ok a O F s → (0 < depth a)%nat → left_over s n →
  costs snd (from_other a s) (kernel_frames (1 + tables_below (depth a) (ptes s) (root_table a))) n.
Proof.
  intros Hok Hd Hl. pose proof Hok as (Hnz & HF & Hsep & f & Ht).
  apply costs_proper with (c := plus (one Kernel) (plus (kernel_frames (tables_below (depth a) (ptes s) (root_table a))) none)).
  { intros []; unfold plus, one, none; case_decide; try done; cbn -[tables_below Z.add]; lia. }
  unfold from_other. eapply costs_bind; [by apply address_space_new_costs| |].
  { intros []; unfold plus, none; cbn -[tables_below Z.add]; [|done]. pose proof (tables_below_nonneg (depth a) (ptes s) (root_table a)). lia. }
  intros [b s1] Hr Hl1. pose proof (address_space_new_ok (depth a) s F HF Hd) as Hnew. rewrite Hr in Hnew.
  destruct Hnew as (Hdb & Hbnz & Hroot & F1 & Hg1 & Hbz). cbn [fst snd] in *.
  rewrite (table_ref_ok _ Hnz), res_bind_ret_l, (table_ref_ok _ Hbnz), res_bind_ret_l.
  destruct (from_other_copyable a b O f F F1 s s1) as [Hcopy Hsrc]; try done.
  eapply costs_bind with (st := id); [|done|intros s2 _ Hl2; by eapply costs_done].
  destruct (depth a) as [|l]; [lia|].
  eapply costs_proper; [|apply (copy_table_costs l _ _ _ _ _ _ _ _ Hcopy Hl1)].
  intros []; [|done]. unfold kernel_frames. eapply tables_below_frame; [exact Ht|done].
Qed.
End Copy.
