(* ===== verification/AddressSpaces.v ===== *)
(** * Address spaces: the properties

    Mapping pages, creating the address space of the kernel and creating those of
    users, with the frames they take, and the concrete machine of the witnesses. *)

From S2P Require Import Prelude Frames PageFrameList Physical Paging PagingAlloc PagingMap PagingCount PagingSpace PagingCopy.
#[local] Open Scope Z_scope.
#[local] Ltac Zify.zify_post_hook ::= Z.to_euclidean_division_equations.

Section Spaces.
Context `{Profile} `{FrameAllocatorLaws} `{!PhysFrameLaws} `{PageLaws} `{EntryLaws}.

Lemma map_space_costs a ps space flags O F s n :
  space_ok a O F s → (0 < depth a ≤ 8)%nat → 0 ≤ pn (pstart ps) < pn (pend ps) → pn (pend ps) ≤ span (depth a) →
  pn (pend ps) < LOWER_HALF → flags_ok flags → left_over s n →
  costs snd (map_space a ps space flags s)
    (table_cost space (depth a) (ptes s) (root_table a) (pn (pstart ps)) (pn (pend ps))) n.
Proof.
  intros (Hnz & HF & Hsep & f & Ht) Hd Hpq Hq Hhalf Hfl Hl. unfold map_space. rewrite table_ref_ok, res_bind_ret_l by done.
  destruct (depth a) as [|l]; [lia|]. apply (map_in_table_costs l space flags ltac:(lia) _ 0 O f F); [|done].
  split_and!; try done; [by apply Z.divide_0_r|lia..].
Qed.

Lemma map_space_total a ps space flags O F s n :
  space_ok a O F s → (0 < depth a ≤ 8)%nat →
  0 ≤ pn (pstart ps) < pn (pend ps) → pn (pend ps) ≤ span (depth a) → pn (pend ps) < LOWER_HALF → flags_ok flags →
  left_over s n →
  let p := pn (pstart ps) in let q := pn (pend ps) in
  total snd (map_space a ps space flags s) (table_cost space (depth a) (ptes s) (root_table a) p q) n (fun r =>
    r.1 = q - p ∧ ∃ O' F' g, space_ok a O' F' r.2 ∧ grows O O' F F' s r.2 ∧ frames_for space F F' O' p (upto p q) g ∧
    ∀ x, 0 ≤ x < span (depth a) →
      if (p <=? x) && (x <? upto p q) then entry_addr (entry_of a r.2 x) = g x ∧ entry_flags (entry_of a r.2 x) = flags
      else entry_of a r.2 x = entry_of a s x).
Proof. intros. apply costs_total; [by eapply map_space_costs|by apply map_space_ok]. Qed.

(** C8: mapping a range of pages of an address space returns the number of the
    pages and maps each of them: with the flags asked for, and to the frame of
    its own number (kernel) or to a frame of the pool of its own (user), which
    is no page table.  All other pages keep their entry, except that a range
    which ends in the table it starts in is extended ([upto]).  Other memory does
    not change.  It takes [table_cost] frames, for the page tables that are
    missing and for a user's pages; with fewer free frames, and only then, it
    panics. *)
Theorem map_space_maps a ps space flags O F s n :
  space_ok a O F s → (0 < depth a ≤ 8)%nat →
  0 ≤ pn (pstart ps) < pn (pend ps) → pn (pend ps) ≤ span (depth a) → pn (pend ps) < LOWER_HALF → flags_ok flags →
  left_over s n →
  let p := pn (pstart ps) in let q := pn (pend ps) in
  total snd (map_space a ps space flags s) (table_cost space (depth a) (ptes s) (root_table a) p q) n (fun r =>
    r.1 = q - p ∧ ∃ O' F' g, space_ok a O' F' r.2 ∧ grows O O' F F' s r.2 ∧ frames_for space F F' O' p (upto p q) g ∧
    ∀ x, 0 ≤ x < span (depth a) →
      if (p <=? x) && (x <? upto p q) then entry_addr (entry_of a r.2 x) = g x ∧ entry_flags (entry_of a r.2 x) = flags
      else entry_of a r.2 x = entry_of a s x).
Proof. apply map_space_total. Qed.

(** What creating the first address space gives *)
Definition identity_mapped (phys_limit : Z) (F : MemorySpace → Z → Prop) (r : AddressSpace * list AddressSpace * vm) : Prop :=
  let '(a, spaces, s') := r in
  spaces = [a] ∧ kernel_address_space spaces = Done a ∧ depth a = 4%nat ∧
  (∃ O F', space_ok a O F' s' ∧ ∀ x, O x → fresh F x) ∧
  ∀ p, 0 ≤ p < span 4 →
    if p <? phys_limit / FRAME_SIZE
    then entry_addr (entry_of a s' p) = FRAME_SIZE * p ∧ entry_flags (entry_of a s' p) = TABLE_FLAGS
    else entry_of a s' p = 0.

(** The steps of creating it *)
Lemma create_kernel_steps phys_limit F s :
  pool_holds (frames s) F → FRAME_SIZE ≤ phys_limit < FRAME_SIZE * LOWER_HALF →
  ∃ ps, pn (pstart ps) = 0 ∧ pn (pend ps) = phys_limit / FRAME_SIZE ∧ 0 < phys_limit / FRAME_SIZE < LOWER_HALF ∧
    create_address_space phys_limit [] s =
      (r ← address_space_new 4 s; m ← map_space r.1 ps Kernel TABLE_FLAGS r.2; Done (r.1, [r.1], m.2)) ∧
    runs (address_space_new 4 s) (fun r => depth r.1 = 4%nat ∧ (∀ i, ptes r.2 (root_table r.1) i = 0) ∧ ∃ F1,
      grows (fun _ => False) (eq (root_table r.1)) F F1 s r.2 ∧ space_ok r.1 (eq (root_table r.1)) F1 r.2 ∧
      ∀ p, 0 ≤ p < span 4 → entry_of r.1 r.2 p = 0).
Proof.
  intros HF Hlim. set (q := phys_limit / FRAME_SIZE).
  assert (0 < q < LOWER_HALF) as Hq.
  { unfold q. split; [apply Z.div_str_pos; unfold FRAME_SIZE in *; lia|apply Z.div_lt_upper_bound; [done|lia]]. }
  destruct (page_containing_ok 0) as (first & Hfirst & Hpf); [done|].
  destruct (page_containing_ok phys_limit) as (last & Hlast & Hpl); [unfold FRAME_SIZE in *; lia|].
  exists (mkPages first last). cbn [pstart pend]. rewrite Z.div_0_l in Hpf by done. fold q in Hpl.
  split_and!; [done|done|lia|lia| |].
  { unfold create_address_space. by rewrite Hfirst, Hlast. }
  eapply runs_weaken; [by apply (address_space_new_ok 4 s F HF); lia|].
  intros [a s1] (Hd & Hnz & _ & F1 & Hg1 & Hz). cbn [fst snd] in *. split; [done|split; [done|]]. exists F1. split; [done|].
  pose proof Hg1 as (HF1 & _ & _ & _ & Hsep1 & _). rewrite <-Hd. by apply (empty_space_ok 3).
Qed.

Lemma create_kernel_ok phys_limit F s :
  pool_holds (frames s) F → FRAME_SIZE ≤ phys_limit < FRAME_SIZE * LOWER_HALF →
  runs (create_address_space phys_limit [] s) (identity_mapped phys_limit F).
Proof.
  intros HF Hlim. destruct (create_kernel_steps phys_limit F s HF Hlim) as (ps & Hp & Hq & Hr & -> & Hnew).
  eapply runs_bind; [exact Hnew|]. intros [a s1] (Hd & _ & F1 & Hg1 & Hok & Hempty). cbn [fst snd] in *.
  assert (LOWER_HALF < span (depth a)) as Hspan by (by rewrite Hd).
  eapply runs_bind; [apply (map_space_ok a ps Kernel TABLE_FLAGS _ F1 s1 Hok)|];
    rewrite ?Hp, ?Hq; try lia; [apply table_flags_ok|].
  intros [n s2] (_ & O & F2 & g & Hok2 & Hg2 & Hfr & Hmap). cbn [fst snd runs identity_mapped] in *.
  rewrite upto_aligned in Hfr, Hmap by (apply Z.divide_0_r || lia).
  split_and!; [done|done|done| |].
  - exists O, F2. split; [done|]. intros x Hx. destruct (grows_trans _ _ _ _ _ _ _ _ _ Hg1 Hg2) as (_ & _ & _ & HO & _).
    by destruct (HO x Hx).
  - intros p Hp'. specialize (Hmap p ltac:(by rewrite Hd)). rewrite (proj2 (Z.leb_le 0 p)) in Hmap by lia. cbn [andb] in Hmap.
    destruct (Z.ltb_spec p (phys_limit / FRAME_SIZE)); [|rewrite Hmap; by apply Hempty].
    destruct Hmap as [Ha Hf]. split; [|done]. rewrite Ha. apply Hfr. lia.
Qed.

(** It leaves the entries of the root table alone whose pages lie above the memory. *)
Lemma create_kernel_unused phys_limit F s a spaces s' j :
  pool_holds (frames s) F → FRAME_SIZE ≤ phys_limit < FRAME_SIZE * LOWER_HALF → create_address_space phys_limit [] s = Done (a, spaces, s') →
  0 ≤ j < 512 → phys_limit / FRAME_SIZE ≤ j * span 3 → ptes s' (root_table a) j = 0.
Proof.
  intros HF Hlim Hrun Hj Hout. destruct (create_kernel_steps phys_limit F s HF Hlim) as (ps & Hp & Hq & Hr & Heq & Hnew).
  rewrite Heq in Hrun. apply res_bind_done in Hrun as ([b s1] & Hb & Hrun). rewrite Hb in Hnew.
  destruct Hnew as (Hd & Hz & F1 & _ & (Hnz & HF1 & Hsep & f & Ht) & _). cbn [fst snd] in *.
  apply res_bind_done in Hrun as ([m s2] & Hm & [= <- _ <-]). cbn [fst snd] in *. rewrite Hd in Ht.
  unfold map_space in Hm. rewrite Hd, (table_ref_ok _ Hnz), res_bind_ret_l in Hm.
  pose proof (map_table_ok 2 (root_table b) 0 (eq (root_table b)) f F1 ps Kernel TABLE_FLAGS s1 ltac:(lia)
    (map_in_table_ok 2 Kernel TABLE_FLAGS ltac:(lia))) as Hok.
  rewrite Hm, Hp, Hq in Hok. destruct Hok as [_ Hun].
  - split; [done|split; [done|split; [done|split; [by exists 0|split; [by split|split; [lia|split; [lia|apply table_flags_ok]]]]]]].
  - cbn [snd] in Hun. rewrite Hun; [apply Hz|done|right; lia].
Qed.

Lemma create_kernel_costs phys_limit s n :
  FRAME_SIZE ≤ phys_limit < FRAME_SIZE * LOWER_HALF → left_over s n →
  costs snd (create_address_space phys_limit [] s) (kernel_frames (1 + tables 3 0 (phys_limit / FRAME_SIZE))) n.
Proof.
  intros Hlim Hl. pose proof Hl as (F & HF & _).
  destruct (create_kernel_steps phys_limit F s HF Hlim) as (ps & Hp & Hq & Hr & -> & Hnew).
  set (q := phys_limit / FRAME_SIZE) in *.
  apply costs_proper with (c := plus (one Kernel) (plus (table_cost Kernel 4 zero_words 0 0 q) none)).
  { intros []; unfold plus, one, none; case_decide; try done; [|by rewrite kernel_cost_user].
    rewrite (blank_cost 3) by lia. rewrite Z.min_l; [cbn [kernel_frames]; lia|].
    change (0 / span 4 + 1) with 1. change (span 4) with (2 ^ 36). unfold LOWER_HALF in Hr. lia. }
  eapply costs_bind; [by apply address_space_new_costs| |].
  { intros sp. unfold plus, none. pose proof (table_cost_nonneg Kernel 4 sp zero_words 0 0 q ltac:(lia)). lia. }
  intros [a s1] Hrun Hl1. rewrite Hrun in Hnew. destruct Hnew as (Hd & Hz & F1 & _ & Hok & _). cbn [fst snd] in *.
  eapply costs_bind with (st := snd); [|done|intros [m s2] _ Hl2; by eapply costs_done].
  assert (LOWER_HALF < span (depth a)) as Hspan by (by rewrite Hd).
  eapply costs_proper; [|apply (map_space_costs a ps Kernel TABLE_FLAGS _ F1 s1 _ Hok)];
    rewrite ?Hp, ?Hq; try lia; [|apply table_flags_ok|done].
  intros sp. rewrite Hd. by apply table_cost_zero.
Qed.

Lemma create_kernel_total phys_limit F s n :
  pool_holds (frames s) F → FRAME_SIZE ≤ phys_limit < FRAME_SIZE * LOWER_HALF → left_over s n →
  total snd (create_address_space phys_limit [] s) (kernel_frames (1 + tables 3 0 (phys_limit / FRAME_SIZE))) n
    (identity_mapped phys_limit F).
Proof. intros. apply costs_total; [by apply create_kernel_costs|by apply create_kernel_ok]. Qed.

(** The frame of its root table, for CR3 *)
Lemma create_kernel_root phys_limit s a spaces s' : create_address_space phys_limit [] s = Done (a, spaces, s') →
  ∃ fr, page_table_address a = Done fr ∧ frame_addr fr = root_table a.
Proof.
  unfold create_address_space. intros Hc. apply res_bind_done in Hc as ([b s1] & Hnew & Hc). inv_res. by eapply address_space_new_root.
Qed.

(** C9: the first address space that is created is the kernel's.  It maps every page
    that ends at or below the limit of the physical memory to the frame with the
    page's own address, and no other page; it becomes the first of the known
    address spaces.  It takes a frame for the root table and one for each table of the
    levels 1 to 3 that has such a page; with fewer free frames, and only then, it
    panics. *)
Theorem create_kernel_address_space phys_limit F s n :
  pool_holds (frames s) F → FRAME_SIZE ≤ phys_limit < FRAME_SIZE * LOWER_HALF → left_over s n →
  total snd (create_address_space phys_limit [] s) (kernel_frames (1 + tables 3 0 (phys_limit / FRAME_SIZE))) n
    (identity_mapped phys_limit F).
Proof. apply create_kernel_total. Qed.

Lemma create_user_ok phys_limit kernel O F s :
  space_ok kernel O F s → (0 < depth kernel)%nat →
  runs (create_address_space phys_limit [kernel] s) (fun '(a, spaces, s') =>
    depth a = depth kernel ∧ spaces = [kernel] ∧
    (∃ msg, current_address_space (root_table a) spaces = Panic msg) ∧
    current_address_space (root_table kernel) spaces = Done kernel ∧
    ∀ p, 0 ≤ p < span (depth kernel) →
      entry_of kernel s' p = entry_of kernel s p ∧
      (entry_of kernel s p ≠ 0 → entry_of a s' p = entry_of kernel s p)).
Proof.
  intros Hok Hd. unfold create_address_space. eapply runs_bind; [by apply (from_other_ok kernel s O F)|].
  intros [a s'] (Hda & Hroot & C & F' & _ & _ & Hcopy & _). cbn [fst snd runs] in *.
  assert (root_table kernel ≠ root_table a) as Hne.
  { destruct Hok as (_ & _ & Hsep & f & Ht). intros Heq. apply (Hsep (root_table kernel)); [by eapply tree_root|].
    exists Kernel. by rewrite Heq. }
  unfold current_address_space. cbn [List.find]. rewrite Z.eqb_refl, (proj2 (Z.eqb_neq _ _) Hne).
  split_and!; [done|done|by eexists|done|]. intros p Hp. destruct (Hcopy p Hp) as [Hk Hb]. split; [done|].
  intros Hused. unfold entry_of at 1. rewrite Hda. by eapply path_walk, Hb.
Qed.

(** C13: every further address space is a copy of the kernel's: each page that the
    kernel's address space maps has the same entry in the copy, and the kernel's
    does not change.  It takes as many frames as the kernel's address space has
    tables; with fewer free frames, and only then, it panics.  The new address
    space is not entered into the known address spaces, so that asking for the
    current address space panics while it is the current one. *)
Theorem create_user_address_space phys_limit kernel O F s n :
  space_ok kernel O F s → (0 < depth kernel)%nat → left_over s n →
  total snd (create_address_space phys_limit [kernel] s)
    (kernel_frames (1 + tables_below (depth kernel) (ptes s) (root_table kernel))) n (fun '(a, spaces, s') =>
    depth a = depth kernel ∧ spaces = [kernel] ∧
    (∃ msg, current_address_space (root_table a) spaces = Panic msg) ∧
    current_address_space (root_table kernel) spaces = Done kernel ∧
    ∀ p, 0 ≤ p < span (depth kernel) →
      entry_of kernel s' p = entry_of kernel s p ∧
      (entry_of kernel s p ≠ 0 → entry_of a s' p = entry_of kernel s p)).
Proof.
  intros Hok Hd Hl. apply costs_total; [|by eapply create_user_ok]. unfold create_address_space.
  apply costs_proper with (c := plus (kernel_frames (1 + tables_below (depth kernel) (ptes s) (root_table kernel))) none).
  { intros sp. unfold plus, none. lia. }
  eapply costs_bind with (st := snd); [by eapply from_other_costs|done|intros r _ Hl'; by eapply costs_done].
Qed.
End Spaces.

(** ** A concrete machine *)

Section Examples.
#[local] Existing Instance development.
#[local] Instance demo_layout : NodeLayout := fun n i =>
  if i =? 0 then Some (default 0 (next n)) else if i =? 1 then Some (frame_count n) else None.

(** Three levels of tables in the frames 40 to 42, which map the pages 0 to 2; all
    other memory holds the word 0x5003. *)
Definition demo_words (a i : Z) : Z :=
  if a =? 163840 then (if i =? 0 then 167936 + 7 else 0)
  else if a =? 167936 then (if i =? 0 then 172032 + 7 else 0)
  else if a =? 172032 then (if i =? 0 then 3 else if i =? 1 then 4096 + 3 else if i =? 2 then 8192 + 3 else 0)
  else 0x5003.
Definition demo_vm : vm := mkVm demo_phys demo_words.
Definition demo_space : AddressSpace := mkSpace 163840 3.
Definition demo_tables (x : Z) : Prop := x = 163840 ∨ x = 167936 ∨ x = 172032.
Definition demo_map (p : Z) : Z := if (0 <=? p) && (p <? 512) then demo_words 172032 p else 0.

Lemma demo_pool : pool_holds demo_phys (free_frame demo_lists).
Proof. exists (demo_frame 40), demo_lists. split; [apply demo_phys_ok|done]. Qed.

Lemma demo_tables_used x : demo_tables x → ¬ fresh (free_frame demo_lists) x.
Proof.
  intros Hx [[] [_ (b & ->%list_elem_of_singleton & Hb)]]; unfold block_end, FRAME_SIZE in Hb; cbn in Hb;
    destruct Hx as [->|[->| ->]]; lia.
Qed.

(** A table that only has its first entry *)
Lemma demo_level l a b f :
  demo_words a 0 = b + 7 → entry_addr (b + 7) = b → flags_ok (entry_flags (b + 7)) → b ≠ 0 → (∀ i, 0 < i → demo_words a i = 0) →
  ∀ O, tree (S l) demo_words b 0 O f → ¬ O a → (∀ p, span (S l) ≤ p → f p = 0) →
  tree (S (S l)) demo_words a 0 (fun x => x = a ∨ O x) f.
Proof.
  intros H0 Hb Hfl Hnz Hz O Ht Ha Hf. apply tree_node. exists (fun i x => i = 0 ∧ O x).
  split; [intros x; unfold owned; split; [intros [->|Hx]; [by left|right; exists 0; done]|intros [->|(i & _ & _ & Hx)]; auto]|].
  split_and!; [naive_solver|by intros i j x _ _ [-> _] [-> _]|]. intros i Hi _. unfold child. destruct (decide (i = 0)) as [->|Hi0].
  - rewrite H0, Hb, (proj2 (Z.eqb_neq _ _)) by done. split; [done|]. rewrite Z.mul_0_l, Z.add_0_l. eapply tree_proper; [|exact Ht]. naive_solver.
  - rewrite Hz by lia. change (entry_addr 0) with 0. cbn. split_and!; [done|naive_solver|]. intros p Hp. apply Hf.
    pose proof (span_pos (S l)). nia.
Qed.

Lemma demo_space_ok : space_ok demo_space demo_tables (free_frame demo_lists) demo_vm.
Proof.
  split; [done|split; [apply demo_pool|split; [apply demo_tables_used|]]]. exists demo_map.
  change (tree 3 demo_words 163840 0 (fun x => x = 163840 ∨ x = 167936 ∨ x = 172032) demo_map).
  assert (∀ l p, span (S l) ≤ p → demo_map p = 0) as Hf.
  { intros l p Hp. unfold demo_map. rewrite (proj2 (Z.ltb_ge p 512)), andb_false_r; [done|].
    pose proof (span_pos l). rewrite span_S in Hp. nia. }
  assert (∀ a i, a = 163840 ∨ a = 167936 → 0 < i → demo_words a i = 0) as Hz.
  { intros a i [->| ->] Hi; unfold demo_words; cbn; by rewrite (proj2 (Z.eqb_neq i 0)) by lia. }
  apply (demo_level 1 _ 167936); [done|done|done|done|intros i; apply Hz; by left| |naive_solver lia|apply Hf].
  apply (demo_level 0 _ 172032); [done|done|done|done|intros i; apply Hz; by right| |done|apply Hf].
  split; [done|]. intros i Hi. unfold demo_map. rewrite Z.add_0_l.
  by rewrite (proj2 (Z.leb_le _ _)), (proj2 (Z.ltb_lt _ _)) by lia.
Qed.

(** 31 free frames for the kernel and 2936 for users *)
Definition demo_budget : budget := fun sp => frames_in (demo_lists sp).
Lemma demo_left_over : left_over demo_vm demo_budget.
Proof. apply (phys_left_over _ (demo_frame 40)), demo_phys_ok. Qed.

(** Pages 1 to 600, to the frames of a user *)
Definition demo_page (n : Z) : Page := match page4k_at n with Done p => p | _ => Page4K 0 eq_refl end.
Definition demo_pages : pages := mkPages (demo_page 1) (demo_page 600).
Definition demo_mapped := map_space demo_space demo_pages User TABLE_FLAGS demo_vm.

Lemma map_space_maps_witness :
  ∃ n s', demo_mapped = Done (n, s') ∧ n = 599 ∧ entry_of demo_space s' 600 = entry_of demo_space demo_vm 600 ∧
    entry_flags (entry_of demo_space s' 599) = TABLE_FLAGS.
Proof.
  unfold demo_mapped. destruct (total_done _ _ _ _ _ (map_space_maps demo_space demo_pages User TABLE_FLAGS demo_tables _ demo_vm _ demo_space_ok ltac:(cbn; lia)
      ltac:(vm_compute; intuition congruence) ltac:(vm_compute; congruence) ltac:(vm_compute; congruence) table_flags_ok demo_left_over) ltac:(vm_compute; reflexivity))
    as ([n s'] & Hrun & (Hn & O' & F' & g & _ & _ & _ & Hall) & _).
  exists n, s'. split; [exact Hrun|split; [exact Hn|split]].
  - pose proof (Hall 600 ltac:(vm_compute; intuition congruence)) as H600. branch_of H600 false. exact H600.
  - pose proof (Hall 599 ltac:(vm_compute; intuition congruence)) as H599. branch_of H599 true. exact (proj2 H599).
Defined.

Definition demo_kernel := create_address_space 0x100000 [] demo_vm.
Lemma create_kernel_address_space_witness :
  ∃ a s', demo_kernel = Done (a, [a], s') ∧ entry_addr (entry_of a s' 255) = 1044480 ∧ entry_of a s' 256 = 0.
Proof.
  unfold demo_kernel. destruct (total_done _ _ _ _ _ (create_kernel_address_space 0x100000 _ demo_vm _ demo_pool ltac:(vm_compute; intuition congruence) demo_left_over)
      ltac:(vm_compute; reflexivity))
    as ([[a spaces] s'] & Hrun & (-> & _ & _ & _ & Hall) & _).
  exists a, s'. split; [exact Hrun|split].
  - pose proof (Hall 255 ltac:(vm_compute; intuition congruence)) as H255. branch_of H255 true. exact (proj1 H255).
  - pose proof (Hall 256 ltac:(vm_compute; intuition congruence)) as H256. branch_of H256 false. exact H256.
Defined.

Definition demo_user := create_address_space 0x100000 [demo_space] demo_vm.
Lemma create_user_address_space_witness :
  ∃ a s', demo_user = Done (a, [demo_space], s') ∧ entry_of a s' 2 = 8195 ∧
    ∃ msg, current_address_space (root_table a) [demo_space] = Panic msg.
Proof.
  unfold demo_user. destruct (total_done _ _ _ _ _ (create_user_address_space 0x100000 demo_space demo_tables _ demo_vm _ demo_space_ok ltac:(cbn; lia) demo_left_over)
      ltac:(vm_compute; reflexivity))
    as ([[a spaces] s'] & Hrun & (_ & -> & Hcur & _ & Hall) & _).
  exists a, s'. split; [exact Hrun|split; [|exact Hcur]].
  apply (Hall 2); vm_compute; intuition congruence.
Defined.

(** Copying does not clear the tables it allocates: page 1027 has no entry in the
    address space that is copied, but one in the copy, made from what the
    memory happened to hold. *)
Lemma from_other_stale_entries :
  match demo_user with
  | Done (a, _, s') => entry_of demo_space s' 1027 = 0 ∧ entry_of a s' 1027 ≠ 0
  | _ => False
  end.
Proof. vm_compute. done. Qed.

(** Mapping the pages 10 to 11 of an empty table maps the pages 10 to 20. *)
Lemma map_space_maps_too_much :
  match map_space demo_space (mkPages (demo_page 10) (demo_page 11)) Kernel TABLE_FLAGS demo_vm with
  | Done (n, s') => n = 1 ∧ (λ p, entry_addr (entry_of demo_space s' p)) <$> seqZ 9 13 = 0 :: map (λ p, FRAME_SIZE * p) (seqZ 10 11) ++ [0]
  | _ => False
  end.
Proof. vm_compute. done. Qed.
(** The kernel's address space, for 1 MiB of memory *)
Definition demo_booted : AddressSpace * vm :=
  match demo_kernel with Done (a, _, s) => (a, s) | _ => (demo_space, demo_vm) end.

Lemma demo_booted_ok : ∃ O F n, space_ok demo_booted.1 O F demo_booted.2 ∧ depth demo_booted.1 = 4%nat ∧
  (∀ i, 0 < i < 512 → ptes demo_booted.2 (root_table demo_booted.1) i = 0) ∧ left_over demo_booted.2 n ∧ n Kernel = 27 ∧ n User = 2936.
Proof.
  assert (FRAME_SIZE ≤ 0x100000 < FRAME_SIZE * LOWER_HALF) as H1 by (vm_compute; intuition congruence).
  destruct (total_done _ _ _ _ _ (create_kernel_total 0x100000 _ demo_vm _ demo_pool H1 demo_left_over)
    ltac:(vm_compute; reflexivity)) as ([[a spaces] s'] & Hrun & (-> & _ & Hd & (O & F & Hok & _) & _) & Hl).
  unfold demo_booted, demo_kernel. rewrite Hrun. cbn [fst snd] in *. exists O, F, (less demo_budget (kernel_frames (1 + tables 3 0 (0x100000 / FRAME_SIZE)))).
  split; [done|split; [done|split; [|split; [done|split; vm_compute; reflexivity]]]].
  intros i Hi. apply (create_kernel_unused 0x100000 (free_frame demo_lists) demo_vm a [a] s' i demo_pool H1 Hrun); [lia|].
  change (0x100000 / FRAME_SIZE) with 256. change (span 3) with (2 ^ 27). lia.
Qed.

End Examples.
