(* ===== verification/BootPaging.v ===== *)
(** * From the free lists to the address space of the kernel (os/kernel/src/boot.rs)

    [start] hands the available memory to the page frame allocators (BootMap.v,
    Physical.v), creates the address space of the kernel and maps the framebuffer
    into it (AddressSpaces.v).  This file composes the three: how many frames
    the kernel's free list holds, and for what they are enough. *)

From S2P Require Import Prelude Counting Frames PageFrameList Physical Paging PagingMap PagingCount PagingAlloc PagingSpace PagingCopy AddressSpaces.
#[local] Open Scope Z_scope.

Section BootPaging.
Context `{Profile} `{FrameAllocator} `{PageOps} `{EntryOps}.

(** [start]: the framebuffer, [height] lines of [pitch] bytes, is mapped uncached. *)
Definition map_framebuffer (a : AddressSpace) (address height pitch : Z) (s : vm) : res vm :=
  first ← page_from_start address;
  first ← expect "Framebuffer address is not page aligned!" first;
  size ← mul_w 32 height pitch;
  last ← add_w 64 address size;
  last ← virt_align_up last PAGE_SIZE;
  last ← page_from_start last;
  last ← unwrap last;
  m ← map_space a (mkPages first last) Kernel DEVICE_FLAGS s;
  Done m.2.

(** [start]: the address space and the framebuffer; the result starts with the frame
    that is written to CR3. *)
Definition boot_paging (phys_limit : Z) (spaces : list AddressSpace) (address height pitch : Z) (s : vm)
  : res (PhysFrame * list AddressSpace * vm) :=
  r ← create_address_space phys_limit spaces s;
  cr3 ← page_table_address r.1.1;
  s ← map_framebuffer r.1.1 address height pitch r.2;
  Done (cr3, r.1.2, s).
End BootPaging.

(** ** The frames below the limit *)

Section Frames.
Context `{PhysFrameOps} `{!PhysFrameLaws}.

Lemma count_region_below r limit : region_ok r →
  count (fun x => valid_frame_addr x = true ∧ in_range r x ∧ x < frame_addr limit)
    (Z.max 0 (Z.min (frame_addr (end_ r)) (frame_addr limit) - frame_addr (start r)) / FRAME_SIZE).
Proof.
  intros Hr. unfold region_ok, in_range in *. destruct (frame_addr_aligned (start r)) as [a Ha].
  assert (∃ c, Z.min (frame_addr (end_ r)) (frame_addr limit) = FRAME_SIZE * c) as [c Hc].
  { destruct (frame_addr_aligned (end_ r)) as [b Hb], (frame_addr_aligned limit) as [d Hd].
    exists (Z.min b d). rewrite Hb, Hd. unfold FRAME_SIZE. lia. }
  pose proof (frame_addr_range (end_ r)). rewrite Hc. rewrite Ha in *.
  destruct (Z.le_gt_cases a c) as [Hac|Hac].
  - replace (Z.max 0 (FRAME_SIZE * c - FRAME_SIZE * a)) with ((c - a) * FRAME_SIZE) by (unfold FRAME_SIZE; lia).
    rewrite Z.div_mul by done. eapply count_proper; [|apply (frames_between a c); unfold FRAME_SIZE in *; lia].
    intros x. cbn. rewrite <-Hc. split; intros (Hv & Hx); (split; [done|lia]).
  - replace (Z.max 0 (FRAME_SIZE * c - FRAME_SIZE * a)) with 0 by (unfold FRAME_SIZE; lia).
    apply count_nil. intros x (_ & Hx & Hl). unfold FRAME_SIZE in *. lia.
Qed.

Lemma regions_from_start lo l r : regions_from lo l → r ∈ l → lo ≤ frame_addr (start r).
Proof.
  revert lo. induction l as [|y l IH]; intros lo Hl Hin; [by apply elem_of_nil in Hin|].
  destruct Hl as (Hle & Hy & Hl). apply elem_of_cons in Hin as [->|Hin]; [done|].
  specialize (IH _ Hl Hin). unfold region_ok in Hy. lia.
Qed.

Lemma count_memory_below limit rs : ∀ lo, regions_from lo rs →
  count (fun x => valid_frame_addr x = true ∧ (∃ r, r ∈ rs ∧ in_range r x) ∧ x < frame_addr limit)
    (bytes_below (frame_addr limit) rs / FRAME_SIZE).
Proof.
  induction rs as [|r rs IH]; intros lo Hrs.
  { apply count_nil. intros x (_ & (r & Hr & _) & _). by apply elem_of_nil in Hr. }
  destruct Hrs as (Hlo & Hr & Hrs). cbn [bytes_below]. pose proof (count_region_below r limit Hr) as Hhere.
  set (b := Z.max 0 _) in *. assert (∃ k, b = k * FRAME_SIZE) as [k Hk].
  { destruct (frame_addr_aligned (end_ r)) as [i Hi], (frame_addr_aligned limit) as [d Hd], (frame_addr_aligned (start r)) as [a Ha].
    exists (Z.max 0 (Z.min i d - a)). unfold b. rewrite Hi, Hd, Ha. unfold FRAME_SIZE. lia. }
  rewrite Hk, Z.div_mul in Hhere by done. rewrite Hk, Z.add_comm, Z.div_add, Z.add_comm by done.
  eapply count_proper; [|apply (count_or _ _ _ _) with (2 := Hhere) (3 := IH _ Hrs)].
  - intros x. cbn. split; [intros [(Hv & Hx & Hl)|(Hv & (r' & Hr' & Hx) & Hl)]; set_solver|].
    intros (Hv & (r' & [->|Hr']%elem_of_cons & Hx) & Hl); [left; done|right; eauto].
  - intros x (_ & Hx & _) (_ & (r' & Hr' & Hx') & _). unfold in_range in *.
    pose proof (regions_from_start _ _ _ Hrs Hr'). lia.
Qed.

(** The kernel's free list after [init] *)
Lemma init_kernel_frames `{Profile} st limit L regions :
  phys_ok st limit L → Forall region_ok regions → ForallOrdPairs disjoint_regions regions →
  (∀ sp x, covers (L sp) x ↔ zone limit sp x ∧ ∃ r, r ∈ regions ∧ in_range r x) →
  frames_in (L Kernel) = bytes_below (frame_addr limit) regions / FRAME_SIZE.
Proof.
  intros Hok Hreg Hdis Hcov. rewrite <-(sort_regions_perm regions).
  eapply count_unique; [|apply (count_covered (L Kernel) 0); [apply (proj2 Hok Kernel)|done]|
    apply (count_memory_below limit (sort_regions regions) 0); by apply sort_regions_from].
  intros x. cbn. rewrite Hcov. cbn [zone]. setoid_rewrite (sort_regions_perm regions). tauto.
Qed.
End Frames.

(** ** The tables of a physical memory *)

Lemma div_up_div a b c : 0 < b → 0 < c → div_up (div_up a b) c = div_up a (b * c).
Proof.
  intros Hb Hc. unfold div_up. rewrite <-Z.div_div by lia. f_equal.
  replace (a + b * c - 1) with (a + b - 1 + (c - 1) * b) by ring. rewrite Z.div_add by lia. ring.
Qed.
Lemma tables_at_zero k q : tables_at k 0 q = div_up q (span k).
Proof.
  pose proof (span_pos k). unfold tables_at, div_up. rewrite Z.div_0_l by lia.
  replace (q + span k - 1) with (q - 1 + 1 * span k) by ring. rewrite Z.div_add by lia. ring.
Qed.

(** The root table and the tables below it are those that [tables_needed] counts. *)
Lemma tables_needed_tables q : 0 < q < LOWER_HALF → tables_needed (div_up q 512) = 1 + tables 3 0 q.
Proof.
  intros Hq. cbn [tables]. rewrite !tables_at_zero. unfold tables_needed. rewrite !div_up_div by done.
  change (512 * 512 * 512 * 512) with (span 4). change (512 * 512 * 512) with (span 3). change (512 * 512) with (span 2). change (span 1) with 512.
  assert (div_up q (span 4) = 1) as ->; [|lia]. unfold div_up. symmetry. apply (Z.div_unique _ _ _ (q - 1)); [|ring].
  change (span 4) with (2 ^ 36). unfold LOWER_HALF in Hq. lia.
Qed.
Lemma round_up_tables q : round_up (FRAME_SIZE * q) 0x200000 / 0x200000 = div_up q 512.
Proof.
  unfold round_up, div_up, FRAME_SIZE. rewrite Z.div_mul by done. change 0x200000 with (4096 * 512). rewrite <-Z.div_div by done.
  f_equal. replace (4096 * q + 4096 * 512 - 1) with (4095 + (q + 512 - 1) * 4096) by ring. rewrite Z.div_add by done. done.
Qed.

(** ** After the initialization of the physical memory *)

Section AfterInit.
Context `{Profile} `{PhysFrameOps} `{!PhysFrameLaws} `{NodeLayout} `{PageLaws} `{EntryLaws}.

(** The frames that are free after [init] *)
Lemma init_left_over m regions heap_end st limit w :
  Forall region_ok regions → ForallOrdPairs disjoint_regions regions → round_up (top_addr regions) 0x200000 < 2 ^ 52 →
  page_table_bytes (round_up (top_addr regions) 0x200000) ≤ total_bytes regions →
  init (Physical.phys_new m) regions heap_end = Done st → kernel_phys_limit st = Done limit → (∀ r, r ∈ regions → end_ r ≠ limit) →
  ∃ n, left_over (mkVm st w) n ∧ page_table_bytes (round_up (top_addr regions) 0x200000) ≤ FRAME_SIZE * n Kernel ∧
    (limit ≠ heap_end → page_table_bytes (round_up (top_addr regions) 0x200000) = FRAME_SIZE * n Kernel).
Proof.
  intros Hok Hdis Hup Htotal Hinit Hlimit Hedge.
  destruct (init_sound m regions heap_end Hok Hdis Hup Htotal) as (limit' & _ & Hb & Hor & Hst & Hlim & _).
  apply Hlim in Hinit as Hl. rewrite Hlimit in Hl. injection Hl as <-.
  destruct (Hst Hedge) as (st' & L & Hinit' & Hphys & Hcov). rewrite Hinit in Hinit'. injection Hinit' as <-.
  exists (fun sp => frames_in (L sp)). split; [by eapply phys_left_over|].
  rewrite (init_kernel_frames st limit L regions) by done.
  assert (∃ k, page_table_bytes (round_up (top_addr regions) 0x200000) = k * FRAME_SIZE) as [k Hk].
  { unfold page_table_bytes, PAGE_SIZE. by eexists. }
  rewrite Hk in *. split.
  - rewrite Z.mul_comm. apply Z.mul_le_mono_nonneg_l; [done|]. apply Z.div_le_lower_bound; [done|]. lia.
  - intros Hne. destruct Hor as [|Heq]; [done|]. rewrite Heq, Z.div_mul by done. lia.
Qed.

(** C11: after [init] has split the memory at a limit above the heap, the kernel's
    free list holds exactly the frames that [calc_page_table_memory] computed.  For up
    to 1 GiB of memory the first address space takes all of them, and the next
    allocation for the kernel (a page table for the framebuffer, another address
    space) panics.  For more memory that does not fill its level-2 tables, the
    computed number is too small: creating the first address space panics. *)
Theorem kernel_tables_take_all_frames m regions heap_end st limit w :
  Forall region_ok regions → ForallOrdPairs disjoint_regions regions →
  FRAME_SIZE ≤ top_addr regions < FRAME_SIZE * LOWER_HALF →
  page_table_bytes (round_up (top_addr regions) 0x200000) ≤ total_bytes regions →
  init (Physical.phys_new m) regions heap_end = Done st → kernel_phys_limit st = Done limit →
  limit ≠ heap_end → (∀ r, r ∈ regions → end_ r ≠ limit) →
  ∃ top, phys_limit st = Done top ∧
    let n1 := div_up (top_addr regions / FRAME_SIZE) 512 in
    let r := create_address_space (frame_addr top) [] (mkVm st w) in
    (n1 ≤ 512 → ∃ a s' F, r = Done (a, [a], s') ∧ identity_mapped (top_addr regions) F (a, [a], s') ∧
      alloc_frame Kernel s' = Panic OUT_OF_MEMORY) ∧
    (512 < n1 → n1 mod 512 ≠ 0 → r = Panic OUT_OF_MEMORY).
Proof.
  intros Hok Hdis Htop Htotal Hinit Hlimit Hne Hedge.
  assert (round_up (top_addr regions) 0x200000 < 2 ^ 52) as Hup.
  { unfold round_up, FRAME_SIZE, LOWER_HALF in *. pose proof (Z.mul_div_le (top_addr regions + 0x200000 - 1) 0x200000 ltac:(done)). lia. }
  destruct (init_left_over m regions heap_end st limit w Hok Hdis Hup Htotal Hinit Hlimit Hedge) as (n & Hl & _ & Hn).
  specialize (Hn Hne). destruct (init_phys_limit _ _ _ _ Hinit) as (top & Htop' & Hta). exists top. split; [done|]. cbv zeta.
  assert (∃ q, top_addr regions = FRAME_SIZE * q) as [q Hq] by (rewrite <-Hta; apply frame_addr_aligned).
  rewrite Hta, Hq in *. rewrite (Z.mul_comm FRAME_SIZE q), Z.div_mul, Z.mul_comm by done.
  assert (0 < q < LOWER_HALF) as Hqr by (unfold FRAME_SIZE in *; lia).
  destruct (page_table_bytes_bound (FRAME_SIZE * q)) as (_ & Hless & Heq); [unfold FRAME_SIZE; lia|].
  rewrite round_up_tables, tables_needed_tables, Hn in * by done. change PAGE_SIZE with FRAME_SIZE in *.
  pose proof Hl as (F & HF & Hc). pose proof (create_kernel_total (FRAME_SIZE * q) F (mkVm st w) n HF ltac:(done) Hl) as Hcreate.
  assert (FRAME_SIZE * q / FRAME_SIZE = q) as Hdiv by (by rewrite Z.mul_comm, Z.div_mul). rewrite Hdiv in Hcreate.
  pose proof (left_over_nonneg _ _ User Hl) as Huser. split.
  - intros Hsmall. specialize (Heq Hsmall).
    destruct (total_done _ _ _ _ _ Hcreate) as ([[a spaces] s'] & Hrun & Hid & Hleft).
    { apply affordable_spec. intros []; cbn [kernel_frames]; unfold FRAME_SIZE in *; lia. }
    pose proof Hid as (-> & _). exists a, s', F. split; [done|split; [done|]].
    pose proof (alloc_frame_costs Kernel s' _ Hleft) as Halloc. unfold costs in Halloc.
    destruct (affordable (one Kernel) _) eqn:Ha; [|done]. pose proof (proj1 (affordable_spec _ _) Ha Kernel) as HK.
    unfold one, less in HK. rewrite decide_True in HK by done. cbn [kernel_frames] in HK. unfold FRAME_SIZE in *. lia.
  - intros Hbig Hmod. specialize (Hless Hbig Hmod). unfold total in Hcreate. destruct (affordable (kernel_frames _) n) eqn:Ha; [|done].
    pose proof (proj1 (affordable_spec _ _) Ha Kernel) as HK. cbn [kernel_frames] in HK. unfold FRAME_SIZE in *. lia.
Qed.
End AfterInit.

(** ** Paging at boot *)

Section BootMaps.
Context `{Profile} `{FrameAllocatorLaws} `{!PhysFrameLaws} `{PageLaws} `{EntryLaws}.

(** The pages of a framebuffer *)
Lemma map_framebuffer_eq a address height pitch s :
  0 ≤ address → address mod FRAME_SIZE = 0 → 0 < height * pitch < 2 ^ 32 → round_up (address + height * pitch) FRAME_SIZE < FRAME_SIZE * LOWER_HALF →
  ∃ ps, map_framebuffer a address height pitch s = (m ← map_space a ps Kernel DEVICE_FLAGS s; Done m.2) ∧
    pn (pstart ps) = address / FRAME_SIZE ∧ pn (pend ps) = round_up (address + height * pitch) FRAME_SIZE / FRAME_SIZE ∧
    0 ≤ pn (pstart ps) < pn (pend ps) ∧ pn (pend ps) < LOWER_HALF.
Proof.
  intros Ha Hal Hsize Hend. set (e := round_up (address + height * pitch) FRAME_SIZE) in *.
  assert (address + height * pitch ≤ e ∧ e mod FRAME_SIZE = 0) as [He Hem].
  { unfold e, round_up. split; [|by apply Z.mod_mul]. pose proof (Z.mul_succ_div_gt (address + height * pitch + FRAME_SIZE - 1) FRAME_SIZE ltac:(done)).
    unfold FRAME_SIZE in *. lia. }
  destruct (page_from_start_ok address) as (first & Hfirst & Hpf); [lia|done|].
  destruct (page_from_start_ok e) as (last & Hlast & Hpl); [lia|done|]. exists (mkPages first last). cbn [pstart pend].
  split; [|split; [done|split; [done|rewrite Hpf, Hpl]]].
  - unfold map_framebuffer. rewrite Hfirst, res_bind_ret_l. cbn [expect]. rewrite res_bind_ret_l, mul_w_ok by lia.
    rewrite res_bind_ret_l, add_w_ok by (unfold FRAME_SIZE, LOWER_HALF in *; lia). change PAGE_SIZE with FRAME_SIZE.
    rewrite res_bind_ret_l, virt_align_up_ok by lia. fold e. by rewrite res_bind_ret_l, Hlast.
  - apply Z.mod_divide in Hal as [u Hu], Hem as [v Hv]; [|done..]. rewrite Hu, Hv, !Z.div_mul by done.
    unfold FRAME_SIZE in *. lia.
Qed.

(** C10: with frames for the tables of the memory and of the framebuffer, the paging
    code of [start] succeeds: CR3 gets the root table of an address space that maps
    the framebuffer's pages to themselves, uncached, and every other page below the
    limit of the physical memory to itself.  A framebuffer that lies within one last-level table is extended ([upto])
    by as many pages as lie before it in that table, at most to the table's end: these are mapped uncached as well.  No
    further page is mapped. *)
Theorem boot_paging_maps phys_limit F s n address height pitch :
  pool_holds (frames s) F → FRAME_SIZE ≤ phys_limit < FRAME_SIZE * LOWER_HALF → left_over s n →
  0 ≤ address → address mod FRAME_SIZE = 0 → 0 < height * pitch < 2 ^ 32 → round_up (address + height * pitch) FRAME_SIZE < FRAME_SIZE * LOWER_HALF →
  let q := phys_limit / FRAME_SIZE in
  let u := address / FRAME_SIZE in let v := round_up (address + height * pitch) FRAME_SIZE / FRAME_SIZE in
  1 + tables 3 0 q + tables 3 u v ≤ n Kernel →
  ∃ cr3 a s', boot_paging phys_limit [] address height pitch s = Done (cr3, [a], s') ∧
    frame_addr cr3 = root_table a ∧ depth a = 4%nat ∧
    ∀ p, 0 ≤ p < span 4 →
      if (u <=? p) && (p <? upto u v) then entry_addr (entry_of a s' p) = FRAME_SIZE * p ∧ entry_flags (entry_of a s' p) = DEVICE_FLAGS
      else if p <? q then entry_addr (entry_of a s' p) = FRAME_SIZE * p ∧ entry_flags (entry_of a s' p) = TABLE_FLAGS
      else entry_of a s' p = 0.
Proof.
  intros HF Hlim Hl Ha Hal Hsize Hend q u v Hn.
  assert (0 < q) as Hq by (unfold q; apply Z.div_str_pos; unfold FRAME_SIZE in *; lia).
  destruct (map_framebuffer_eq (mkSpace 0 0) address height pitch s Ha Hal Hsize Hend) as (ps0 & _ & Hu0 & Hv0 & Huv & _).
  fold u in Hu0. fold v in Hv0. rewrite Hu0, Hv0 in Huv. clear ps0 Hu0 Hv0.
  destruct (total_done _ _ _ _ _ (create_kernel_total phys_limit F s n HF Hlim Hl)) as ([[a spaces] s1] & Hrun & Hid & Hl1).
  { apply affordable_spec. intros []; [|by eapply left_over_nonneg]. cbn [kernel_frames]. fold q.
    pose proof (kernel_cost_tables 3 zero_words 0 u v ltac:(lia)). pose proof (table_cost_nonneg Kernel 4 Kernel zero_words 0 u v ltac:(lia)). lia. }
  destruct Hid as (-> & _ & Hd & (O & F1 & Hok & _) & Hmap). destruct (create_kernel_root _ _ _ _ _ Hrun) as (cr3 & Hcr3 & Hroot).
  destruct (map_framebuffer_eq a address height pitch s1 Ha Hal Hsize Hend) as (ps & Hfb & Hu & Hv & _ & Hhalf).
  fold u in Hu. fold v in Hv. assert (LOWER_HALF < span (depth a)) as Hspan by (by rewrite Hd).
  destruct (total_done _ _ _ _ _ (map_space_total a ps Kernel DEVICE_FLAGS O F1 s1 _ Hok ltac:(lia) ltac:(rewrite Hu, Hv; done)
    ltac:(lia) Hhalf device_flags_ok Hl1)) as ([m s2] & Hmrun & (_ & O2 & F2 & g & _ & _ & Hg & Hmap2) & _).
  { apply affordable_spec. rewrite Hu, Hv, Hd. intros []; [|rewrite kernel_cost_user; by eapply left_over_nonneg].
    unfold less. cbn [kernel_frames]. fold q. pose proof (kernel_cost_tables 3 (ptes s1) (root_table a) u v ltac:(lia)). lia. }
  exists cr3, a, s2. split_and!; [|done|done|].
  { unfold boot_paging. rewrite Hrun, res_bind_ret_l. cbn [fst snd]. rewrite Hcr3, res_bind_ret_l, Hfb, Hmrun. done. }
  cbn [fst snd] in *. rewrite Hu, Hv in *. intros p Hp. specialize (Hmap2 p ltac:(by rewrite Hd)). specialize (Hmap p Hp). fold q in Hmap.
  destruct (Z.leb_spec u p), (Z.ltb_spec p (upto u v)); cbn [andb] in *; [|by rewrite Hmap2..].
  destruct Hmap2 as [Haddr Hfl]. split; [|done]. rewrite Haddr. apply Hg. lia.
Qed.
End BootMaps.

(** ** Concrete machines *)

Section Examples.
#[local] Existing Instance development.
#[local] Existing Instance demo_layout.

(** The memory from 64 KiB to 12 MiB, and to 1.5 GiB *)
Definition small_memory : list (@PhysFrameRange frame_model) := [demo_range 16 3072].
Definition large_memory : list (@PhysFrameRange frame_model) := [demo_range 16 0x60000].
Definition after_init (rs : list PhysFrameRange) : phys_state :=
  match init (Physical.phys_new ∅) rs (demo_frame 17) with Done st => st | _ => Physical.phys_new ∅ end.

Lemma memory_ok n : n = 3072 ∨ n = 0x60000 → Forall region_ok [demo_range 16 n] ∧ ForallOrdPairs disjoint_regions [demo_range 16 n].
Proof.
  intros Hn. split; [|apply FOP_cons; [apply list.Forall_nil_2|apply FOP_nil]].
  apply list.Forall_singleton. destruct Hn as [->| ->]; vm_compute; done.
Qed.
Lemma demo_frame_ne n k : f4_addr (demo_frame n) ≠ f4_addr (demo_frame k) → demo_frame n ≠ demo_frame k.
Proof. intros Hne Heq. apply Hne. by rewrite Heq. Qed.
Lemma not_at_end n k : demo_frame n ≠ demo_frame k → frame_addr (end_ (demo_range 16 n)) = frame_addr (demo_frame n) →
  ∀ r, r ∈ [demo_range 16 n] → end_ r ≠ demo_frame k.
Proof. intros Hne He r ->%list_elem_of_singleton Heq. rewrite Heq in He. apply Hne. by apply frame4k_eq. Qed.

Lemma kernel_tables_take_all_frames_witness :
  (∃ top a s', phys_limit (after_init small_memory) = Done top ∧
    create_address_space (frame_addr top) [] (mkVm (after_init small_memory) zero_words) = Done (a, [a], s') ∧
    alloc_frame Kernel s' = Panic OUT_OF_MEMORY) ∧
  ∃ top, phys_limit (after_init large_memory) = Done top ∧
    create_address_space (frame_addr top) [] (mkVm (after_init large_memory) zero_words) = Panic OUT_OF_MEMORY.
Proof.
  split.
  - destruct (memory_ok 3072) as [Hok Hdis]; [by left|].
    destruct (kernel_tables_take_all_frames ∅ small_memory (demo_frame 17) (after_init small_memory) (demo_frame 25) zero_words Hok Hdis)
      as (top & Htop & Hsmall & _); [vm_compute; intuition congruence|
        vm_compute; congruence|apply done_or; vm_compute; reflexivity|vm_compute; reflexivity|apply demo_frame_ne; vm_compute; congruence|apply not_at_end; [apply demo_frame_ne; vm_compute; congruence|vm_compute; reflexivity]|].
    destruct (Hsmall ltac:(vm_compute; congruence)) as (a & s' & F & Hrun & _ & Halloc). exists top, a, s'. split; [exact Htop|split; [exact Hrun|exact Halloc]].
  - destruct (memory_ok 0x60000) as [Hok Hdis]; [by right|].
    destruct (kernel_tables_take_all_frames ∅ large_memory (demo_frame 17) (after_init large_memory) (demo_frame 787) zero_words Hok Hdis)
      as (top & Htop & _ & Hlarge); [vm_compute; intuition congruence|
        vm_compute; congruence|apply done_or; vm_compute; reflexivity|vm_compute; reflexivity|apply demo_frame_ne; vm_compute; congruence|apply not_at_end; [apply demo_frame_ne; vm_compute; congruence|vm_compute; reflexivity]|].
    exists top. split; [exact Htop|exact (Hlarge ltac:(vm_compute; congruence) ltac:(vm_compute; congruence))].
Defined.

(** A framebuffer of 600 lines at 0xfd000000 *)
Lemma boot_paging_maps_witness :
  ∃ cr3 a s', boot_paging 0x100000 [] 0xfd000000 600 3200 demo_vm = Done (cr3, [a], s') ∧
    entry_flags (entry_of a s' 0xfd1d4) = DEVICE_FLAGS ∧ entry_of a s' 0xfd1d5 = 0.
Proof.
  destruct (boot_paging_maps 0x100000 _ demo_vm demo_budget 0xfd000000 600 3200 demo_pool ltac:(vm_compute; intuition congruence) demo_left_over
    ltac:(done) ltac:(done) ltac:(done) ltac:(done) ltac:(vm_compute; congruence)) as (cr3 & a & s' & Hrun & _ & _ & Hall).
  exists cr3, a, s'. split; [exact Hrun|split].
  - pose proof (Hall 0xfd1d4 ltac:(vm_compute; intuition congruence)) as Hp. branch_of Hp true. exact (proj2 Hp).
  - pose proof (Hall 0xfd1d5 ltac:(vm_compute; intuition congruence)) as Hp. branch_of Hp false. branch_of Hp false. exact Hp.
Defined.
End Examples.
