(* ===== verification/Scheduler.v ===== *)
(** * The thread scheduler (os/kernel/src/thread/scheduler.rs)

    Each block of code that holds the scheduler's locks is one function on the
    scheduler's state; the threads and the timer interrupt interleave between
    those blocks ([step]).  [Thread::switch], which [block] calls after it has released its
    locks, is a step of its own.  Preemption.v looks inside the blocks and has the stacks.  The queue of ready threads is a list with the front
    of the [VecDeque] first.  The crate smallmap, which provides [join_map], is
    not part of the repository: the map is any [FinMap] of stdpp. *)

From S2P Require Import Prelude.
From stdpp Require Import fin_maps pretty.
#[local] Open Scope Z_scope.

(** What the scheduler uses of a thread (thread.rs); [Rc] handles are values. *)
Class ThreadOps := { Thread : Type; id : Thread → Z }.

(** What a scheduler function has to do after it has released its locks: return to its caller, switch stacks
    (with or without a preceding end-of-interrupt), or start the first thread.  The functions below
    end with the release of the locks, and this is what they decide; they do not switch themselves. *)
Inductive action `{ThreadOps} :=
  | Return
  | Switch (end_of_interrupt : bool) (current next : Thread)
  | StartFirst (thread : Thread).

(** [VecDeque::pop_back] *)
Fixpoint pop_back {A} (l : list A) : option (A * list A) :=
  match l with
  | [] => None
  | x :: l' =>
      match pop_back l' with
      | None => Some (x, [])
      | Some (y, l'') => Some (y, x :: l'')
      end
  end.

(** [next_thread_id]: [fetch_add] wraps around in every profile. *)
Definition next_thread_id (THREAD_ID_COUNTER : Z) : Z * Z :=
  (THREAD_ID_COUNTER, wrap 64 (THREAD_ID_COUNTER + 1)).

Section Scheduler.
Context `{ThreadOps} `{Profile} `{FinMap Z M}.

Record ReadyState := mkReady {
  initialized : bool;
  current_thread : option Thread;
  ready_queue : list Thread;
}.

(** [ReadyState::new] *)
Definition ready_state_new : ReadyState := mkReady false None [].

Record Scheduler := mkSched {
  state : ReadyState;
  sleep_list : list (Thread * Z);
  join_map : M (list Thread);
}.

(** [Scheduler::new] *)
Definition scheduler_new : Scheduler := mkSched ready_state_new [] ∅.

Definition push_front (t : Thread) (s : ReadyState) : ReadyState :=
  mkReady (initialized s) (current_thread s) (t :: ready_queue s).
Definition set_current (t : Thread) (s : ReadyState) : ReadyState :=
  mkReady (initialized s) (Some t) (ready_queue s).
Definition set_queue (q : list Thread) (s : ReadyState) : ReadyState :=
  mkReady (initialized s) (current_thread s) q.

(** [set_init] *)
Definition set_init (s : Scheduler) : Scheduler :=
  mkSched (mkReady true (current_thread (state s)) (ready_queue (state s))) (sleep_list s) (join_map s).

(** [current] *)
Definition current (s : ReadyState) : res Thread :=
  expect "Scheduler: Trying to access current thread before initialization!" (current_thread s).

(** [current_thread] *)
Definition current_thread_of (s : Scheduler) : res Thread := current (state s).

(** [check_sleep_list]: the closure passed to [retain], over the whole list. *)
Fixpoint retain_sleeping (time : Z) (s : ReadyState) (l : list (Thread * Z)) :
    ReadyState * list (Thread * Z) :=
  match l with
  | [] => (s, [])
  | entry :: l' =>
      if entry.2 <=? time then retain_sleeping time (push_front entry.1 s) l'
      else let '(s', l'') := retain_sleeping time s l' in (s', entry :: l'')
  end.

(** [check_sleep_list]; [timer] is what [try_read] and [systime_ms] yield. *)
Definition check_sleep_list (timer : option Z) (s : ReadyState) (l : list (Thread * Z)) :
    ReadyState * list (Thread * Z) :=
  match timer with
  | Some time => retain_sleeping time s l
  | None => (s, l)
  end.

(** [start] *)
Definition start (s : Scheduler) : res (Scheduler * action) :=
  '(thread, q) ← expect "Scheduler: Failed to dequeue first thread!" (pop_back (ready_queue (state s)));
  Done (mkSched (set_current thread (set_queue q (state s))) (sleep_list s) (join_map s),
        StartFirst thread).

(** [ready] *)
Definition ready (s : Scheduler) (thread : Thread) : Scheduler :=
  mkSched (push_front thread (state s)) (sleep_list s) (<[id thread := []]> (join_map s)).

(** [switch_thread].  [state_free] and [sleep_free] say whether [try_lock]
    gets the two locks, [timer] is as above. *)
Definition switch_thread (state_free sleep_free : bool) (timer : option Z) (s : Scheduler) :
    res (Scheduler * action) :=
  if negb state_free then Done (s, Return)
  else if negb (initialized (state s)) then Done (s, Return)
  else
    let '(st, sl) :=
      if sleep_free then check_sleep_list timer (state s) (sleep_list s) else (state s, sleep_list s) in
    match pop_back (ready_queue st) with
    | None => Done (mkSched st sl (join_map s), Return)
    | Some (next, q) =>
        cur ← current st;
        let st := set_current next (set_queue q st) in
        Done (mkSched (push_front cur st) sl (join_map s), Switch true cur next)
    end.

(** [block]: the loop that waits for a thread; [reads] are the results of
    [timer().try_read()] in its iterations and bound their number. *)
Fixpoint block_loop (reads : list (option Z)) (s : ReadyState) (l : list (Thread * Z)) :
    res (Thread * (ReadyState * list (Thread * Z))) :=
  match pop_back (ready_queue s) with
  | Some (next, q) => Done (next, (set_queue q s, l))
  | None =>
      match reads with
      | [] => NoFuel
      | timer :: reads' =>
          let '(s', l') := check_sleep_list timer s l in
          block_loop reads' s' l'
      end
  end.

(** [block], up to the call of [Thread::switch], which comes after the locks have been released *)
Definition block (reads : list (option Z)) (s : Scheduler) : res (Scheduler * action) :=
  '(next, (st, sl)) ← block_loop reads (state s) (sleep_list s);
  cur ← current st;
  let s' := mkSched (set_current next st) sl (join_map s) in
  if id cur =? id next then Done (s', Return)
  else Done (s', Switch false cur next).

(** [sleep] up to the call of [block]; [systime] is what the timer reads. *)
Definition sleep_enter (systime ms : Z) (s : Scheduler) : res Scheduler :=
  wakeup_time ← add_w 64 systime ms;
  thread ← current (state s);
  Done (mkSched (state s) (sleep_list s ++ [(thread, wakeup_time)]) (join_map s)).
(** ... and with [block], when nothing comes between the two; likewise for [join] and [exit]. *)
Definition sleep (systime ms : Z) (reads : list (option Z)) (s : Scheduler) : res (Scheduler * action) :=
  s' ← sleep_enter systime ms s;
  block reads s'.

(** The message of the two [expect]s; the source formats [thread.id()] into it. *)
Definition missing_entry (thread : Thread) : string :=
  "Scheduler: Missing join_map entry for thread id " +:+ pretty.pretty (id thread) +:+ "!".

(** [join] up to the call of [block] *)
Definition join_enter (thread_id : Z) (s : Scheduler) : res Scheduler :=
  thread ← current (state s);
  join_list ← expect (missing_entry thread) (join_map s !! thread_id);
  Done (mkSched (state s) (sleep_list s) (<[thread_id := join_list ++ [thread]]> (join_map s))).
Definition join (thread_id : Z) (reads : list (option Z)) (s : Scheduler) : res (Scheduler * action) :=
  s' ← join_enter thread_id s;
  block reads s'.

(** [exit] up to the call of [block] *)
Fixpoint push_all (l : list Thread) (s : ReadyState) : ReadyState :=
  match l with
  | [] => s
  | t :: l' => push_all l' (push_front t s)
  end.
Definition exit_enter (s : Scheduler) : res Scheduler :=
  thread ← current (state s);
  join_list ← expect (missing_entry thread) (join_map s !! id thread);
  Done (mkSched (push_all join_list (state s)) (sleep_list s) (delete (id thread) (join_map s))).
Definition exit (reads : list (option Z)) (s : Scheduler) : res (Scheduler * action) :=
  s' ← exit_enter s;
  block reads s'.

(** ** Threads and the timer interrupt as a step relation *)

(** Where a thread is in its life: not yet ready, ready or running or blocked,
    registered to wait (in the sleep list or a join list) but not yet in
    [block], past the first half of [exit] but not yet in [block], and gone. *)
Inductive phase := New | Alive | Waiting | Exiting | Dead.

#[local] Instance phase_eq_dec : EqDecision phase.
Proof. solve_decision. Defined.

(** The scheduler, the phases of the threads, and the calls of [Thread::switch] that [block] has decided on and that
    are still to be executed: the code that runs when thread [i] is the current one has to do [unswitched i] first.  Between
    the decision and that call the chosen thread is already the current one, although the code of the other one runs. *)
Record system := mkSys { sched : Scheduler; phases : Z → phase; unswitched : Z → option (Thread * Thread) }.

Definition set_phase (i : Z) (p : phase) (f : Z → phase) : Z → phase :=
  fun j => if decide (j = i) then p else f j.
Definition set_unswitched (i : Z) (x : option (Thread * Thread)) (u : Z → option (Thread * Thread)) : Z → option (Thread * Thread) :=
  fun j => if decide (j = i) then x else u j.
Definition decided (a : action) (u : Z → option (Thread * Thread)) : Z → option (Thread * Thread) :=
  match a with Switch _ current next => set_unswitched (id next) (Some (current, next)) u | _ => u end.

(** The phase of a thread once [block] has chosen another: the thread is alive and goes on when it is chosen again; an exiting
    thread is not. *)
Definition after_block (p : phase) : phase :=
  match p with Exiting => Dead | _ => Alive end.

(** One step of the machine: the running code executes one critical section
    of the scheduler, with what it decides as the label, or [Thread::switch] after [block]; or the timer interrupts it
    between two of these.  The handler switches with interrupts off, so that its section and its switch are one step. *)
Inductive step : system → action → system → Prop :=
  | step_ready s f u t :
      f (id t) = New → step (mkSys s f u) Return (mkSys (ready s t) (set_phase (id t) Alive f) u)
  | step_start s f u s' a :
      current_thread (state s) = None → start s = Done (s', a) → step (mkSys s f u) a (mkSys s' f u)
  | step_init s f u : step (mkSys s f u) Return (mkSys (set_init s) f u)
  | step_switch s f u state_free sleep_free timer s' a :
      switch_thread state_free sleep_free timer s = Done (s', a) → step (mkSys s f u) a (mkSys s' f u)
  | step_sleep s f u t systime ms s' :
      current_thread (state s) = Some t → f (id t) = Alive → u (id t) = None → sleep_enter systime ms s = Done s' →
      step (mkSys s f u) Return (mkSys s' (set_phase (id t) Waiting f) u)
  | step_join s f u t thread_id s' :
      current_thread (state s) = Some t → f (id t) = Alive → u (id t) = None → join_enter thread_id s = Done s' →
      step (mkSys s f u) Return (mkSys s' (set_phase (id t) Waiting f) u)
  | step_exit s f u t s' :
      current_thread (state s) = Some t → f (id t) = Alive → u (id t) = None → exit_enter s = Done s' →
      step (mkSys s f u) Return (mkSys s' (set_phase (id t) Exiting f) u)
  | step_block s f u t reads s' a :
      current_thread (state s) = Some t → f (id t) = Waiting ∨ f (id t) = Exiting → u (id t) = None →
      block reads s = Done (s', a) →
      step (mkSys s f u) a (mkSys s' (set_phase (id t) (after_block (f (id t))) f) (decided a u))
  | step_thread_switch s f u t current next :
      current_thread (state s) = Some t → u (id t) = Some (current, next) →
      step (mkSys s f u) Return (mkSys s f (set_unswitched (id t) None u)).

Definition system_new : system := mkSys scheduler_new (fun _ => New) (fun _ => None).

Inductive reachable : system → Prop :=
  | reachable_new : reachable system_new
  | reachable_step sys a sys' : reachable sys → step sys a sys' → reachable sys'.

(** ** Counting the places a thread is held in *)

Fixpoint count (i : Z) (l : list Thread) : nat :=
  match l with
  | [] => 0
  | t :: l' => (if decide (id t = i) then 1 else 0) + count i l'
  end%nat.

Definition joiners (m : M (list Thread)) : list Thread := concat (map_to_list m).*2.
Definition current_list (s : ReadyState) : list Thread := option_list (current_thread s).

(** The places in which a thread is going to run, and all places. *)
Definition run_tokens (i : Z) (s : Scheduler) : nat :=
  (count i (ready_queue (state s)) + count i (current_list (state s)))%nat.
Definition tokens (i : Z) (s : Scheduler) : nat :=
  (run_tokens i s + count i (sleep_list s).*1 + count i (joiners (join_map s)))%nat.

Definition expected (p : phase) : nat :=
  match p with New | Dead => 0 | Alive | Exiting => 1 | Waiting => 2 end.

(** The invariant: a thread is held in as many places as its phase says; one of
    them lets it run while it has not reached [block]; and exactly the threads
    that are neither new nor exited can be joined. *)
Definition inv (sys : system) : Prop := ∀ i,
  tokens i (sched sys) = expected (phases sys i) ∧
  (phases sys i = Waiting ∨ phases sys i = Exiting → 1 ≤ run_tokens i (sched sys))%nat ∧
  (is_Some (join_map (sched sys) !! i) ↔ phases sys i = Alive ∨ phases sys i = Waiting).

Lemma count_app i l l' : count i (l ++ l') = (count i l + count i l')%nat.
Proof. induction l as [|t l IH]; cbn; lia. Qed.

#[local] Instance count_proper i : Proper ((≡ₚ) ==> eq) (count i).
Proof. intros l l' Hp. induction Hp; cbn; lia. Qed.

Lemma pop_back_spec {A} (l : list A) :
  match pop_back l with Some (x, q) => l = q ++ [x] | None => l = [] end.
Proof.
  induction l as [|x l IH]; cbn; [done|]. destruct (pop_back l) as [[y q]|]; by rewrite IH.
Qed.

Lemma pop_back_app {A} (l : list A) x : pop_back (l ++ [x]) = Some (x, l).
Proof. induction l as [|y l IH]; cbn; [done|]. by rewrite IH. Qed.

Lemma joiners_insert m k l :
  m !! k = None → joiners (<[k := l]> m) ≡ₚ l ++ joiners m.
Proof. intros Hk. unfold joiners. by rewrite (map_to_list_insert m k l Hk). Qed.

Lemma joiners_delete m k l :
  m !! k = Some l → joiners m ≡ₚ l ++ joiners (delete k m).
Proof.
  intros Hk. rewrite <-joiners_insert by apply lookup_delete_eq. by rewrite insert_delete_id.
Qed.

Lemma joiners_update m k l l' :
  m !! k = Some l → l' ++ joiners m ≡ₚ l ++ joiners (<[k := l']> m).
Proof.
  intros Hk. rewrite <-insert_delete_eq, joiners_insert by apply lookup_delete_eq.
  rewrite (joiners_delete m k l Hk). solve_Permutation.
Qed.

(** Waking sleepers only moves threads, from the sleep list to the queue. *)
Lemma check_sleep_list_spec timer s l s' l' i :
  check_sleep_list timer s l = (s', l') →
  initialized s' = initialized s ∧ current_thread s' = current_thread s ∧
  (count i (ready_queue s) ≤ count i (ready_queue s') ∧
   count i (ready_queue s') + count i l'.*1 = count i (ready_queue s) + count i l.*1)%nat.
Proof.
  destruct timer as [time|]; cbn; [|intros [= <- <-]; by split_and!].
  revert s s' l'. induction l as [|[t w] l IH]; intros s s' l'; cbn.
  { intros [= <- <-]. split_and!; done || lia. }
  case_match.
  - intros (? & ? & ? & ?)%IH. split_and!; try done; cbn in *; lia.
  - destruct (retain_sleeping time s l) as [s1 l1] eqn:E. intros [= <- <-].
    destruct (IH _ _ _ E) as (? & ? & ? & ?). split_and!; try done; cbn in *; lia.
Qed.

(** ** The operations on the counts *)

Ltac unfold_counts := unfold tokens, run_tokens, current_list in *; cbn in *.

Lemma current_done s t : current s = Done t ↔ current_thread s = Some t.
Proof. unfold current. destruct (current_thread s); cbn; naive_solver. Qed.

Ltac inv_current Hc :=
  inv_res; match goal with H : current _ = Done _ |- _ => apply current_done in H; rename H into Hc end.
Ltac inv_expect Hl :=
  match goal with
  | H : expect _ ?o = Done ?l |- _ => destruct o eqn:Hl; cbn in H; [injection H as ->|done]; rename l into join_list
  end.

Lemma switch_thread_counts state_free sleep_free timer s s' a i :
  switch_thread state_free sleep_free timer s = Done (s', a) →
  tokens i s' = tokens i s ∧ (run_tokens i s ≤ run_tokens i s')%nat ∧ join_map s' = join_map s.
Proof.
  unfold switch_thread.
  destruct state_free; cbn [negb]; [|by intros [= <- <-]].
  destruct (initialized (state s)) eqn:Einit; cbn [negb]; [|by intros [= <- <-]].
  destruct (if sleep_free then _ else _) as [st sl] eqn:E.
  assert (initialized st = initialized (state s) ∧ current_thread st = current_thread (state s) ∧
    (count i (ready_queue (state s)) ≤ count i (ready_queue st) ∧
     count i (ready_queue st) + count i sl.*1 =
     count i (ready_queue (state s)) + count i (sleep_list s).*1)%nat) as (_ & Hcur & Hle & Hsum).
  { destruct sleep_free; [exact (check_sleep_list_spec _ _ _ _ _ i E)|injection E as <- <-; split_and!; done || lia]. }
  pose proof (pop_back_spec (ready_queue st)) as Hpop.
  destruct (pop_back (ready_queue st)) as [[next q]|].
  - intros Hs. inv_current Hc. unfold_counts.
    rewrite Hpop in Hle, Hsum. rewrite <-Hcur, Hc. rewrite count_app in *. cbn in *. split_and!; lia || done.
  - intros [= <- <-]. unfold_counts. rewrite Hcur. split_and!; lia || done.
Qed.

Lemma block_loop_counts reads st sl next st' sl' i :
  block_loop reads st sl = Done (next, (st', sl')) →
  current_thread st' = current_thread st ∧
  (count i (ready_queue st) ≤ count i (next :: ready_queue st') ∧
   count i (next :: ready_queue st') + count i sl'.*1 = count i (ready_queue st) + count i sl.*1)%nat.
Proof.
  revert st sl. induction reads as [|timer reads IH]; intros st sl; cbn;
    pose proof (pop_back_spec (ready_queue st)) as Hpop;
    destruct (pop_back (ready_queue st)) as [[n q]|]; try done.
  1-2: intros [= <- <- <-]; rewrite Hpop, count_app; cbn; split_and!; done || lia.
  destruct (check_sleep_list timer st sl) as [s1 l1] eqn:E.
  intros (Hcur & Hle & Hsum)%IH. apply (check_sleep_list_spec _ _ _ _ _ i) in E as (_ & ? & ? & ?).
  cbn in *. split_and!; [congruence|lia..].
Qed.

Lemma block_counts reads s s' a t i :
  current_thread (state s) = Some t → block reads s = Done (s', a) →
  (tokens i s' + count i [t] = tokens i s ∧ run_tokens i s ≤ run_tokens i s' + count i [t])%nat ∧
  join_map s' = join_map s.
Proof.
  intros Ht. unfold block. intros Hb. apply res_bind_done in Hb as ([next [st sl]] & Hloop & Hb).
  apply (block_loop_counts _ _ _ _ _ _ i) in Hloop as (Hcur & Hle & Hsum).
  inv_current Hc. rewrite Hcur, Ht in Hc. injection Hc as <-.
  assert (s' = mkSched (set_current next st) sl (join_map s)) as -> by (destruct (_ =? _); congruence).
  unfold_counts. rewrite Ht in *. cbn in *. split_and!; lia || done.
Qed.

Lemma sleep_enter_counts systime ms s s' t i :
  current_thread (state s) = Some t → sleep_enter systime ms s = Done s' →
  tokens i s' = (tokens i s + count i [t])%nat ∧ run_tokens i s' = run_tokens i s ∧ join_map s' = join_map s.
Proof.
  intros Ht Hs. unfold sleep_enter in Hs. inv_current Hc. rewrite Ht in Hc.
  injection Hc as <-. unfold_counts. rewrite fmap_app, count_app. cbn. split_and!; lia || done.
Qed.

Lemma join_enter_counts thread_id s s' t i :
  current_thread (state s) = Some t → join_enter thread_id s = Done s' →
  tokens i s' = (tokens i s + count i [t])%nat ∧ run_tokens i s' = run_tokens i s ∧
  (∀ j, is_Some (join_map s' !! j) ↔ is_Some (join_map s !! j)).
Proof.
  intros Ht Hs. unfold join_enter in Hs. inv_current Hc. rewrite Ht in Hc.
  injection Hc as <-. inv_expect El.
  pose proof (count_proper i _ _ (joiners_update _ _ _ (join_list ++ [t]) El)) as Hcount.
  unfold_counts. rewrite !count_app in Hcount. cbn in Hcount. split_and!; [lia|done|].
  intros j. destruct (decide (thread_id = j)) as [<-|].
  - rewrite lookup_insert_eq, El. split; eauto.
  - by rewrite lookup_insert_ne.
Qed.

Lemma push_all_spec l s :
  current_thread (push_all l s) = current_thread s ∧ initialized (push_all l s) = initialized s ∧
  ready_queue (push_all l s) = reverse l ++ ready_queue s.
Proof.
  revert s. induction l as [|t l IH]; intros s; cbn [push_all]; [done|].
  destruct (IH (push_front t s)) as (-> & -> & ->). split_and!; try done.
  rewrite reverse_cons, <-(assoc_L (++)). done.
Qed.

Lemma exit_enter_counts s s' t i :
  current_thread (state s) = Some t → exit_enter s = Done s' →
  tokens i s' = tokens i s ∧ (run_tokens i s ≤ run_tokens i s')%nat ∧
  current_thread (state s') = Some t ∧ join_map s' = delete (id t) (join_map s).
Proof.
  intros Ht Hs. unfold exit_enter in Hs. inv_current Hc. rewrite Ht in Hc.
  injection Hc as <-. inv_expect El. destruct (push_all_spec join_list (state s)) as (Hc & _ & Hq).
  pose proof (count_proper i _ _ (joiners_delete _ _ _ El)) as Hcount.
  unfold_counts. rewrite Hc, Ht, Hq in *. rewrite !count_app in *. rewrite reverse_Permutation.
  split_and!; lia || done.
Qed.

Lemma ready_counts s t i :
  join_map s !! id t = None →
  tokens i (ready s t) = (tokens i s + count i [t])%nat ∧ (run_tokens i s ≤ run_tokens i (ready s t))%nat.
Proof.
  intros Hnone. unfold_counts. rewrite joiners_insert by done. cbn. lia.
Qed.

Lemma start_counts s s' a i :
  current_thread (state s) = None → start s = Done (s', a) →
  tokens i s' = tokens i s ∧ (run_tokens i s ≤ run_tokens i s')%nat ∧ join_map s' = join_map s.
Proof.
  intros Hnone. unfold start. pose proof (pop_back_spec (ready_queue (state s))) as Hpop.
  destruct (pop_back (ready_queue (state s))) as [[next q]|]; [|done]. intros [= <- <-].
  unfold_counts. rewrite Hpop, Hnone, count_app. cbn. split_and!; lia || done.
Qed.

(** ** The invariant *)

(** A step that keeps tokens, phases and the join map's domain keeps [inv]. *)
Lemma inv_same s s' f u u' :
  inv (mkSys s f u) →
  (∀ i, tokens i s' = tokens i s ∧ (run_tokens i s ≤ run_tokens i s')%nat) →
  join_map s' = join_map s → inv (mkSys s' f u').
Proof.
  intros Hinv Hsame Hmap i. destruct (Hinv i) as (H9 & H10 & H11), (Hsame i) as [H12 H13]. cbn in *.
  rewrite H12, Hmap. split_and!; [done|intros Hp; specialize (H10 Hp); lia|done].
Qed.

(** A step of thread [t] that moves it from phase [p] to phase [q]. *)
Lemma inv_phase s s' f u u' t q :
  inv (mkSys s f u) →
  (∀ i, id t ≠ i → tokens i s' = tokens i s ∧ (run_tokens i s ≤ run_tokens i s')%nat ∧
        (is_Some (join_map s' !! i) ↔ is_Some (join_map s !! i))) →
  tokens (id t) s' = expected q → (q = Waiting ∨ q = Exiting → 1 ≤ run_tokens (id t) s')%nat →
  (is_Some (join_map s' !! id t) ↔ q = Alive ∨ q = Waiting) →
  inv (mkSys s' (set_phase (id t) q f) u').
Proof.
  intros Hinv Hother Htok Hrun Hjoin i. unfold set_phase. cbn. destruct (decide (i = id t)) as [->|Hne]; [done|].
  destruct (Hinv i) as (H9 & H10 & H11), (Hother i) as (H12 & H13 & H14); [done|]. cbn in *.
  rewrite H12, H14. split_and!; [done|intros Hp; specialize (H10 Hp); lia|done].
Qed.

Lemma count_single i t : count i [t] = if decide (id t = i) then 1%nat else 0%nat.
Proof. cbn. lia. Qed.

Lemma current_run_tokens s t : current_thread (state s) = Some t → (1 ≤ run_tokens (id t) s)%nat.
Proof. intros Ht. unfold_counts. rewrite Ht. cbn. rewrite decide_True by done. lia. Qed.

Lemma inv_new : inv system_new.
Proof.
  intros i. unfold_counts. unfold joiners. rewrite map_to_list_empty, lookup_empty. cbn.
  split_and!; [done|naive_solver|]. split; [by intros []|naive_solver].
Qed.

Lemma inv_block s f u u' t reads s' a :
  inv (mkSys s f u) → current_thread (state s) = Some t → f (id t) = Waiting ∨ f (id t) = Exiting →
  block reads s = Done (s', a) →
  inv (mkSys s' (set_phase (id t) (after_block (f (id t))) f) u').
Proof.
  intros Hinv Ht Hp Hb.
  pose proof (fun i => block_counts reads s s' a t i Ht Hb) as Hc. setoid_rewrite count_single in Hc.
  destruct (Hinv (id t)) as (H9 & _ & H11), (Hc (id t)) as [[H12 H13] Hmap]. cbn in *.
  rewrite decide_True in H12 by done.
  apply (inv_phase s _ _ u); [done| | |destruct Hp as [-> | ->]; cbn; naive_solver|].
  - intros i Hi. destruct (Hc i) as [[H14 H15] _]. rewrite decide_False in H14, H15 by done.
    rewrite Hmap. split_and!; done || lia.
  - destruct Hp as [Hp|Hp]; rewrite Hp in *; cbn in *; lia.
  - rewrite Hmap, H11. destruct Hp as [Hp|Hp]; rewrite Hp; cbn; naive_solver.
Qed.

(** Registering the running thread to wait. *)
Lemma inv_wait s s' f u u' t :
  inv (mkSys s f u) → current_thread (state s) = Some t → f (id t) = Alive →
  (∀ i, tokens i s' = (tokens i s + count i [t])%nat ∧ run_tokens i s' = run_tokens i s ∧
        (is_Some (join_map s' !! i) ↔ is_Some (join_map s !! i))) →
  inv (mkSys s' (set_phase (id t) Waiting f) u').
Proof.
  intros Hinv Ht Hf Hc. setoid_rewrite count_single in Hc.
  destruct (Hinv (id t)) as (H9 & _ & H11), (Hc (id t)) as (H12 & H13 & Hmap). cbn in *.
  rewrite decide_True in H12 by done. rewrite Hf in *.
  apply (inv_phase s _ _ u); [done| | | |rewrite Hmap; naive_solver].
  - intros i Hi. destruct (Hc i) as (H14 & H15 & H16). rewrite decide_False in H14 by done.
    split_and!; done || lia.
  - cbn in *. lia.
  - intros _. rewrite H13. by apply current_run_tokens.
Qed.

Lemma step_inv sys a sys' : inv sys → step sys a sys' → inv sys'.
Proof.
  intros Hinv Hstep. destruct Hstep as [s f u t Hf|s f u s' a Hnone Hs|s f u|s f u sf lf timer s' a Hs
    |s f u t systime ms s' Ht Hf Hu Hs|s f u t j s' Ht Hf Hu Hs|s f u t s' Ht Hf Hu Hs|s f u t reads s' a Ht Hf Hu Hs|s f u t cur next Ht Hu].
  - destruct (Hinv (id t)) as (H9 & _ & H11). cbn in *. rewrite Hf in *.
    assert (join_map s !! id t = None) as Hnone
      by (apply eq_None_not_Some; rewrite H11; naive_solver).
    pose proof (fun i => ready_counts s t i Hnone) as Hc. setoid_rewrite count_single in Hc.
    apply (inv_phase s _ _ u); [done| | |naive_solver|].
    + intros i Hi. destruct (Hc i) as [H12 H13]. rewrite decide_False in H12 by done.
      split_and!; [lia|lia|cbn; by rewrite lookup_insert_ne].
    + destruct (Hc (id t)) as [H12 _]. rewrite decide_True in H12 by done. rewrite H12, H9. done.
    + cbn. rewrite lookup_insert_eq. naive_solver.
  - pose proof (fun i => start_counts s s' a i Hnone Hs) as Hc.
    apply (inv_same s _ _ u); [done|intros i; destruct (Hc i) as (?&?&?); done|apply (Hc 0)].
  - apply (inv_same s _ _ u); [done..|done].
  - pose proof (fun i => switch_thread_counts _ _ _ s s' a i Hs) as Hc.
    apply (inv_same s _ _ u); [done|intros i; destruct (Hc i) as (?&?&?); done|apply (Hc 0)].
  - apply (inv_wait s _ _ u); [done..|]. intros i. destruct (sleep_enter_counts _ _ s s' t i Ht Hs) as (? & ? & ->). done.
  - apply (inv_wait s _ _ u); [done..|]. intros i. destruct (join_enter_counts _ s s' t i Ht Hs) as (? & ? & ?). done.
  - pose proof (fun i => exit_enter_counts s s' t i Ht Hs) as Hc.
    destruct (Hinv (id t)) as (H9 & _ & H11), (Hc (id t)) as (H12 & H13 & Hcur & Hmap). cbn in *.
    rewrite Hf in *.
    apply (inv_phase s _ _ u); [done| |cbn in *; lia|intros _; by apply current_run_tokens|].
    + intros i Hi. destruct (Hc i) as (H14 & H15 & _). rewrite Hmap, lookup_delete_ne by done. done.
    + rewrite Hmap, lookup_delete_eq. split; [by intros []|naive_solver].
  - by eapply inv_block.
  - by apply (inv_same s _ _ u).
Qed.

Lemma reachable_inv sys : reachable sys → inv sys.
Proof. induction 1; [apply inv_new|by eapply step_inv]. Qed.

(** ** What the scheduler guarantees *)

(** C18: in every reachable state a thread is held in exactly as many places
    (current thread, ready queue, sleep list, join lists) as its phase demands: none before it is
    readied and after it exited, one while it is alive, and two from when it registers to wait
    until it calls [block]: then it is also the current thread or in the ready queue, and if it is woken
    before it blocks it is there twice.  So a thread that is alive is never lost. *)
Theorem thread_places sys i :
  reachable sys → tokens i (sched sys) = expected (phases sys i).
Proof. intros Hr. apply (reachable_inv sys Hr). Qed.

(** The thread that an action has chosen *)
Definition runs (a : action) : option Thread :=
  match a with Return => None | Switch _ _ next => Some next | StartFirst t => Some t end.

Lemma start_runs s s' a t : start s = Done (s', a) → runs a = Some t → current_thread (state s') = Some t.
Proof. unfold start. destruct (pop_back _) as [[? ?]|]; [|done]. intros [= <- <-] [= ->]. done. Qed.

Lemma switch_thread_runs sf lf timer s s' a t :
  switch_thread sf lf timer s = Done (s', a) → runs a = Some t → current_thread (state s') = Some t.
Proof.
  unfold switch_thread. destruct sf; cbn [negb]; [|by intros [= <- <-]].
  destruct (initialized (state s)); cbn [negb]; [|by intros [= <- <-]].
  destruct (if lf then _ else _) as [st sl]. destruct (pop_back _) as [[next q]|]; [|by intros [= <- <-]].
  intros Hs. inv_res. cbn in *. congruence.
Qed.

Lemma block_runs reads s s' a t :
  block reads s = Done (s', a) → runs a = Some t → current_thread (state s') = Some t.
Proof.
  unfold block. intros Hb. apply res_bind_done in Hb as ([next [st sl]] & _ & Hb). inv_res.
  destruct (_ =? _); injection Hb as <- <-; cbn; [done|congruence].
Qed.

Lemma step_runs sys a sys' t :
  step sys a sys' → runs a = Some t → current_thread (state (sched sys')) = Some t.
Proof.
  destruct 1; cbn; try done.
  - by eapply start_runs.
  - by eapply switch_thread_runs.
  - by eapply block_runs.
Qed.

(** A pending switch is one to the thread under which it runs. *)
Lemma unswitched_next sys : reachable sys → ∀ i current next, unswitched sys i = Some (current, next) → id next = i.
Proof.
  induction 1 as [|sys a sys' _ IH Hstep]; [done|]. intros i current next. destruct Hstep as [| | | | | | |s f u t reads s' a|]; cbn in *; try apply IH.
  - destruct a as [|eoi cur n|]; cbn; try apply IH. unfold set_unswitched. case_decide; [|apply IH]. by intros [= _ <-].
  - unfold set_unswitched. case_decide; [done|apply IH].
Qed.

(** C22: a thread that has exited is gone for the scheduler: its phase never changes again, it is nowhere held, no
    section decides for it, and no pending [Thread::switch] of the running code is one to it.  (What the timer can do to the code of a thread
    that is between its last decision and its last switch is in Deadlock.v.) *)
Theorem exited_thread_never_chosen sys a sys' i :
  reachable sys → phases sys i = Dead → step sys a sys' →
  phases sys' i = Dead ∧ tokens i (sched sys') = 0%nat ∧ (∀ t, runs a = Some t → id t ≠ i) ∧
  ∀ t current next, current_thread (state (sched sys')) = Some t → unswitched sys' (id t) = Some (current, next) → id next ≠ i.
Proof.
  intros Hr Hdead Hstep.
  assert (phases sys' i = Dead) as Hdead'.
  { destruct Hstep; cbn in *; try done; unfold set_phase; case_decide; naive_solver congruence. }
  destruct (step_inv _ _ _ (reachable_inv _ Hr) Hstep i) as [Htok _]. rewrite Hdead' in Htok. cbn in Htok.
  assert (∀ t, current_thread (state (sched sys')) = Some t → id t ≠ i) as Hcur.
  { intros t Ht Hi. apply current_run_tokens in Ht. rewrite Hi in Ht. unfold tokens in Htok. lia. }
  split; [done|]. split; [done|]. split; [intros t Ht; by eapply Hcur, step_runs|].
  intros t current next Ht Hu. apply unswitched_next in Hu as ->; [by apply Hcur|by eapply reachable_step].
Qed.

(** The sleepers whose time has come, and the others. *)
Definition awake (time : Z) (l : list (Thread * Z)) : list (Thread * Z) :=
  List.filter (fun e => e.2 <=? time) l.
Definition asleep (time : Z) (l : list (Thread * Z)) : list (Thread * Z) :=
  List.filter (fun e => negb (e.2 <=? time)) l.

Lemma retain_sleeping_eq time l : ∀ s,
  retain_sleeping time s l =
    (set_queue (reverse (awake time l).*1 ++ ready_queue s) s, asleep time l).
Proof.
  induction l as [|e l IH]; intros s; cbn [retain_sleeping awake asleep List.filter fmap list_fmap]; [by destruct s|].
  destruct (e.2 <=? time); rewrite IH; cbn [negb]; [|done].
  unfold push_front, set_queue. cbn [ready_queue initialized current_thread fmap list_fmap].
  rewrite reverse_cons, <-(assoc_L (++)). done.
Qed.

(** [check_sleep_list] wakes exactly the sleepers whose wake-up time has
    come: they enter the ready queue in the order in which they went to sleep, all
    others stay in the sleep list in their order, and when the timer is locked
    nobody is woken. *)
Theorem check_sleep_list_exact timer s l :
  check_sleep_list timer s l =
    match timer with
    | Some time => (set_queue (reverse (awake time l).*1 ++ ready_queue s) s, asleep time l)
    | None => (s, l)
    end.
Proof. destruct timer; cbn; [apply retain_sleeping_eq|done]. Qed.

Lemma filter_in {A} (f : A → bool) l x : x ∈ List.filter f l ↔ x ∈ l ∧ f x = true.
Proof. by rewrite !list_elem_of_In, List.filter_In. Qed.

Lemma block_loop_returns reads : ∀ st sl,
  ready_queue st ≠ [] ∨ (∃ e time, e ∈ sl ∧ Some time ∈ reads ∧ e.2 ≤ time) →
  ∃ r, block_loop reads st sl = Done r.
Proof.
  induction reads as [|timer reads IH]; intros st sl Hor; cbn;
    pose proof (pop_back_spec (ready_queue st)) as Hpop;
    destruct (pop_back (ready_queue st)) as [[n q]|]; eauto.
  { destruct Hor as [?|(? & ? & _ & []%elem_of_nil & _)]. done. }
  destruct Hor as [?|(e & time & He & Hin & Hle)]; [done|].
  apply elem_of_cons in Hin.
  destruct timer as [time'|]; cbn [check_sleep_list]; [rewrite retain_sleeping_eq|]; apply IH; cycle 1.
  { right. exists e, time. naive_solver. }
  destruct (Z.leb_spec e.2 time').
  - left. cbn. intros [Hnil _]%app_nil. apply (f_equal length) in Hnil.
    rewrite length_reverse in Hnil. apply nil_length_inv, fmap_nil_inv in Hnil.
    apply (elem_of_nil e). rewrite <-Hnil. apply filter_in. by rewrite Z.leb_le.
  - right. exists e, time. split_and!; [|destruct Hin as [[= ->]|]; done || lia|done].
    apply filter_in. split; [done|]. rewrite negb_true_iff. by apply Z.leb_gt.
Qed.

(** C28: [block] returns or switches as soon as some thread is ready, or the timer
    is read at or after the wake-up time of some sleeper; the processor then goes
    to a thread that was ready or asleep.  A thread that blocks while nobody is
    ready or asleep waits in [block] forever, whatever the timer reads. *)
Theorem block_terminates reads s t :
  current_thread (state s) = Some t →
  (ready_queue (state s) ≠ [] ∨ (∃ e time, e ∈ sleep_list s ∧ Some time ∈ reads ∧ e.2 ≤ time) →
   ∃ s' a next, block reads s = Done (s', a) ∧ current_thread (state s') = Some next ∧
     (0 < count (id next) (ready_queue (state s)) + count (id next) (sleep_list s).*1)%nat ∧
     (id t = id next ∧ a = Return ∨ id t ≠ id next ∧ a = Switch false t next)) ∧
  (ready_queue (state s) = [] → sleep_list s = [] → block reads s = NoFuel).
Proof.
  intros Ht. split.
  - intros Hor. destruct (block_loop_returns reads _ _ Hor) as ([next [st sl]] & Hloop).
    pose proof (block_loop_counts _ _ _ _ _ _ (id next) Hloop) as (Hcur & _ & Hsum).
    cbn in Hsum. rewrite decide_True in Hsum by done.
    unfold block. rewrite Hloop, res_bind_ret_l. unfold current. rewrite Hcur, Ht. cbn.
    destruct (Z.eqb_spec (id t) (id next)); eexists _, _, next; split_and!; try done; auto; lia.
  - intros Hq Hsl. unfold block. rewrite Hsl.
    assert (block_loop reads (state s) [] = NoFuel) as ->; [|done].
    induction reads as [|timer reads IH]; cbn; rewrite Hq; cbn; [done|].
    destruct timer; cbn; apply IH.
Qed.

(** [exit] of a live thread never fails: it moves exactly the threads that
    joined it to the front of the ready queue, and removes its join list, so that
    from then on joining it is an error. *)
Theorem exit_wakes_joiners sys t :
  reachable sys → current_thread (state (sched sys)) = Some t → phases sys (id t) = Alive →
  ∃ join_list s', join_map (sched sys) !! id t = Some join_list ∧
    exit_enter (sched sys) = Done s' ∧
    ready_queue (state s') = reverse join_list ++ ready_queue (state (sched sys)) ∧
    sleep_list s' = sleep_list (sched sys) ∧ join_map s' !! id t = None ∧
    (∀ j, j ≠ id t → join_map s' !! j = join_map (sched sys) !! j).
Proof.
  intros Hr Ht Hp. destruct (reachable_inv sys Hr (id t)) as (_ & _ & Hj).
  destruct (proj2 Hj) as [join_list Hl]; [by left|].
  exists join_list. eexists. split; [done|]. split.
  { unfold exit_enter, current. rewrite Ht. cbn [expect]. rewrite res_bind_ret_l, Hl. reflexivity. }
  cbn. destruct (push_all_spec join_list (state (sched sys))) as (_ & _ & ->).
  split_and!; [done|done|apply lookup_delete_eq|intros j Hj'; by apply lookup_delete_ne].
Qed.

(** A thread can join exactly the threads that were readied and did not exit:
    it is then appended to the join list of the other thread.  For any other
    thread id [join] panics, with the id of the calling thread in the message. *)
Theorem join_result sys t thread_id :
  reachable sys → current_thread (state (sched sys)) = Some t →
  if decide (phases sys thread_id = Alive ∨ phases sys thread_id = Waiting) then
    ∃ join_list, join_map (sched sys) !! thread_id = Some join_list ∧
      join_enter thread_id (sched sys) =
        Done (mkSched (state (sched sys)) (sleep_list (sched sys))
                (<[thread_id := join_list ++ [t]]> (join_map (sched sys))))
  else join_enter thread_id (sched sys) = Panic (missing_entry t).
Proof.
  intros Hr Ht. destruct (reachable_inv sys Hr thread_id) as (_ & _ & Hj).
  unfold join_enter, current. rewrite Ht. cbn [expect]. rewrite res_bind_ret_l.
  case_decide as Hp.
  - apply Hj in Hp as [join_list Hl]. exists join_list. by rewrite Hl.
  - rewrite <-Hj in Hp. apply eq_None_not_Some in Hp. by rewrite Hp.
Qed.

(** [n] timer interrupts that find the locks free. *)
Fixpoint switches (n : nat) (timers : nat → option Z) (s : Scheduler) : res (list Thread * Scheduler) :=
  match n with
  | O => Done ([], s)
  | S n' =>
      '(s1, a) ← switch_thread true true (timers n') s;
      '(ran, s2) ← switches n' timers s1;
      Done (option_list (runs a) ++ ran, s2)
  end.

Definition running (t : Thread) (q : list Thread) (m : M (list Thread)) : Scheduler :=
  mkSched (mkReady true (Some t) q) [] m.

Lemma switch_running timer t q n m :
  switch_thread true true timer (running t (q ++ [n]) m) =
    Done (running n (t :: q) m, Switch true t n).
Proof.
  unfold switch_thread, running. cbn [negb initialized state sleep_list ready_queue].
  destruct timer; cbn [check_sleep_list retain_sleeping ready_queue]; by rewrite pop_back_app.
Qed.

Lemma switches_app n n' timers s ran s' :
  switches n (fun k => timers (k + n')%nat) s = Done (ran, s') →
  switches (n + n') timers s = '(ran', s'') ← switches n' timers s'; Done (ran ++ ran', s'').
Proof.
  revert s ran s'. induction n as [|n IH]; intros s ran s'; cbn [switches Nat.add].
  { intros [= <- <-]. by destruct (switches n' timers s) as [[]| | |]. }
  intros Hs. apply res_bind_done in Hs as ([s1 a] & -> & Hs).
  apply res_bind_done in Hs as ([ran1 s2] & Hs2 & [= <- <-]).
  rewrite res_bind_ret_l. rewrite (IH _ _ _ Hs2), res_bind_assoc.
  destruct (switches n' timers s2) as [[]| | |]; cbn; try done. by rewrite (assoc_L (++)).
Qed.

Lemma switches_rotate timers r : ∀ t p m,
  switches (length r) timers (running t (p ++ reverse r) m) =
    Done (r, running (List.last r t) (List.tl (reverse (t :: r)) ++ p) m).
Proof.
  induction r as [|x r IH]; intros t p m; cbn [length switches].
  { by rewrite app_nil_r. }
  rewrite reverse_cons, (assoc_L (++)), switch_running, res_bind_ret_l.
  change (t :: p ++ reverse r) with ((t :: p) ++ reverse r). rewrite IH, res_bind_ret_l. cbn [runs option_list app].
  do 2 f_equal. f_equal.
  - destruct r as [|y r]; [done|]. cbn. clear. revert y. induction r as [|z r IH]; intros y; [done|apply IH].
  - rewrite !reverse_cons. destruct (reverse r); cbn; by rewrite <-?(assoc_L (++)).
Qed.

(** C29: the scheduler is a round robin: while nobody sleeps, [length q + 1] timer
    interrupts let every thread of the ready queue run once, the longest waiting
    first, and then bring the running thread back, with the queue as it was. *)
Theorem round_robin timers t q m :
  q ≠ [] →
  switches (length q + 1) timers (running t q m) = Done (reverse q ++ [t], running t q m).
Proof.
  intros Hq. rewrite (switches_app _ 1 timers _ (reverse q)
    (running (List.last (reverse q) t) (List.tl (reverse (t :: reverse q)) ++ []) m)).
  - rewrite reverse_cons, reverse_involutive, app_nil_r. cbn [switches].
    destruct q as [|x q]; [done|]. cbn [List.tl app]. rewrite switch_running.
    rewrite !res_bind_ret_l. cbn [runs option_list app]. by rewrite reverse_cons, List.last_last.
  - pose proof (switches_rotate (fun k => timers (k + 1)%nat) (reverse q) t [] m) as Hrot.
    by rewrite length_reverse, reverse_involutive in Hrot.
Qed.

(** [switch_thread] can decide to switch from a thread to itself, which [block] takes
    care to avoid: when the only thread is interrupted between entering the sleep
    list and blocking, and its wake-up time has come, the timer interrupt takes it
    back out of the ready queue.  What happens then to its stack pointer is in Deadlock.v. *)
Theorem switch_thread_to_itself t : ∃ sys sys', reachable sys ∧ step sys (Switch true t t) sys'.
Proof.
  set (s1 := ready scheduler_new t).
  set (s2 := mkSched (mkReady false (Some t) []) [] (join_map s1)).
  set (s4 := mkSched (mkReady true (Some t) []) [(t, 0)] (join_map s1)).
  set (f := set_phase (id t) Alive (fun _ => New)).
  assert (f (id t) = Alive) as Hf by (unfold f, set_phase; by rewrite decide_True).
  set (u := fun _ : Z => @None (Thread * Thread)).
  exists (mkSys s4 (set_phase (id t) Waiting f) u), (mkSys (running t [t] (join_map s1)) (set_phase (id t) Waiting f) u).
  split; [|by apply step_switch with true true (Some 0)].
  apply (reachable_step (mkSys (set_init s2) f u) Return); [|by apply step_sleep with 0 0].
  apply (reachable_step (mkSys s2 f u) Return); [|apply step_init].
  apply (reachable_step (mkSys s1 f u) (StartFirst t)); [|by apply step_start].
  apply (reachable_step system_new Return); [apply reachable_new|by apply (step_ready scheduler_new)].
Qed.
End Scheduler.
Arguments ReadyState {_}.
Arguments Scheduler {_} M.

(** ** Concrete inputs *)
Section Examples.
#[local] Existing Instance development.
#[local] Instance demo_threads : ThreadOps := {| Thread := Z; id := fun t => t |}.

Definition th (n : Z) : @Thread demo_threads := n.

(** Two threads; the first one starts, exits and hands over to the second. *)
Definition demo_s1 : Scheduler (gmap Z) := ready (ready scheduler_new (th 1)) (th 2).
Definition demo_f1 : Z → phase := set_phase 2 Alive (set_phase 1 Alive (fun _ => New)).
Definition demo_s2 : Scheduler (gmap Z) := mkSched (mkReady true (Some (th 1)) [th 2]) [] (join_map demo_s1).
Definition demo_u : Z → option (@Thread demo_threads * @Thread demo_threads) := fun _ => None.
Definition demo_sys2 : system := mkSys demo_s2 demo_f1 demo_u.
Definition demo_s3 : Scheduler (gmap Z) := mkSched (mkReady true (Some (th 1)) [th 2]) [] (delete 1 (join_map demo_s1)).
Definition demo_s4 : Scheduler (gmap Z) := mkSched (mkReady true (Some (th 2)) []) [] (delete 1 (join_map demo_s1)).
Definition demo_sys4 : system := mkSys demo_s4 (set_phase 1 Dead (set_phase 1 Exiting demo_f1)) (set_unswitched 2 (Some (th 1, th 2)) demo_u).

Lemma demo_reachable2 : reachable demo_sys2.
Proof.
  set (s := mkSched (mkReady false (Some (th 1)) [th 2]) [] (join_map demo_s1)).
  apply (reachable_step (mkSys s demo_f1 demo_u) Return); [|exact (step_init s demo_f1 demo_u)].
  apply (reachable_step (mkSys demo_s1 demo_f1 demo_u) (StartFirst (th 1))); [|by apply step_start].
  apply (reachable_step (mkSys (ready scheduler_new (th 1)) (set_phase 1 Alive (fun _ => New)) demo_u) Return);
    [|exact (step_ready (ready scheduler_new (th 1)) (set_phase 1 Alive (fun _ => New)) demo_u (th 2) eq_refl)].
  apply (reachable_step system_new Return); [apply reachable_new|exact (step_ready scheduler_new (fun _ => New) demo_u (th 1) eq_refl)].
Qed.

Lemma demo_reachable4 : reachable demo_sys4.
Proof.
  apply (reachable_step (mkSys demo_s3 (set_phase 1 Exiting demo_f1) demo_u) (Switch false (th 1) (th 2))).
  - apply (reachable_step demo_sys2 Return); [apply demo_reachable2|by apply (step_exit demo_s2 demo_f1 demo_u (th 1))].
  - exact (step_block demo_s3 (set_phase 1 Exiting demo_f1) demo_u (th 1) [] demo_s4 _ eq_refl (or_intror eq_refl) eq_refl eq_refl).
Qed.

Lemma thread_places_witness : tokens 1 demo_s4 = 0%nat ∧ tokens 2 demo_s4 = 1%nat.
Proof.
  split; [exact (thread_places demo_sys4 1 demo_reachable4)|exact (thread_places demo_sys4 2 demo_reachable4)].
Defined.

(** The second thread is the current one; the code of the first switches to it. *)
Lemma exited_thread_never_chosen_witness :
  ∃ sys', step demo_sys4 Return sys' ∧ phases sys' 1 = Dead ∧ tokens 1 (sched sys') = 0%nat.
Proof.
  pose proof (step_thread_switch demo_s4 (set_phase 1 Dead (set_phase 1 Exiting demo_f1)) (set_unswitched 2 (Some (th 1, th 2)) demo_u)
    (th 2) (th 1) (th 2) eq_refl eq_refl) as Hstep.
  destruct (exited_thread_never_chosen demo_sys4 Return _ 1 demo_reachable4 eq_refl Hstep) as (Hdead & Htok & _).
  by eexists.
Defined.

(** Thread 1 sleeps until 20; the timer reads 10, is locked, and reads 30. *)
Definition demo_sleeping : Scheduler (gmap Z) := mkSched (mkReady true (Some (th 1)) []) [(th 1, 20)] ∅.
Lemma block_terminates_witness :
  (∃ s' a next, block [Some 10; None; Some 30] demo_sleeping = Done (s', a) ∧
     current_thread (state s') = Some next) ∧
  block [Some 10; None] (mkSched (mkReady true (Some (th 1)) []) [] (∅ : gmap Z _)) = NoFuel.
Proof.
  split.
  - destruct (proj1 (block_terminates [Some 10; None; Some 30] demo_sleeping (th 1) eq_refl))
      as (s' & a & next & ? & ? & _); [|eauto].
    right. exists (th 1, 20), 30. split_and!; [|set_solver|done].
    apply elem_of_cons. by left.
  - by apply (block_terminates [Some 10; None] _ (th 1)).
Defined.

Lemma exit_wakes_joiners_witness :
  ∃ s', exit_enter demo_s2 = Done s' ∧ join_map s' !! 1 = None.
Proof.
  destruct (exit_wakes_joiners demo_sys2 (th 1) demo_reachable2 eq_refl eq_refl)
    as (l & s' & _ & ? & _ & _ & ? & _). eauto.
Defined.

Lemma join_result_witness :
  join_enter 1 demo_s4 = Panic (missing_entry (th 2)).
Proof. exact (join_result demo_sys4 (th 2) 1 demo_reachable4 eq_refl). Defined.

Lemma round_robin_witness :
  switches 3 (fun _ => None) (running (th 1) [th 3; th 2] (∅ : gmap Z _)) =
    Done ([th 2; th 3; th 1], running (th 1) [th 3; th 2] ∅).
Proof. apply (round_robin (fun _ => None) (th 1) [th 3; th 2]). done. Defined.
End Examples.
