(* ===== verification/Machine.v ===== *)
(** * A fragment of the x86_64 instruction set, for the kernel's assembly code

    The naked functions of thread.rs and syscall_dispatcher.rs are lists of
    instructions.  A machine has the registers those use (among them the flags,
    the instruction pointer and [cr3]), a memory of 64-bit words at byte
    addresses, and the [rsp0] entry of the task state segment.  Called Rust
    functions follow the System V calling convention of the compiler: they keep
    the callee-saved registers and the stack above [rsp], and leave junk in the
    other registers and in the stack they use below [rsp]; the junk and the size
    of that stack are parameters.  Segment selectors are kept only where [iretq]
    loads them. *)

From S2P Require Import Prelude.

Inductive reg :=
  | rax | rbx | rcx | rdx | rsi | rdi | rbp | rsp
  | r8 | r9 | r10 | r11 | r12 | r13 | r14 | r15
  | rflags | rip | cr3 | cs | ss.

#[export] Instance reg_eq_dec : EqDecision reg.
Proof. solve_decision. Defined.

Record machine := mkMachine {
  regs : reg → Z;
  mem : Z → Z;
  (** [TSS.privilege_stack_table[0]] (lib.rs) *)
  rsp0 : Z;
}.

Definition set_reg (r : reg) (v : Z) (f : reg → Z) : reg → Z := fun r' => if decide (r' = r) then v else f r'.
Definition store (a v : Z) (f : Z → Z) : Z → Z := fun a' => if a' =? a then v else f a'.

(** What a called function leaves in registers and memory it may overwrite. *)
Class Junk := { junk_reg : machine → reg → Z; junk_mem : machine → Z → Z; frame_size : Z }.

Definition callee_saved (r : reg) : bool :=
  match r with
  | rbx | rbp | rsp | r12 | r13 | r14 | r15 | cr3 | cs | ss | rip => true
  | _ => false
  end.

(** The instructions the kernel's assembly code uses. *)
Inductive instr :=
  | Push (r : reg)
  | Pop (r : reg)
  | Mov (dst src : reg)
  | MovStore (base src : reg)       (** [mov [base], src] *)
  | Call (f : machine → res machine) (** a call that returns *)
  | Jge (r : reg) (imm : Z) (f : machine → res machine) (** [cmp r, imm; jge f], where [f] does not return *)
  | Ret
  | Iretq
  | Sysretq
  | Cli
  | Sti.

(** A 64-bit register as the signed number that [jge] compares. *)
Definition signed (z : Z) : Z := if z <? 2 ^ 63 then z else z - 2 ^ 64.

(** Bit 9 of the flags is the interrupt flag. *)
Definition IF : Z := 9.

Definition push (v : Z) (m : machine) : machine :=
  let sp := wrap 64 (regs m rsp - 8) in
  mkMachine (set_reg rsp sp (regs m)) (store sp v (mem m)) (rsp0 m).
Definition pop (r : reg) (m : machine) : machine :=
  mkMachine (set_reg r (mem m (regs m rsp)) (set_reg rsp (wrap 64 (regs m rsp + 8)) (regs m))) (mem m) (rsp0 m).
Definition with_regs (f : reg → Z) (m : machine) : machine := mkMachine f (mem m) (rsp0 m).

Definition exec (i : instr) (m : machine) : res machine :=
  match i with
  | Push r => Done (push (regs m r) m)
  | Pop r => Done (pop r m)
  | Mov dst src => Done (with_regs (set_reg dst (regs m src) (regs m)) m)
  | MovStore base src => Done (mkMachine (regs m) (store (regs m base) (regs m src) (mem m)) (rsp0 m))
  | Call f => f m
  | Jge r imm f => if imm <=? signed (regs m r) then f m else Done m
  | Ret => Done (pop rip m)
  | Iretq =>
      let sp := regs m rsp in
      Done (with_regs (set_reg rip (mem m sp) (set_reg cs (mem m (wrap 64 (sp + 8)))
             (set_reg rflags (mem m (wrap 64 (sp + 16))) (set_reg rsp (mem m (wrap 64 (sp + 24)))
             (set_reg ss (mem m (wrap 64 (sp + 32))) (regs m)))))) m)
  | Sysretq =>
      Done (with_regs (set_reg rip (regs m rcx) (set_reg rflags (regs m r11) (regs m))) m)
  | Cli => Done (with_regs (set_reg rflags (Z.clearbit (regs m rflags) IF) (regs m)) m)
  | Sti => Done (with_regs (set_reg rflags (Z.setbit (regs m rflags) IF) (regs m)) m)
  end.

Fixpoint run (code : list instr) (m : machine) : res machine :=
  match code with
  | [] => Done m
  | i :: code' => m' ← exec i m; run code' m'
  end.

(** The registers and memory after a call of a Rust function. *)
Definition clobber `{Junk} (m : machine) : machine :=
  mkMachine (fun r => if callee_saved r then regs m r else junk_reg m r)
    (fun a => if (regs m rsp - frame_size <=? a) && (a <? regs m rsp) then junk_mem m a else mem m a) (rsp0 m).

(** [VirtAddr::new] of the x86_64 crate panics for non-canonical addresses. *)
Class VirtAddrOps := { virt_addr_new : Z → res Z }.
Class VirtAddrLaws `{VirtAddrOps} : Prop :=
  virt_addr_new_ok a : 0 ≤ a < 2 ^ 47 → virt_addr_new a = Done a.

(** [tss_set_rsp0] and [tss_get_rsp0] (lib.rs) *)
Definition tss_set_rsp0 `{Junk} `{VirtAddrOps} (m : machine) : res machine :=
  a ← virt_addr_new (regs m rdi);
  let m' := clobber m in Done (mkMachine (regs m') (mem m') a).
Definition tss_get_rsp0 `{Junk} (m : machine) : res machine :=
  Done (with_regs (set_reg rax (rsp0 m) (regs (clobber m))) (clobber m)).

(** ** Sequences of pushes and pops *)

(** The words [ws] lie at [a], [a + 8], ... *)
Fixpoint words (f : Z → Z) (a : Z) (ws : list Z) : Prop :=
  match ws with
  | [] => True
  | w :: ws' => f a = w ∧ words f (a + 8) ws'
  end.

Lemma words_ext f g a ws :
  (∀ x, a ≤ x < a + 8 * Z.of_nat (length ws) → f x = g x) → words f a ws → words g a ws.
Proof.
  revert a. induction ws as [|w ws IH]; intros a Heq; cbn; [done|]. intros [Hw Hws]. split.
  - rewrite <-Heq; [done|cbn; lia].
  - apply IH; [|done]. intros x Hx. apply Heq. cbn. lia.
Qed.

Lemma words_app f a ws ws' :
  words f a (ws ++ ws') ↔ words f a ws ∧ words f (a + 8 * Z.of_nat (length ws)) ws'.
Proof.
  revert a. induction ws as [|w ws IH]; intros a; cbn [app words length].
  - rewrite Z.add_0_r. tauto.
  - rewrite IH. replace (a + 8 + 8 * Z.of_nat (length ws)) with (a + 8 * Z.of_nat (S (length ws))) by lia. tauto.
Qed.

Lemma run_app c c' m : run (c ++ c') m = m' ← run c m; run c' m'.
Proof.
  revert m. induction c as [|i c IH]; intros m; cbn; [done|]. rewrite res_bind_assoc.
  destruct (exec i m); cbn; [apply IH|done..].
Qed.

Lemma run_cons i c m : run (i :: c) m = m' ← exec i m; run c m'.
Proof. reflexivity. Qed.

Lemma set_reg_eq r v f : set_reg r v f r = v.
Proof. unfold set_reg. by rewrite decide_True. Qed.
Lemma set_reg_ne r r' v f : r' ≠ r → set_reg r v f r' = f r'.
Proof. unfold set_reg. intros. by rewrite decide_False. Qed.

(** Pushing registers other than [rsp]. *)
Lemma run_pushes rs : ∀ m,
  rsp ∉ rs → 8 * Z.of_nat (length rs) ≤ regs m rsp < 2 ^ 64 →
  ∃ m', run (map Push rs) m = Done m' ∧
    regs m' rsp = regs m rsp - 8 * Z.of_nat (length rs) ∧
    (∀ r, r ≠ rsp → regs m' r = regs m r) ∧ rsp0 m' = rsp0 m ∧
    words (mem m') (regs m' rsp) (reverse (map (regs m) rs)) ∧
    (∀ a, ¬ regs m' rsp ≤ a < regs m rsp → mem m' a = mem m a).
Proof.
  induction rs as [|r rs IH]; intros m Hrs Hsp; cbn [map run exec].
  { exists m. split_and!; cbn; done || lia. }
  apply not_elem_of_cons in Hrs as [Hr Hrs]. cbn [length] in Hsp. rewrite res_bind_ret_l.
  set (m1 := push (regs m r) m).
  assert (regs m1 rsp = regs m rsp - 8) as Hsp1.
  { cbn. rewrite set_reg_eq. apply wrap_small. lia. }
  destruct (IH m1) as (m' & -> & Hsp' & Hregs & H0 & Hw & Hmem); [done|rewrite Hsp1; lia|].
  assert (map (regs m1) rs = map (regs m) rs) as Hmap.
  { apply List.map_ext_in. intros x Hx. cbn. apply set_reg_ne. intros ->. by apply Hrs, list_elem_of_In. }
  exists m'. split_and!; [done|cbn [length]; lia| |done| |].
  - intros x Hx. rewrite Hregs by done. cbn. by apply set_reg_ne.
  - cbn [map]. rewrite reverse_cons, words_app, <-Hmap. split; [done|].
    rewrite length_reverse, length_map. replace (_ + _) with (regs m rsp - 8) by lia.
    cbn [words]. split; [|done]. rewrite Hmem by lia. cbn. unfold store.
    rewrite wrap_small by lia. by rewrite Z.eqb_refl.
  - intros a Ha. rewrite Hmem by lia. cbn. unfold store. rewrite wrap_small by lia. case_Z; [lia|done].
Qed.

(** Popping distinct registers other than [rsp]. *)
Lemma run_pops rs : ∀ m ws,
  rsp ∉ rs → NoDup rs → length ws = length rs → words (mem m) (regs m rsp) ws →
  0 ≤ regs m rsp → regs m rsp + 8 * Z.of_nat (length rs) < 2 ^ 64 →
  ∃ m', run (map Pop rs) m = Done m' ∧
    regs m' rsp = regs m rsp + 8 * Z.of_nat (length rs) ∧
    map (regs m') rs = ws ∧ (∀ r, r ≠ rsp → r ∉ rs → regs m' r = regs m r) ∧
    mem m' = mem m ∧ rsp0 m' = rsp0 m.
Proof.
  induction rs as [|r rs IH]; intros m ws Hrs Hnd Hlen Hw Hlo Hhi; destruct ws as [|w ws]; try done; cbn [map run exec].
  { exists m. split_and!; cbn; done || lia. }
  apply not_elem_of_cons in Hrs as [Hr Hrs]. apply NoDup_cons in Hnd as [Hnr Hnd].
  cbn [length] in *. destruct Hw as [Hw Hws]. rewrite res_bind_ret_l.
  set (m1 := pop r m).
  assert (regs m1 rsp = regs m rsp + 8) as Hsp1.
  { cbn. rewrite set_reg_ne, set_reg_eq by done. apply wrap_small. lia. }
  destruct (IH m1 ws) as (m' & -> & Hsp' & Hmap & Hregs & Hmem & H0);
    [done|done|lia|rewrite Hsp1; done|lia|lia|].
  exists m'. split_and!; [done|lia| | |done|done].
  - cbn [map]. rewrite Hmap, Hregs by done. cbn. by rewrite set_reg_eq, Hw.
  - intros x Hx [Hxr Hxs]%not_elem_of_cons. rewrite Hregs by done. cbn. by rewrite !set_reg_ne.
Qed.

Lemma clobber_mem `{Junk} m a :
  ¬ regs m rsp - frame_size ≤ a < regs m rsp → mem (clobber m) a = mem m a.
Proof. intros Ha. cbn. repeat case_Z; cbn; done || lia. Qed.

(** Reads registers through updates. *)
Ltac regs_simpl :=
  cbn [regs mem rsp0 with_regs clobber callee_saved]; repeat first [rewrite set_reg_eq|rewrite set_reg_ne by done];
  cbn [callee_saved].
