(* ===== verification/Thread.v ===== *)
(** * Threads and context switches (os/kernel/src/thread/thread.rs)

    The thread record with its two stacks, the initial contents of a stack, and
    the three pieces of assembly code that start threads and switch between
    them, run on the machine of Machine.v. *)

From S2P Require Import Prelude Physical Scheduler Machine.
#[local] Open Scope Z_scope.

Definition STACK_SIZE_PAGES : Z := 16.
Definition USER_STACK_ADDRESS : Z := 0x400000000000.

(** [SegmentSelector::new(index, rpl).0] of the x86_64 crate *)
Class SelectorOps := { segment_selector : Z → Z → Z }.

(** A [Vec<u64>]: its buffer's address, its elements and its capacity. *)
Record vec := mkVec { as_ptr : Z; contents : list Z; capacity : Z }.

(** [offset] on the [*const u64] of a vector counts in elements.  The language leaves it undefined beyond the end of the buffer;
    what becomes of it then is a parameter: undefined behaviour, or the address of a compiler that adds. *)
Class OffsetOps := { offset_outside : Z → res Z }.
Class OffsetLaws `{OffsetOps} : Prop :=
  offset_outside_adds a : offset_outside a = Done (wrap 64 a).
Definition offset `{OffsetOps} (v : vec) (o : Z) : res Z :=
  if (0 <=? o) && (o <=? capacity v) then Done (as_ptr v + 8 * o) else offset_outside (as_ptr v + 8 * o).

Section Thread.
Context {Entry : Type} `{Profile} `{VirtAddrOps} `{SelectorOps}.

Record thread := mkThread {
  tid : Z;
  kernel_stack : vec;
  user_stack : vec;
  address_space : Z; (** physical address of the level 4 page table *)
  old_rsp0 : Z;
  entry : Entry;
}.

(** [id] *)
#[export] Instance thread_ops : ThreadOps := {| Thread := thread; id := tid |}.

(** [is_kernel_thread] *)
Definition is_kernel_thread (t : thread) : bool := capacity (user_stack t) =? 0.

(** [kernel_stack_addr] *)
Definition kernel_stack_addr `{OffsetOps} (t : thread) : res Z :=
  c ← sub_w 64 (capacity (kernel_stack t)) 1;
  o ← mul_w 64 c 8;
  offset (kernel_stack t) o.

(** The assignment [v[i] = x]. *)
Definition vec_set (i x : Z) (l : list Z) : res (list Z) :=
  if (0 <=? i) && (i <? Z.of_nat (length l)) then Done (<[Z.to_nat i := x]> l)
  else Panic "index out of bounds".

(** The assignments [v[capacity - k] = x], for each [(k, x)] in order. *)
Fixpoint write_frame (cap : Z) (frame : list (Z * Z)) (l : list Z) : res (list Z) :=
  match frame with
  | [] => Done l
  | (k, x) :: frame' =>
      i ← sub_w 64 cap k;
      l' ← vec_set i x l;
      write_frame cap frame' l'
  end.

(** The frame of [prepare_kernel_stack]: a dummy return address, the function
    to start with, the flags and the registers r8 - r15, rax - rdx, rsi, rdi, rbp. *)
Definition start_frame (kickoff_kernel_thread : Z) : list (Z * Z) :=
  [(1, 0x00DEAD00); (2, kickoff_kernel_thread); (3, 0x202);
   (4, 0); (5, 0); (6, 0); (7, 0); (8, 0); (9, 0); (10, 0); (11, 0);
   (12, 0); (13, 0); (14, 0); (15, 0);
   (16, 0); (17, 0); (18, 0)].

(** [for _ in 0..capacity { v.push(0) }] *)
Definition push_zeroes (v : vec) : list Z := contents v ++ replicate (Z.to_nat (capacity v)) 0.

(** [prepare_kernel_stack] *)
Definition prepare_kernel_stack (kickoff_kernel_thread : Z) (t : thread) : res thread :=
  let stack_addr := as_ptr (kernel_stack t) in
  let cap := capacity (kernel_stack t) in
  l ← write_frame cap (start_frame kickoff_kernel_thread) (push_zeroes (kernel_stack t));
  n ← sub_w 64 cap 18;
  bytes ← mul_w 64 n 8;
  sp ← add_w 64 stack_addr bytes;
  rsp0 ← virt_addr_new sp;
  Done (mkThread (tid t) (mkVec stack_addr l cap) (user_stack t) (address_space t) rsp0 (entry t)).

(** [new_kernel_thread]; the identifier, the empty vector of the requested
    capacity and the address space of the kernel are results of other
    components. *)
Definition new_kernel_thread (kickoff_kernel_thread thread_id kernel_address_space : Z)
    (with_capacity : Z → vec) (e : Entry) : res thread :=
  prepare_kernel_stack kickoff_kernel_thread
    (mkThread thread_id (with_capacity (STACK_SIZE_PAGES * PAGE_SIZE / 8)) (with_capacity 0)
       kernel_address_space 0 e).

(** The frame of [switch_to_user_mode]: rdi and what [iretq] pops. *)
Definition user_frame (kickoff_user_thread user_rsp : Z) : list (Z * Z) :=
  [(7, 0); (6, kickoff_user_thread); (5, segment_selector 4 3); (4, 0x202);
   (3, user_rsp); (2, segment_selector 3 3); (1, 0x00DEAD00)].

(** [switch_to_user_mode], up to the call of [thread_user_start] *)
Definition switch_to_user_mode (kickoff_user_thread : Z) (t : thread) : res thread :=
  let kernel_stack_addr := as_ptr (kernel_stack t) in
  let user_stack_addr := as_ptr (user_stack t) in
  let cap := capacity (kernel_stack t) in
  let user := mkVec user_stack_addr (push_zeroes (user_stack t)) (capacity (user_stack t)) in
  last ← sub_w 64 (capacity user) 1;
  bytes ← mul_w 64 last 8;
  user_rsp ← add_w 64 user_stack_addr bytes;
  l ← write_frame cap (user_frame kickoff_user_thread user_rsp) (contents (kernel_stack t));
  n ← sub_w 64 cap 7;
  bytes ← mul_w 64 n 8;
  sp ← add_w 64 kernel_stack_addr bytes;
  rsp0 ← virt_addr_new sp;
  Done (mkThread (tid t) (mkVec kernel_stack_addr l cap) user (address_space t) rsp0 (entry t)).
End Thread.
Arguments thread Entry : clear implicits.

(** The registers that are popped from a thread's stack, in this order. *)
Definition context_regs : list reg :=
  [rbp; rdi; rsi; rdx; rcx; rbx; rax; r15; r14; r13; r12; r11; r10; r9; r8].

(** [thread_kernel_start] *)
Definition thread_kernel_start : list instr :=
  [Mov rsp rdi;
   Pop rbp; Pop rdi; Pop rsi; Pop rdx; Pop rcx; Pop rbx; Pop rax;
   Pop r15; Pop r14; Pop r13; Pop r12; Pop r11; Pop r10; Pop r9; Pop r8;
   Pop rflags; Ret].

(** [thread_user_start] *)
Definition thread_user_start : list instr := [Mov rsp rdi; Pop rdi; Iretq].

(** [thread_switch] *)
Definition thread_switch `{Junk} `{VirtAddrOps} : list instr :=
  [Push rflags; Push r8; Push r9; Push r10; Push r11; Push r12; Push r13; Push r14; Push r15;
   Push rax; Push rbx; Push rcx; Push rdx; Push rsi; Push rdi; Push rbp;
   MovStore rdi rsp;
   Mov r12 rsi; Mov r13 rcx;
   Mov rdi rdx; Call tss_set_rsp0;
   Mov rcx r13; Mov rsi r12;
   Mov cr3 rcx;
   Mov rsp rsi;
   Pop rbp; Pop rdi; Pop rsi; Pop rdx; Pop rcx; Pop rbx; Pop rax;
   Pop r15; Pop r14; Pop r13; Pop r12; Pop r11; Pop r10; Pop r9; Pop r8;
   Pop rflags; Ret].

(** ** Contexts on a stack *)

(** What lies on the stack of a thread that does not run, from its saved stack
    pointer up: the registers, the flags and the address to return to. *)
Definition context (m : machine) : list Z :=
  map (regs m) context_regs ++ [regs m rflags; mem m (regs m rsp)].

Definition saved_rsp (m : machine) : Z := regs m rsp - 128.

(** Loading a context: the second half of [thread_switch] and the rest of
    [thread_kernel_start]. *)
Lemma run_load_context m ws :
  words (mem m) (regs m rsp) ws → length ws = 17%nat → 0 ≤ regs m rsp → regs m rsp + 136 < 2 ^ 64 →
  ∃ m', run (map Pop context_regs ++ [Pop rflags; Ret]) m = Done m' ∧
    map (regs m') (context_regs ++ [rflags; rip]) = ws ∧ regs m' rsp = regs m rsp + 136 ∧
    regs m' cr3 = regs m cr3 ∧ mem m' = mem m ∧ rsp0 m' = rsp0 m.
Proof.
  intros Hw Hlen Hlo Hhi.
  destruct (run_pops (context_regs ++ [rflags; rip]) m ws) as (m' & Hrun & Hsp & Hmap & Hother & Hmem & H0);
    [by apply (bool_decide_unpack _)..|done|done|done|done|].
  rewrite map_app in Hrun.
  assert (run (map Pop context_regs ++ [Pop rflags; Ret]) m = Done m') as Hrun'.
  { rewrite <-Hrun, !run_app. by destruct (run (map Pop context_regs) m). }
  exists m'. split_and!; [done|done|done| |done|done].
  apply Hother; [done|by apply (bool_decide_unpack _)].
Qed.

(** ** The context switch *)
Section Switch.
Context `{Junk} `{VirtAddrLaws}.

(** What [thread_switch] does between saving and loading. *)
Definition switch_middle : list instr :=
  [MovStore rdi rsp;
   Mov r12 rsi; Mov r13 rcx;
   Mov rdi rdx; Call tss_set_rsp0;
   Mov rcx r13; Mov rsi r12;
   Mov cr3 rcx;
   Mov rsp rsi].

Lemma run_switch_middle m : 0 ≤ regs m rdx < 2 ^ 47 →
  ∃ m', run switch_middle m = Done m' ∧
    regs m' rsp = regs m rsi ∧ regs m' cr3 = regs m rcx ∧ rsp0 m' = regs m rdx ∧
    (∀ a, ¬ regs m rsp - frame_size ≤ a < regs m rsp →
       mem m' a = store (regs m rdi) (regs m rsp) (mem m) a).
Proof.
  intros Hrdx. unfold switch_middle. cbn [run exec]. unfold tss_set_rsp0. rewrite !res_bind_ret_l.
  rewrite virt_addr_new_ok by (by regs_simpl). rewrite !res_bind_ret_l.
  eexists. split; [reflexivity|]. split_and!.
  1-3: by regs_simpl.
  intros a Ha. cbn [regs mem rsp0 with_regs].
  rewrite clobber_mem; [done|]. by regs_simpl.
Qed.

Lemma thread_switch_parts :
  thread_switch = map Push (rflags :: reverse context_regs) ++ switch_middle ++
                  map Pop context_regs ++ [Pop rflags; Ret].
Proof. reflexivity. Qed.

(** The memory [thread_switch] may write: the saved context, the stack of the
    called function below it, and the word [rdi] points to. *)
Definition switch_writes (m : machine) (a : Z) : Prop :=
  saved_rsp m - frame_size ≤ a < regs m rsp ∨ a = regs m rdi.

(** A machine about to switch: its stack has room, and the stack pointer is
    saved outside of the stack. *)
Definition can_switch (m : machine) : Prop :=
  0 ≤ frame_size ∧ 128 ≤ regs m rsp ∧ regs m rsp + 8 < 2 ^ 64 ∧
  ¬ saved_rsp m - frame_size ≤ regs m rdi < regs m rsp + 8.

Lemma thread_switch_spec m ws :
  can_switch m → 0 ≤ regs m rdx < 2 ^ 47 →
  words (mem m) (regs m rsi) ws → length ws = 17%nat → 0 ≤ regs m rsi → regs m rsi + 136 < 2 ^ 64 →
  (∀ a, regs m rsi ≤ a < regs m rsi + 136 → ¬ switch_writes m a) →
  ∃ m', run thread_switch m = Done m' ∧
    map (regs m') (context_regs ++ [rflags; rip]) = ws ∧ regs m' rsp = regs m rsi + 136 ∧
    regs m' cr3 = regs m rcx ∧ rsp0 m' = regs m rdx ∧
    mem m' (regs m rdi) = saved_rsp m ∧ words (mem m') (saved_rsp m) (context m) ∧
    (∀ a, ¬ switch_writes m a → mem m' a = mem m a).
Proof.
  intros (Hframe & Hsp & Hsp' & Hrdi) Hrdx Hw Hlen Hlo Hhi Hkeep. rewrite thread_switch_parts, !run_app.
  destruct (run_pushes (rflags :: reverse context_regs) m) as (m1 & -> & Hsp1 & Hregs1 & _ & Hw1 & Hmem1);
    [by apply (bool_decide_unpack _)|change (length _) with 16%nat; lia|].
  rewrite res_bind_ret_l, run_app.
  destruct (run_switch_middle m1) as (m2 & -> & Hsp2 & Hcr2 & H02 & Hmem2); [by rewrite Hregs1|]. rewrite res_bind_ret_l.
  change (8 * Z.of_nat _) with 128 in Hsp1. fold (saved_rsp m) in Hsp1.
  rewrite (Hregs1 rdi) in Hmem2 by done. rewrite (Hregs1 rsi) in Hsp2 by done.
  rewrite (Hregs1 rcx) in Hcr2 by done. rewrite (Hregs1 rdx) in H02 by done. rewrite Hsp1 in *.
  assert (∀ a, ¬ switch_writes m a → mem m2 a = mem m a) as Hmem.
  { intros a Ha. unfold switch_writes, saved_rsp in Ha. rewrite Hmem2 by (unfold saved_rsp; lia).
    unfold store. case_Z; [lia|]. apply Hmem1. unfold saved_rsp. lia. }
  destruct (run_load_context m2 ws) as (m' & Hrun & Hmap & Hsp3 & Hcr & Hmem3 & H03);
    [|done|rewrite Hsp2; done|lia|].
  { rewrite Hsp2. eapply words_ext; [|done]. intros x Hx. symmetry. apply Hmem, Hkeep. lia. }
  exists m'. rewrite Hmem3. split_and!; [done|done|lia|congruence|congruence| | |done].
  - rewrite Hmem2 by (unfold saved_rsp in *; lia). unfold store. by rewrite Z.eqb_refl.
  - change (context m) with
      (reverse (map (regs m) (rflags :: reverse context_regs)) ++ [mem m (regs m rsp)]).
    apply words_app. split.
    + eapply words_ext; [|exact Hw1]. change (length _) with 16%nat. intros x Hx. unfold saved_rsp in *.
      rewrite Hmem2 by lia. unfold store. case_Z; [lia|done].
    + change (length _) with 16%nat. unfold saved_rsp. cbn [words]. split; [|done].
      replace (regs m rsp - 128 + 8 * Z.of_nat 16) with (regs m rsp) by lia.
      apply Hmem. unfold switch_writes, saved_rsp in *. lia.
Qed.

(** C15: a context switch loses nothing.  When [thread_switch] runs on machine [m]
    and stores the stack pointer of the thread that calls it, every later
    [thread_switch], on any machine [m2] whose memory still holds that thread's
    stack and that is given the stored stack pointer, continues behind the call
    with all registers and flags as they were, in the address space and with the
    kernel stack it was given.  The addresses for the task state segment have to be canonical, or
    [tss_set_rsp0] panics. *)
Theorem thread_switch_roundtrip m ws m2 :
  can_switch m → 0 ≤ regs m rdx < 2 ^ 47 → words (mem m) (regs m rsi) ws → length ws = 17%nat →
  0 ≤ regs m rsi → regs m rsi + 136 < 2 ^ 64 →
  (∀ a, regs m rsi ≤ a < regs m rsi + 136 → ¬ switch_writes m a) →
  ∃ m1, run thread_switch m = Done m1 ∧
    map (regs m1) (context_regs ++ [rflags; rip]) = ws ∧
    (∀ a, ¬ switch_writes m a → mem m1 a = mem m a) ∧
    (can_switch m2 → 0 ≤ regs m2 rdx < 2 ^ 47 → regs m2 rsi = mem m1 (regs m rdi) →
     (∀ a, saved_rsp m ≤ a < regs m rsp + 8 → mem m2 a = mem m1 a ∧ ¬ switch_writes m2 a) →
     ∃ m3, run thread_switch m2 = Done m3 ∧
       (∀ r, r ∈ context_regs ++ [rflags] → regs m3 r = regs m r) ∧
       regs m3 rip = mem m (regs m rsp) ∧ regs m3 rsp = regs m rsp + 8 ∧
       regs m3 cr3 = regs m2 rcx ∧ rsp0 m3 = regs m2 rdx).
Proof.
  intros Hcan Hrdx Hw Hlen Hlo Hhi Hkeep.
  destruct (thread_switch_spec m ws Hcan Hrdx Hw Hlen Hlo Hhi Hkeep)
    as (m1 & Hrun & Hmap & _ & _ & _ & Hsaved & Hctx & Hmem).
  exists m1. split_and!; [done|done|done|]. intros Hcan2 Hrdx2 Hrsi Hsame.
  destruct Hcan as (_ & Hsp & Hsp' & _). rewrite Hsaved in Hrsi. unfold saved_rsp in *.
  destruct (thread_switch_spec m2 (context m) Hcan2 Hrdx2) as (m3 & Hrun3 & Hmap3 & Hsp3 & Hcr3 & H03 & _);
    [|done|lia|lia|intros a Ha; apply Hsame; lia|].
  { rewrite Hrsi. eapply words_ext; [|exact Hctx]. change (length _) with 17%nat.
    intros x Hx. symmetry. apply Hsame. lia. }
  exists m3. injection Hmap3 as ? ? ? ? ? ? ? ? ? ? ? ? ? ? ? ? Hrip.
  split_and!; [done| |done|lia|done|done].
  apply Forall_forall. repeat constructor; done.
Qed.
End Switch.

(** ** The initial stack *)
Section Start.
Context {Entry : Type} `{Profile} `{VirtAddrLaws} `{SelectorOps}.
Implicit Types t : thread Entry.

(** The elements of a vector lie in memory from its buffer's address on. *)
Definition holds (f : Z → Z) (v : vec) : Prop := words f (as_ptr v) (contents v).

Lemma vec_set_app l0 l1 j x :
  0 ≤ j → vec_set (Z.of_nat (length l0) + j) x (l0 ++ l1) = l1' ← vec_set j x l1; Done (l0 ++ l1').
Proof.
  intros Hj. unfold vec_set. rewrite length_app.
  assert ((Z.of_nat (length l0) + j <? Z.of_nat (length l0 + length l1)) = (j <? Z.of_nat (length l1))) as ->
    by (repeat case_Z; lia).
  rewrite (proj2 (Z.leb_le 0 j)), (proj2 (Z.leb_le 0 _)) by lia. cbn [andb].
  destruct (j <? Z.of_nat (length l1)); cbn; [|done].
  replace (Z.to_nat (Z.of_nat (length l0) + j)) with (length l0 + Z.to_nat j)%nat by lia.
  by rewrite insert_app_r.
Qed.

(** A frame of [n] words only concerns the last [n] words of the stack. *)
Lemma write_frame_app l0 l1 n frame :
  Forall (fun p => 0 ≤ p.1 ≤ n) frame → Z.of_nat (length l0) + n < 2 ^ 64 →
  write_frame (Z.of_nat (length l0) + n) frame (l0 ++ l1) =
    l1' ← write_frame n frame l1; Done (l0 ++ l1').
Proof.
  intros Hframe Hn. revert l1. induction Hframe as [|[k x] frame Hk _ IH]; intros l1; cbn [write_frame]; [done|].
  cbn in Hk. rewrite !sub_w_ok, !res_bind_ret_l by lia.
  replace (Z.of_nat (length l0) + n - k) with (Z.of_nat (length l0) + (n - k)) by lia.
  rewrite vec_set_app by lia. rewrite !res_bind_assoc. destruct (vec_set (n - k) x l1); cbn; [apply IH|done..].
Qed.

(** A fresh stack: [n] words below the frame, in the lower half of memory. *)
Definition stack_at (v : vec) (n frame_words : Z) : Prop :=
  0 ≤ n ∧ 0 ≤ as_ptr v ∧ capacity v = n + frame_words ∧ as_ptr v + 8 * capacity v < 2 ^ 47.

Lemma start_frame_words kickoff :
  write_frame 18 (start_frame kickoff) (replicate 18 0) =
    Done (replicate 15 0 ++ [0x202; kickoff; 0x00DEAD00]).
Proof. reflexivity. Qed.

Lemma user_frame_words kickoff user_rsp l :
  length l = 7%nat →
  write_frame 7 (user_frame kickoff user_rsp) l =
    Done [0; kickoff; segment_selector 4 3; 0x202; user_rsp; segment_selector 3 3; 0x00DEAD00].
Proof. intros Hl. do 8 (destruct l as [|? l]; try done). Qed.

Lemma prepare_kernel_stack_spec kickoff t n :
  stack_at (kernel_stack t) n 18 → contents (kernel_stack t) = [] →
  ∃ t', prepare_kernel_stack kickoff t = Done t' ∧
    old_rsp0 t' = as_ptr (kernel_stack t) + 8 * n ∧ as_ptr (kernel_stack t') = as_ptr (kernel_stack t) ∧
    contents (kernel_stack t') = replicate (Z.to_nat n) 0 ++ replicate 15 0 ++ [0x202; kickoff; 0x00DEAD00].
Proof.
  intros (Hn & Hp & Hc & Hhi) Hnil. unfold prepare_kernel_stack, push_zeroes. rewrite Hnil. cbn [app].
  rewrite Hc. replace (Z.to_nat (n + 18)) with (Z.to_nat n + 18)%nat by lia. rewrite replicate_add.
  replace (n + 18) with (Z.of_nat (length (replicate (Z.to_nat n) 0)) + 18) by (rewrite length_replicate; lia).
  rewrite write_frame_app by (repeat constructor; cbn; lia || rewrite length_replicate; lia).
  rewrite start_frame_words, !res_bind_ret_l. rewrite length_replicate, Z2Nat.id by lia.
  rewrite sub_w_ok, res_bind_ret_l by lia. replace (n + 18 - 18) with n by lia.
  rewrite mul_w_ok, res_bind_ret_l by lia. rewrite add_w_ok, res_bind_ret_l by lia.
  rewrite virt_addr_new_ok, res_bind_ret_l by lia.
  eexists. split_and!; [done|cbn; lia|done|done].
Qed.

(** It only concerns the kernel stack. *)
Lemma prepare_kernel_stack_same kickoff t t' : prepare_kernel_stack kickoff t = Done t' →
  tid t' = tid t ∧ user_stack t' = user_stack t ∧ address_space t' = address_space t ∧ entry t' = entry t.
Proof. unfold prepare_kernel_stack. intros Hp. inv_res. done. Qed.

Lemma switch_to_user_mode_spec kickoff t n :
  stack_at (kernel_stack t) n 7 → Z.of_nat (length (contents (kernel_stack t))) = n + 7 →
  0 ≤ as_ptr (user_stack t) → 1 ≤ capacity (user_stack t) →
  as_ptr (user_stack t) + 8 * capacity (user_stack t) < 2 ^ 47 →
  let user_rsp := as_ptr (user_stack t) + 8 * (capacity (user_stack t) - 1) in
  ∃ t', switch_to_user_mode kickoff t = Done t' ∧
    old_rsp0 t' = as_ptr (kernel_stack t) + 8 * n ∧ as_ptr (kernel_stack t') = as_ptr (kernel_stack t) ∧
    contents (kernel_stack t') = take (Z.to_nat n) (contents (kernel_stack t)) ++
      [0; kickoff; segment_selector 4 3; 0x202; user_rsp; segment_selector 3 3; 0x00DEAD00].
Proof.
  intros (Hn & Hp & Hc & Hhi) Hlen Hu Hcu Huhi user_rsp. unfold switch_to_user_mode. cbv zeta. cbn [capacity].
  rewrite (sub_w_ok 64 (capacity (user_stack t)) 1), res_bind_ret_l by lia.
  rewrite mul_w_ok, res_bind_ret_l by lia. rewrite add_w_ok, res_bind_ret_l by lia.
  replace (as_ptr (user_stack t) + (capacity (user_stack t) - 1) * 8) with user_rsp by lia.
  rewrite Hc. set (l := contents (kernel_stack t)) in *.
  replace (write_frame (n + 7) (user_frame kickoff user_rsp) l)
    with (write_frame (n + 7) (user_frame kickoff user_rsp) (take (Z.to_nat n) l ++ drop (Z.to_nat n) l))
    by (by rewrite take_drop).
  replace (n + 7) with (Z.of_nat (length (take (Z.to_nat n) l)) + 7)
    by (rewrite length_take; lia).
  rewrite write_frame_app by (repeat constructor; cbn; lia || rewrite length_take; lia).
  rewrite user_frame_words, !res_bind_ret_l by (rewrite length_drop; lia).
  replace (Z.of_nat (length (take (Z.to_nat n) l)) + 7) with (n + 7)
    by (rewrite length_take; lia).
  rewrite sub_w_ok, res_bind_ret_l by lia. rewrite mul_w_ok, res_bind_ret_l by lia.
  rewrite add_w_ok, res_bind_ret_l by lia. rewrite virt_addr_new_ok, res_bind_ret_l by lia.
  eexists. split_and!; [done|cbn; lia|done|done].
Qed.

(** The words of a vector's tail. *)
Lemma holds_tail f v l ws n :
  holds f v → contents v = l ++ ws → length l = n → words f (as_ptr v + 8 * Z.of_nat n) ws.
Proof. unfold holds. intros Hf Hc <-. rewrite Hc in Hf. by apply words_app in Hf as [_ Hf]. Qed.

(** A fresh kernel thread starts in [kickoff_kernel_thread] with interrupts
    enabled, all general registers zero, and the stack pointer at the dummy return
    address in the last word of its stack, for every stack of at least 18 words. *)
Theorem kernel_thread_starts kickoff t n m :
  stack_at (kernel_stack t) n 18 → contents (kernel_stack t) = [] →
  ∃ t', prepare_kernel_stack kickoff t = Done t' ∧
    (regs m rdi = old_rsp0 t' → holds (mem m) (kernel_stack t') →
     ∃ m', run thread_kernel_start m = Done m' ∧ regs m' rip = kickoff ∧ regs m' rflags = 0x202 ∧
       (∀ r, r ∈ context_regs → regs m' r = 0) ∧
       regs m' rsp = as_ptr (kernel_stack t) + 8 * (capacity (kernel_stack t) - 1) ∧
       mem m' (regs m' rsp) = 0x00DEAD00).
Proof.
  intros Hstack Hnil. destruct (prepare_kernel_stack_spec kickoff t n Hstack Hnil) as (t' & Ht' & Hrsp & Hptr & Hc).
  exists t'. split; [done|]. intros Hrdi Hholds. destruct Hstack as (Hn & Hp & Hcap & Hhi).
  pose proof (holds_tail _ _ _ _ (Z.to_nat n) Hholds Hc ltac:(by rewrite length_replicate)) as Hw.
  rewrite Z2Nat.id, Hptr in Hw by done.
  change thread_kernel_start with (Mov rsp rdi :: (map Pop context_regs ++ [Pop rflags; Ret])).
  cbn [run exec]. rewrite res_bind_ret_l. set (m0 := with_regs _ m).
  assert (regs m0 rsp = as_ptr (kernel_stack t) + 8 * n) as Hsp0 by (cbn; by rewrite set_reg_eq, Hrdi).
  change (replicate 15 0 ++ [0x202; kickoff; 0x00DEAD00])
    with ((replicate 15 0 ++ [0x202; kickoff]) ++ [0x00DEAD00]) in Hw.
  apply words_app in Hw as [Hw [Hdead _]]. change (length _) with 17%nat in Hdead.
  destruct (run_load_context m0 (replicate 15 0 ++ [0x202; kickoff])) as (m' & Hrun & Hmap & Hsp & _ & Hmem & _);
    [by rewrite Hsp0|done|lia|lia|].
  exists m'. cbn in Hmap. injection Hmap as ? ? ? ? ? ? ? ? ? ? ? ? ? ? ? Hfl Hrip.
  split_and!; [done|done|done| |lia|].
  - apply Forall_forall. repeat constructor; done.
  - rewrite Hmem, Hsp, Hsp0. cbn. rewrite <-Hdead. f_equal.
Qed.

(** The first switch to user mode starts [kickoff_user_thread] in the user
    code segment with interrupts enabled, with the stack pointer at the last word
    of the user stack and the user data segment as stack segment. *)
Theorem user_thread_starts kickoff t n m :
  stack_at (kernel_stack t) n 7 → Z.of_nat (length (contents (kernel_stack t))) = n + 7 →
  0 ≤ as_ptr (user_stack t) → 1 ≤ capacity (user_stack t) →
  as_ptr (user_stack t) + 8 * capacity (user_stack t) < 2 ^ 47 →
  ∃ t', switch_to_user_mode kickoff t = Done t' ∧
    (regs m rdi = old_rsp0 t' → holds (mem m) (kernel_stack t') →
     ∃ m', run thread_user_start m = Done m' ∧ regs m' rip = kickoff ∧ regs m' rdi = 0 ∧
       regs m' cs = segment_selector 4 3 ∧ regs m' ss = segment_selector 3 3 ∧ regs m' rflags = 0x202 ∧
       regs m' rsp = as_ptr (user_stack t) + 8 * (capacity (user_stack t) - 1) ∧ mem m' = mem m).
Proof.
  intros Hstack Hlen Hu Hcu Huhi.
  destruct (switch_to_user_mode_spec kickoff t n Hstack Hlen Hu Hcu Huhi) as (t' & Ht' & Hrsp & Hptr & Hc).
  exists t'. split; [done|]. intros Hrdi Hholds. destruct Hstack as (Hn & Hp & Hcap & Hhi).
  pose proof (holds_tail _ _ _ _ (Z.to_nat n) Hholds Hc ltac:(rewrite length_take; lia)) as Hw.
  rewrite Z2Nat.id, Hptr, <-Hrsp in Hw by done. set (sp := old_rsp0 t') in *.
  destruct Hw as (W0 & W1 & W2 & W3 & W4 & W5 & _).
  eexists. split; [reflexivity|]. cbn [mem with_regs pop]. regs_simpl. unfold pop, with_regs. regs_simpl.
  rewrite Hrdi. rewrite !wrap_small by (rewrite ?wrap_small; lia).
  split_and!; try done; rewrite <-?W1, <-?W2, <-?W3, <-?W4, <-?W5; f_equal; lia.
Qed.

(** [kernel_stack_addr], which becomes the stack pointer for interrupts and
    system calls, is outside of the kernel stack: [offset] counts in words, and
    the code multiplies by the word size again.  For a stack of [c] words a compiler that adds gets the
    address [56 * c - 64] bytes above the end of the stack. *)
Theorem kernel_stack_addr_outside `{OffsetOps} t : 2 ≤ capacity (kernel_stack t) < 2 ^ 60 →
  kernel_stack_addr t = offset_outside (as_ptr (kernel_stack t) + 8 * capacity (kernel_stack t) + (56 * capacity (kernel_stack t) - 64)).
Proof.
  intros Hc. unfold kernel_stack_addr. rewrite sub_w_ok, res_bind_ret_l by lia.
  rewrite mul_w_ok, res_bind_ret_l by lia. unfold offset. rewrite (proj2 (Z.leb_gt _ (capacity _))), andb_false_r by lia.
  f_equal. lia.
Qed.
End Start.

(** ** Concrete inputs *)
Section Examples.
#[local] Existing Instance development.
#[local] Instance demo_junk : Junk := {| junk_reg := fun _ _ => 42; junk_mem := fun _ _ => 42; frame_size := 256 |}.
#[local] Instance demo_virt : VirtAddrOps := {| virt_addr_new a :=
  if (0 <=? a) && (a <? 2 ^ 47) then Done a else Panic "address not canonical" |}.
#[local] Instance demo_virt_laws : VirtAddrLaws.
Proof. intros a Ha. cbn. by rewrite (proj2 (Z.leb_le _ _)), (proj2 (Z.ltb_lt _ _)) by lia. Qed.
#[local] Instance demo_selector : SelectorOps := {| segment_selector index rpl := Z.lor (Z.shiftl index 3) rpl |}.

(** A machine about to switch, with the given stack pointers, whose other
    registers hold 7. *)
Definition demo_regs (sp saved_at next : Z) (r : reg) : Z :=
  match r with rsp => sp | rdi => saved_at | rsi => next | _ => 7 end.
Definition demo_machine : machine := mkMachine (demo_regs 0x10000 0x5000 0x20000) (fun _ => 0) 0.
Definition demo_back (f : Z → Z) : machine := mkMachine (demo_regs 0x30000 0x6000 (0x10000 - 128)) f 0.

Lemma thread_switch_roundtrip_witness :
  ∃ m1 m3, run thread_switch demo_machine = Done m1 ∧ run thread_switch (demo_back (mem m1)) = Done m3 ∧
    regs m3 r12 = 7 ∧ regs m3 rsp = 0x10008.
Proof.
  assert (can_switch demo_machine) as Hcan by (unfold can_switch, saved_rsp; cbn; lia).
  destruct (thread_switch_spec demo_machine (replicate 17 0) Hcan) as (m1 & Hrun1 & _ & _ & _ & _ & Hsaved & _);
    [change (0 ≤ 7 < 2 ^ 47); lia|cbn; tauto|done|done|done|unfold switch_writes, saved_rsp; cbn; lia|].
  destruct (thread_switch_roundtrip demo_machine (replicate 17 0) (demo_back (mem m1)) Hcan)
    as (m1' & Hrun & _ & _ & Hback);
    [change (0 ≤ 7 < 2 ^ 47); lia|cbn; tauto|done|done|done|unfold switch_writes, saved_rsp; cbn; lia|].
  rewrite Hrun1 in Hrun. injection Hrun as <-.
  destruct Hback as (m3 & Hrun3 & Hregs & _ & Hsp & _).
  - unfold can_switch, saved_rsp; cbn; lia.
  - change (0 ≤ 7 < 2 ^ 47). lia.
  - by rewrite Hsaved.
  - unfold switch_writes, saved_rsp; cbn. intros a Ha. split; [done|lia].
  - exists m1, m3. split_and!; [done|done| |done].
    rewrite Hregs; [done|by apply (bool_decide_unpack _)].
Defined.

Definition demo_thread : thread unit :=
  mkThread 1 (mkVec 0x100000 [] 8192) (mkVec 0x400000000000 [] 8192) 0 0 tt.

(** A memory that holds the elements of a vector. *)
Definition mem_of (v : vec) (a : Z) : Z := default 0 (contents v !! Z.to_nat ((a - as_ptr v) / 8)).

Lemma words_lookup f a ws : (∀ i w, ws !! i = Some w → f (a + 8 * Z.of_nat i) = w) → words f a ws.
Proof.
  revert a. induction ws as [|w ws IH]; intros a Hi; cbn; [done|]. split.
  - rewrite <-(Hi 0%nat w eq_refl). f_equal. lia.
  - apply IH. intros i x Hx. rewrite <-(Hi (S i) x Hx). f_equal. lia.
Qed.

Lemma mem_of_holds v : holds (mem_of v) v.
Proof.
  apply words_lookup. intros i w Hi. unfold mem_of.
  replace (as_ptr v + 8 * Z.of_nat i - as_ptr v) with (Z.of_nat i * 8) by lia.
  rewrite Z.div_mul, Nat2Z.id by done. by rewrite Hi.
Qed.

Lemma kernel_thread_starts_witness :
  ∃ t' m', prepare_kernel_stack 0x1234 demo_thread = Done t' ∧
    run thread_kernel_start (mkMachine (fun _ => old_rsp0 t') (mem_of (kernel_stack t')) 0) = Done m' ∧
    regs m' rip = 0x1234 ∧ regs m' rsp = 0x10fff8.
Proof.
  destruct (prepare_kernel_stack_spec 0x1234 demo_thread 8174) as (t' & Ht' & _);
    [unfold stack_at; cbn; lia|done|].
  destruct (kernel_thread_starts 0x1234 demo_thread 8174
    (mkMachine (fun _ => old_rsp0 t') (mem_of (kernel_stack t')) 0)) as (t'' & Ht'' & Hrun);
    [unfold stack_at; cbn; lia|done|].
  rewrite Ht'' in Ht'. injection Ht' as ->.
  destruct Hrun as (m' & Hrun & Hrip & _ & _ & Hsp & _); [done|apply mem_of_holds|].
  exists t', m'. split_and!; try done.
Defined.

(** A user thread whose kernel stack has 24 words. *)
Definition demo_user : thread unit :=
  mkThread 1 (mkVec 0x100000 (replicate 24 0) 24) (mkVec 0x400000000000 [] 8192) 0 0 tt.
Lemma user_thread_starts_witness :
  ∃ t', switch_to_user_mode 0x1234 demo_user = Done t'.
Proof.
  destruct (user_thread_starts 0x1234 demo_user 17 demo_machine) as (t' & Ht' & _); [unfold stack_at; cbn; lia|done..|].
  eauto.
Defined.

#[local] Instance demo_offset : OffsetOps := {| offset_outside a := Done (wrap 64 a) |}.
Example kernel_stack_addr_value : kernel_stack_addr demo_thread = Done (0x100000 + 64 * 8191).
Proof. reflexivity. Qed.
End Examples.
