(* ===== verification/Preemption.v ===== *)
(** * Locks and preemption (os/kernel/src/thread/scheduler.rs, interrupt_dispatcher.rs)

    Scheduler.v executes each critical section of the scheduler in one step.  This file
    looks between the steps: which locks the kernel takes in which order, where the timer can
    interrupt it, and when the registers of a thread are saved and loaded.  A thread is the
    code that it still has to run; the sections themselves are the functions of Scheduler.v. *)

From stdpp Require Import fin_maps gmap relations.
From S2P Require Import Prelude Scheduler.
#[local] Open Scope Z_scope.

(** The locks: the heap, the task state segment, the three of the scheduler, the handlers
    of the timer's vector, the timer when it is written, the local APIC, the logger, the terminal's, and any others *)
Inductive lock :=
  | HEAP | TSS | STATE | SLEEP_LIST | JOIN_MAP | HANDLERS | TIMER | LOCAL_APIC | LOGGER
  | PARSER | DISPLAY | CURSOR | COLOR | OTHER (n : Z).
#[export] Instance lock_eq_dec : EqDecision lock.
Proof. solve_decision. Defined.

Section Preemption.
Context `{ThreadOps} `{Profile} `{FinMap Z M}.
Let scheduler := Scheduler M.

(** What is left to do.  [Lock] waits until the lock is free, [Await] until nobody writes what the lock protects (a reader's
    lock, which is given back at once), and [Force_unlock] opens it whoever
    holds it.  [Update] executes the body of a critical section.  [Fetch] reads the stack pointer of a thread, [old_rsp0].
    [Save] pushes a context, with which the saved code goes on, and stores the stack pointer into a thread; [Load] pops
    the context at a stack pointer and goes on with it.  [Iret] ends a handler. *)
Inductive code :=
  | End
  | Lock (l : lock) (c : code)
  | Await (l : lock) (c : code)
  | Try_lock (l : lock) (c : bool → code)
  | Unlock (l : lock) (c : code)
  | Force_unlock (l : lock) (c : code)
  | Initialized (c : bool → code)
  | Update (f : scheduler → res (scheduler * action)) (c : action → code)
  | Fetch (t : Thread) (c : nat → code)
  | Save (t : Thread) (context : code) (c : code)
  | Load (p : nat)
  | Iret (c : code).

(** Calls of the heap, each under its lock *)
Fixpoint heap_calls (n : nat) (c : code) : code :=
  match n with
  | O => c
  | S n => Lock HEAP (Unlock HEAP (heap_calls n c))
  end.
(** A lock that a handler takes by force: interrupts are off, so that the second attempt succeeds. *)
Definition by_force (l : lock) (c : code) : code :=
  Try_lock l (fun ok => if ok then c else Force_unlock l (Try_lock l (fun _ => c))).

(** [Apic::end_of_interrupt] *)
Definition end_of_interrupt (c : code) : code := by_force LOCAL_APIC (Unlock LOCAL_APIC c).
(** [Thread::switch] reads the stack pointer of the next thread, which is an argument of [thread_switch]; that saves
    the registers, calls [tss_set_rsp0] and loads those of the next thread.  The address space of the next thread is only read. *)
Definition switch (current next : Thread) (c : code) : code :=
  Fetch next (fun p => Save current c (Lock TSS (Unlock TSS (Load p)))).
Definition perform (a : action) (c : code) : code :=
  match a with
  | Return => c
  | Switch eoi current next => if eoi then end_of_interrupt (switch current next c) else switch current next c
  | StartFirst t => Fetch t Load
  end.

(** The functions of [Scheduler].  The numbers are those of the calls of the heap: when a queue
    or list grows, or for the messages that [join] and [exit] always format. *)
Definition set_init_code (c : code) : code :=
  Lock STATE (Update (fun s => Done (set_init s, Return)) (fun _ => Unlock STATE c)).
Definition current_thread_code (c : code) : code :=
  Lock STATE (Update (fun s => t ← current_thread_of s; Done (s, Return)) (fun _ => Unlock STATE c)).
Definition start_code : code := Lock STATE (Update start (fun a => Unlock STATE (perform a End))).
Definition ready_code (t : Thread) (grow : nat) (c : code) : code :=
  Lock STATE (Lock JOIN_MAP (heap_calls grow (Update (fun s => Done (ready s t, Return)) (fun _ =>
    Unlock JOIN_MAP (Unlock STATE c))))).
Definition block_code (reads : list (option Z)) (grow : nat) (c : code) : code :=
  Lock STATE (Lock SLEEP_LIST (heap_calls grow (Update (block reads) (fun a =>
    Unlock SLEEP_LIST (Unlock STATE (perform a c)))))).
Definition sleep_code (systime ms : Z) (grow : nat) (reads : list (option Z)) (grow' : nat) (c : code) : code :=
  Await TIMER (Lock STATE (Lock SLEEP_LIST (heap_calls grow (Update (fun s => s' ← sleep_enter systime ms s; Done (s', Return)) (fun _ =>
    Unlock SLEEP_LIST (Unlock STATE (block_code reads grow' c))))))).
Definition join_code (thread_id : Z) (grow : nat) (reads : list (option Z)) (grow' : nat) (c : code) : code :=
  Lock STATE (Lock JOIN_MAP (heap_calls (2 + grow) (Update (fun s => s' ← join_enter thread_id s; Done (s', Return)) (fun _ =>
    Unlock JOIN_MAP (Unlock STATE (block_code reads grow' c)))))).
Definition exit_code (grow : nat) (reads : list (option Z)) (grow' : nat) : code :=
  Lock STATE (Lock JOIN_MAP (heap_calls (2 + grow) (Update (fun s => s' ← exit_enter s; Done (s', Return)) (fun _ =>
    Unlock JOIN_MAP (Unlock STATE (block_code reads grow' End)))))).
Definition switch_thread_code (timer : option Z) (grow : nat) (c : code) : code :=
  Try_lock STATE (fun ok => if negb ok then c else
    Initialized (fun init => if negb init then Unlock STATE c else
      Try_lock SLEEP_LIST (fun sl => if sl
        then heap_calls grow (Update (switch_thread true true timer) (fun a => Unlock SLEEP_LIST (Unlock STATE (perform a c))))
        else Update (switch_thread true false timer) (fun a => Unlock STATE (perform a c))))).

(** [kickoff_kernel_thread]; [closure] ends with the rest that is given to it. *)
Definition kickoff_code (closure : code → code) (grow : nat) (reads : list (option Z)) (grow' : nat) : code :=
  current_thread_code (set_init_code (Lock TSS (Unlock TSS (closure (exit_code grow reads grow'))))).

(** [LFBTerminal::write_str] for [n] characters *)
Fixpoint print_chars (n : nat) (c : code) : code :=
  match n with
  | O => c
  | S n => Lock DISPLAY (Lock CURSOR (Lock COLOR (Unlock COLOR (Unlock CURSOR (Unlock DISPLAY (print_chars n c))))))
  end.
Definition write_code (n : nat) (c : code) : code :=
  Lock PARSER (Unlock PARSER (print_chars n (Lock PARSER (Unlock PARSER c)))).
(** [SerialPort::write_str] takes no lock. *)
Definition serial_code (c : code) : code := c.
(** [Logger::log] with what the registered streams do.  Without streams it writes to a port; with streams it reads the time. *)
Definition log_code (streams : list (code → code)) (formats : nat) (c : code) : code :=
  Lock LOGGER (match streams with
    | [] => heap_calls formats (Unlock LOGGER c)
    | _ => Await TIMER (heap_calls formats (foldr (fun write c => write c) (Unlock LOGGER c) streams))
    end).
(** The handler of panics (boot.rs), which loops at the end *)
Definition panic_code (terminal_initialized : bool) (streams : list (code → code)) (n : nat) (c : code) : code :=
  if terminal_initialized then write_code n c
  else Force_unlock LOGGER (Lock LOGGER (Force_unlock LOGGER (log_code streams n c))).

(** The timer's interrupt: [dispatch], which calls [TimerInterruptHandler::trigger].  When the timer is not locked the handler
    counts; whether the time is due for a switch, and what [check_sleep_list] reads, is up to the timer. *)
Definition timer_interrupt (due : bool) (timer : option Z) (grow : nat) (c : code) : code :=
  let rest := Unlock HANDLERS (end_of_interrupt (Iret c)) in
  by_force HANDLERS (Try_lock TIMER (fun ok =>
    if ok then Unlock TIMER (if due then switch_thread_code timer grow rest else rest) else rest)).

(** The processor: the running code, whether interrupts are off, the stack pointers that the threads have, the contexts that lie on
    the stacks, the locks and the scheduler.  A context is gone when it has been popped, since the thread then uses its stack again. *)
Record cpu := mkCpu {
  running : code;
  masked : bool;
  saved : Z → option nat;
  contexts : gmap nat (code * bool);
  locked : lock → bool;
  sched : scheduler;
}.
Definition set_lock (l : lock) (b : bool) (f : lock → bool) : lock → bool := fun l' => if decide (l' = l) then b else f l'.
Definition set_saved (i : Z) (p : nat) (f : Z → option nat) : Z → option nat :=
  fun j => if decide (j = i) then Some p else f j.

(** A context is pushed wherever no other one lies; nothing is known of a stack pointer under which there is none. *)
Inductive cpu_step : cpu → cpu → Prop :=
  | do_lock l c mk sv st lk s : lk l = false → cpu_step (mkCpu (Lock l c) mk sv st lk s) (mkCpu c mk sv st (set_lock l true lk) s)
  | do_await l c mk sv st lk s : lk l = false → cpu_step (mkCpu (Await l c) mk sv st lk s) (mkCpu c mk sv st lk s)
  | do_try_lock l c mk sv st lk s :
      cpu_step (mkCpu (Try_lock l c) mk sv st lk s) (mkCpu (c (negb (lk l))) mk sv st (set_lock l true lk) s)
  | do_unlock l c mk sv st lk s : cpu_step (mkCpu (Unlock l c) mk sv st lk s) (mkCpu c mk sv st (set_lock l false lk) s)
  | do_force_unlock l c mk sv st lk s : cpu_step (mkCpu (Force_unlock l c) mk sv st lk s) (mkCpu c mk sv st (set_lock l false lk) s)
  | do_initialized c mk sv st lk s : cpu_step (mkCpu (Initialized c) mk sv st lk s) (mkCpu (c (initialized (state s))) mk sv st lk s)
  | do_update f c mk sv st lk s s' a : f s = Done (s', a) → cpu_step (mkCpu (Update f c) mk sv st lk s) (mkCpu (c a) mk sv st lk s')
  | do_fetch t c p mk sv st lk s : sv (id t) = Some p → cpu_step (mkCpu (Fetch t c) mk sv st lk s) (mkCpu (c p) mk sv st lk s)
  | do_save t c c' p mk sv st lk s : st !! p = None →
      cpu_step (mkCpu (Save t c c') mk sv st lk s) (mkCpu c' mk (set_saved (id t) p sv) (<[p := (c, mk)]> st) lk s)
  | do_load p c mk mk' sv st lk s : st !! p = Some (c, mk') → cpu_step (mkCpu (Load p) mk sv st lk s) (mkCpu c mk' sv (delete p st) lk s)
  | do_iret c mk sv st lk s : cpu_step (mkCpu (Iret c) mk sv st lk s) (mkCpu c false sv st lk s)
  | interrupt due timer grow c sv st lk s :
      cpu_step (mkCpu c false sv st lk s) (mkCpu (timer_interrupt due timer grow c) true sv st lk s).
Definition cpu_steps : cpu → cpu → Prop := rtc cpu_step.

(** Execution without interrupts, with one of the possible stack pointers *)
Definition free_pointer (st : gmap nat (code * bool)) : nat := fresh (dom st : gset nat).
Lemma free_pointer_free st : st !! free_pointer st = None.
Proof. apply (not_elem_of_dom (D:=gset nat)), (is_fresh (dom st : gset nat)). Qed.
Definition cpu_next (m : cpu) : option cpu :=
  let 'mkCpu c mk sv st lk s := m in
  match c with
  | End => None
  | Lock l c => if lk l then None else Some (mkCpu c mk sv st (set_lock l true lk) s)
  | Await l c => if lk l then None else Some (mkCpu c mk sv st lk s)
  | Try_lock l c => Some (mkCpu (c (negb (lk l))) mk sv st (set_lock l true lk) s)
  | Unlock l c | Force_unlock l c => Some (mkCpu c mk sv st (set_lock l false lk) s)
  | Initialized c => Some (mkCpu (c (initialized (state s))) mk sv st lk s)
  | Update f c => match f s with Done (s', a) => Some (mkCpu (c a) mk sv st lk s') | _ => None end
  | Fetch t c => match sv (id t) with Some p => Some (mkCpu (c p) mk sv st lk s) | None => None end
  | Save t c c' => let p := free_pointer st in Some (mkCpu c' mk (set_saved (id t) p sv) (<[p := (c, mk)]> st) lk s)
  | Load p => match st !! p with Some (c, mk') => Some (mkCpu c mk' sv (delete p st) lk s) | None => None end
  | Iret c => Some (mkCpu c false sv st lk s)
  end.
Fixpoint cpu_run (n : nat) (m : cpu) : cpu :=
  match n with
  | O => m
  | S n => match cpu_next m with Some m' => cpu_run n m' | None => m end
  end.
Lemma cpu_next_step m m' : cpu_next m = Some m' → cpu_step m m'.
Proof.
  destruct m as [c mk sv st lk s].
  destruct c as [|l c|l c|l c|l c|l c|c|f c|t c|t c c'|p|c]; cbn [cpu_next]; intros Hn; repeat case_match; try done;
    injection Hn as <-; econstructor; eauto using free_pointer_free.
Qed.
Lemma cpu_run_steps n m : cpu_steps m (cpu_run n m).
Proof.
  revert m. induction n as [|n IH]; intros m; [apply rtc_refl|]. cbn [cpu_run].
  destruct (cpu_next m) as [m'|] eqn:Hn; [|apply rtc_refl]. eapply rtc_l; [by apply cpu_next_step|apply IH].
Qed.

(** ** The locks of the scheduler *)

Definition scheduler_lock (l : lock) : bool :=
  match l with STATE | SLEEP_LIST | JOIN_MAP => true | _ => false end.

(** [c] follows the discipline when it holds the scheduler's locks in [h]: [STATE] is taken first and
    released last, the scheduler changes only under it, and no thread is switched away from with it. *)
Definition may_take (l : lock) (h : list lock) : Prop := (l ∉ h) ∧ (STATE ∈ h ∨ l = STATE).
Fixpoint disciplined (h : list lock) (c : code) : Prop :=
  match c with
  | End => h = []
  | Lock l c => if scheduler_lock l then may_take l h ∧ disciplined (l :: h) c else disciplined h c
  | Try_lock l c =>
      if scheduler_lock l then
        (l ∈ h → disciplined h (c false)) ∧ (l ∉ h → may_take l h ∧ disciplined (l :: h) (c true))
      else ∀ b, disciplined h (c b)
  | Unlock l c =>
      if scheduler_lock l then match h with l' :: h => l' = l ∧ disciplined h c | [] => False end else disciplined h c
  | Force_unlock l c => scheduler_lock l = false ∧ disciplined h c
  | Await l c => scheduler_lock l = false ∧ disciplined h c
  | Initialized c => ∀ b, disciplined h (c b)
  | Update f c => STATE ∈ h ∧ ∀ a, disciplined h (c a)
  | Fetch _ c => h = [] ∧ ∀ p, disciplined [] (c p)
  | Save _ c c' => h = [] ∧ disciplined [] c ∧ disciplined [] c'
  | Load _ => h = []
  | Iret c => disciplined h c
  end.

Lemma heap_calls_disciplined n h c : disciplined h c → disciplined h (heap_calls n c).
Proof. intros Hc. by induction n. Qed.
Lemma by_force_disciplined l h c : scheduler_lock l = false → disciplined h c → disciplined h (by_force l c).
Proof. intros Hl Hc. cbn. rewrite Hl. intros [|]; cbn; [done|]. by rewrite Hl. Qed.
Lemma end_of_interrupt_disciplined h c : disciplined h c → disciplined h (end_of_interrupt c).
Proof. intros Hc. by apply by_force_disciplined. Qed.
Lemma perform_disciplined a c : disciplined [] c → disciplined [] (perform a c).
Proof. intros Hc. destruct a as [|[|] |]; cbn [perform]; [done|apply end_of_interrupt_disciplined| |done]; by cbn. Qed.
#[local] Hint Resolve heap_calls_disciplined perform_disciplined end_of_interrupt_disciplined : core.

Ltac discipline := repeat match goal with
  | |- may_take _ _ => split; [set_solver|first [by right|left; set_solver]]
  | |- disciplined _ (heap_calls _ _) => apply heap_calls_disciplined
  | |- disciplined _ (perform _ _) => apply perform_disciplined
  | |- disciplined _ (end_of_interrupt _) => apply end_of_interrupt_disciplined
  | |- disciplined _ _ => first [solve [auto]|progress cbn [disciplined scheduler_lock negb]]
  | b : bool |- _ => destruct b
  | Hl : _ ∈ _ |- _ => exfalso; clear -Hl; set_solver
  | Hl : _ ∉ _ |- _ => clear Hl
  | |- _ ∧ _ => split
  | |- _ ∈ _ => set_solver
  | |- _ = _ => reflexivity
  | |- ∀ _, _ => intros ?
  end.

Lemma block_disciplined reads n c : disciplined [] c → disciplined [] (block_code reads n c).
Proof. intros Hc. unfold block_code. discipline. Qed.
#[local] Hint Resolve block_disciplined : core.
Lemma ready_disciplined t n c : disciplined [] c → disciplined [] (ready_code t n c).
Proof. intros Hc. unfold ready_code. discipline. Qed.
Lemma sleep_disciplined systime ms n reads n' c : disciplined [] c → disciplined [] (sleep_code systime ms n reads n' c).
Proof. intros Hc. unfold sleep_code. discipline. Qed.
Lemma join_disciplined i n reads n' c : disciplined [] c → disciplined [] (join_code i n reads n' c).
Proof. intros Hc. unfold join_code. discipline. Qed.
Lemma end_disciplined : disciplined [] End.
Proof. done. Qed.
#[local] Hint Resolve end_disciplined : core.
Lemma exit_disciplined n reads n' : disciplined [] (exit_code n reads n').
Proof. unfold exit_code. discipline. Qed.
Lemma current_thread_disciplined c : disciplined [] c → disciplined [] (current_thread_code c).
Proof. intros Hc. unfold current_thread_code. discipline. Qed.
Lemma set_init_disciplined c : disciplined [] c → disciplined [] (set_init_code c).
Proof. intros Hc. unfold set_init_code. discipline. Qed.
Lemma start_disciplined : disciplined [] start_code.
Proof. unfold start_code. discipline. Qed.
Lemma switch_thread_disciplined timer n c : disciplined [] c → disciplined [] (switch_thread_code timer n c).
Proof.
  intros Hc. unfold switch_thread_code. discipline.
Qed.

(** The locks are released in the opposite order, [STATE] last. *)
Definition ordered (h : list lock) : Prop := NoDup h ∧ (h = [] ∨ ∃ h', h = h' ++ [STATE]).
Lemma ordered_state h : ordered h → h ≠ [] → STATE ∈ h.
Proof. intros [_ [->|[h' ->]]] Hne; [done|set_solver]. Qed.
Lemma ordered_take l h : ordered h → may_take l h → ordered (l :: h).
Proof.
  intros [Hn Ho] [Hl Hs]. split; [by constructor|]. right. destruct Ho as [->|[h' ->]]; [|by exists (l :: h')].
  destruct Hs as [Hs| ->]; [set_solver|]. by exists [].
Qed.
Lemma ordered_release l h : ordered (l :: h) → (l ∉ h) ∧ ordered h.
Proof.
  intros [[Hl Hn]%NoDup_cons [?|[h' He]]]; [done|]. split; [done|]. split; [done|].
  destruct h' as [|l' h']; injection He as -> ->; [by left|right; by exists h'].
Qed.

(** A handler that interrupts code with locks only tries to take the scheduler's. *)
Lemma timer_interrupt_disciplined due timer n h c : ordered h → disciplined h c → disciplined h (timer_interrupt due timer n c).
Proof.
  intros Ho Hc. assert (disciplined h (Unlock HANDLERS (end_of_interrupt (Iret c)))) as Hrest
    by (cbn; by apply end_of_interrupt_disciplined).
  apply by_force_disciplined; [done|]. cbn [disciplined scheduler_lock]. intros [|]; [|exact Hrest].
  cbn [disciplined scheduler_lock]. destruct due; [|exact Hrest].
  destruct h as [|l h]; [by apply switch_thread_disciplined|]. pose proof (ordered_state _ Ho ltac:(done)).
  cbn [switch_thread_code disciplined scheduler_lock]. split; [by intros _|by intros []].
Qed.

(** What the threads run: functions of the scheduler, the heap, and other locks, in any order *)
Inductive thread_code : code → Prop :=
  | tc_start : thread_code start_code
  | tc_current c : thread_code c → thread_code (current_thread_code c)
  | tc_init c : thread_code c → thread_code (set_init_code c)
  | tc_exit n reads n' : thread_code (exit_code n reads n')
  | tc_ready t n c : thread_code c → thread_code (ready_code t n c)
  | tc_sleep systime ms n reads n' c : thread_code c → thread_code (sleep_code systime ms n reads n' c)
  | tc_join i n reads n' c : thread_code c → thread_code (join_code i n reads n' c)
  | tc_switch timer n c : thread_code c → thread_code (switch_thread_code timer n c)
  | tc_heap n c : thread_code c → thread_code (heap_calls n c)
  | tc_lock l c : scheduler_lock l = false → thread_code c → thread_code (Lock l c)
  | tc_await l c : scheduler_lock l = false → thread_code c → thread_code (Await l c)
  | tc_unlock l c : scheduler_lock l = false → thread_code c → thread_code (Unlock l c)
  | tc_force_unlock l c : scheduler_lock l = false → thread_code c → thread_code (Force_unlock l c).
#[local] Hint Resolve ready_disciplined sleep_disciplined join_disciplined exit_disciplined start_disciplined
  switch_thread_disciplined set_init_disciplined current_thread_disciplined heap_calls_disciplined : core.
Lemma thread_code_disciplined c : thread_code c → disciplined [] c.
Proof.
  induction 1 as [| | | | | | | | |l c Hl _ IH|l c Hl _ IH|l c Hl _ IH|l c Hl _ IH]; auto; cbn; by rewrite ?Hl.
Qed.

Lemma kickoff_thread_code closure n reads n' :
  (∀ c, thread_code c → thread_code (closure c)) → thread_code (kickoff_code closure n reads n').
Proof. intros Hc. apply tc_current, tc_init, tc_lock, tc_unlock, Hc, tc_exit; done. Qed.

(** Before the scheduler starts; contexts are those of threads that are created at some time. *)
Definition booted (m : cpu) : Prop :=
  thread_code (running m) ∧ (∀ l, scheduler_lock l = true → locked m l = false) ∧
  ∀ p c b, contexts m !! p = Some (c, b) → thread_code c.

(** The running code holds those locks of the scheduler that are taken, and the others hold none. *)
Definition sections (m : cpu) : Prop := ∃ h,
  disciplined h (running m) ∧ ordered h ∧ (∀ l, scheduler_lock l = true → locked m l = bool_decide (l ∈ h)) ∧
  ∀ p c b, contexts m !! p = Some (c, b) → disciplined [] c.

Lemma booted_sections m : booted m → sections m.
Proof.
  intros (Hr & Hl & Hs). exists []. split; [by apply thread_code_disciplined|]. split; [split; [constructor|by left]|].
  split; [intros l ?; by rewrite Hl|]. intros i c b Hc. by eapply thread_code_disciplined, Hs.
Qed.

Lemma set_lock_eq l b f : set_lock l b f l = b.
Proof. unfold set_lock. by rewrite decide_True. Qed.
Lemma set_lock_ne l l' b f : l' ≠ l → set_lock l b f l' = f l'.
Proof. intros Hne. unfold set_lock. by rewrite decide_False. Qed.

(** The taken locks, when a lock is taken or released *)
Definition taken (h : list lock) (lk : lock → bool) : Prop := ∀ l, scheduler_lock l = true → lk l = bool_decide (l ∈ h).
Lemma taken_other l b h lk : scheduler_lock l = false → taken h lk → taken h (set_lock l b lk).
Proof. intros Hl Ht l' Hl'. rewrite set_lock_ne; [by apply Ht|]. by intros ->; rewrite Hl in Hl'. Qed.
Lemma taken_take l h lk : taken h lk → taken (l :: h) (set_lock l true lk).
Proof.
  intros Ht l' Hl'. destruct (decide (l' = l)) as [->|Hne].
  - rewrite set_lock_eq, bool_decide_true; [done|set_solver].
  - rewrite set_lock_ne, Ht by done. apply bool_decide_ext. set_solver.
Qed.
Lemma taken_release l h lk : l ∉ h → taken (l :: h) lk → taken h (set_lock l false lk).
Proof.
  intros Hl Ht l' Hl'. destruct (decide (l' = l)) as [->|Hne].
  - by rewrite set_lock_eq, bool_decide_false.
  - rewrite set_lock_ne, Ht by done. apply bool_decide_ext. set_solver.
Qed.
Lemma taken_ext h lk lk' : (∀ l, lk' l = lk l) → taken h lk → taken h lk'.
Proof. intros He Ht l Hl. by rewrite He, Ht. Qed.

Lemma sections_step m m' : cpu_step m m' → sections m → sections m'.
Proof.
  intros Hstep (h & Hd & Ho & Hl & Hs). fold (taken h (locked m)) in Hl.
  destruct Hstep as [l c ? ? ? lk ? Hf|l c|l c ? ? ? lk|l c ? ? ? lk|l c ? ? ? lk| |f c ? ? ? ? ? ? a|t c p|t c c' p|p c mk mk' sv st lk s Ht| |];
    cbn [running locked contexts] in *; cbn [disciplined] in Hd.
  - destruct (scheduler_lock l) eqn:Hsl.
    + destruct Hd as [Hm Hd]. exists (l :: h). split; [done|]. split; [by apply ordered_take|]. split; [by apply taken_take|exact Hs].
    + exists h. split; [done|]. split; [done|]. split; [by apply taken_other|exact Hs].
  - destruct Hd as [_ Hd]. exists h. split; [done|exact (conj Ho (conj Hl Hs))].
  - destruct (scheduler_lock l) eqn:Hsl; cbn [negb].
    + rewrite (Hl l Hsl). destruct Hd as [Hd1 Hd2]. destruct (decide (l ∈ h)) as [Hin|Hin].
      * rewrite bool_decide_true by done. exists h. split; [by apply Hd1|]. split; [done|]. split; [|exact Hs].
        apply taken_ext with lk; [|done]. intros l'. cbn [locked]. unfold set_lock. destruct (decide (l' = l)) as [->|]; [|done].
        by rewrite (Hl l Hsl), bool_decide_true.
      * rewrite bool_decide_false by done. destruct (Hd2 Hin) as [Hm Hd]. exists (l :: h).
        split; [done|]. split; [by apply ordered_take|]. split; [by apply taken_take|exact Hs].
    + exists h. split; [apply Hd|]. split; [done|]. split; [by apply taken_other|exact Hs].
  - destruct (scheduler_lock l) eqn:Hsl.
    + destruct h as [|l' h]; [done|]. destruct Hd as [-> Hd]. apply ordered_release in Ho as [Hnin Ho].
      exists h. split; [done|]. split; [done|]. split; [by apply taken_release|exact Hs].
    + exists h. split; [done|]. split; [done|]. split; [by apply taken_other|exact Hs].
  - destruct Hd as [Hsl Hd]. exists h. split; [done|]. split; [done|]. split; [by apply taken_other|exact Hs].
  - exists h. split; [apply Hd|exact (conj Ho (conj Hl Hs))].
  - exists h. split; [apply Hd|exact (conj Ho (conj Hl Hs))].
  - destruct Hd as [-> Hd]. exists []. split; [apply Hd|exact (conj Ho (conj Hl Hs))].
  - destruct Hd as (-> & Hd & Hd'). exists []. split; [done|]. split; [done|]. split; [done|].
    cbn [contexts]. intros q c1 b [[_ Hsome]|[_ Hq]]%lookup_insert_Some; [by injection Hsome as <- <-|by eapply Hs].
  - subst h. exists []. split; [by eapply Hs|]. split; [done|]. split; [done|].
    cbn [contexts]. intros q c1 b [_ Hq]%lookup_delete_Some. by eapply Hs.
  - by exists h.
  - exists h. split; [by apply timer_interrupt_disciplined|exact (conj Ho (conj Hl Hs))].
Qed.

Lemma sections_reachable m m' : booted m → cpu_steps m m' → sections m'.
Proof.
  intros Hb Hsteps. apply booted_sections in Hb. induction Hsteps as [|m m1 m2 Hstep _ IH]; [done|]. by eapply IH, sections_step.
Qed.

(** With [STATE] taken, the timer's interrupt goes back to what it interrupted. *)
Lemma forced l c mk sv st lk s :
  ∃ lk', cpu_steps (mkCpu (by_force l c) mk sv st lk s) (mkCpu c mk sv st lk' s) ∧ ∀ l', l' ≠ l → lk' l' = lk l'.
Proof.
  unfold by_force. destruct (lk l) eqn:Hlk.
  - eexists. split.
    + eapply rtc_l; [apply do_try_lock|]. rewrite Hlk. cbn [negb]. eapply rtc_l; [apply do_force_unlock|].
      eapply rtc_l; [apply do_try_lock|]. apply rtc_refl.
    + intros l' Hne. by rewrite !set_lock_ne.
  - eexists. split.
    + eapply rtc_l; [apply do_try_lock|]. rewrite Hlk. apply rtc_refl.
    + intros l' Hne. by rewrite set_lock_ne.
Qed.
Lemma end_of_interrupt_returns c sv st lk s :
  ∃ lk', cpu_steps (mkCpu (Unlock HANDLERS (end_of_interrupt (Iret c))) true sv st lk s) (mkCpu c false sv st lk' s) ∧
    ∀ l, l ≠ HANDLERS → l ≠ LOCAL_APIC → lk' l = lk l.
Proof.
  destruct (forced LOCAL_APIC (Unlock LOCAL_APIC (Iret c)) true sv st (set_lock HANDLERS false lk) s) as (lk' & Hsteps & Hlk').
  exists (set_lock LOCAL_APIC false lk'). split.
  - eapply rtc_l; [apply do_unlock|]. etransitivity; [exact Hsteps|].
    eapply rtc_l; [apply do_unlock|]. eapply rtc_l; [apply do_iret|]. apply rtc_refl.
  - intros l Hh Ha. by rewrite set_lock_ne, Hlk', set_lock_ne.
Qed.
Lemma interrupt_returns due timer n c sv st lk s : lk STATE = true →
  ∃ lk', cpu_steps (mkCpu (timer_interrupt due timer n c) true sv st lk s) (mkCpu c false sv st lk' s) ∧
    ∀ l, l ≠ HANDLERS → l ≠ LOCAL_APIC → lk' l = lk l.
Proof.
  intros Hst. unfold timer_interrupt. set (rest := Unlock HANDLERS _). set (counted := Try_lock TIMER _).
  destruct (forced HANDLERS counted true sv st lk s) as (lk1 & Hsteps1 & Hlk1).
  assert (∃ lk2, cpu_steps (mkCpu counted true sv st lk1 s) (mkCpu rest true sv st lk2 s) ∧ ∀ l, lk2 l = lk1 l)
    as (lk2 & Hsteps2 & Hlk2).
  { unfold counted. destruct (lk1 TIMER) eqn:Ht.
    { exists (set_lock TIMER true lk1). split; [|intros l; unfold set_lock; by destruct (decide (l = TIMER)) as [->|]].
      eapply rtc_l; [apply do_try_lock|]. rewrite Ht. apply rtc_refl. }
    set (lk' := set_lock TIMER false (set_lock TIMER true lk1)).
    assert (∀ l, lk' l = lk1 l) as Hlk' by (intros l; unfold lk', set_lock; by destruct (decide (l = TIMER)) as [->|]).
    assert (lk' STATE = true) as Hst' by (by rewrite Hlk', Hlk1).
    exists (if due then set_lock STATE true lk' else lk'). split.
    - eapply rtc_l; [apply do_try_lock|]. rewrite Ht. cbn [negb]. eapply rtc_l; [apply do_unlock|]. fold lk'.
      destruct due; [|apply rtc_refl]. eapply rtc_l; [apply do_try_lock|]. rewrite Hst'. cbn [negb]. apply rtc_refl.
    - intros l. destruct due; [|apply Hlk']. unfold set_lock at 1. destruct (decide (l = STATE)) as [->|]; [|apply Hlk'].
      by rewrite Hlk1. }
  destruct (end_of_interrupt_returns c sv st lk2 s) as (lk3 & Hsteps3 & Hlk3). exists lk3. split.
  - do 2 (etransitivity; [eassumption|]). exact Hsteps3.
  - intros l Hh Ha. by rewrite Hlk3, Hlk2, Hlk1.
Qed.

(** C23: the critical sections of the scheduler are atomic.  Whatever the threads do and whenever the timer interrupts
    them, a thread that takes one of the scheduler's three locks finds it free, so that it never
    waits there; the scheduler only changes while [STATE] is taken; and an interrupt
    that comes then returns to the code that it interrupted, and leaves the scheduler, the contexts and all locks
    but the two of the handler as they are. *)
Theorem scheduler_sections_atomic m0 m : booted m0 → cpu_steps m0 m →
  (∀ l c, running m = Lock l c → scheduler_lock l = true → locked m l = false) ∧
  (∀ m', cpu_step m m' → locked m STATE = false → sched m' = sched m) ∧
  (∀ due timer n, locked m STATE = true → ∃ lk,
     cpu_steps (mkCpu (timer_interrupt due timer n (running m)) true (saved m) (contexts m) (locked m) (sched m))
       (mkCpu (running m) false (saved m) (contexts m) lk (sched m)) ∧
     ∀ l, l ≠ HANDLERS → l ≠ LOCAL_APIC → lk l = locked m l).
Proof.
  intros Hb Hsteps. destruct (sections_reachable _ _ Hb Hsteps) as (h & Hd & Ho & Hl & Hs).
  split; [|split].
  - intros l c Hr Hsl. rewrite Hr in Hd. cbn [disciplined] in Hd. rewrite Hsl in Hd.
    rewrite Hl, bool_decide_false by apply Hd || done. done.
  - intros m' Hstep Hst. destruct Hstep; cbn [locked running sched] in *; try done.
    destruct Hd as [Hin _]. rewrite Hl, bool_decide_true in Hst by done. discriminate.
  - intros due timer n Hst. by apply interrupt_returns.
Qed.
End Preemption.

(** ** Two threads that are created at boot *)
Section Examples.
#[local] Existing Instance development.
#[local] Existing Instance demo_threads.
Definition nothing_locked : lock → bool := fun _ => false.
(** The [n]-th of the threads has its context under the stack pointer [n]. *)
Definition demo_cpu (threads : list (code (M := gmap Z))) (s : Scheduler.Scheduler (gmap Z)) : cpu (M := gmap Z) :=
  mkCpu start_code false (fun i => Some (Z.to_nat i)) (map_seq 1 ((fun c => (c, false)) <$> threads)) nothing_locked s.
Lemma demo_booted threads s : Forall thread_code threads → booted (demo_cpu threads s).
Proof.
  intros Hc. split; [constructor|]. split; [done|]. intros p c b. cbn.
  intros [_ Hp]%lookup_map_seq_Some. apply list_lookup_fmap_Some in Hp as (c' & [= -> ->] & Hp).
  by eapply Forall_lookup_1 in Hp.
Qed.

(** Threads that only exit; the first comes to its first lock. *)
Definition demo_exit : code (M := gmap Z) := kickoff_code (fun c => c) 0 [] 0.
Definition demo_exits : list (code (M := gmap Z)) := [demo_exit; demo_exit].
Definition demo_ready : Scheduler.Scheduler (gmap Z) := ready (ready scheduler_new (th 1)) (th 2).
Lemma scheduler_sections_atomic_witness :
  ∃ c, running (cpu_run 5 (demo_cpu demo_exits demo_ready)) = Lock STATE c ∧
    locked (cpu_run 5 (demo_cpu demo_exits demo_ready)) STATE = false ∧
    current_thread (state (sched (cpu_run 5 (demo_cpu demo_exits demo_ready)))) = Some (th 1).
Proof.
  assert (booted (demo_cpu demo_exits demo_ready)) as Hb.
  { apply demo_booted. repeat constructor; by apply kickoff_thread_code. }
  destruct (scheduler_sections_atomic _ _ Hb (cpu_run_steps 5 _)) as [Hfree _].
  eexists. split; [reflexivity|]. split; [|reflexivity]. exact (Hfree STATE _ eq_refl eq_refl).
Defined.
End Examples.
