(* ===== verification/Deadlock.v ===== *)
(** * What preemption breaks (os/kernel/src/thread/scheduler.rs, thread.rs)

    The timer switches threads whenever [STATE] is free.  Four situations in which that is wrong: a thread
    that is switched away from inside the heap or with the task state segment, one between the
    choice of the next thread and the switch to it, and one that waits to be woken but has not blocked
    yet.  And the locks that the handler of panics forces, or does not. *)

From stdpp Require Import fin_maps gmap relations.
From S2P Require Import Prelude Scheduler Preemption.
#[local] Open Scope Z_scope.

Section Deadlock.
Context `{ThreadOps} `{Profile} `{FinMap Z M}.
Abbreviation cpu := (Preemption.cpu (M := M)).
Abbreviation code := (Preemption.code (M := M)).
Implicit Types (c d : code) (m : cpu) (s : Scheduler M).

(** The rest of a handler that has switched away from [c] *)
Definition resume c : code := Unlock HANDLERS (end_of_interrupt (Iret c)).

(** The scheduler is on, [A] runs and [B] is next. *)
Definition about_to_switch (A B : Thread) s : Prop :=
  initialized (state s) = true ∧ current_thread (state s) = Some A ∧ ∃ q, ready_queue (state s) = q ++ [B].
Definition same_locks (lk' lk : lock → bool) : Prop := ∀ l, l ≠ HANDLERS → l ≠ LOCAL_APIC → lk' l = lk l.

Lemma switch_thread_picks A B s : about_to_switch A B s →
  ∃ s', switch_thread true true None s = Done (s', Switch true A B) ∧ current_thread (state s') = Some B.
Proof.
  intros (Hi & Hc & q & Hq). unfold switch_thread. cbn [negb check_sleep_list]. rewrite Hi. cbn [negb].
  rewrite Hq, pop_back_app. unfold current. rewrite Hc. cbn. by eexists.
Qed.

(** No lock that the handler needs is taken. *)
Definition handler_free (lk : lock → bool) : Prop := lk STATE = false ∧ lk SLEEP_LIST = false ∧ lk TIMER = false.

(** A timer interrupt up to [Thread::switch] *)
Lemma interrupt_decides timer A B c sv st lk s s' : initialized (state s) = true →
  switch_thread true true timer s = Done (s', Switch true A B) → handler_free lk →
  ∃ lk', cpu_steps (mkCpu c false sv st lk s) (mkCpu (switch A B (resume c)) true sv st lk' s') ∧ same_locks lk' lk.
Proof.
  intros Hi Hpick (Hst & Hsl & Htm).
  destruct (forced HANDLERS (Try_lock TIMER (fun ok => if ok then Unlock TIMER (switch_thread_code timer 0 (resume c)) else resume c))
    true sv st lk s) as (lk1 & Hsteps1 & Hlk1).
  set (lkt := set_lock TIMER false (set_lock TIMER true lk1)).
  set (lk2 := set_lock STATE false (set_lock SLEEP_LIST false (set_lock SLEEP_LIST true (set_lock STATE true lkt)))).
  destruct (forced LOCAL_APIC (Unlock LOCAL_APIC (switch A B (resume c))) true sv st lk2 s') as (lk3 & Hsteps3 & Hlk3).
  exists (set_lock LOCAL_APIC false lk3). split.
  - eapply rtc_l; [apply (interrupt true timer 0)|]. etransitivity; [exact Hsteps1|].
    eapply rtc_l; [apply do_try_lock|]. rewrite Hlk1, Htm by done. cbn [negb]. eapply rtc_l; [apply do_unlock|]. fold lkt.
    eapply rtc_l; [apply do_try_lock|]. unfold lkt at 1. rewrite !set_lock_ne, Hlk1, Hst by done. cbn [negb].
    eapply rtc_l; [apply do_initialized|]. rewrite Hi. cbn [negb].
    eapply rtc_l; [apply do_try_lock|]. unfold lkt at 1. rewrite !set_lock_ne, Hlk1, Hsl by done. cbn [negb heap_calls].
    eapply rtc_l; [by apply do_update|]. do 2 (eapply rtc_l; [apply do_unlock|]).
    cbn [perform]. etransitivity; [exact Hsteps3|]. eapply rtc_l; [apply do_unlock|]. apply rtc_refl.
  - intros l Hh Ha. rewrite set_lock_ne, Hlk3 by done. subst lk2 lkt. unfold set_lock.
    repeat (case_decide; [by subst|]). by apply Hlk1.
Qed.
Lemma interrupt_picks A B c sv st lk s : about_to_switch A B s → handler_free lk →
  ∃ lk' s', cpu_steps (mkCpu c false sv st lk s) (mkCpu (switch A B (resume c)) true sv st lk' s') ∧ same_locks lk' lk ∧
    current_thread (state s') = Some B.
Proof.
  intros Hab Hfree. destruct (switch_thread_picks _ _ _ Hab) as (s' & Hpick & Hcur).
  destruct (interrupt_decides None A B c sv st lk s s' (proj1 Hab) Hpick Hfree) as (lk' & Hsteps & Hlk'). by exists lk', s'.
Qed.

(** [Thread::switch] up to the task state segment, and through it *)
Lemma switch_saves A B c p p' mk sv st lk s : sv (id B) = Some p → st !! p' = None →
  cpu_steps (mkCpu (switch A B c) mk sv st lk s)
    (mkCpu (Lock TSS (Unlock TSS (Load p))) mk (set_saved (id A) p' sv) (<[p' := (c, mk)]> st) lk s).
Proof.
  intros Hp Hp'. unfold switch. eapply rtc_l; [by apply do_fetch|]. eapply rtc_l; [by apply do_save|]. apply rtc_refl.
Qed.
Lemma switch_reaches_load A B c p p' mk sv st lk s : sv (id B) = Some p → st !! p' = None → lk TSS = false →
  ∃ lk', cpu_steps (mkCpu (switch A B c) mk sv st lk s)
    (mkCpu (Load p) mk (set_saved (id A) p' sv) (<[p' := (c, mk)]> st) lk' s) ∧ ∀ l, lk' l = lk l.
Proof.
  intros Hp Hp' Ht. exists (set_lock TSS false (set_lock TSS true lk)). split.
  - etransitivity; [by apply switch_saves|]. eapply rtc_l; [by apply do_lock|]. eapply rtc_l; [apply do_unlock|]. apply rtc_refl.
  - intros l. unfold set_lock. by destruct (decide (l = TSS)) as [->|].
Qed.

(** A timer interrupt that goes on with the context of the next thread *)
Lemma interrupt_switches A B c d b p p' sv st lk s : about_to_switch A B s → handler_free lk → lk TSS = false →
  sv (id B) = Some p → st !! p = Some (d, b) → st !! p' = None →
  ∃ lk' s', cpu_steps (mkCpu c false sv st lk s)
      (mkCpu d b (set_saved (id A) p' sv) (delete p (<[p' := (resume c, true)]> st)) lk' s') ∧
    same_locks lk' lk ∧ current_thread (state s') = Some B.
Proof.
  intros Hab Hfree Ht Hp Hd Hp'. destruct (interrupt_picks A B c sv st lk s Hab Hfree) as (lk1 & s' & Hsteps & Hlk1 & Hcur).
  destruct (switch_reaches_load A B (resume c) p p' true sv st lk1 s' Hp Hp') as (lk2 & Hsteps2 & Hlk2); [by rewrite Hlk1|].
  exists lk2, s'. split; [|split; [|exact Hcur]].
  - etransitivity; [exact Hsteps|]. etransitivity; [exact Hsteps2|].
    eapply rtc_l; [|apply rtc_refl]. apply do_load. rewrite lookup_insert_ne; [done|congruence].
  - intros l Hh Ha. rewrite Hlk2. by apply Hlk1.
Qed.

(** *** The task state segment *)

Lemma waits_masked l c sv st lk s m' : lk l = true → cpu_steps (mkCpu (Lock l c) true sv st lk s) m' →
  m' = mkCpu (Lock l c) true sv st lk s.
Proof. intros Hl Hsteps. inversion Hsteps as [|? ? ? Hstep]; subst; [done|]. inversion Hstep; subst. congruence. Qed.

(** C26: a thread that is interrupted while it holds the task state segment hangs the kernel.
    [kickoff_kernel_thread] locks it with interrupts on, after it has enabled the scheduler, and
    [thread_switch] does so whenever a thread blocks.  If the timer then switches, [thread_switch] waits for the same lock
    in the handler, where nothing can ever interrupt it. *)
Theorem tss_hangs A B c sv st lk s p : about_to_switch A B s → handler_free lk → lk TSS = true → sv (id B) = Some p →
  ∃ m, cpu_steps (mkCpu (Unlock TSS c) false sv st lk s) m ∧ ∀ m', cpu_steps m m' → m' = m.
Proof.
  intros Hab Hfree Ht Hp. destruct (interrupt_picks A B (Unlock TSS c) sv st lk s Hab Hfree) as (lk1 & s' & Hsteps & Hlk1 & _).
  eexists. split; [etransitivity; [exact Hsteps|]; by apply switch_saves, free_pointer_free|].
  intros m' Hm. eapply waits_masked, Hm. by rewrite Hlk1.
Qed.

(** *** The heap *)

(** [c] only leads to [w], as long as [STATE] is taken. *)
Fixpoint only_to (w c : code) : Prop :=
  c = w ∨ match c with
          | Try_lock l k => l ≠ HEAP ∧ if decide (l = STATE) then only_to w (k false) else ∀ b, only_to w (k b)
          | Unlock l k | Force_unlock l k => l ≠ HEAP ∧ l ≠ STATE ∧ only_to w k
          | Iret k => only_to w k
          | _ => False
          end.
Lemma only_to_by_force w l k : l ≠ HEAP → l ≠ STATE → only_to w k → only_to w (by_force l k).
Proof.
  intros Hh Hst Hk. right. split; [done|]. rewrite decide_False by done. intros [|]; [done|].
  right. split; [done|]. split; [done|]. right. split; [done|]. by rewrite decide_False.
Qed.
Lemma only_to_unlock w l k : l ≠ HEAP → l ≠ STATE → only_to w k → only_to w (Unlock l k).
Proof. intros Hh Hst Hk. by right. Qed.
Lemma only_to_interrupt w due timer n c : only_to w c → only_to w (timer_interrupt due timer n c).
Proof.
  intros Hc. assert (only_to w (resume c)) as Hr.
  { apply only_to_unlock; [done..|]. apply only_to_by_force; [done..|]. apply only_to_unlock; [done..|]. by right. }
  apply only_to_by_force; [done..|]. right. split; [done|]. rewrite decide_False by done. intros [|]; [|exact Hr].
  apply only_to_unlock; [done..|]. destruct due; [|exact Hr]. right. split; [done|]. by rewrite decide_True.
Qed.

(** A thread that waits for the heap with [STATE] *)
Definition heap_wait (m0 m : cpu) : Prop :=
  locked m HEAP = true ∧ locked m STATE = true ∧ sched m = sched m0 ∧ (saved m = saved m0 ∧ contexts m = contexts m0) ∧
  ∃ w, only_to (Lock HEAP w) (running m).
Lemma heap_wait_step m0 m m' : heap_wait m0 m → cpu_step m m' → heap_wait m0 m'.
Proof.
  intros (Hh & Hst & Hs & Hv & w & Hw) Hstep. unfold heap_wait.
  destruct Hstep as [l c ? ? ? lk ? Hf| |l c ? ? ? lk|l c ? ? ? lk|l c ? ? ? lk| |f c| | | | |due timer n c];
    cbn [running locked saved contexts sched] in *; [destruct Hw as [Hw|Hw]; try discriminate Hw; try done..|].
  - injection Hw as -> ->. congruence.
  - destruct Hw as [Hl Hw]. split; [unfold set_lock; by destruct (decide (HEAP = l))|]. split; [unfold set_lock; by destruct (decide (STATE = l))|].
    split; [done|]. split; [done|]. exists w. destruct (decide (l = STATE)) as [->|]; [by rewrite Hst|apply Hw].
  - destruct Hw as (Hl & Hl' & Hw). rewrite !set_lock_ne by done. by eauto 10.
  - destruct Hw as (Hl & Hl' & Hw). rewrite !set_lock_ne by done. by eauto 10.
  - by eauto 10.
  - split; [done|]. split; [done|]. split; [done|]. split; [done|]. exists w. by apply only_to_interrupt.
Qed.
Lemma heap_wait_steps m0 m m' : heap_wait m0 m → cpu_steps m m' → heap_wait m0 m'.
Proof. intros Hw Hsteps. induction Hsteps as [|m m1 m2 Hstep _ IH]; [done|]. by eapply IH, heap_wait_step. Qed.

(** The heap stays locked, the scheduler, the stack pointers and the contexts stay the same, and no section is executed. *)
Definition hangs (m : cpu) : Prop := ∀ m', cpu_steps m m' →
  locked m' HEAP = true ∧ sched m' = sched m ∧ saved m' = saved m ∧ contexts m' = contexts m ∧ ∀ f k, running m' ≠ Update f k.
Lemma heap_wait_forever w m : running m = Lock HEAP w → locked m HEAP = true → locked m STATE = true → hangs m.
Proof.
  intros Hr Hh Hst m' Hm. destruct (heap_wait_steps m m m') as (Hh' & _ & Hs & [Hv Hc] & w' & Hw); [|exact Hm|].
  - split; [done|]. split; [done|]. split; [done|]. split; [done|]. exists w. rewrite Hr. by left.
  - split; [done|]. split; [done|]. split; [done|]. split; [done|]. intros f k Hrun. rewrite Hrun in Hw. by destruct Hw.
Qed.

(** [exit] and [join] both take these locks and then format a message. *)
Lemma formats_hangs n f k mk sv st lk s : lk HEAP = true → lk STATE = false → lk JOIN_MAP = false →
  ∃ m, cpu_steps (mkCpu (Lock STATE (Lock JOIN_MAP (heap_calls (2 + n) (Update f k)))) mk sv st lk s) m ∧ sched m = s ∧ hangs m.
Proof.
  intros Hh Hst Hj. eexists. split; [|split].
  - eapply rtc_l; [by apply do_lock|]. eapply rtc_l; [apply do_lock; by rewrite set_lock_ne|]. apply rtc_refl.
  - done.
  - eapply heap_wait_forever; [reflexivity| |]; cbn [locked].
    + by rewrite !set_lock_ne.
    + by rewrite set_lock_ne, set_lock_eq.
Qed.

(** C24: a thread that is interrupted inside the heap hangs the kernel when the next thread exits or joins another.
    [exit] and [join] format a message with the heap, each time and while they hold [STATE]; then the
    thread waits for the heap, and since [switch_thread] does nothing while [STATE] is
    taken, no other thread is ever switched to: whatever happens, the heap stays locked, the
    scheduler and all contexts stay the same, and no critical section is executed. *)
Theorem exit_hangs A B c d b p sv st lk s :
  about_to_switch A B s → (∀ l, l ≠ HANDLERS → l ≠ LOCAL_APIC → lk l = bool_decide (l = HEAP)) →
  sv (id B) = Some p → st !! p = Some (d, b) →
  (∃ n reads n', d = exit_code n reads n') ∨ (∃ i n reads n' rest, d = join_code i n reads n' rest) →
  ∃ m, cpu_steps (mkCpu (Unlock HEAP c) false sv st lk s) m ∧ current_thread (state (sched m)) = Some B ∧
    ∀ m', cpu_steps m m' →
      locked m' HEAP = true ∧ sched m' = sched m ∧ saved m' = saved m ∧ contexts m' = contexts m ∧ ∀ f k, running m' ≠ Update f k.
Proof.
  intros Hab Hlk Hp Hb Hd.
  destruct (interrupt_switches A B (Unlock HEAP c) d b p (free_pointer st) sv st lk s Hab) as (lk1 & s' & Hsteps & Hlk1 & Hcur);
    [split_and!; by rewrite Hlk|by rewrite Hlk|exact Hp|exact Hb|apply free_pointer_free|].
  assert (∃ n f k, d = Lock STATE (Lock JOIN_MAP (heap_calls (2 + n) (Update f k)))) as (n & f & k & ->)
    by (destruct Hd as [(n & reads & n' & ->)|(i & n & reads & n' & rest & ->)]; by exists n; do 2 eexists).
  destruct (formats_hangs n f k b (set_saved (id A) (free_pointer st) sv)
    (delete p (<[free_pointer st := (resume (Unlock HEAP c), true)]> st)) lk1 s') as (m & Hm & Hs & Hhangs); [by rewrite Hlk1, Hlk..|].
  exists m. split; [by etransitivity|]. split; [by rewrite Hs|exact Hhangs].
Qed.

(** *** Between the choice and the switch *)

(** C25: a thread that blocks can destroy the context of the one that it has chosen.  [block] makes [B] the current
    thread, releases its locks and then calls [Thread::switch], with interrupts on.  If the timer switches in
    between, it takes what runs for [B]: it saves the registers of [A] and stores their stack pointer into [B].  The
    context that [B] had is lost: no thread has its stack pointer any more. *)
Theorem block_loses_context A B C c d b p sv st lk s :
  about_to_switch B C s → handler_free lk → lk TSS = false → sv (id C) = Some p → st !! p = Some (d, b) →
  ∃ m p', cpu_steps (mkCpu (switch A B c) false sv st lk s) m ∧ running m = d ∧ current_thread (state (sched m)) = Some C ∧
    saved m (id B) = Some p' ∧ contexts m !! p' = Some (resume (switch A B c), true) ∧
    (∀ i, i ≠ id B → saved m i = sv i) ∧ (∀ q, q ≠ p → q ≠ p' → contexts m !! q = st !! q) ∧
    ∀ q, sv (id B) = Some q → is_Some (st !! q) → (∀ i, sv i = Some q → i = id B) → ∀ i, saved m i ≠ Some q.
Proof.
  intros Hab Hfree Ht Hp Hd. set (p' := free_pointer st). assert (st !! p' = None) as Hp' by apply free_pointer_free.
  destruct (interrupt_switches B C (switch A B c) d b p p' sv st lk s Hab Hfree Ht Hp Hd Hp') as (lk1 & s' & Hsteps & _ & Hcur).
  assert (p' ≠ p) as Hne by congruence.
  eexists _, p'. split; [exact Hsteps|]. split; [done|]. split; [exact Hcur|]. cbn [saved contexts]. unfold set_saved.
  split; [by rewrite decide_True|]. split; [by rewrite lookup_delete_ne, lookup_insert_eq|]. split; [intros i Hi; by rewrite decide_False|].
  split; [intros q Hq Hq'; by rewrite lookup_delete_ne, lookup_insert_ne|].
  intros q Hq [x Hx] Hown i. case_decide as Hi; [congruence|]. intros Hi'. by apply Hi, Hown.
Qed.

(** *** A thread that is switched to itself *)

Lemma self_switch_picks A w time s : initialized (state s) = true → current_thread (state s) = Some A →
  ready_queue (state s) = [] → sleep_list s = [(A, w)] → w ≤ time →
  ∃ s', switch_thread true true (Some time) s = Done (s', Switch true A A) ∧ current_thread (state s') = Some A.
Proof.
  intros Hi Hc Hq Hsl Hw. unfold switch_thread. cbn [negb check_sleep_list]. rewrite Hi, Hsl. cbn [negb retain_sleeping snd].
  rewrite (proj2 (Z.leb_le w time) Hw). unfold push_front, current. cbn [ready_queue fst]. rewrite Hq, Hc. cbn. by eexists.
Qed.

(** C32: the timer can switch from a thread to itself, which [block] takes care to avoid.  When the only thread
    is interrupted between entering the sleep list and blocking, and its time has come, [switch_thread] takes it out of
    the ready queue again.  [Thread::switch] reads its stack pointer before [thread_switch] saves its registers and
    stores the new one, so that the processor then loads from the old stack pointer, under which the thread's context lay when
    it last got the processor.  It goes on with the interrupted code only if the new stack pointer happens to be
    the same; otherwise there is no context to go on with. *)
Theorem self_switch_loads_old_pointer A w time c p p' sv st lk s :
  initialized (state s) = true → current_thread (state s) = Some A → ready_queue (state s) = [] →
  sleep_list s = [(A, w)] → w ≤ time → handler_free lk → lk TSS = false → sv (id A) = Some p → st !! p = None → st !! p' = None →
  ∃ m, cpu_steps (mkCpu c false sv st lk s) m ∧ running m = Load p ∧ masked m = true ∧ current_thread (state (sched m)) = Some A ∧
    saved m (id A) = Some p' ∧ contexts m !! p' = Some (resume c, true) ∧
    (p' = p → ∃ m', cpu_step m m' ∧ running m' = resume c) ∧ (p' ≠ p → ∀ m', ¬ cpu_step m m').
Proof.
  intros Hi Hc Hq Hsl Hw Hfree Ht Hp Hnone Hp'.
  destruct (self_switch_picks A w time s Hi Hc Hq Hsl Hw) as (s' & Hpick & Hcur).
  destruct (interrupt_decides (Some time) A A c sv st lk s s' Hi Hpick Hfree) as (lk1 & Hsteps1 & Hlk1).
  destruct (switch_reaches_load A A (resume c) p p' true sv st lk1 s' Hp Hp') as (lk2 & Hsteps2 & _); [by rewrite Hlk1|].
  eexists. split; [by etransitivity|]. cbn [running masked sched saved contexts]. split; [done|]. split; [done|].
  split; [exact Hcur|]. unfold set_saved. split; [by rewrite decide_True|]. split; [by rewrite lookup_insert_eq|].
  split.
  - intros <-. eexists. split; [apply do_load, lookup_insert_eq|done].
  - intros Hne m' Hstep. inversion Hstep; subst. rewrite lookup_insert_ne in *; congruence.
Qed.

(** *** Panics *)

Lemma heap_calls_run n c mk sv st lk s : lk HEAP = false →
  ∃ lk', cpu_steps (mkCpu (heap_calls n c) mk sv st lk s) (mkCpu c mk sv st lk' s) ∧ ∀ l, lk' l = lk l.
Proof.
  revert lk. induction n as [|n IH]; intros lk Hh; [by exists lk; split; [apply rtc_refl|]|].
  destruct (IH (set_lock HEAP false (set_lock HEAP true lk))) as (lk' & Hsteps & Hlk'); [by rewrite set_lock_eq|].
  exists lk'. split.
  - cbn [heap_calls]. eapply rtc_l; [by apply do_lock|]. eapply rtc_l; [apply do_unlock|exact Hsteps].
  - intros l. rewrite Hlk'. unfold set_lock. by destruct (decide (l = HEAP)) as [->|].
Qed.

(** What can be registered before the terminal exists: nothing, or the serial port; with a stream the time is read. *)
Definition before_terminal (streams : list (code → code)) (lk : lock → bool) : Prop :=
  streams = [] ∨ streams = [serial_code] ∧ lk TIMER = false.

(** The handler up to the text that it formats: the logger is locked anew. *)
Lemma panic_formats streams n c mk sv st lk s : before_terminal streams lk →
  ∃ lk', cpu_steps (mkCpu (panic_code false streams n c) mk sv st lk s) (mkCpu (heap_calls n (Unlock LOGGER c)) mk sv st lk' s) ∧
    ∀ l, l ≠ LOGGER → lk' l = lk l.
Proof.
  intros Hstreams. exists (set_lock LOGGER true (set_lock LOGGER false (set_lock LOGGER true (set_lock LOGGER false lk)))).
  split; [|intros l Hl; by rewrite !set_lock_ne].
  eapply rtc_l; [apply do_force_unlock|]. eapply rtc_l; [apply do_lock, set_lock_eq|].
  eapply rtc_l; [apply do_force_unlock|]. eapply rtc_l; [apply do_lock, set_lock_eq|].
  destruct Hstreams as [->|[-> Ht]]; [apply rtc_refl|].
  eapply rtc_l; [apply do_await|apply rtc_refl]. by rewrite !set_lock_ne.
Qed.

(** C39: panics.  Before the terminal exists the handler logs the message, even if the panic comes out of the logger, whose lock
    it forces, if the heap is not locked and, with the serial port as a stream, the timer is not written.
    If the heap is locked when interrupts are off, it waits for it forever, and no message is shown: the logger's own
    holder can be inside the heap.  With the terminal it does not force the locks: when an interrupt or an
    exception panics while a character is drawn, the handler waits for the display forever
    and no message is shown. *)
Theorem panic_reports streams n c sv st lk s :
  (∀ mk, before_terminal streams lk → lk HEAP = false →
   ∃ lk', cpu_steps (mkCpu (panic_code false streams n c) mk sv st lk s) (mkCpu c mk sv st lk' s) ∧ lk' LOGGER = false) ∧
  (before_terminal streams lk → lk HEAP = true → (0 < n)%nat →
   ∃ m, cpu_steps (mkCpu (panic_code false streams n c) true sv st lk s) m ∧ ∀ m', cpu_steps m m' → m' = m) ∧
  (lk PARSER = false → lk DISPLAY = true → (0 < n)%nat →
   ∃ m, cpu_steps (mkCpu (panic_code true streams n c) true sv st lk s) m ∧ ∀ m', cpu_steps m m' → m' = m).
Proof.
  split; [|split].
  - intros mk Hstreams Hh. destruct (panic_formats streams n c mk sv st lk s Hstreams) as (lk1 & Hsteps1 & Hlk1).
    destruct (heap_calls_run n (Unlock LOGGER c) mk sv st lk1 s) as (lk2 & Hsteps2 & _); [by rewrite Hlk1|].
    exists (set_lock LOGGER false lk2). split; [|by rewrite set_lock_eq].
    etransitivity; [exact Hsteps1|]. etransitivity; [exact Hsteps2|]. eapply rtc_l; [apply do_unlock|apply rtc_refl].
  - intros Hstreams Hh Hn. destruct (panic_formats streams n c true sv st lk s Hstreams) as (lk1 & Hsteps1 & Hlk1).
    destruct n as [|n]; [lia|]. eexists. split; [exact Hsteps1|]. intros m' Hm. eapply waits_masked, Hm. by rewrite Hlk1.
  - intros Hp Hd Hn. destruct n as [|n]; [lia|]. eexists. split.
    + unfold panic_code, write_code. eapply rtc_l; [by apply do_lock|]. eapply rtc_l; [apply do_unlock|]. apply rtc_refl.
    + intros m' Hm. eapply waits_masked, Hm. by rewrite !set_lock_ne.
Qed.
End Deadlock.

(** ** From boot to each of the situations *)
Section Examples.
#[local] Existing Instance development.
#[local] Existing Instance demo_threads.
Abbreviation demo_code := (Preemption.code (M := gmap Z)).

(** The first thread is starting when the timer interrupts it. *)
Definition tss_cpu := cpu_run 12 (demo_cpu demo_exits demo_ready).
Lemma tss_hangs_witness : ∃ m, cpu_steps (demo_cpu demo_exits demo_ready) m ∧ ∀ m', cpu_steps m m' → m' = m.
Proof.
  assert (about_to_switch (th 1) (th 2) (sched tss_cpu)) as Hab by (split; [reflexivity|split; [reflexivity|by exists []]]).
  assert (tss_cpu = mkCpu (Unlock TSS (exit_code 0 [] 0)) false (saved tss_cpu) (contexts tss_cpu) (locked tss_cpu) (sched tss_cpu)) as He
    by reflexivity.
  destruct (tss_hangs (th 1) (th 2) (exit_code 0 [] 0) (saved tss_cpu) (contexts tss_cpu) (locked tss_cpu) (sched tss_cpu) 2 Hab
    ltac:(by split_and!) eq_refl eq_refl) as (m & Hm & Hstuck).
  exists m. split; [|exact Hstuck]. etransitivity; [exact (cpu_run_steps 12 _)|]. fold tss_cpu. rewrite He. exact Hm.
Defined.

(** Both threads give way once.  The second is to join the first then, which is interrupted inside the heap. *)
Definition demo_yields : list demo_code :=
  [kickoff_code (fun c => switch_thread_code None 0 (heap_calls 1 c)) 0 [] 0;
   kickoff_code (fun c => switch_thread_code None 0 (join_code 1 0 [] 0 c)) 0 [] 0].
Definition heap_cpu := cpu_run 48 (demo_cpu demo_yields demo_ready).
Lemma exit_hangs_witness : ∃ m, cpu_steps (demo_cpu demo_yields demo_ready) m ∧ current_thread (state (sched m)) = Some (th 2) ∧
  ∀ m', cpu_steps m m' → saved m' = saved m ∧ contexts m' = contexts m ∧ ∀ f k, running m' ≠ Update f k.
Proof.
  assert (about_to_switch (th 1) (th 2) (sched heap_cpu)) as Hab by (split; [reflexivity|split; [reflexivity|by exists []]]).
  assert (heap_cpu = mkCpu (Unlock HEAP (exit_code 0 [] 0)) false (saved heap_cpu) (contexts heap_cpu) (locked heap_cpu) (sched heap_cpu)) as He
    by reflexivity.
  assert (∀ l, l ≠ HANDLERS → l ≠ LOCAL_APIC → locked heap_cpu l = bool_decide (l = HEAP)) as Hlk by (by intros []).
  destruct (exit_hangs (th 1) (th 2) (exit_code 0 [] 0) (join_code 1 0 [] 0 (exit_code 0 [] 0)) false (default 0%nat (saved heap_cpu 2))
    (saved heap_cpu) (contexts heap_cpu) (locked heap_cpu) (sched heap_cpu) Hab)
    as (m & Hm & Hcur & Hstuck); [exact Hlk|reflexivity|reflexivity|right; by repeat eexists|].
  exists m. split; [|split; [exact Hcur|]].
  - etransitivity; [exact (cpu_run_steps 48 _)|]. fold heap_cpu. rewrite He. exact Hm.
  - intros m' Hm'. exact (proj2 (proj2 (Hstuck m' Hm'))).
Defined.

(** The first of three threads sleeps; the second never gets to run its own code. *)
Definition demo_sleeps : list demo_code :=
  [kickoff_code (fun c => sleep_code 0 1000 0 [] 0 c) 0 [] 0; demo_exit; demo_exit].
Definition block_cpu := cpu_run 24 (demo_cpu demo_sleeps (ready demo_ready (th 3))).
Lemma block_loses_context_witness : ∃ m p', cpu_steps (demo_cpu demo_sleeps (ready demo_ready (th 3))) m ∧
  current_thread (state (sched m)) = Some (th 3) ∧
  contexts m !! p' = Some (resume (switch (th 1) (th 2) (exit_code 0 [] 0)), true) ∧ saved m 2 = Some p' ∧
  contexts m !! 2%nat = Some (demo_exit, false).
Proof.
  assert (about_to_switch (th 2) (th 3) (sched block_cpu)) as Hab by (split; [reflexivity|split; [reflexivity|by exists []]]).
  assert (block_cpu = mkCpu (switch (th 1) (th 2) (exit_code 0 [] 0)) false (saved block_cpu) (contexts block_cpu) (locked block_cpu)
    (sched block_cpu)) as He by reflexivity.
  destruct (block_loses_context (th 1) (th 2) (th 3) (exit_code 0 [] 0) demo_exit false 3 (saved block_cpu) (contexts block_cpu)
    (locked block_cpu) (sched block_cpu) Hab ltac:(by split_and!) eq_refl eq_refl eq_refl) as (m & p' & Hm & _ & Hcur & H2 & Hctx & _ & Hst & Hlost).
  exists m, p'. split; [|split; [exact Hcur|split; [exact Hctx|split; [exact H2|]]]].
  - etransitivity; [exact (cpu_run_steps 24 _)|]. fold block_cpu. rewrite He. exact Hm.
  - destruct (decide (p' = 2%nat)) as [->|Hne]; [|by rewrite Hst].
    exfalso. refine (Hlost 2%nat eq_refl _ _ 2 H2); [by eexists|].
    intros i. change (saved block_cpu i) with (Some (Z.to_nat i)). intros [= Hi]. change (i = 2). lia.
Defined.

(** The only thread sleeps for no time, and is interrupted before it blocks. *)
Definition demo_naps : list demo_code := [kickoff_code (fun c => sleep_code 0 0 0 [] 0 c) 0 [] 0].
Definition nap_cpu := cpu_run 19 (demo_cpu demo_naps (ready scheduler_new (th 1))).
Lemma self_switch_loads_old_pointer_witness : ∃ m, cpu_steps (demo_cpu demo_naps (ready scheduler_new (th 1))) m ∧
  running m = Load 1 ∧ saved m 1 = Some 2%nat ∧ ∀ m', ¬ cpu_step m m'.
Proof.
  assert (nap_cpu = mkCpu (block_code [] 0 (exit_code 0 [] 0)) false (saved nap_cpu) (contexts nap_cpu) (locked nap_cpu) (sched nap_cpu)) as He
    by reflexivity.
  destruct (self_switch_loads_old_pointer (th 1) 0 0 (block_code [] 0 (exit_code 0 [] 0)) 1 2 (saved nap_cpu) (contexts nap_cpu)
    (locked nap_cpu) (sched nap_cpu) eq_refl eq_refl eq_refl eq_refl ltac:(lia) ltac:(by split_and!) eq_refl eq_refl eq_refl eq_refl)
    as (m & Hm & Hrun & _ & _ & Hp & _ & _ & Hstuck).
  exists m. split; [|split; [exact Hrun|split; [exact Hp|by apply Hstuck]]].
  etransitivity; [exact (cpu_run_steps 19 _)|]. fold nap_cpu. rewrite He. exact Hm.
Defined.

(** A panic out of the logger, one out of the heap, and one of an interrupt that comes while the terminal draws *)
Lemma panic_reports_witness :
  (∃ lk', cpu_steps (mkCpu (panic_code false [serial_code] 2 End) false (fun _ => None) ∅ (set_lock LOGGER true nothing_locked) demo_ready)
     (mkCpu End false (fun _ => None) ∅ lk' demo_ready) ∧ lk' LOGGER = false) ∧
  (∃ m, cpu_steps (mkCpu (panic_code false [serial_code] 2 End) true (fun _ => None) ∅ (set_lock HEAP true nothing_locked) demo_ready) m ∧
    ∀ m', cpu_steps m m' → m' = m) ∧
  ∃ m, cpu_steps (mkCpu (panic_code true [] 20 End) true (fun _ => None) ∅ (set_lock DISPLAY true nothing_locked) demo_ready) m ∧
    ∀ m', cpu_steps m m' → m' = m.
Proof.
  split; [|split].
  - exact (proj1 (panic_reports [serial_code] 2 End (fun _ => None) ∅ (set_lock LOGGER true nothing_locked) demo_ready) false
      (or_intror (conj eq_refl eq_refl)) eq_refl).
  - exact (proj1 (proj2 (panic_reports [serial_code] 2 End (fun _ => None) ∅ (set_lock HEAP true nothing_locked) demo_ready))
      (or_intror (conj eq_refl eq_refl)) eq_refl ltac:(lia)).
  - exact (proj2 (proj2 (panic_reports [] 20 End (fun _ => None) ∅ (set_lock DISPLAY true nothing_locked) demo_ready)) eq_refl eq_refl ltac:(lia)).
Defined.
End Examples.
