(* ===== verification/UserThread.v ===== *)
(** * User threads and their address spaces (os/kernel/src/thread/thread.rs)

    [new_user_thread] creates an address space and maps a stack of 16 pages into it
    (Paging.v), then builds the thread (Thread.v). *)

From S2P Require Import Scheduler Machine Thread.
From S2P Require Import Prelude Frames Physical Paging PagingMap PagingCount PagingAlloc PagingSpace PagingCopy AddressSpaces.
#[local] Open Scope Z_scope.

Section UserThread.
Context {Entry : Type} `{Profile} `{FrameAllocator} `{PageOps} `{EntryOps} `{VirtAddrOps}.

(** The stack of a user: mapped at its address, and a vector of its size there *)
Definition user_stack_pages : res pages :=
  first ← page_from_start USER_STACK_ADDRESS;
  first ← unwrap first;
  last ← page_add first STACK_SIZE_PAGES;
  Done (mkPages first last).

(** [new_user_thread]; the identifier and the empty vector of the requested capacity
    are results of other components. *)
Definition new_user_thread (kickoff_kernel_thread thread_id : Z) (with_capacity : Z → Thread.vec) (e : Entry)
    (phys_limit : Z) (spaces : list AddressSpace) (s : vm) : res (thread Entry * list AddressSpace * vm) :=
  r ← create_address_space phys_limit spaces s;
  ps ← user_stack_pages;
  m ← map_space r.1.1 ps User TABLE_FLAGS r.2;
  t ← prepare_kernel_stack kickoff_kernel_thread
        (mkThread thread_id (with_capacity (STACK_SIZE_PAGES * PAGE_SIZE / 8))
           (mkVec USER_STACK_ADDRESS [] (STACK_SIZE_PAGES * PAGE_SIZE / 8)) (root_table r.1.1) 0 e);
  Done (t, r.1.2, m.2).
End UserThread.

Section Spaces.
Context {Entry : Type} `{Profile} `{FrameAllocatorLaws} `{!PhysFrameLaws} `{PageLaws} `{EntryLaws} `{VirtAddrLaws}.

(** The first page of a user's stack, which is the first page of entry 128 of the root table *)
Definition USER_STACK_PAGE : Z := 2 ^ 34.
Definition STACK_ROOT_ENTRY : Z := 128.

Lemma user_stack_pages_ok : ∃ ps, user_stack_pages = Done ps ∧ pn (pstart ps) = USER_STACK_PAGE ∧ pn (pend ps) = USER_STACK_PAGE + 16.
Proof.
  destruct (page_from_start_ok USER_STACK_ADDRESS) as (first & Hfirst & Hpf); [done|done|].
  change (USER_STACK_ADDRESS / FRAME_SIZE) with USER_STACK_PAGE in Hpf.
  destruct (page_add_ok first STACK_SIZE_PAGES) as (last & Hlast & Hpl); [done|rewrite Hpf; done|].
  exists (mkPages first last). unfold user_stack_pages. rewrite Hfirst, res_bind_ret_l. cbn [unwrap expect].
  rewrite res_bind_ret_l, Hlast, res_bind_ret_l. cbn [pstart pend]. rewrite Hpl, Hpf. done.
Qed.

(** A range in one child of an empty table *)
Lemma entries_cost_last cost w m a i p q n sp : (0 < n)%nat → q ≤ (p / w + 1) * w →
  entries_cost cost w m a i p q n sp =
    (if entry_addr (m a i) =? 0 then plus (one Kernel) (cost zero_words 0 p q) else cost m (entry_addr (m a i)) p q) sp.
Proof.
  intros Hn Hq. destruct n as [|n]; [lia|]. cbn [entries_cost]. cbn zeta. rewrite (proj2 (Z.leb_le _ _)) by done.
  unfold plus at 1, none. lia.
Qed.
Lemma blank_child_cost space l p q sp : q ≤ (p / span (S l) + 1) * span (S l) →
  table_cost space (S (S l)) zero_words 0 p q sp = plus (one Kernel) (table_cost space (S l) zero_words 0 p q) sp.
Proof.
  intros Hq. rewrite table_cost_S. cbn zeta. pose proof (Z.mod_pos_bound (p / span (S l)) 512 ltac:(done)).
  rewrite entries_cost_last by (done || lia). unfold zero_words at 1. by rewrite entry_addr_zero.
Qed.

(** The stack takes three page tables and sixteen frames. *)
Definition stack_frames : budget := fun sp => match sp with Kernel => 3 | User => 16 end.
Lemma stack_cost m a sp : m a STACK_ROOT_ENTRY = 0 →
  entry_cost User 3 m a STACK_ROOT_ENTRY USER_STACK_PAGE (USER_STACK_PAGE + 16) sp = stack_frames sp.
Proof.
  intros Hz. unfold entry_cost. rewrite Hz, entry_addr_zero. cbn [Z.eqb]. unfold plus at 1.
  rewrite blank_child_cost by done. unfold plus at 1. rewrite blank_child_cost by done. unfold plus.
  by destruct sp.
Qed.

(** A root table without an entry for the stack *)
Definition no_stack (b : AddressSpace) (F : MemorySpace → Z → Prop) (s : vm) : Prop :=
  depth b = 4%nat ∧ root_table b ≠ 0 ∧ ptes s (root_table b) STACK_ROOT_ENTRY = 0 ∧ pool_holds (frames s) F ∧ ¬ fresh F (root_table b).
Definition nothing_below (i x : Z) : Prop := False.

Lemma no_stack_node b F s : no_stack b F s →
  node_on (eq STACK_ROOT_ENTRY) 3 (ptes s) (root_table b) 0 nothing_below (fun _ => 0) ∧
  (∀ x, owned (root_table b) nothing_below x ↔ x = root_table b) ∧ (∀ x, owned (root_table b) nothing_below x → ¬ fresh F x).
Proof.
  intros (_ & _ & Hz & _ & Hfr). assert (∀ x, owned (root_table b) nothing_below x ↔ x = root_table b) as Ho.
  { intros x. split; [by intros [->|(i & _ & [])]|by left]. }
  split; [|split; [exact Ho|by intros x ->%Ho]].
  split; [by intros i _ []|split; [by intros i j x _ _ []|]]. intros i Hi <-. unfold child. rewrite Hz, entry_addr_zero. cbn [Z.eqb]. split; [done|split; [by intros x []|done]].
Qed.

Lemma map_stack_eq b ps s : depth b = 4%nat → root_table b ≠ 0 →
  map_space b ps User TABLE_FLAGS s = map_in_table 4 (root_table b) ps User TABLE_FLAGS s.
Proof. intros Hd Hnz. unfold map_space. by rewrite Hd, (table_ref_ok _ Hnz), res_bind_ret_l. Qed.

(** Its part of a page walk that leaves the root by another entry is not affected. *)
Lemma map_stack_ok b ps F s : no_stack b F s → pn (pstart ps) = USER_STACK_PAGE → pn (pend ps) = USER_STACK_PAGE + 16 →
  runs (map_space b ps User TABLE_FLAGS s) (fun r => ∃ F' g, pool_holds (frames r.2) F' ∧ (∀ sp x, F' sp x → F sp x) ∧
    (∀ x, USER_STACK_PAGE ≤ x < USER_STACK_PAGE + 16 →
       entry_addr (entry_of b r.2 x) = g x ∧ entry_flags (entry_of b r.2 x) = TABLE_FLAGS ∧ F User (g x) ∧ ¬ fresh F' (g x)) ∧
    (∀ x y, USER_STACK_PAGE ≤ x < USER_STACK_PAGE + 16 → USER_STACK_PAGE ≤ y < USER_STACK_PAGE + 16 → g x = g y → x = y) ∧
    (∀ x i, x ≠ root_table b → ¬ fresh F x → ptes r.2 x i = ptes s x i) ∧
    (∀ i, 0 ≤ i < 512 → i ≠ STACK_ROOT_ENTRY → ptes r.2 (root_table b) i = ptes s (root_table b) i)).
Proof.
  intros Hno Hp Hq. destruct (no_stack_node b F s Hno) as (Hn & Ho & Hsep). destruct Hno as (Hd & Hnz & Hz & HF & Hfr).
  rewrite map_stack_eq by done.
  eapply runs_weaken; [apply (map_one_entry_ok (eq STACK_ROOT_ENTRY) 2 User TABLE_FLAGS (root_table b) 0 STACK_ROOT_ENTRY nothing_below (fun _ => 0) F ps s)|];
    rewrite ?Hp, ?Hq; try done; [lia|by exists 0|apply table_flags_ok|].
  intros [m s'] (_ & Os' & F' & f' & g & Hn' & Hg & Hset & _ & Hfs & Hoth). cbn [fst snd] in *.
  replace (Z.min (upto USER_STACK_PAGE (USER_STACK_PAGE + 16)) (0 + (STACK_ROOT_ENTRY + 1) * span 3)) with (USER_STACK_PAGE + 16) in *
    by (vm_compute; reflexivity).
  destruct Hg as (HF' & _ & HFF & _ & _ & Hm). destruct Hfs as [Hfs Hinj]. exists F', g.
  split; [done|split; [done|split; [|split; [exact Hinj|split]]]].
  - intros x Hx. destruct (Hset x Hx) as [Ha Hfl], (Hfs x Hx) as (Hu & Hnf & _).
    assert (entry_of b s' x = f' x) as ->; [|done].
    unfold entry_of. rewrite Hd. change (span (S (S 2))) with (2 ^ 36) in *.
    apply (walk_on (eq STACK_ROOT_ENTRY) 2 _ _ 0 Os'); [done|by exists 0|change (span 4) with (2 ^ 36); unfold USER_STACK_PAGE in *; lia|].
    unfold STACK_ROOT_ENTRY. assert (x / span 3 = 128) as ->; [|done]. change (span 3) with (2 ^ 27). unfold USER_STACK_PAGE in *.
    symmetry. apply (Z.div_unique _ _ _ (x - 2 ^ 34)); lia.
  - intros x i Hx HnF. apply Hm; [|done]. by rewrite Ho.
  - intros i Hi Hne. by apply Hoth.
Qed.

Lemma map_stack_costs b ps F s n : no_stack b F s → pn (pstart ps) = USER_STACK_PAGE → pn (pend ps) = USER_STACK_PAGE + 16 → left_over s n →
  costs snd (map_space b ps User TABLE_FLAGS s) stack_frames n.
Proof.
  intros Hno Hp Hq Hl. destruct (no_stack_node b F s Hno) as (Hn & _ & Hsep). destruct Hno as (Hd & Hnz & Hz & HF & Hfr).
  rewrite map_stack_eq by done.
  apply costs_proper with (c := entry_cost User 3 (ptes s) (root_table b) STACK_ROOT_ENTRY (pn (pstart ps)) (pn (pend ps))).
  { intros sp. rewrite Hp, Hq. by apply stack_cost. }
  apply (map_one_entry_costs (eq STACK_ROOT_ENTRY) 2 User TABLE_FLAGS (root_table b) 0 STACK_ROOT_ENTRY nothing_below (fun _ => 0) F ps s);
    rewrite ?Hp, ?Hq; try done; [lia|apply map_in_table_costs; lia|by exists 0|apply table_flags_ok].
Qed.

(** What the kernel maps: the copy has it too, and keeps it when the stack is mapped. *)
Lemma kernel_pages_kept kernel O F s b s1 C F1 s2 p :
  space_ok kernel O F s → depth kernel = 4%nat → ptes s (root_table kernel) STACK_ROOT_ENTRY = 0 →
  grows (fun _ => False) C F F1 s s1 → C (root_table b) → F Kernel (root_table b) → depth b = 4%nat →
  (∀ x i, x ≠ root_table b → ¬ fresh F1 x → ptes s2 x i = ptes s1 x i) →
  (∀ i, 0 ≤ i < 512 → i ≠ STACK_ROOT_ENTRY → ptes s2 (root_table b) i = ptes s1 (root_table b) i) →
  0 ≤ p < span 4 → (entry_of kernel s p ≠ 0 → path 4 (ptes s1) C (root_table b) p (entry_of kernel s p)) →
  entry_of kernel s2 p = entry_of kernel s p ∧ (entry_of kernel s p ≠ 0 → entry_of b s2 p = entry_of kernel s p).
Proof.
  intros (Hnz & HF & Hsep & f & Ht) Hd Hz (_ & _ & HFF & _ & HC1 & Hm1) HCb Hb Hdb Hm2 Hroot2 Hp Hpath. rewrite Hd in Ht.
  assert (∀ x i, O x → ptes s2 x i = ptes s x i) as HO.
  { intros x i Hx. rewrite Hm2; [apply Hm1; [tauto|by apply Hsep]|intros ->; apply (Hsep _ Hx); by exists Kernel|].
    intros [sp Hsp]. apply (Hsep x Hx). exists sp. by apply HFF. }
  assert (∀ m, (∀ x i, O x → m x i = ptes s x i) → walk 4 m (root_table kernel) p = f p) as Hwalk.
  { intros m Hmm. eapply walk_tree; [eapply tree_frame; [exact Ht|exact Hmm|done]|by apply Z.divide_0_r|lia]. }
  assert (entry_of kernel s p = f p) as Hs by (unfold entry_of; rewrite Hd; by apply Hwalk).
  split; [unfold entry_of; rewrite Hd, !Hwalk by done; done|]. intros Hne. specialize (Hpath Hne).
  assert (p / span 3 mod 512 ≠ STACK_ROOT_ENTRY) as Hi.
  { intros Hi. apply Hne. unfold entry_of. rewrite Hd, walk_S. cbn zeta. by rewrite Hi, Hz, entry_addr_zero. }
  pose proof (Z.mod_pos_bound (p / span 3) 512 ltac:(done)) as Hmod.
  unfold entry_of at 1. rewrite Hdb. apply path_walk with (C := C). destruct Hpath as [_ [Hx Hpath]].
  split; [done|]. cbn zeta. rewrite Hroot2 by done. split; [done|].
  eapply path_frame; [exact Hpath| |done]. intros x i [HCx Hxb]. by apply Hm2; [|apply HC1].
Qed.

(** What creating a user thread costs: the copied tables, and those of the stack *)
Definition user_thread_frames (kernel : AddressSpace) (s : vm) : budget := fun sp =>
  match sp with Kernel => 4 + tables_below 4 (ptes s) (root_table kernel) | User => 16 end.

(** The words of a kernel stack that has been prepared: what the first switch to the thread loads is at its top. *)
Definition prepared_stack (kickoff : Z) : list Z := replicate (Z.to_nat 8174) 0 ++ replicate 15 0 ++ [0x202; kickoff; 0x00DEAD00].

(** The thread that is made for an address space with root table [a] *)
Lemma user_thread_record kickoff thread_id k (e : Entry) : stack_at k 8174 18 → contents k = [] →
  ∃ T : Z → thread Entry, ∀ a,
    prepare_kernel_stack kickoff (mkThread thread_id k (mkVec USER_STACK_ADDRESS [] 8192) a 0 e) = Done (T a) ∧
    is_kernel_thread (T a) = false ∧ address_space (T a) = a ∧ old_rsp0 (T a) = as_ptr k + 8 * 8174 ∧
    contents (kernel_stack (T a)) = prepared_stack kickoff.
Proof.
  intros Hstack Hnil. set (raw := fun a => mkThread thread_id k (mkVec USER_STACK_ADDRESS [] 8192) a 0 e).
  exists (fun a => match prepare_kernel_stack kickoff (raw a) with Done t => t | _ => raw a end). intros a.
  destruct (prepare_kernel_stack_spec kickoff (raw a) 8174 Hstack Hnil) as (t & Ht & Hrsp & _ & Hc).
  destruct (prepare_kernel_stack_same _ _ _ Ht) as (_ & Hu & Ha & _). fold (raw a). rewrite Ht.
  unfold is_kernel_thread. rewrite Hu, Ha. split; [done|]. split; [done|]. split; [done|]. split; [exact Hrsp|exact Hc].
Qed.

(** [new_user_thread] in three steps *)
Lemma new_user_thread_steps kickoff thread_id with_capacity (e : Entry) phys_limit kernel s :
  stack_at (with_capacity 8192) 8174 18 → contents (with_capacity 8192) = [] →
  ∃ ps T, pn (pstart ps) = USER_STACK_PAGE ∧ pn (pend ps) = USER_STACK_PAGE + 16 ∧
    (∀ a, is_kernel_thread (T a) = false ∧ address_space (T a) = a ∧ old_rsp0 (T a) = as_ptr (with_capacity 8192) + 8 * 8174 ∧
       contents (kernel_stack (T a)) = prepared_stack kickoff) ∧
    new_user_thread kickoff thread_id with_capacity e phys_limit [kernel] s =
      (r ← from_other kernel s; m ← map_space r.1 ps User TABLE_FLAGS r.2; Done (T (root_table r.1), [kernel], m.2)).
Proof.
  intros Hstack Hnil. destruct user_stack_pages_ok as (ps & Hps & Hp & Hq).
  destruct (user_thread_record kickoff thread_id (with_capacity 8192) e Hstack Hnil) as [T HT].
  exists ps, T. split; [done|split; [done|split; [intros a; apply HT|]]].
  unfold new_user_thread, create_address_space. rewrite res_bind_assoc.
  destruct (from_other kernel s) as [[b s1]| | |]; try done. rewrite !res_bind_ret_l, Hps, res_bind_ret_l. cbn [fst snd].
  destruct (map_space b ps User TABLE_FLAGS s1) as [[m s2]| | |]; try done. rewrite !res_bind_ret_l.
  change (STACK_SIZE_PAGES * PAGE_SIZE / 8) with 8192. by rewrite (proj1 (HT (root_table b))).
Qed.

(** The copy of the kernel's address space, ready for the stack *)
Lemma copy_no_stack kernel O F s b s1 :
  space_ok kernel O F s → depth kernel = 4%nat → ptes s (root_table kernel) STACK_ROOT_ENTRY = 0 → from_other kernel s = Done (b, s1) →
  F Kernel (root_table b) ∧ ∃ C F1, no_stack b F1 s1 ∧ grows (fun _ => False) C F F1 s s1 ∧ C (root_table b) ∧
    ∀ p, 0 ≤ p < span 4 → entry_of kernel s p ≠ 0 → path 4 (ptes s1) C (root_table b) p (entry_of kernel s p).
Proof.
  intros Hok Hd Hz Hr. pose proof (from_other_ok kernel s O F Hok ltac:(lia)) as Hcopy. rewrite Hr in Hcopy.
  destruct Hcopy as (Hdb & Hb & C & F1 & Hg & HCb & Hpages & Hzero). cbn [fst snd] in *. rewrite Hd in *.
  split; [done|]. exists C, F1. split; [|split; [done|split; [done|]]].
  - destruct (from_other_root _ _ _ _ Hr) as [Hnz _]. destruct Hg as (HF1 & _ & _ & _ & Hsep & _).
    split; [done|split; [done|split; [by apply Hzero; [lia|..]|split; [done|by apply Hsep]]]].
  - intros p Hp. by apply Hpages.
Qed.

(** C14: a new user thread has an address space of its own: every page that the kernel
    maps has the same entry in it, and the sixteen pages of the user stack are
    mapped, writable, to different frames of the user memory.  (What it has for other pages is not said: the copied
    tables are not cleared.)  The kernel's address
    space does not change.  The thread's kernel stack holds the context with which it starts in
    [kickoff_kernel_thread], and its stack pointer points to that.  This takes a frame for each table of the kernel's address
    space, three for the stack's tables and sixteen user frames; with fewer free
    frames, and only then, it panics. *)
Theorem new_user_thread_maps_stack kickoff thread_id with_capacity (e : Entry) phys_limit kernel O F s n :
  space_ok kernel O F s → depth kernel = 4%nat → ptes s (root_table kernel) STACK_ROOT_ENTRY = 0 → left_over s n →
  stack_at (with_capacity 8192) 8174 18 → contents (with_capacity 8192) = [] →
  total snd (new_user_thread kickoff thread_id with_capacity e phys_limit [kernel] s) (user_thread_frames kernel s) n (fun '(t, spaces, s') =>
    is_kernel_thread t = false ∧ spaces = [kernel] ∧
    old_rsp0 t = as_ptr (with_capacity 8192) + 8 * 8174 ∧ contents (kernel_stack t) = prepared_stack kickoff ∧
    let a := mkSpace (address_space t) 4 in
    (∀ p, 0 ≤ p < span 4 → entry_of kernel s' p = entry_of kernel s p ∧
       (entry_of kernel s p ≠ 0 → entry_of a s' p = entry_of kernel s p)) ∧
    ∃ g, (∀ p, USER_STACK_PAGE ≤ p < USER_STACK_PAGE + 16 →
            entry_addr (entry_of a s' p) = g p ∧ entry_flags (entry_of a s' p) = TABLE_FLAGS ∧ F User (g p)) ∧
      ∀ p q, USER_STACK_PAGE ≤ p < USER_STACK_PAGE + 16 → USER_STACK_PAGE ≤ q < USER_STACK_PAGE + 16 → g p = g q → p = q).
Proof.
  intros Hok Hd Hz Hl Hstack Hnil.
  destruct (new_user_thread_steps kickoff thread_id with_capacity e phys_limit kernel s Hstack Hnil) as (ps & T & Hp & Hq & HT & ->).
  apply costs_total.
  - apply costs_proper with (c := plus (kernel_frames (1 + tables_below 4 (ptes s) (root_table kernel))) (plus stack_frames none)).
    { intros []; unfold plus, none; cbn [kernel_frames stack_frames user_thread_frames]; lia. }
    eapply costs_bind; [rewrite <-Hd; eapply from_other_costs; [exact Hok|lia|done]|by intros []|].
    intros [b s1] Hr Hl1. destruct (copy_no_stack kernel O F s b s1 Hok Hd Hz Hr) as (_ & C & F1 & Hno & _). cbn [fst snd] in *.
    eapply costs_bind; [by apply (map_stack_costs b ps F1)|done|]. intros r _ Hl2. by eapply costs_done.
  - eapply runs_bind; [eapply runs_self; apply (from_other_ok kernel s O F); [done|lia]|].
    intros [b s1] Hr. destruct (copy_no_stack kernel O F s b s1 Hok Hd Hz Hr) as (Hb & C & F1 & Hno & Hg & HCb & Hpages). cbn [fst snd] in *.
    eapply runs_bind; [by apply (map_stack_ok b ps F1)|].
    intros [m s2] (F2 & g & _ & HFF2 & Hstk & Hinj & Hm2 & Hroot2). cbn [fst snd runs] in *.
    destruct (HT (root_table b)) as (Hu & Ha & Hrsp & Hc). split; [done|split; [done|split; [exact Hrsp|split; [exact Hc|]]]]. cbv zeta. rewrite Ha.
    pose proof Hno as (Hdb & _). assert (mkSpace (root_table b) 4 = b) as -> by (destruct b; cbn in *; congruence). split.
    + intros p Hp'. apply (kernel_pages_kept kernel O F s b s1 C F1 s2 p); try done. by apply Hpages.
    + exists g. split; [|done]. intros p Hp'. destruct (Hstk p Hp') as (Hga & Hfl & Hgu & _). split; [done|split; [done|]].
      destruct Hg as (_ & _ & HFF1 & _). by apply HFF1.
Qed.
End Spaces.

(** ** A user thread on the concrete machine *)

Section Examples.
#[local] Existing Instance development.
#[local] Existing Instance demo_layout.
#[local] Existing Instance demo_virt.
#[local] Existing Instance demo_virt_laws.

Definition demo_stack (cap : Z) : Thread.vec := mkVec 0x100000 [] cap.
Definition demo_new_user_thread :=
  new_user_thread 0x1234 7 demo_stack tt 0x100000 [demo_booted.1] demo_booted.2.

Lemma new_user_thread_maps_stack_witness :
  ∃ t s', demo_new_user_thread = Done (t, [demo_booted.1], s') ∧
    entry_of (mkSpace (address_space t) 4) s' 255 = entry_of demo_booted.1 demo_booted.2 255 ∧
    entry_flags (entry_of (mkSpace (address_space t) 4) s' (USER_STACK_PAGE + 15)) = TABLE_FLAGS.
Proof.
  destruct demo_booted_ok as (O & F & n & Hok & Hd & Hroot & Hl & Hnk & Hnu).
  pose proof (Hroot STACK_ROOT_ENTRY ltac:(vm_compute; intuition congruence)) as Hz.
  destruct (total_done _ _ _ _ _ (new_user_thread_maps_stack 0x1234 7 demo_stack tt 0x100000 demo_booted.1 O F demo_booted.2 n Hok Hd Hz Hl
    ltac:(vm_compute; intuition congruence) eq_refl)) as ([[t spaces] s'] & Hrun & (_ & -> & _ & _ & Hk & g & Hstk & _) & _).
  { unfold affordable. rewrite Hnk, Hnu. vm_compute. reflexivity. }
  exists t, s'. split; [exact Hrun|split].
  - apply Hk; [vm_compute; intuition congruence|]. vm_compute. congruence.
  - destruct (Hstk (USER_STACK_PAGE + 15)) as (_ & Hfl & _); [vm_compute; intuition congruence|exact Hfl].
Defined.
End Examples.
