(* ===== verification/Syscall.v ===== *)
(** * System calls (os/kernel/src/syscall/, os/library/syscall, os/library/thread)

    The user side loads the registers and executes [syscall]; [syscall_handler]
    saves the registers, changes to the kernel stack, checks the number of the
    call and calls the handler through [SYSCALL_TABLE]. *)

From S2P Require Import Prelude Machine.
From stdpp Require Import pretty.
#[local] Open Scope Z_scope.

(** ** The user side (library/syscall/src/lib.rs, library/thread/src/lib.rs) *)

Inductive SystemCall := ThreadSwitch | ThreadSleep | ThreadExit.
Definition discriminant (c : SystemCall) : Z :=
  match c with ThreadSwitch => 0 | ThreadSleep => 1 | ThreadExit => 2 end.
Definition NUM_SYSCALLS : Z := discriminant ThreadExit + 1.

(** The [syscall] instruction: the return address and the flags are kept in rcx
    and r11, and execution continues at the address in LSTAR. *)
Definition syscall_instruction (lstar : Z) (m : machine) : machine :=
  with_regs (set_reg rip lstar (set_reg r11 (regs m rflags) (set_reg rcx (regs m rip) (regs m)))) m.

Definition syscall0 (lstar arg0 : Z) (m : machine) : machine :=
  syscall_instruction lstar (with_regs (set_reg rax arg0 (regs m)) m).
Definition syscall1 (lstar arg0 arg1 : Z) (m : machine) : machine :=
  syscall_instruction lstar (with_regs (set_reg rdi arg1 (set_reg rax arg0 (regs m))) m).
Definition syscall2 (lstar arg0 arg1 arg2 : Z) (m : machine) : machine :=
  syscall_instruction lstar (with_regs (set_reg rsi arg2 (set_reg rdi arg1 (set_reg rax arg0 (regs m)))) m).
Definition syscall3 (lstar arg0 arg1 arg2 arg3 : Z) (m : machine) : machine :=
  syscall_instruction lstar
    (with_regs (set_reg rdx arg3 (set_reg rsi arg2 (set_reg rdi arg1 (set_reg rax arg0 (regs m))))) m).

Definition usr_thread_switch (lstar : Z) : machine → machine := syscall0 lstar (discriminant ThreadSwitch).
Definition usr_thread_sleep (lstar ms : Z) : machine → machine := syscall1 lstar (discriminant ThreadSleep) ms.
Definition usr_thread_exit (lstar : Z) : machine → machine := syscall0 lstar (discriminant ThreadExit).

(** ** The kernel side (kernel/src/syscall/) *)

Section Syscall.
Context `{Junk}.

(** The handlers [sys_thread_switch], [sys_thread_sleep] and [sys_thread_exit],
    as compiled functions. *)
Variable sys_thread_switch sys_thread_sleep sys_thread_exit : machine → res machine.

(** [SyscallTable::new] *)
Definition SYSCALL_TABLE : list (machine → res machine) :=
  [sys_thread_switch; sys_thread_sleep; sys_thread_exit].

(** [syscall_disp]: [call [SYSCALL_TABLE + 8 * rax]], with a 64-bit address;
    behind the table lies whatever the linker put there. *)
Definition syscall_disp (m : machine) : res machine :=
  let offset := wrap 64 (8 * regs m rax) in
  match SYSCALL_TABLE !! Z.to_nat (offset / 8) with
  | Some handler => handler m
  | None => Undef "call through an address outside of SYSCALL_TABLE"
  end.

(** [syscall_abort] *)
Definition syscall_abort (m : machine) : res machine :=
  Panic ("System call with id [" +:+ pretty (regs m rax) +:+ "] does not exist!").

(** [syscall_handler] *)
Definition syscall_handler : list instr :=
  [Cli;
   Push rbx; Push rcx; Push rdx; Push rdi; Push rsi; Push r8; Push r9; Push r10;
   Push r11; Push r12; Push r13; Push r14; Push r15;
   Mov r15 rax; Mov r14 rdi; Mov r13 rsi; Mov r12 rdx;
   Call tss_get_rsp0;
   Mov rbx rax; Mov rcx rsp;
   Mov rdx r12; Mov rsi r13; Mov rdi r14; Mov rax r15;
   Mov rsp rbx;
   Push rcx;
   Sti;
   Jge rax NUM_SYSCALLS syscall_abort;
   Call syscall_disp;
   Cli;
   Pop rsp;
   Pop r15; Pop r14; Pop r13; Pop r12; Pop r11; Pop r10; Pop r9; Pop r8;
   Pop rsi; Pop rdi; Pop rdx; Pop rcx; Pop rbx;
   Sysretq].

(** The registers that are saved on the user stack. *)
Definition saved_regs : list reg := [rbx; rcx; rdx; rdi; rsi; r8; r9; r10; r11; r12; r13; r14; r15].

(** Between saving the registers and the check of the number. *)
Definition enter_kernel : list instr :=
  [Mov r15 rax; Mov r14 rdi; Mov r13 rsi; Mov r12 rdx;
   Call tss_get_rsp0;
   Mov rbx rax; Mov rcx rsp;
   Mov rdx r12; Mov rsi r13; Mov rdi r14; Mov rax r15;
   Mov rsp rbx;
   Push rcx;
   Sti].

Lemma tss_get_rsp0_spec m :
  ∃ m', tss_get_rsp0 m = Done m' ∧ regs m' rax = rsp0 m ∧ rsp0 m' = rsp0 m ∧
    (∀ r, callee_saved r = true → regs m' r = regs m r) ∧
    (∀ a, ¬ regs m rsp - frame_size ≤ a < regs m rsp → mem m' a = mem m a).
Proof.
  eexists. split; [reflexivity|]. cbn [regs mem rsp0 with_regs]. split_and!; [by rewrite set_reg_eq|done| |].
  - intros r Hr. rewrite set_reg_ne by (by intros ->). cbn. by rewrite Hr.
  - apply clobber_mem.
Qed.

Definition save_arguments : list instr := [Mov r15 rax; Mov r14 rdi; Mov r13 rsi; Mov r12 rdx].
Lemma run_save_arguments m :
  ∃ m', run save_arguments m = Done m' ∧ mem m' = mem m ∧ rsp0 m' = rsp0 m ∧ regs m' rsp = regs m rsp ∧
    regs m' rbp = regs m rbp ∧ regs m' r15 = regs m rax ∧ regs m' r14 = regs m rdi ∧
    regs m' r13 = regs m rsi ∧ regs m' r12 = regs m rdx.
Proof. eexists. split; [reflexivity|]. split_and!; try done; by regs_simpl. Qed.

Definition change_stack : list instr :=
  [Mov rbx rax; Mov rcx rsp; Mov rdx r12; Mov rsi r13; Mov rdi r14; Mov rax r15; Mov rsp rbx].
Lemma run_change_stack m :
  ∃ m', run change_stack m = Done m' ∧ mem m' = mem m ∧ regs m' rsp = regs m rax ∧ regs m' rcx = regs m rsp ∧
    regs m' rbp = regs m rbp ∧ regs m' rax = regs m r15 ∧ regs m' rdi = regs m r14 ∧
    regs m' rsi = regs m r13 ∧ regs m' rdx = regs m r12.
Proof. eexists. split; [reflexivity|]. split_and!; try done; by regs_simpl. Qed.

Lemma run_enter_kernel m :
  8 ≤ rsp0 m < 2 ^ 64 →
  ∃ m', run enter_kernel m = Done m' ∧ regs m' rsp = rsp0 m - 8 ∧
    (∀ r, r ∈ [rax; rdi; rsi; rdx; rbp] → regs m' r = regs m r) ∧
    mem m' (rsp0 m - 8) = regs m rsp ∧
    (∀ a, a ≠ rsp0 m - 8 → ¬ regs m rsp - frame_size ≤ a < regs m rsp → mem m' a = mem m a).
Proof.
  intros H0.
  change enter_kernel with (save_arguments ++ [Call tss_get_rsp0] ++ change_stack ++ [Push rcx; Sti]).
  rewrite !run_app.
  destruct (run_save_arguments m) as (m1 & -> & Hmem1 & H01 & Hsp1 & B1 & B2 & B3 & B4 & B5).
  rewrite res_bind_ret_l, run_app. cbn [run exec]. rewrite res_bind_assoc.
  destruct (tss_get_rsp0_spec m1) as (m2 & -> & Hrax & _ & Hsaved & Hmem2). rewrite !res_bind_ret_l, run_app.
  destruct (run_change_stack m2) as (m3 & -> & Hmem3 & Hsp3 & Hcx & C1 & C2 & C3 & C4 & C5).
  rewrite res_bind_ret_l. eexists. split; [reflexivity|].
  rewrite !Hsaved in * by done. rewrite Hrax, H01 in Hsp3.
  unfold push. cbn [regs mem with_regs]. rewrite Hsp3, wrap_small by lia. split_and!.
  - by regs_simpl.
  - apply Forall_forall. repeat constructor; regs_simpl; congruence.
  - unfold store. rewrite Z.eqb_refl. congruence.
  - intros a Ha1 Ha2. unfold store. case_Z; [done|]. rewrite Hmem3, Hmem2, Hmem1 by (by rewrite Hsp1). done.
Qed.

(** The entry of the table that is called for a number. *)
Lemma syscall_disp_entry m :
  0 ≤ regs m rax →
  syscall_disp m =
    match SYSCALL_TABLE !! Z.to_nat (regs m rax mod 2 ^ 61) with
    | Some handler => handler m
    | None => Undef "call through an address outside of SYSCALL_TABLE"
    end.
Proof.
  intros Hrax. unfold syscall_disp, wrap. change (2 ^ 64) with (8 * 2 ^ 61).
  rewrite Z.mul_mod_distr_l by done. by rewrite (Z.mul_comm 8), Z.div_mul.
Qed.

Lemma syscall_handler_parts :
  syscall_handler = Cli :: map Push saved_regs ++ enter_kernel ++
    [Jge rax NUM_SYSCALLS syscall_abort; Call syscall_disp; Cli; Pop rsp] ++
    map Pop (reverse saved_regs) ++ [Sysretq].
Proof. reflexivity. Qed.

(** The user stack and the kernel stack have room, and do not meet. *)
Definition can_enter (m : machine) : Prop :=
  0 ≤ frame_size ∧ 104 + frame_size ≤ regs m rsp < 2 ^ 64 ∧ 8 ≤ rsp0 m < 2 ^ 64 ∧
  ¬ regs m rsp - 104 - frame_size ≤ rsp0 m - 8 < regs m rsp.

(** The machine on which the number is checked and the handler is called. *)
Definition handler_entry (m m1 : machine) : Prop :=
  regs m1 rsp = rsp0 m - 8 ∧ mem m1 (rsp0 m - 8) = regs m rsp - 104 ∧
  words (mem m1) (regs m rsp - 104) (map (regs m) (reverse saved_regs)) ∧
  (∀ r, r ∈ [rax; rdi; rsi; rdx; rbp] → regs m1 r = regs m r).

Lemma run_to_check m :
  can_enter m →
  ∃ m1, handler_entry m m1 ∧
    run syscall_handler m =
      run ([Jge rax NUM_SYSCALLS syscall_abort; Call syscall_disp; Cli; Pop rsp] ++
           map Pop (reverse saved_regs) ++ [Sysretq]) m1.
Proof.
  intros (Hf & Hsp & H0 & Hdis). rewrite syscall_handler_parts, run_cons.
  set (m0 := with_regs (set_reg rflags (Z.clearbit (regs m rflags) IF) (regs m)) m).
  change (exec Cli m) with (Done m0). rewrite res_bind_ret_l.
  assert (regs m0 rsp = regs m rsp) as Hsp0 by (cbn; by rewrite set_reg_ne).
  assert (∀ r, r ≠ rflags → regs m0 r = regs m r) as Hregs0 by (intros; cbn; by rewrite set_reg_ne).
  destruct (run_pushes saved_regs m0) as (m1 & Hrun1 & Hsp1 & Hregs1 & H01 & Hw1 & Hmem1);
    [by apply (bool_decide_unpack _)|rewrite Hsp0; change (length _) with 13%nat; lia|].
  change (8 * Z.of_nat (length saved_regs)) with 104 in Hsp1. rewrite Hsp0 in Hsp1.
  change (rsp0 m0) with (rsp0 m) in H01.
  destruct (run_enter_kernel m1) as (m2 & Hrun2 & Hsp2 & Hregs2 & Htop & Hmem2); [by rewrite H01|].
  rewrite H01, Hsp1 in *.
  exists m2. split; [|by rewrite run_app, Hrun1, res_bind_ret_l, run_app, Hrun2, res_bind_ret_l].
  split_and!; [done|done| |].
  - assert (map (regs m) (reverse saved_regs) = reverse (map (regs m0) saved_regs)) as ->.
    { cbn [map saved_regs reverse rev_append]. unfold reverse. cbn [rev_append map].
      by rewrite !Hregs0 by done. }
    eapply words_ext; [|exact Hw1]. rewrite length_reverse, length_map. change (length _) with 13%nat.
    intros x Hx. symmetry. apply Hmem2; lia.
  - intros r Hr. rewrite Hregs2 by done.
    assert (r ≠ rsp ∧ r ≠ rflags) as [? ?] 
      by (split; intros ->; repeat (apply elem_of_cons in Hr as [?|Hr]; [done|]); by apply elem_of_nil in Hr).
    by rewrite Hregs1, Hregs0.
Qed.

(** What a handler must do to return: keep the callee-saved registers, the word
    on top of the kernel stack and the registers saved on the user stack. *)
Definition returns_to (m m1 m2 : machine) : Prop :=
  (∀ r, callee_saved r = true → regs m2 r = regs m1 r) ∧
  mem m2 (rsp0 m - 8) = mem m1 (rsp0 m - 8) ∧
  (∀ a, regs m rsp - 104 ≤ a < regs m rsp → mem m2 a = mem m1 a).

Lemma run_leave_kernel m m1 m2 :
  can_enter m → handler_entry m m1 → returns_to m m1 m2 →
  ∃ m', run ([Cli; Pop rsp] ++ map Pop (reverse saved_regs) ++ [Sysretq]) m2 = Done m' ∧
    regs m' rip = regs m rcx ∧ regs m' rflags = regs m r11 ∧ regs m' rsp = regs m rsp ∧
    regs m' rax = regs m2 rax ∧ regs m' rbp = regs m rbp ∧
    (∀ r, r ∈ saved_regs → regs m' r = regs m r).
Proof.
  intros (Hf & Hsp & H0 & _) (E1 & E2 & E3 & E4) (R1 & R2 & R3).
  cbn [app run exec]. rewrite !res_bind_ret_l. set (m3 := pop rsp _).
  assert (regs m3 rsp = regs m rsp - 104) as Hsp3.
  { cbn. rewrite set_reg_eq, set_reg_ne, R1, E1, R2 by done. done. }
  assert (mem m3 = mem m2) as Hmem3 by done.
  destruct (run_pops (reverse saved_regs) m3 (map (regs m) (reverse saved_regs)))
    as (m4 & Hrun & Hsp4 & Hmap & Hother & _);
    [by apply (bool_decide_unpack _)|by apply (bool_decide_unpack _)|done| |lia| |].
  { rewrite Hsp3, Hmem3. eapply words_ext; [|exact E3]. change (length _) with 13%nat.
    intros a Ha. symmetry. apply R3. lia. }
  { rewrite Hsp3. change (length _) with 13%nat. lia. }
  change (length _) with 13%nat in Hsp4.
  rewrite run_app, Hrun, res_bind_ret_l. eexists. split; [reflexivity|].
  cbn [regs with_regs]. cbn in Hmap. injection Hmap as ? ? ? ? ? ? ? ? ? ? ? ? ?.
  split_and!; regs_simpl; try done; try lia.
  - rewrite Hother by (try by apply (bool_decide_unpack _)). cbn. by regs_simpl.
  - rewrite Hother by (try by apply (bool_decide_unpack _)). cbn. regs_simpl.
    rewrite R1 by done. apply E4. by apply (bool_decide_unpack _).
  - apply Forall_forall. repeat constructor; by regs_simpl.
Qed.

(** A system call with a number of the table runs exactly its handler, with
    the number and the three arguments in their registers and on the kernel stack;
    when the handler returns, the caller continues behind [syscall] with its flags,
    its stack pointer and all its registers, and the handler's result in rax. *)
Lemma syscall_handler_returns m number handler :
  can_enter m → regs m rax = number → SYSCALL_TABLE !! Z.to_nat number = Some handler → 0 ≤ number →
  ∃ m1, regs m1 rdi = regs m rdi ∧ regs m1 rsi = regs m rsi ∧ regs m1 rdx = regs m rdx ∧
    regs m1 rsp = rsp0 m - 8 ∧
    ∀ m2, handler m1 = Done m2 → returns_to m m1 m2 →
    ∃ m', run syscall_handler m = Done m' ∧
      regs m' rip = regs m rcx ∧ regs m' rflags = regs m r11 ∧ regs m' rsp = regs m rsp ∧
      regs m' rax = regs m2 rax ∧ regs m' rbp = regs m rbp ∧
      (∀ r, r ∈ saved_regs → regs m' r = regs m r).
Proof.
  intros Hcan Hrax Htable Hn. destruct (run_to_check m Hcan) as (m1 & Hentry & Hrun).
  pose proof (lookup_lt_Some _ _ _ Htable) as Hlt. cbn in Hlt.
  exists m1. pose proof Hentry as (Hsp & _ & _ & Hregs). rewrite (Hregs rdi), (Hregs rsi), (Hregs rdx) by (by apply (bool_decide_unpack _)).
  do 3 (split; [reflexivity|]). split; [exact Hsp|]. intros m2 Hhandler Hret.
  destruct (run_leave_kernel m m1 m2 Hcan Hentry Hret) as (m' & Hleave & Hrest).
  exists m'. split; [|exact Hrest]. rewrite Hrun.
  change ([Jge rax NUM_SYSCALLS syscall_abort; Call syscall_disp; Cli; Pop rsp] ++
    map Pop (reverse saved_regs) ++ [Sysretq]) with
    ([Jge rax NUM_SYSCALLS syscall_abort; Call syscall_disp] ++
     ([Cli; Pop rsp] ++ map Pop (reverse saved_regs) ++ [Sysretq])).
  rewrite run_app, <-Hleave.
  assert (run [Jge rax NUM_SYSCALLS syscall_abort; Call syscall_disp] m1 = Done m2) as ->; [|reflexivity].
  cbn [run exec]. assert (regs m1 rax = number) as Hrax1 by (rewrite Hregs by (by apply (bool_decide_unpack _)); done).
  rewrite Hrax1. unfold signed. change NUM_SYSCALLS with 3.
  rewrite (proj2 (Z.ltb_lt number (2 ^ 63))), (proj2 (Z.leb_gt 3 number)) by lia.
  rewrite res_bind_ret_l, syscall_disp_entry, Hrax1, Z.mod_small, Htable, Hhandler by lia. done.
Qed.

(** C37: the check of the number compares signed integers.  A number that is not
    in the table aborts with a panic if it is below 2^63.  From 2^63 on the check
    lets every number pass: modulo 2^61 it then selects a word, which is a handler
    of the table only if the remainder is a valid number. *)
Theorem syscall_bound_check m :
  can_enter m → NUM_SYSCALLS ≤ regs m rax < 2 ^ 64 →
  (regs m rax < 2 ^ 63 → run syscall_handler m =
     Panic ("System call with id [" +:+ pretty (regs m rax) +:+ "] does not exist!")) ∧
  (2 ^ 63 ≤ regs m rax → NUM_SYSCALLS ≤ regs m rax mod 2 ^ 61 →
     run syscall_handler m = Undef "call through an address outside of SYSCALL_TABLE") ∧
  (2 ^ 63 ≤ regs m rax → ∀ handler, SYSCALL_TABLE !! Z.to_nat (regs m rax mod 2 ^ 61) = Some handler →
     ∃ m1, handler_entry m m1 ∧ run syscall_handler m =
       m2 ← handler m1; run ([Cli; Pop rsp] ++ map Pop (reverse saved_regs) ++ [Sysretq]) m2).
Proof.
  intros Hcan Hrax. destruct (run_to_check m Hcan) as (m1 & Hentry & Hrun).
  pose proof Hentry as (_ & _ & _ & Hregs).
  assert (regs m1 rax = regs m rax) as Hrax1 by (apply Hregs; by apply (bool_decide_unpack _)).
  rewrite Hrun. cbn [app]. rewrite run_cons. cbn [exec]. unfold syscall_abort. rewrite Hrax1.
  unfold signed. change NUM_SYSCALLS with 3 in *. split_and!.
  - intros Hlt. rewrite (proj2 (Z.ltb_lt _ (2 ^ 63))), (proj2 (Z.leb_le 3 _)) by lia. done.
  - intros Hge Hmod. rewrite (proj2 (Z.ltb_ge _ (2 ^ 63))), (proj2 (Z.leb_gt 3 _)), res_bind_ret_l by lia.
    rewrite run_cons. cbn [exec]. rewrite syscall_disp_entry, Hrax1 by lia.
    rewrite lookup_ge_None_2; [done|]. change (length SYSCALL_TABLE) with 3%nat. lia.
  - intros Hge handler Hh. exists m1. split; [exact Hentry|].
    rewrite (proj2 (Z.ltb_ge _ (2 ^ 63))), (proj2 (Z.leb_gt 3 _)), res_bind_ret_l by lia.
    rewrite run_cons. cbn [exec]. rewrite syscall_disp_entry, Hrax1, Hh by lia. reflexivity.
Qed.
End Syscall.

(** ** From the user library to the handler and back *)

(** C17: a user thread that calls [usr_thread_sleep ms] runs [sys_thread_sleep] with
    [ms] as argument and continues where it was, with the same flags, stack pointer
    and registers, apart from rax, rcx, r11 and the argument register rdi. *)
Theorem usr_thread_sleep_roundtrip `{Junk} sw sl ex lstar ms m :
  let m0 := usr_thread_sleep lstar ms m in
  can_enter m0 →
  regs m0 rip = lstar ∧
  ∃ m1, regs m1 rdi = ms ∧
    ∀ m2, sl m1 = Done m2 → returns_to m0 m1 m2 →
    ∃ m', run (syscall_handler sw sl ex) m0 = Done m' ∧
      regs m' rip = regs m rip ∧ regs m' rflags = regs m rflags ∧ regs m' rsp = regs m rsp ∧
      regs m' rbp = regs m rbp ∧
      (∀ r, r ∈ saved_regs → r ≠ rcx → r ≠ r11 → r ≠ rdi → regs m' r = regs m r).
Proof.
  intros m0 Hcan. split; [reflexivity|].
  assert (∀ r, r ≠ rip → r ≠ r11 → r ≠ rcx → r ≠ rdi → r ≠ rax → regs m0 r = regs m r) as Hregs.
  { intros. unfold m0, usr_thread_sleep, syscall1, syscall_instruction. by regs_simpl. }
  assert (regs m0 rcx = regs m rip ∧ regs m0 r11 = regs m rflags ∧ regs m0 rdi = ms ∧ regs m0 rax = 1)
    as (Hrcx & Hr11 & Hrdi & Hrax).
  { unfold m0, usr_thread_sleep, syscall1, syscall_instruction. split_and!; by regs_simpl. }
  destruct (syscall_handler_returns sw sl ex m0 1 sl Hcan Hrax eq_refl ltac:(done))
    as (m1 & Hrdi1 & _ & _ & _ & Hret).
  exists m1. split; [congruence|]. intros m2 Hsl Hto.
  destruct (Hret m2 Hsl Hto) as (m' & Hrun & H1 & H2 & H3 & _ & H4 & H5).
  exists m'. rewrite Hregs in H3, H4 by done. split; [exact Hrun|]. split_and!; try congruence.
  intros r Hr N1 N2 N3. rewrite (H5 r Hr). clear -Hr Hregs N1 N2 N3.
  apply Hregs; [intros ->; revert Hr|exact N2|exact N1|exact N3|intros ->; revert Hr]; by apply (bool_decide_unpack _).
Qed.

(** ** Concrete inputs *)
Section Examples.
#[local] Instance demo_junk : Junk := {| junk_reg := fun _ _ => 42; junk_mem := fun _ _ => 42; frame_size := 256 |}.

(** Handlers that return at once, with 0 in rax. *)
Definition demo_handler (m : machine) : res machine := Done (with_regs (set_reg rax 0 (regs m)) m).
Definition demo_user (number : Z) : machine :=
  mkMachine (fun r => match r with rsp => 0x8000 | rax => number | _ => 7 end) (fun _ => 0) 0x20000.

Lemma demo_can_enter n : can_enter (demo_user n).
Proof. unfold can_enter. cbn. lia. Qed.

Lemma usr_thread_sleep_roundtrip_witness :
  ∃ m', run (syscall_handler demo_handler demo_handler demo_handler)
          (usr_thread_sleep 0x1000 500 (demo_user 0)) = Done m' ∧
        regs m' rip = 7 ∧ regs m' r12 = 7 ∧ regs m' rsp = 0x8000.
Proof.
  destruct (usr_thread_sleep_roundtrip demo_handler demo_handler demo_handler 0x1000 500 (demo_user 0))
    as (_ & m1 & Hrdi & Hret); [unfold can_enter, usr_thread_sleep, syscall1, syscall_instruction; regs_simpl; cbn; lia|].
  destruct (Hret (with_regs (set_reg rax 0 (regs m1)) m1) eq_refl) as (m' & Hrun & Hrip & _ & Hsp & _ & Hregs).
  { split_and!; [|done|done]. intros r Hr. cbn. rewrite set_reg_ne; [done|by intros ->]. }
  exists m'. split; [exact Hrun|]. split; [exact Hrip|]. split; [|exact Hsp].
  rewrite (Hregs r12); [reflexivity|clear; by apply (bool_decide_unpack _)|discriminate..].
Defined.

Lemma syscall_bound_check_witness :
  (∃ msg, run (syscall_handler demo_handler demo_handler demo_handler) (demo_user 3) = Panic msg) ∧
  (∃ why, run (syscall_handler demo_handler demo_handler demo_handler) (demo_user (2 ^ 63 + 3)) = Undef why).
Proof.
  split.
  - eexists. apply (syscall_bound_check demo_handler demo_handler demo_handler (demo_user 3));
      [apply demo_can_enter|done|done].
  - eexists. apply (syscall_bound_check demo_handler demo_handler demo_handler (demo_user (2 ^ 63 + 3)));
      [apply demo_can_enter|done|done|done].
Defined.
End Examples.
