(* ===== verification/ThreadCalls.v ===== *)
(** * From the scheduler to running threads (os/kernel/src/thread/thread.rs, os/kernel/src/syscall/mod.rs)

    The functions that connect the scheduler's decisions (Scheduler.v) with the assembly
    code (Thread.v): [start_first] and [switch] pass a thread's values to it, the kickoff
    functions are what a new thread runs, and the system call functions call the
    scheduler.  Closures of threads are opaque functions on the state that they run in. *)

From stdpp Require Import fin_maps.
From S2P Require Import Prelude Scheduler Machine Thread Syscall.
#[local] Open Scope Z_scope.

(** A call of a function in the calling convention of C: the arguments in registers, then
    the return address on the stack. *)
Fixpoint set_args (args : list (reg * Z)) (f : reg → Z) : reg → Z :=
  match args with
  | [] => f
  | (r, v) :: args' => set_reg r v (set_args args' f)
  end.
Definition call_c (args : list (reg * Z)) (ret : Z) (m : machine) : machine :=
  push ret (with_regs (set_args args (regs m)) m).

Section Calls.
Context {Entry : Type} `{Profile} `{VirtAddrOps} `{SelectorOps} `{OffsetOps} `{Junk} `{FinMap Z M}.
#[local] Hint Extern 0 ThreadOps => exact (@thread_ops Entry) : typeclass_instances.
Implicit Types t : thread Entry.

(** [start_first]; [ret] is the return address that the compiler chooses. *)
Definition start_first (ret : Z) t (m : machine) : res machine :=
  run thread_kernel_start (call_c [(rdi, old_rsp0 t)] ret m).

(** [switch]; [old_rsp0_ref] is the address of a thread's field [old_rsp0]. *)
Definition switch (old_rsp0_ref : thread Entry → Z) (ret : Z) (current next : thread Entry) (m : machine) : res machine :=
  next_rsp0_end ← kernel_stack_addr next;
  run thread_switch
    (call_c [(rdi, old_rsp0_ref current); (rsi, old_rsp0 next); (rdx, next_rsp0_end); (rcx, address_space next)] ret m).

(** [join] *)
Definition thread_join t (reads : list (option Z)) (s : Scheduler M) : res (Scheduler M * action) := join (tid t) reads s.

(** [sys_thread_switch], [sys_thread_sleep] and [sys_thread_exit] *)
Definition sys_thread_switch (state_free sleep_free : bool) (timer : option Z) (s : Scheduler M) : res (Scheduler M * action) :=
  switch_thread state_free sleep_free timer s.
Definition sys_thread_sleep (ms systime : Z) (reads : list (option Z)) (s : Scheduler M) : res (Scheduler M * action) :=
  sleep systime ms reads s.
Definition sys_thread_exit (reads : list (option Z)) (s : Scheduler M) : res (Scheduler M * action) := exit reads s.

(** What a kernel thread does last: leave the scheduler for good, or go on in user mode. *)
Inductive kicked_off :=
  | Exited (s : Scheduler M) (a : action)
  | UserMode (t : thread Entry) (s : Scheduler M).

Section Kickoff.
(** The scheduler's state when the closure of a thread, called in a state, returns *)
Variable call_entry : Entry → Scheduler M → res (Scheduler M).

(** [kickoff_kernel_thread], with the stack pointer it writes to the task state segment *)
Definition kickoff_kernel_thread (kickoff_user_thread : Z) (reads : list (option Z)) (s : Scheduler M) : res (Z * kicked_off) :=
  t ← current_thread_of s;
  let s := set_init s in
  a ← kernel_stack_addr t;
  rsp0 ← virt_addr_new a;
  if is_kernel_thread t then
    s ← call_entry (entry t) s;
    '(s, act) ← exit reads s;
    Done (rsp0, Exited s act)
  else
    t ← switch_to_user_mode kickoff_user_thread t;
    Done (rsp0, UserMode t s).
End Kickoff.

(** [kickoff_user_thread]; a closure that runs in user mode changes the machine. *)
Definition kickoff_user_thread (call_entry : Entry → machine → res machine) (lstar : Z) (s : Scheduler M) (m : machine) : res machine :=
  t ← current_thread_of s;
  m ← call_entry (entry t) m;
  Done (usr_thread_exit lstar m).
End Calls.
Arguments kicked_off {Entry} M.

(** ** Switching to a new thread *)
Section NewThread.
Context {Entry : Type} `{Profile} `{VirtAddrLaws} `{SelectorOps} `{OffsetLaws} `{Junk} `{FinMap Z M}.
#[local] Hint Extern 0 ThreadOps => exact (@thread_ops Entry) : typeclass_instances.
Implicit Types t : thread Entry.

(** Who is current after a switch *)
Lemma switch_thread_current state_free sleep_free timer (s s' : Scheduler M) b (cur next : thread Entry) :
  switch_thread state_free sleep_free timer s = Done (s', Switch b cur next) →
  current_thread_of s' = Done next.
Proof.
  unfold switch_thread. destruct state_free; cbn [negb]; [|done]. destruct (initialized (state s)); cbn [negb]; [|done].
  destruct (if sleep_free then _ else _) as [st sl]. destruct (pop_back (ready_queue st)) as [[x q]|]; [|done].
  destruct (current st) as [c| | |]; cbn; [|done..]. by intros [= <- _ _ <-].
Qed.

Lemma kernel_stack_addr_eq t n : stack_at (kernel_stack t) n 18 →
  as_ptr (kernel_stack t) + 64 * capacity (kernel_stack t) < 2 ^ 47 →
  kernel_stack_addr t = Done (as_ptr (kernel_stack t) + 64 * (capacity (kernel_stack t) - 1)).
Proof.
  intros (Hn & Hp & Hc & Hhi) Hcanon. rewrite kernel_stack_addr_outside by lia.
  rewrite offset_outside_adds, wrap_small by lia. f_equal. lia.
Qed.

(** What a new thread's first switch finds on its stack *)
Definition new_context (kickoff_kernel_thread : Z) : list Z := replicate 15 0 ++ [0x202; kickoff_kernel_thread].

Lemma prepared_thread kickoff t n :
  stack_at (kernel_stack t) n 18 → contents (kernel_stack t) = [] →
  ∃ t', prepare_kernel_stack kickoff t = Done t' ∧ tid t' = tid t ∧ user_stack t' = user_stack t ∧
    address_space t' = address_space t ∧ entry t' = entry t ∧
    old_rsp0 t' = as_ptr (kernel_stack t) + 8 * n ∧ stack_at (kernel_stack t') n 18 ∧
    as_ptr (kernel_stack t') = as_ptr (kernel_stack t) ∧
    length (contents (kernel_stack t')) = Z.to_nat (capacity (kernel_stack t')) ∧
    ∀ f, holds f (kernel_stack t') → words f (old_rsp0 t') (new_context kickoff).
Proof.
  intros Hat Hnil. destruct (prepare_kernel_stack_spec kickoff t n Hat Hnil) as (t' & Ht' & Hsp & Hp & Hc).
  destruct (prepare_kernel_stack_same kickoff t t' Ht') as (Hid & Hu & Ha & He).
  assert (capacity (kernel_stack t') = capacity (kernel_stack t)) as Hcap by (unfold prepare_kernel_stack in Ht'; by inv_res).
  exists t'. split_and!; try done.
  - unfold stack_at in *. rewrite Hp, Hcap. tauto.
  - unfold stack_at in Hat. rewrite Hc, !length_app, !length_replicate. cbn. lia.
  - intros f Hf. unfold holds in Hf. rewrite Hc, Hp in Hf. apply words_app in Hf as [_ Hf].
    destruct Hat as (Hn & _). rewrite length_replicate, Z2Nat.id, <-Hsp in Hf by done.
    change (replicate 15 0 ++ [0x202; kickoff; 0x00DEAD00]) with (new_context kickoff ++ [0x00DEAD00]) in Hf.
    by apply words_app in Hf as [Hf _].
Qed.

(** The elements of a full vector lie where memory agrees on its buffer. *)
Definition in_buffer (v : vec) (x : Z) : Prop := as_ptr v ≤ x < as_ptr v + 8 * capacity v.
Lemma holds_ext f g v : length (contents v) = Z.to_nat (capacity v) → holds f v →
  (∀ x, in_buffer v x → g x = f x) → holds g v.
Proof. intros Hlen Hf Heq. eapply words_ext; [|exact Hf]. intros x Hx. symmetry. apply Heq. unfold in_buffer. lia. Qed.

(** The machine at the first instruction of [thread_switch] *)
Lemma call_c_spec a1 a2 a3 a4 ret m : 8 ≤ regs m rsp < 2 ^ 64 →
  ∃ m0, call_c [(rdi, a1); (rsi, a2); (rdx, a3); (rcx, a4)] ret m = m0 ∧ regs m0 rsp = regs m rsp - 8 ∧
    regs m0 rdi = a1 ∧ regs m0 rsi = a2 ∧ regs m0 rdx = a3 ∧ regs m0 rcx = a4 ∧
    ∀ x, ¬ regs m rsp - 8 ≤ x < regs m rsp → mem m0 x = mem m x.
Proof.
  intros Hsp. eexists. split; [reflexivity|]. unfold call_c, push. cbn [set_args regs mem with_regs].
  split_and!; regs_simpl; try done; try (apply wrap_small; lia).
  intros x Hx. unfold store. rewrite wrap_small by lia. case_Z; [lia|done].
Qed.

(** A machine that can call [switch], with room on its stack for the call, whose calls do
    not touch the stack of the next thread. *)
Definition can_call (slot : Z) (m : machine) (v : vec) : Prop :=
  0 ≤ frame_size ∧ 136 ≤ regs m rsp < 2 ^ 64 ∧
  ¬ regs m rsp - 136 - frame_size ≤ slot < regs m rsp ∧
  ∀ a, in_buffer v a → ¬ regs m rsp - 136 - frame_size ≤ a < regs m rsp ∧ a ≠ slot.

(** Switching to a prepared thread *)
Lemma switch_to_prepared kickoff t0 n t old_rsp0_ref ret cur m :
  stack_at (kernel_stack t0) n 18 → contents (kernel_stack t0) = [] → prepare_kernel_stack kickoff t0 = Done t →
  as_ptr (kernel_stack t0) + 64 * capacity (kernel_stack t0) < 2 ^ 47 →
  holds (mem m) (kernel_stack t) → can_call (old_rsp0_ref cur) m (kernel_stack t) →
  ∃ m', switch old_rsp0_ref ret cur t m = Done m' ∧ kernel_stack_addr t = Done (rsp0 m') ∧
    map (regs m') (context_regs ++ [rflags; rip]) = new_context kickoff ∧
    regs m' rsp = as_ptr (kernel_stack t0) + 8 * capacity (kernel_stack t0) - 8 ∧ regs m' cr3 = address_space t0 ∧
    mem m' (old_rsp0_ref cur) = regs m rsp - 136 ∧ holds (mem m') (kernel_stack t).
Proof.
  intros Hat Hnil Ht Hcanon Hholds (Hframe & Hsp & Hslot & Hapart).
  destruct (prepared_thread kickoff t0 n Hat Hnil) as (t' & Ht' & _ & _ & Ha & _ & Hrsp0 & Hat' & Hp & Hlen & Hctx).
  assert (t' = t) as -> by congruence. unfold switch.
  assert (capacity (kernel_stack t) = capacity (kernel_stack t0)) as Hcap0 by (unfold stack_at in Hat, Hat'; lia).
  rewrite (kernel_stack_addr_eq t n Hat'), res_bind_ret_l by lia.
  destruct (call_c_spec (old_rsp0_ref cur) (old_rsp0 t) (as_ptr (kernel_stack t) + 64 * (capacity (kernel_stack t) - 1))
    (address_space t) ret m ltac:(lia)) as (m0 & -> & Hsp0 & Hrdi & Hrsi & Hrdx & Hrcx & Hmem0).
  assert (∀ x, in_buffer (kernel_stack t) x → ¬ switch_writes m0 x ∧ mem m0 x = mem m x) as Hkeep.
  { intros x Hx. destruct (Hapart x Hx). split; [|apply Hmem0; lia]. unfold switch_writes, saved_rsp. rewrite Hsp0, Hrdi. lia. }
  destruct Hat as (Hn & Hlo & Hcap & Hhi). destruct Hat' as (_ & _ & Hcap' & _).
  assert (∀ x, regs m0 rsi ≤ x < regs m0 rsi + 136 → in_buffer (kernel_stack t) x) as Hframe_in
    by (intros x; unfold in_buffer; rewrite Hrsi; lia).
  destruct (thread_switch_spec m0 (new_context kickoff)) as (m' & Hrun & Hmap & Hsp' & Hcr3 & Htss & Hsaved & _ & Hsame);
    [unfold can_switch, saved_rsp; rewrite Hsp0, Hrdi; lia|rewrite Hrdx; lia| |done|rewrite Hrsi; lia|rewrite Hrsi; lia| |].
  - rewrite Hrsi. apply Hctx, (holds_ext (mem m)); [done|done|intros x Hx; by apply Hkeep].
  - intros x Hx. by apply Hkeep, Hframe_in.
  - exists m'. split; [exact Hrun|]. rewrite Htss, Hrdx. split; [done|]. split; [exact Hmap|].
    split; [rewrite Hsp', Hrsi; lia|]. split; [by rewrite Hcr3, Hrcx|]. split; [rewrite <-Hrdi, Hsaved; unfold saved_rsp; lia|].
    apply (holds_ext (mem m)); [done|done|]. intros x Hx. destruct (Hkeep x Hx) as [Hw <-]. by apply Hsame.
Qed.

(** C16: switching to a new thread runs its closure.  When the scheduler's [switch_thread] decides to switch from a
    thread to one that [prepare_kernel_stack] has just prepared and whose stack lies in memory, [switch] stores the
    stack pointer of the old thread, loads the new thread's page table and enters [kickoff_kernel_thread] on the
    stack of the new thread, with interrupts enabled and all other registers zero.  For a kernel thread,
    [kickoff_kernel_thread] then marks the scheduler as initialized, writes the address of [kernel_stack_addr] to the
    task state segment (as [switch] did), runs the closure of this thread and exits.  The address of [kernel_stack_addr]
    is outside of its stack; it is that of a compiler that adds ([OffsetLaws]). *)
Theorem switch_starts_thread call_entry kickoff kickoff_user t0 n t reads
    state_free sleep_free timer (s s' : Scheduler M) old_rsp0_ref ret cur m :
  stack_at (kernel_stack t0) n 18 → contents (kernel_stack t0) = [] → prepare_kernel_stack kickoff t0 = Done t →
  as_ptr (kernel_stack t0) + 64 * capacity (kernel_stack t0) < 2 ^ 47 → is_kernel_thread t0 = true →
  switch_thread state_free sleep_free timer s = Done (s', Switch true cur t) →
  holds (mem m) (kernel_stack t) → can_call (old_rsp0_ref cur) m (kernel_stack t) →
  ∃ m', switch old_rsp0_ref ret cur t m = Done m' ∧
    map (regs m') (context_regs ++ [rflags; rip]) = new_context kickoff ∧
    regs m' rsp = as_ptr (kernel_stack t0) + 8 * capacity (kernel_stack t0) - 8 ∧ regs m' cr3 = address_space t0 ∧
    mem m' (old_rsp0_ref cur) = regs m rsp - 136 ∧ holds (mem m') (kernel_stack t) ∧
    kickoff_kernel_thread call_entry kickoff_user reads s' =
      (s1 ← call_entry (entry t0) (set_init s'); '(s2, act) ← exit reads s1; Done (rsp0 m', Exited s2 act)).
Proof.
  intros Hat Hnil Ht Hcanon Hkernel Hswitch Hholds Hcan.
  destruct (switch_to_prepared kickoff t0 n t old_rsp0_ref ret cur m Hat Hnil Ht Hcanon Hholds Hcan)
    as (m' & Hrun & Haddr & Hmap & Hsp & Hcr3 & Hsaved & Hkept).
  exists m'. do 6 (split; [assumption|]).
  destruct (prepared_thread kickoff t0 n Hat Hnil) as (t' & Ht' & _ & Hu & _ & He & _ & Hat' & Hp & _).
  assert (t' = t) as -> by congruence.
  pose proof (kernel_stack_addr_eq t n Hat' ltac:(unfold stack_at in Hat, Hat'; lia)) as Haddr'. rewrite Haddr in Haddr'. injection Haddr' as Htss.
  unfold stack_at in Hat, Hat'.
  unfold kickoff_kernel_thread. rewrite (switch_thread_current _ _ _ _ _ _ _ _ Hswitch), res_bind_ret_l.
  rewrite Haddr, res_bind_ret_l, virt_addr_new_ok, res_bind_ret_l by lia.
  unfold is_kernel_thread in *. by rewrite Hu, Hkernel, He.
Qed.
End NewThread.

(** ** Concrete input: the initial thread switches to a second one. *)
Section Examples.
#[local] Existing Instance development.
#[local] Instance demo_junk : Junk := {| junk_reg := fun _ _ => 42; junk_mem := fun _ _ => 42; frame_size := 256 |}.
#[local] Instance demo_virt : VirtAddrOps := {| virt_addr_new a :=
  if (0 <=? a) && (a <? 2 ^ 47) then Done a else Panic "address not canonical" |}.
#[local] Instance demo_virt_laws : VirtAddrLaws.
Proof. intros a Ha. cbn. by rewrite (proj2 (Z.leb_le _ _)), (proj2 (Z.ltb_lt _ _)) by lia. Qed.
#[local] Instance demo_offset : OffsetOps := {| offset_outside a := Done (wrap 64 a) |}.
#[local] Instance demo_offset_laws : OffsetLaws.
Proof. done. Qed.
#[local] Instance demo_selector : SelectorOps := {| segment_selector index rpl := Z.lor (Z.shiftl index 3) rpl |}.
#[local] Hint Extern 0 ThreadOps => exact (@thread_ops unit) : typeclass_instances.

Definition demo_current : thread unit := mkThread 1 (mkVec 0x200000 [] 8192) (mkVec 8 [] 0) 0x5000 0 tt.
Definition demo_new : thread unit := mkThread 2 (mkVec 0x100000 [] 8192) (mkVec 8 [] 0) 0x7000 0 tt.
Definition demo_scheduler (t : thread unit) : Scheduler (gmap Z) :=
  mkSched (mkReady true (Some demo_current) [t]) [] (<[1 := []]> (<[2 := []]> ∅)).
Definition demo_switched (t : thread unit) : Scheduler (gmap Z) :=
  mkSched (mkReady true (Some t) [demo_current]) [] (<[1 := []]> (<[2 := []]> ∅)).
Definition demo_caller (v : vec) : machine := mkMachine (fun r => if decide (r = rsp) then 0x210000 else 7) (mem_of v) 0.

Lemma switch_starts_thread_witness :
  ∃ t m', prepare_kernel_stack 0x1234 demo_new = Done t ∧
    switch (fun _ => 0x5000) 0x99 demo_current t (demo_caller (kernel_stack t)) = Done m' ∧
    regs m' rsp = 0x10fff8 ∧ regs m' cr3 = 0x7000.
Proof.
  assert (stack_at (kernel_stack demo_new) 8174 18) as Hnew by (by unfold stack_at).
  destruct (prepared_thread 0x1234 demo_new 8174) as (t & Ht & _ & _ & _ & _ & _ & Hat & Hp & _);
    [exact Hnew|reflexivity|].
  destruct (switch_starts_thread (M:=gmap Z) (fun _ s => Done s) 0x1234 0x5678 demo_new 8174 t [] true false None
    (demo_scheduler t) (demo_switched t)
    (fun _ => 0x5000) 0x99 demo_current (demo_caller (kernel_stack t))) as (m' & Hrun & _ & Hsp & Hcr3 & _);
    [exact Hnew|reflexivity|exact Ht|cbn; lia|reflexivity|reflexivity|apply mem_of_holds| |].
  - destruct Hat as (_ & _ & Hcap & _). change (as_ptr (kernel_stack demo_new)) with 0x100000 in Hp. unfold can_call, in_buffer. rewrite Hp, Hcap. cbn [frame_size demo_junk].
    change (regs (demo_caller (kernel_stack t)) rsp) with 0x210000.
    split; [lia|]. split; [lia|]. split; [lia|]. intros a Ha. lia.
  - exists t, m'. split; [exact Ht|]. split; [exact Hrun|]. split; [exact Hsp|exact Hcr3].
Defined.
End Examples.
