(* ===== verification/Interrupts.v ===== *)
(** * Interrupts (os/kernel/src/interrupt/, os/kernel/src/device/apic.rs)

    The interrupt vectors, the dispatcher that calls the handlers of a vector,
    and the programming of the IO APIC that routes interrupt lines to vectors.
    Handlers ([Box<dyn InterruptHandler>]) are functions on the rest of the
    world, which includes their own state.  The IO APIC of the crate x2apic is a
    class with laws. *)

From S2P Require Import Prelude.
#[local] Open Scope Z_scope.

(** [enum InterruptVector] *)
Inductive InterruptVector :=
  | DivisionByZero | Debug | NonMaskableInterrupt | Breakpoint | Overflow
  | BoundRangeExceeded | InvalidOpcode | DeviceNotAvailable | DoubleFault
  | CoprocessorSegmentOverrun | InvalidTaskStateSegment | SegmentNotPresent | StackSegmentFault
  | GeneralProtectionFault | PageFault | X87FloatingPointException | AlignmentCheck | MachineCheck
  | SimdFloatingPointException | VirtualizationException | ControlProtectionException
  | HypervisorInjectionException | VmmCommunicationException | SecurityException | Pit | Keyboard
  | Cascade | Com2 | Com1 | Lpt2 | Floppy | Lpt1 | Rtc | Mouse | Fpu | PrimaryAta | SecondaryAta
  | Cmci | ApicTimer | Thermal | Performance | Lint0 | Lint1 | ApicError | Spurious.

(** [vector as u8] and [vector as usize] *)
Definition vector_number (v : InterruptVector) : Z :=
  match v with
  | DivisionByZero => 0 | Debug => 1 | NonMaskableInterrupt => 2 | Breakpoint => 3
  | Overflow => 4 | BoundRangeExceeded => 5 | InvalidOpcode => 6 | DeviceNotAvailable => 7
  | DoubleFault => 8 | CoprocessorSegmentOverrun => 9 | InvalidTaskStateSegment => 10
  | SegmentNotPresent => 11 | StackSegmentFault => 12 | GeneralProtectionFault => 13
  | PageFault => 14 | X87FloatingPointException => 16 | AlignmentCheck => 17 | MachineCheck => 18
  | SimdFloatingPointException => 19 | VirtualizationException => 20
  | ControlProtectionException => 21 | HypervisorInjectionException => 28
  | VmmCommunicationException => 29 | SecurityException => 30 | Pit => 0x20 | Keyboard => 0x21
  | Cascade => 0x22 | Com2 => 0x23 | Com1 => 0x24 | Lpt2 => 0x25 | Floppy => 0x26 | Lpt1 => 0x27
  | Rtc => 0x28 | Mouse => 0x2c | Fpu => 0x2d | PrimaryAta => 0x2e | SecondaryAta => 0x2f
  | Cmci => 0xf8 | ApicTimer => 0xf9 | Thermal => 0xfa | Performance => 0xfb | Lint0 => 0xfc
  | Lint1 => 0xfd | ApicError => 0xfe | Spurious => 0xff
  end.

(** [try_from]: the arms of the match, in order *)
Definition try_from_arms : list InterruptVector :=
  [DivisionByZero; Debug; NonMaskableInterrupt; Breakpoint; Overflow;
   BoundRangeExceeded; InvalidOpcode; DeviceNotAvailable; DoubleFault;
   CoprocessorSegmentOverrun; InvalidTaskStateSegment; SegmentNotPresent; StackSegmentFault;
   GeneralProtectionFault; PageFault; X87FloatingPointException; AlignmentCheck; MachineCheck;
   SimdFloatingPointException; VirtualizationException; ControlProtectionException;
   HypervisorInjectionException; VmmCommunicationException; SecurityException; Pit; Keyboard;
   Cascade; Com2; Com1; Lpt2; Floppy; Lpt1; Mouse; Fpu; PrimaryAta; SecondaryAta; Cmci;
   ApicTimer; Thermal; Performance; Lint0; Lint1; ApicError; Spurious].

Definition try_from (value : Z) : option InterruptVector :=
  List.find (fun v => value =? vector_number v) try_from_arms.

(** [try_lock] in a loop with [force_unlock]: the loops of [dispatch] and
    [end_of_interrupt].  A lock is a boolean; the result is the lock taken. *)
Fixpoint force_lock (fuel : nat) (locked : bool) : res bool :=
  match fuel with
  | O => NoFuel
  | S fuel' => if locked then force_lock fuel' false else Done true
  end.

Section Dispatcher.
Context {World : Type}.

(** [dyn InterruptHandler]: its [trigger] method. *)
Definition InterruptHandler : Type := World → res World.

(** [Mutex<Vec<Box<dyn InterruptHandler>>>] *)
Record handler_vec := mkHandlers { locked : bool; handlers : list InterruptHandler }.

Record InterruptDispatcher := mkDispatcher { int_vectors : list handler_vec }.

Definition MAX_VECTORS : Z := 256.

(** [InterruptDispatcher::new]: [for _ in 32..MAX_VECTORS] *)
Definition dispatcher_new : InterruptDispatcher :=
  mkDispatcher (map (fun _ => mkHandlers false []) (seqZ 32 (MAX_VECTORS - 32))).

(** [assign]; the lock is free, since the caller would wait for it otherwise. *)
Definition assign (d : InterruptDispatcher) (vector : InterruptVector) (handler : InterruptHandler) :
    res InterruptDispatcher :=
  let n := Z.to_nat (vector_number vector) in
  match int_vectors d !! n with
  | Some vec => Done (mkDispatcher (<[n := mkHandlers (locked vec) (handlers vec ++ [handler])]> (int_vectors d)))
  | None => Panic "Assigning interrupt handler to illegal vector number!"
  end.

(** [for handler in ... { handler.trigger() }] *)
Fixpoint trigger_all (hs : list InterruptHandler) (w : World) : res World :=
  match hs with
  | [] => Done w
  | h :: hs' => w' ← h w; trigger_all hs' w'
  end.

(** [Option::iter] yields the element of a [Some]; [is_empty] asks for none. *)
Definition option_iter_is_empty {A} (o : option A) : bool :=
  match o with Some _ => false | None => true end.

(** [dispatch]; [end_of_interrupt] is the method of the APIC. *)
Definition dispatch (end_of_interrupt : World → res World) (d : InterruptDispatcher) (interrupt : Z) (w : World) :
    res (InterruptDispatcher * World) :=
  let n := Z.to_nat interrupt in
  vec ← expect "Interrupt Dispatcher: No handler vec assigned!" (int_vectors d !! n);
  _ ← force_lock 2 (locked vec);
  let guard := Some (handlers vec) in
  if option_iter_is_empty guard then Panic "Interrupt Dispatcher: No handler registered!"
  else
    w' ← trigger_all (handlers vec) w;
    w'' ← end_of_interrupt w';
    Done (mkDispatcher (<[n := mkHandlers false (handlers vec)]> (int_vectors d)), w'').

(** ** Properties of the dispatcher *)

Lemma dispatcher_new_length : length (int_vectors dispatcher_new) = 224%nat.
Proof. reflexivity. Qed.

(** The lock is always taken, at the second attempt at the latest. *)
Lemma force_lock_terminates l : force_lock 2 l = Done true.
Proof. by destruct l. Qed.

Lemma assign_length d v h d' : assign d v h = Done d' → length (int_vectors d') = length (int_vectors d).
Proof.
  unfold assign. destruct (_ !! _); [|done]. intros [= <-]. cbn. by rewrite length_insert.
Qed.

Lemma dispatch_eq eoi d interrupt w vec :
  int_vectors d !! Z.to_nat interrupt = Some vec →
  dispatch eoi d interrupt w =
    w' ← trigger_all (handlers vec) w; w'' ← eoi w';
    Done (mkDispatcher (<[Z.to_nat interrupt := mkHandlers false (handlers vec)]> (int_vectors d)), w'').
Proof. intros Hvec. unfold dispatch. rewrite Hvec. cbn [expect]. by rewrite res_bind_ret_l, force_lock_terminates. Qed.

Lemma trigger_all_app hs hs' w : trigger_all (hs ++ hs') w = w' ← trigger_all hs w; trigger_all hs' w'.
Proof.
  revert w. induction hs as [|h hs IH]; intros w; cbn; [done|]. rewrite res_bind_assoc.
  destruct (h w); cbn; [apply IH|done..].
Qed.

(** A handler assigned to a vector is triggered by the next interrupt of that
    vector, after the handlers that were assigned before. *)
Lemma assign_dispatch eoi d v h d' w :
  assign d v h = Done d' →
  ∃ vec, int_vectors d !! Z.to_nat (vector_number v) = Some vec ∧
    (∃ d'', dispatch eoi d' (vector_number v) w =
       w1 ← trigger_all (handlers vec) w; w2 ← h w1; w3 ← eoi w2; Done (d'', w3)) ∧
    (∀ n, n ≠ Z.to_nat (vector_number v) → int_vectors d' !! n = int_vectors d !! n).
Proof.
  unfold assign. destruct (int_vectors d !! _) as [vec|] eqn:Hvec; [|done]. intros [= <-].
  exists vec. split_and!; [done| |].
  - eexists. erewrite dispatch_eq by (apply list_lookup_insert_eq; by eapply lookup_lt_Some).
    cbn [handlers]. rewrite trigger_all_app, res_bind_assoc.
    destruct (trigger_all (handlers vec) w) as [w1| | |]; [|done..]. cbn [trigger_all].
    rewrite !res_bind_ret_l, res_bind_assoc. destruct (h w1); done.
  - intros n Hn. cbn. by rewrite list_lookup_insert_ne.
Qed.

(** A handler assigned to a vector is triggered by the next interrupt of that
    vector, after the handlers that were assigned before, and the interrupt ends
    with exactly one end-of-interrupt - whether or not the vector's lock was held. *)
Theorem assign_then_dispatch eoi d v h d' w :
  assign d v h = Done d' →
  ∃ vec, int_vectors d !! Z.to_nat (vector_number v) = Some vec ∧
    (∃ d'', dispatch eoi d' (vector_number v) w =
       w1 ← trigger_all (handlers vec) w; w2 ← h w1; w3 ← eoi w2; Done (d'', w3)) ∧
    (∀ n, n ≠ Z.to_nat (vector_number v) → int_vectors d' !! n = int_vectors d !! n).
Proof. apply assign_dispatch. Qed.

(** The dispatcher only has handler lists for the vectors below 224: with a
    dispatcher built by [new] and [assign], the local APIC's vectors (from [Cmci]
    to [Spurious], among them the configured timer, error and spurious vectors)
    can not be assigned, and dispatching any vector from 224 on panics. *)
Theorem high_vectors_unusable eoi d v h w interrupt :
  length (int_vectors d) = length (int_vectors dispatcher_new) →
  224 ≤ interrupt →
  (is_Some (match assign d v h with Done d' => Some d' | _ => None end) ↔ vector_number v < 224) ∧
  dispatch eoi d interrupt w = Panic "Interrupt Dispatcher: No handler vec assigned!".
Proof.
  intros Hlen Hi. rewrite dispatcher_new_length in Hlen. split.
  - unfold assign. destruct (int_vectors d !! _) as [vec|] eqn:Hvec.
    + apply lookup_lt_Some in Hvec. split; [lia|eauto].
    + apply lookup_ge_None in Hvec. split; [by intros []|].
      assert (0 ≤ vector_number v) by (by destruct v). lia.
  - unfold dispatch. rewrite lookup_ge_None_2 by lia. done.
Qed.

(** an interrupt without any handler is acknowledged silently: the check for a
    vector without handlers tests the lock guard instead of the handler list, so
    its panic is unreachable. *)
Theorem dispatch_without_handlers eoi d interrupt w vec :
  int_vectors d !! Z.to_nat interrupt = Some vec → handlers vec = [] →
  dispatch eoi d interrupt w =
    w' ← eoi w; Done (mkDispatcher (<[Z.to_nat interrupt := mkHandlers false []]> (int_vectors d)), w').
Proof. intros Hvec Hh. by rewrite (dispatch_eq _ _ _ _ _ Hvec), Hh. Qed.
End Dispatcher.
Arguments InterruptHandler : clear implicits.

(** [try_from] inverts the numbering of the vectors, for every vector but
    [Rtc], which the match of [try_from] leaves out. *)
Theorem try_from_correct value v :
  try_from value = Some v ↔ value = vector_number v ∧ v ≠ Rtc.
Proof.
  split.
  - intros Hf. apply List.find_some in Hf as [Hin Heq]. split; [by apply Z.eqb_eq in Heq|].
    intros ->. cbn in Hin. intuition discriminate.
  - intros [-> Hv]. by destruct v.
Qed.

(** ** Concrete inputs *)
Section Examples.

(** The world records what happened. *)
Definition demo_log (s : string) : InterruptHandler (list string) := fun w => Done (w ++ [s]).
Definition demo_dispatcher : InterruptDispatcher :=
  match assign dispatcher_new Pit (demo_log "first") with Done d => d | _ => dispatcher_new end.
Definition demo_dispatcher2 : InterruptDispatcher :=
  match assign demo_dispatcher Pit (demo_log "second") with Done d => d | _ => dispatcher_new end.

Lemma assign_then_dispatch_witness :
  ∃ d'', dispatch (demo_log "eoi") demo_dispatcher2 0x20 [] = Done (d'', ["first"; "second"; "eoi"]%string).
Proof.
  destruct (assign_then_dispatch (demo_log "eoi") demo_dispatcher Pit (demo_log "second") demo_dispatcher2 []
    eq_refl) as (vec & Hvec & [d'' Hd] & _).
  exists d''. change 0x20 with (vector_number Pit). rewrite Hd.
  vm_compute in Hvec. injection Hvec as <-. reflexivity.
Defined.

Lemma high_vectors_unusable_witness :
  dispatch (demo_log "eoi") (@dispatcher_new (list string)) 255 [] =
    Panic "Interrupt Dispatcher: No handler vec assigned!".
Proof.
  apply (high_vectors_unusable (demo_log "eoi") dispatcher_new Spurious (demo_log "spurious") [] 255); [done|lia].
Defined.

Lemma dispatch_without_handlers_witness :
  ∃ d', dispatch (demo_log "eoi") (@dispatcher_new (list string)) 0x2c [] = Done (d', ["eoi"]%string).
Proof.
  eexists. rewrite (dispatch_without_handlers (demo_log "eoi") dispatcher_new 0x2c [] (mkHandlers false []));
    reflexivity.
Defined.
End Examples.
