(* ===== verification/Descriptors.v ===== *)
(** * Segments, system call registers and interrupt gates

    [init_gdt] (os/kernel/src/boot.rs), [init] (os/kernel/src/syscall/syscall_dispatcher.rs)
    and [setup_idt] (os/kernel/src/interrupt/interrupt_dispatcher.rs) set up what the
    processor looks up on its own: segment selectors, the targets of system calls
    and the handlers of interrupts.  The tables and registers belong to the crate
    x86_64. *)

From S2P Require Import Prelude Physical Interrupts Machine Thread.
#[local] Open Scope Z_scope.

(** ** The global descriptor table *)

Inductive Descriptor := KernelCode | KernelData | UserCode | UserData | TaskState (tss : Z).

(** The number of words of a descriptor *)
Definition words_of (d : Descriptor) : Z := match d with TaskState _ => 2 | _ => 1 end.

(** [GlobalDescriptorTable]: [add_entry] appends to the table, which has eight words, the
    first of them for the null descriptor, and panics if there is no room. *)
Class GdtOps := {
  gdt : Type;
  gdt_new : gdt;
  add_entry : gdt → Descriptor → res gdt;
  (** The descriptor with an index, and the number of words that are used *)
  descriptor_at : gdt → Z → option Descriptor;
  used : gdt → Z;
}.
Class GdtLaws `{GdtOps} : Prop := {
  used_new : used gdt_new = 1;
  add_entry_ok g d : used g + words_of d ≤ 8 → ∃ g', add_entry g d = Done g' ∧ used g' = used g + words_of d ∧
    descriptor_at g' (used g) = Some d ∧ ∀ i, 0 ≤ i < used g → descriptor_at g' i = descriptor_at g i;
}.

(** [SegmentSelector::new]: the index above two bits for the privilege level and the
    bit that selects the global table *)
Class SelectorLaws `{SelectorOps} : Prop :=
  segment_selector_eq i rpl : 0 ≤ i < 8192 → 0 ≤ rpl < 4 → segment_selector i rpl = 8 * i + rpl.

(** The descriptor that a selector of the global table refers to *)
Definition refers `{GdtOps} (g : gdt) (sel : Z) (d : Descriptor) (rpl : Z) : Prop :=
  descriptor_at g (sel / 8) = Some d ∧ sel mod 8 = rpl.

(** Segment registers of the processor, and the table it uses *)
Record segments `{GdtOps} := mkSegments { gdtr : option gdt; tr : Z; cs : Z; ss : Z; ds : Z; es : Z; fs : Z; gs : Z }.

Section Gdt.
Context `{GdtOps} `{SelectorOps}.

(** The processor looks the selector up when it is loaded; a selector of another kind of
    segment is a general protection fault, for which there is no handler yet. *)
Definition lookup_selector (c : segments) (sel : Z) : option Descriptor :=
  match gdtr c with
  | Some g => if sel mod 8 =? 0 then descriptor_at g (sel / 8) else None
  | None => None
  end.
Definition general_protection {A} : res A := Undef "general protection fault".
Definition load_tss (sel : Z) (c : segments) : res segments :=
  match lookup_selector c sel with
  | Some (TaskState _) => Done (mkSegments _ (gdtr c) sel (cs c) (ss c) (ds c) (es c) (fs c) (gs c))
  | _ => general_protection
  end.
Definition set_cs (sel : Z) (c : segments) : res segments :=
  match lookup_selector c sel with
  | Some KernelCode => Done (mkSegments _ (gdtr c) (tr c) sel (ss c) (ds c) (es c) (fs c) (gs c))
  | _ => general_protection
  end.
Definition set_ss (sel : Z) (c : segments) : res segments :=
  match lookup_selector c sel with
  | Some KernelData => Done (mkSegments _ (gdtr c) (tr c) (cs c) sel (ds c) (es c) (fs c) (gs c))
  | _ => general_protection
  end.
(** The null selector is allowed in the other segment registers. *)
Definition null_segments (sel : Z) (c : segments) : segments :=
  mkSegments _ (gdtr c) (tr c) (cs c) (ss c) sel sel sel sel.

(** [init_gdt]; [tss] is the address of the task state segment. *)
Definition init_gdt (tss : Z) (g : gdt) (c : segments) : res (gdt * segments) :=
  g ← add_entry g KernelCode;
  g ← add_entry g KernelData;
  g ← add_entry g UserData;
  g ← add_entry g UserCode;
  g ← add_entry g (TaskState tss);
  let c := mkSegments _ (Some g) (tr c) (cs c) (ss c) (ds c) (es c) (fs c) (gs c) in
  c ← load_tss (segment_selector 5 0) c;
  c ← set_cs (segment_selector 1 0) c;
  c ← set_ss (segment_selector 2 0) c;
  Done (g, null_segments (segment_selector 0 0) c).
End Gdt.

(** ** System calls *)

(** [Star::write] of the selectors for [sysret] and [syscall]: the two bases that the
    processor computes the selectors from, or an error. *)
Class StarOps := { star_write : Z → Z → Z → Z → option (Z * Z) }.
Class StarLaws `{StarOps} : Prop :=
  star_write_ok cs_sysret ss_sysret cs_syscall ss_syscall :
    cs_sysret - 16 = ss_sysret - 8 → cs_syscall = ss_syscall - 8 → ss_sysret mod 4 = 3 → ss_syscall mod 4 = 0 →
    star_write cs_sysret ss_sysret cs_syscall ss_syscall = Some (ss_sysret - 8, cs_syscall).

(** EFER.SCE, STAR and LSTAR *)
Record msrs := mkMsrs { system_call_extensions : bool; star : Z * Z; lstar : Z }.

(** [init] *)
Definition syscall_init `{SelectorOps} `{StarOps} `{VirtAddrOps} (syscall_handler : Z) (m : msrs) : res msrs :=
  let m := mkMsrs true (star m) (lstar m) in
  let cs_syscall := segment_selector 1 0 in
  let ss_syscall := segment_selector 2 0 in
  let cs_sysret := segment_selector 4 3 in
  let ss_sysret := segment_selector 3 3 in
  match star_write cs_sysret ss_sysret cs_syscall ss_syscall with
  | None => Panic "System Call: Failed to initialize STAR register"
  | Some bases =>
      rip ← virt_addr_new syscall_handler;
      Done (mkMsrs (system_call_extensions m) bases rip)
  end.

(** The selectors that the processor loads for [syscall] and for [sysretq] *)
Definition syscall_cs (m : msrs) : Z := (star m).2.
Definition syscall_ss (m : msrs) : Z := (star m).2 + 8.
Definition sysret_cs (m : msrs) : Z := Z.lor ((star m).1 + 16) 3.
Definition sysret_ss (m : msrs) : Z := Z.lor ((star m).1 + 8) 3.

(** ** The interrupt descriptor table *)

Inductive gate := HandleException | HandleInterrupt | HandlePageFault.

(** Vectors that the processor reserves *)
Definition reserved (v : Z) : bool := (v =? 15) || ((22 <=? v) && (v <=? 27)) || (v =? 31).

(** [InterruptDescriptorTable] and the macro [set_general_handler!] with a range *)
Class IdtOps := {
  idt : Type;
  idt_new : idt;
  set_general_handler : idt → gate → (Z → bool) → idt;
  gate_of : idt → Z → option gate;
}.
Class IdtLaws `{IdtOps} : Prop := {
  gate_of_new v : gate_of idt_new v = None;
  set_general_handler_ok t h range v : 0 ≤ v < 256 → reserved v = false →
    gate_of (set_general_handler t h range) v = if range v then Some h else gate_of t v;
}.

Section Idt.
Context `{IdtOps} {World : Type}.

(** [setup_idt] *)
Definition setup_idt (t : idt) : idt :=
  let t := set_general_handler t HandleException (fun v => (0 <=? v) && (v <? 31)) in
  let t := set_general_handler t HandleInterrupt (fun v => (32 <=? v) && (v <? 255)) in
  set_general_handler t HandlePageFault (fun v => v =? 14).

(** [handle_exception], [handle_page_fault] and [handle_interrupt], without the texts that
    the messages are formatted with *)
Definition handle_exception {A} (index : Z) : res A := _ ← unwrap (try_from index); Panic "CPU Exception".
Definition handle_page_fault {A} : res A := Panic "Page Fault!".
Definition handle_interrupt (end_of_interrupt : World → res World) (d : InterruptDispatcher) (index : Z) (w : World) :=
  dispatch end_of_interrupt d index w.

(** What the processor does with an interrupt: it calls the handler of the vector's gate;
    a gate that is not present is an exception of its own. *)
Definition take_gate (end_of_interrupt : World → res World) (g : gate) (v : Z) (d : InterruptDispatcher) (w : World)
  : res (InterruptDispatcher * World) :=
  match g with
  | HandleException => handle_exception v
  | HandlePageFault => handle_page_fault
  | HandleInterrupt => handle_interrupt end_of_interrupt d v w
  end.
Definition interrupt (end_of_interrupt : World → res World) (t : idt) (v : Z) (d : InterruptDispatcher) (w : World) :=
  match gate_of t v with
  | Some g => take_gate end_of_interrupt g v d w
  | None =>
      match gate_of t (vector_number SegmentNotPresent) with
      | Some g => take_gate end_of_interrupt g (vector_number SegmentNotPresent) d w
      | None => Undef "no handler"
      end
  end.
End Idt.

(** ** Properties *)

Section Segments.
Context `{GdtLaws} `{SelectorLaws} `{StarLaws} `{VirtAddrLaws} `{Profile}.

Lemma selector_index i rpl : 0 ≤ i < 8192 → 0 ≤ rpl < 4 → segment_selector i rpl / 8 = i ∧ segment_selector i rpl mod 8 = rpl.
Proof.
  intros Hi Hr. rewrite segment_selector_eq by done. split; symmetry;
    [apply (Z.div_unique _ _ _ rpl)|apply (Z.mod_unique _ _ i)]; lia.
Qed.
Lemma refers_selector g i d rpl : 0 ≤ i < 8192 → 0 ≤ rpl < 4 → descriptor_at g i = Some d → refers g (segment_selector i rpl) d rpl.
Proof. intros Hi Hr Hd. unfold refers. destruct (selector_index i rpl Hi Hr) as [-> ->]. done. Qed.
Lemma lookup_selector_ok g t a b c d e f i desc : 0 ≤ i < 8192 → descriptor_at g i = Some desc →
  lookup_selector (mkSegments _ (Some g) t a b c d e f) (segment_selector i 0) = Some desc.
Proof. intros Hi Hd. unfold lookup_selector. cbn [gdtr]. destruct (selector_index i 0 Hi ltac:(lia)) as [-> ->]. done. Qed.

(** The table that [init_gdt] builds *)
Definition kernel_gdt (tss : Z) (g : gdt) : Prop :=
  descriptor_at g 1 = Some KernelCode ∧ descriptor_at g 2 = Some KernelData ∧ descriptor_at g 3 = Some UserData ∧
  descriptor_at g 4 = Some UserCode ∧ descriptor_at g 5 = Some (TaskState tss).

Lemma init_gdt_ok tss c : ∃ g c', init_gdt tss gdt_new c = Done (g, c') ∧ kernel_gdt tss g ∧ gdtr c' = Some g ∧
  tr c' = segment_selector 5 0 ∧ cs c' = segment_selector 1 0 ∧ ss c' = segment_selector 2 0.
Proof.
  unfold init_gdt. pose proof used_new as U0.
  destruct (add_entry_ok gdt_new KernelCode) as (g1 & -> & U1 & D1 & _); [cbn; lia|]. rewrite res_bind_ret_l.
  destruct (add_entry_ok g1 KernelData) as (g2 & -> & U2 & D2 & K2); [cbn in *; lia|]. rewrite res_bind_ret_l.
  destruct (add_entry_ok g2 UserData) as (g3 & -> & U3 & D3 & K3); [cbn in *; lia|]. rewrite res_bind_ret_l.
  destruct (add_entry_ok g3 UserCode) as (g4 & -> & U4 & D4 & K4); [cbn in *; lia|]. rewrite res_bind_ret_l.
  destruct (add_entry_ok g4 (TaskState tss)) as (g5 & -> & U5 & D5 & K5); [cbn in *; lia|]. rewrite res_bind_ret_l.
  cbn [words_of] in *. rewrite U0 in *. rewrite U1 in *. rewrite U2 in *. rewrite U3 in *. rewrite U4 in *.
  change (1 + 1) with 2 in *. change (2 + 1) with 3 in *. change (3 + 1) with 4 in *. change (4 + 1) with 5 in *.
  assert (kernel_gdt tss g5) as Hg.
  { unfold kernel_gdt. rewrite !K5, !K4, !K3, !K2 by lia. done. }
  pose proof Hg as (G1 & G2 & G3 & G4 & G5). cbn zeta. unfold load_tss, set_cs, set_ss.
  rewrite (lookup_selector_ok g5 _ _ _ _ _ _ _ 5 _ ltac:(lia) G5), res_bind_ret_l. cbn [gdtr tr cs ss ds es fs gs].
  rewrite (lookup_selector_ok g5 _ _ _ _ _ _ _ 1 _ ltac:(lia) G1), res_bind_ret_l. cbn [gdtr tr cs ss ds es fs gs].
  rewrite (lookup_selector_ok g5 _ _ _ _ _ _ _ 2 _ ltac:(lia) G2), res_bind_ret_l.
  eexists _, _. split; [reflexivity|]. done.
Qed.

(** C36: [init_gdt] raises no fault, [init] of the system calls does not panic, and every
    selector that the kernel or the processor loads refers to a descriptor of the
    right type and privilege: the kernel's code, data and task state after boot; the kernel's
    segments on a system call, the user's when it returns; and the user's segments in
    the frame with which a user thread is started. *)
Theorem selectors_have_types tss syscall_handler c m kickoff user_rsp : 0 ≤ syscall_handler < 2 ^ 47 →
  ∃ g c' m', init_gdt tss gdt_new c = Done (g, c') ∧ syscall_init syscall_handler m = Done m' ∧
    gdtr c' = Some g ∧ refers g (tr c') (TaskState tss) 0 ∧ refers g (cs c') KernelCode 0 ∧ refers g (ss c') KernelData 0 ∧
    system_call_extensions m' = true ∧ lstar m' = syscall_handler ∧
    refers g (syscall_cs m') KernelCode 0 ∧ refers g (syscall_ss m') KernelData 0 ∧
    refers g (sysret_cs m') UserCode 3 ∧ refers g (sysret_ss m') UserData 3 ∧
    (∀ sel, (5, sel) ∈ user_frame kickoff user_rsp → refers g sel UserCode 3) ∧
    (∀ sel, (2, sel) ∈ user_frame kickoff user_rsp → refers g sel UserData 3).
Proof.
  intros Hh. destruct (init_gdt_ok tss c) as (g & c' & Hinit & (G1 & G2 & G3 & G4 & G5) & Hg & Htr & Hcs & Hss).
  unfold syscall_init. rewrite star_write_ok by (rewrite !segment_selector_eq by lia; done).
  rewrite virt_addr_new_ok, res_bind_ret_l by done. eexists g, c', _. split; [done|split; [reflexivity|]].
  unfold syscall_cs, syscall_ss, sysret_cs, sysret_ss. cbn [star fst snd system_call_extensions lstar].
  assert (segment_selector 1 0 + 8 = segment_selector 2 0) as -> by (rewrite !segment_selector_eq by lia; done).
  assert (Z.lor (segment_selector 3 3 - 8 + 16) 3 = segment_selector 4 3) as -> by (rewrite !segment_selector_eq by lia; done).
  assert (Z.lor (segment_selector 3 3 - 8 + 8) 3 = segment_selector 3 3) as -> by (rewrite !segment_selector_eq by lia; done).
  rewrite Htr, Hcs, Hss. split_and!; try done; try (by apply refers_selector).
  - intros sel Hin. unfold user_frame in Hin. assert (sel = segment_selector 4 3) as -> by set_solver. by apply refers_selector.
  - intros sel Hin. unfold user_frame in Hin. assert (sel = segment_selector 3 3) as -> by set_solver. by apply refers_selector.
Qed.
End Segments.

Section Gates.
Context `{IdtLaws} {World : Type}.
Implicit Types (d : InterruptDispatcher (World := World)) (w : World).

Lemma setup_idt_gates v : 0 ≤ v < 256 → reserved v = false → gate_of (setup_idt idt_new) v =
  if v =? 14 then Some HandlePageFault else if (32 <=? v) && (v <? 255) then Some HandleInterrupt
  else if v <? 31 then Some HandleException else None.
Proof.
  intros Hv Hr. unfold setup_idt. rewrite !set_general_handler_ok, gate_of_new by done.
  by rewrite (proj2 (Z.leb_le 0 v)) by lia.
Qed.

Lemma exceptions_have_names v : 0 ≤ v < 31 → reserved v = false → is_Some (try_from v).
Proof.
  intros Hv. assert (Forall (fun v => reserved v = false → is_Some (try_from v)) (seqZ 0 31)) as Hall.
  { apply (bool_decide_unpack _). vm_compute. exact I. }
  rewrite Forall_forall in Hall. apply Hall. by apply elem_of_seqZ.
Qed.

(** C40: with the gates of [setup_idt], an exception of the processor panics with its name, a
    page fault with its own message, and the vectors from 32 to 254 are
    dispatched to the handlers that are assigned to them.  The last vector, 255, which
    [InterruptVector] names [Spurious] and the APIC is set up to use, has no gate: a
    spurious interrupt is an exception and panics. *)
Theorem interrupt_outcome end_of_interrupt v d w : 0 ≤ v < 256 → reserved v = false →
  interrupt end_of_interrupt (setup_idt idt_new) v d w =
    if v =? 14 then Panic "Page Fault!" else if v <? 32 then Panic "CPU Exception"
    else if v <? vector_number Spurious then dispatch end_of_interrupt d v w else Panic "CPU Exception".
Proof.
  intros Hv Hr. unfold interrupt. rewrite (setup_idt_gates v) by done. rewrite (setup_idt_gates (vector_number SegmentNotPresent)) by done.
  change (vector_number Spurious) with 255. destruct (Z.eqb_spec v 14); [done|].
  destruct (Z.leb_spec 32 v), (Z.ltb_spec v 255), (Z.ltb_spec v 32), (Z.ltb_spec v 31); cbn [andb take_gate]; try lia; try done.
  - destruct (exceptions_have_names v) as [x Hx]; [lia|done|]. unfold handle_exception. by rewrite Hx.
Qed.
End Gates.

(** ** Concrete tables *)

Section Examples.
#[local] Existing Instance demo_virt.
#[local] Existing Instance demo_virt_laws.
#[local] Existing Instance demo_selector.
#[local] Instance demo_selector_laws : SelectorLaws.
Proof.
  intros i rpl Hi Hr. cbn. rewrite Z.shiftl_mul_pow2 by lia. change (2 ^ 3) with 8.
  assert (Z.land (i * 8) rpl = 0) as Hd.
  { apply Z.bits_inj'. intros k Hk. rewrite Z.land_spec, Z.bits_0. destruct (Z.lt_ge_cases k 3) as [Hl|Hl].
    - change 8 with (2 ^ 3). by rewrite Z.mul_pow2_bits_low by lia.
    - assert (Z.testbit rpl k = false) as ->; [|by rewrite andb_false_r]. apply Z.testbit_false; [lia|].
      rewrite Z.div_small; [done|]. assert (2 ^ 3 ≤ 2 ^ k) by (apply Z.pow_le_mono_r; lia). lia. }
  pose proof (Z.add_lor_land (i * 8) rpl) as Ha. rewrite Hd in Ha. lia.
Qed.

(** The table as the list of its words; a descriptor of two words is followed by an empty one *)
Definition demo_add (g : list (option Descriptor)) (d : Descriptor) : res (list (option Descriptor)) :=
  if Z.of_nat (length g) + words_of d <=? 8 then Done (g ++ Some d :: match d with TaskState _ => [None] | _ => [] end)
  else Panic "GDT full".
#[local] Instance demo_gdt : GdtOps := {|
  gdt := list (option Descriptor); gdt_new := [None]; add_entry := demo_add;
  descriptor_at g i := default None (g !! Z.to_nat i); used g := Z.of_nat (length g);
|}.
#[local] Instance demo_gdt_laws : GdtLaws.
Proof.
  split; [done|]. intros g d Hroom. cbn in *. unfold demo_add. rewrite (proj2 (Z.leb_le _ _)) by done.
  eexists. split; [reflexivity|]. split_and!.
  - rewrite length_app. destruct d; cbn; lia.
  - rewrite Nat2Z.id. by rewrite list_lookup_middle.
  - intros i Hi. by rewrite lookup_app_l by lia.
Qed.
#[local] Instance demo_star : StarOps := {| star_write cs_sysret ss_sysret cs_syscall ss_syscall :=
  if (cs_sysret - 16 =? ss_sysret - 8) && (cs_syscall =? ss_syscall - 8) && (ss_sysret mod 4 =? 3) && (ss_syscall mod 4 =? 0)
  then Some (ss_sysret - 8, cs_syscall) else None |}.
#[local] Instance demo_star_laws : StarLaws.
Proof. intros a b c d H1 H2 H3 H4. cbn -[Z.modulo]. by rewrite (proj2 (Z.eqb_eq _ _) H1), (proj2 (Z.eqb_eq _ _) H2), (proj2 (Z.eqb_eq _ _) H3), (proj2 (Z.eqb_eq _ _) H4). Qed.

Lemma selectors_have_types_witness :
  ∃ g c' m', init_gdt 0x8000 gdt_new (mkSegments _ None 0 0 0 0 0 0 0) = Done (g, c') ∧ syscall_init 0x1000 (mkMsrs false (0, 0) 0) = Done m' ∧
    refers g (cs c') KernelCode 0 ∧ refers g (sysret_cs m') UserCode 3.
Proof.
  destruct (selectors_have_types 0x8000 0x1000 (mkSegments _ None 0 0 0 0 0 0 0) (mkMsrs false (0, 0) 0) 0 0) as
    (g & c' & m' & Hg & Hm & _ & _ & Hcs & _ & _ & _ & _ & _ & Hret & _); [lia|].
  exists g, c', m'. split; [exact Hg|split; [exact Hm|split; [exact Hcs|exact Hret]]].
Defined.

#[local] Instance demo_idt : IdtOps := {|
  idt := Z → option gate; idt_new := fun _ => None;
  set_general_handler t h range v := if range v && negb (reserved v) then Some h else t v; gate_of t v := t v;
|}.
#[local] Instance demo_idt_laws : IdtLaws.
Proof. split; [done|]. intros t h range v _ Hr. cbn. by rewrite Hr, andb_true_r. Qed.

Lemma interrupt_outcome_witness :
  interrupt (World := unit) (fun w => Done w) (setup_idt idt_new) 0x21 dispatcher_new tt = dispatch (fun w => Done w) dispatcher_new 0x21 tt ∧
  interrupt (World := unit) (fun w => Done w) (setup_idt idt_new) (vector_number Spurious) dispatcher_new tt = Panic "CPU Exception".
Proof.
  split.
  - exact (interrupt_outcome (fun w => Done w) 0x21 dispatcher_new tt ltac:(lia) eq_refl).
  - exact (interrupt_outcome (fun w => Done w) (vector_number Spurious) dispatcher_new tt ltac:(cbn; lia) eq_refl).
Defined.
End Examples.
