(* ===== verification/Apic.v ===== *)
(** * Routing of interrupt lines (os/kernel/src/device/apic.rs)

    The IO APIC's redirection table, as the constructor of [Apic] programs it
    from the source overrides and the non-maskable sources of the ACPI tables,
    and [allow], which opens the line of a vector.  The IO APIC itself and the
    local APIC are those of the crate x2apic. *)

From S2P Require Import Prelude Interrupts.
#[local] Open Scope Z_scope.

Inductive Polarity := SameAsBus | ActiveHigh | ActiveLow.
Inductive TriggerMode := SameAsBusMode | Edge | Level.
#[export] Instance Polarity_eq_dec : EqDecision Polarity.
Proof. solve_decision. Defined.
#[export] Instance TriggerMode_eq_dec : EqDecision TriggerMode.
Proof. solve_decision. Defined.

(** The structures of the crate acpi that [Apic] keeps. *)
Record InterruptSourceOverride := mkOverride {
  isa_source : Z;
  global_system_interrupt : Z;
  polarity : Polarity;
  trigger_mode : TriggerMode;
}.
Record NmiSource := mkNmi { nmi_gsi : Z; nmi_polarity : Polarity; nmi_trigger_mode : TriggerMode }.

(** What the setters of a redirection table entry set. *)
Inductive IrqMode := Fixed | NonMaskable.
Record RedirectionTableEntry := mkEntry {
  mode : IrqMode;
  dest : Z;
  vector : Z;
  masked : bool;
  low_active : bool;
  level_triggered : bool;
}.

(** The IO APIC of the crate x2apic. *)
Class IoApicOps := {
  IoApic : Type;
  (** the entry the device holds for a global system interrupt *)
  table_entry : IoApic → Z → RedirectionTableEntry;
  set_table_entry : Z → RedirectionTableEntry → IoApic → IoApic;
  enable_irq : Z → IoApic → IoApic;
  max_table_entry : IoApic → Z;
}.
Class IoApicLaws `{IoApicOps} : Prop := {
  table_entry_set i e io j : table_entry (set_table_entry i e io) j = if decide (j = i) then e else table_entry io j;
  table_entry_enable i io j :
    table_entry (enable_irq i io) j =
      if decide (j = i) then
        let e := table_entry io i in
        mkEntry (mode e) (dest e) (vector e) false (low_active e) (level_triggered e)
      else table_entry io j;
}.

(** [override_for_source] and [override_for_target] *)
Fixpoint override_for_source (irq_overrides : list InterruptSourceOverride) (source_irq : Z) :
    option InterruptSourceOverride :=
  match irq_overrides with
  | [] => None
  | irq_override :: rest =>
      if isa_source irq_override =? source_irq then Some irq_override else override_for_source rest source_irq
  end.
Fixpoint override_for_target (irq_overrides : list InterruptSourceOverride) (target_gsi : Z) :
    option InterruptSourceOverride :=
  match irq_overrides with
  | [] => None
  | irq_override :: rest =>
      if wrap 8 (global_system_interrupt irq_override) =? target_gsi then Some irq_override
      else override_for_target rest target_gsi
  end.

(** [target_gsi] *)
Definition target_gsi (irq_overrides : list InterruptSourceOverride) (source_irq : Z) : Z :=
  match override_for_source irq_overrides source_irq with
  | None => source_irq
  | Some irq_override => wrap 8 (global_system_interrupt irq_override)
  end.

(** [is_nmi] *)
Fixpoint is_nmi (nmi_sources : list NmiSource) (gsi : Z) : bool :=
  match nmi_sources with
  | [] => false
  | nmi :: rest => if nmi_gsi nmi =? gsi then true else is_nmi rest gsi
  end.

Section Apic.
Context `{IoApicOps} `{Profile}.

Record Apic := mkApic {
  local_apic_locked : bool;
  io_apic : IoApic;
  irq_overrides : list InterruptSourceOverride;
  nmi_sources : list NmiSource;
}.

(** [Apic::new]: the entry for the line [i]; [id] is the local APIC's. *)
Definition irq_entry (overrides : list InterruptSourceOverride) (id i : Z) : res RedirectionTableEntry :=
  match override_for_target overrides i with
  | None =>
      v ← add_w 8 i (vector_number Pit);
      Done (mkEntry Fixed (wrap 8 id) v true false false)
  | Some irq_override =>
      v ← add_w 8 (isa_source irq_override) (vector_number Pit);
      Done (mkEntry Fixed (wrap 8 id) v true
              (bool_decide (polarity irq_override = ActiveLow))
              (bool_decide (trigger_mode irq_override = Level)))
  end.

(** [Apic::new]: the loop over the lines [lines] of the redirection table *)
Fixpoint init_irqs (overrides : list InterruptSourceOverride) (id : Z) (lines : list Z) (io : IoApic) : res IoApic :=
  match lines with
  | [] => Done io
  | i :: lines' =>
      entry ← irq_entry overrides id i;
      init_irqs overrides id lines' (set_table_entry i entry io)
  end.

(** [Apic::new]: the loop over the non-maskable sources *)
Definition nmi_entry (id : Z) (nmi : NmiSource) : RedirectionTableEntry :=
  mkEntry NonMaskable (wrap 8 id) 0 false
    (bool_decide (nmi_polarity nmi = ActiveLow)) (bool_decide (nmi_trigger_mode nmi = Level)).
Fixpoint init_nmis (id : Z) (nmis : list NmiSource) (io : IoApic) : IoApic :=
  match nmis with
  | [] => io
  | nmi :: nmis' => init_nmis id nmis' (set_table_entry (wrap 8 (nmi_gsi nmi)) (nmi_entry id nmi) io)
  end.

(** [Apic::new]: programming the table of an initialized IO APIC, whose lines
    start at [base]; the range of the loop excludes its end. *)
Definition init_table (overrides : list InterruptSourceOverride) (nmis : list NmiSource) (id base : Z) (io : IoApic) :
    res IoApic :=
  io1 ← init_irqs overrides id (seqZ (wrap 8 base) (max_table_entry io - wrap 8 base)) io;
  Done (init_nmis id nmis io1).

(** [allow] *)
Definition allow (a : Apic) (v : InterruptVector) : res Apic :=
  source ← sub_w 8 (vector_number v) (vector_number Pit);
  let target := target_gsi (irq_overrides a) source in
  if is_nmi (nmi_sources a) target then Panic "Trying to mask a non-maskable interrupt"
  else Done (mkApic (local_apic_locked a) (enable_irq target (io_apic a)) (irq_overrides a) (nmi_sources a)).

(** [end_of_interrupt]; the write to the local APIC is a parameter. *)
Definition end_of_interrupt {World} (local_eoi : World → World) (a : Apic) (w : World) : res (Apic * World) :=
  _ ← force_lock 2 (local_apic_locked a);
  Done (mkApic false (io_apic a) (irq_overrides a) (nmi_sources a), local_eoi w).

(** ** Properties *)

Context `{!IoApicLaws}.

Lemma init_irqs_spec overrides id lines : ∀ io,
  NoDup lines → (∀ i, i ∈ lines → is_done (irq_entry overrides id i) = true) →
  ∃ io', init_irqs overrides id lines io = Done io' ∧
    (∀ i, i ∈ lines → irq_entry overrides id i = Done (table_entry io' i)) ∧
    (∀ i, i ∉ lines → table_entry io' i = table_entry io i).
Proof.
  induction lines as [|i lines IH]; intros io Hnd Hdone; cbn.
  { exists io. split_and!; [done|by intros i ?%elem_of_nil|done]. }
  apply NoDup_cons in Hnd as [Hi Hnd].
  pose proof (Hdone i ltac:(by left)) as Hei. destruct (irq_entry overrides id i) as [e| | |] eqn:E; try done.
  rewrite res_bind_ret_l.
  destruct (IH (set_table_entry i e io) Hnd) as (io' & -> & Hin & Hout); [intros j Hj; apply Hdone; by right|].
  exists io'. split_and!; [done| |].
  - intros j [->|Hj]%elem_of_cons; [|by apply Hin].
    rewrite Hout, table_entry_set, decide_True by done. by rewrite E.
  - intros j [Hji Hj]%not_elem_of_cons. rewrite Hout, table_entry_set, decide_False by done. done.
Qed.

Lemma init_nmis_other id nmis i : ∀ io,
  (∀ nmi, nmi ∈ nmis → wrap 8 (nmi_gsi nmi) ≠ i) → table_entry (init_nmis id nmis io) i = table_entry io i.
Proof.
  induction nmis as [|nmi nmis IH]; intros io Hother; cbn; [done|].
  rewrite IH by (intros n Hn; apply Hother; by right).
  rewrite table_entry_set, decide_False; [done|]. intros ->. by apply (Hother nmi); [left|].
Qed.

Lemma override_for_target_spec overrides i :
  match override_for_target overrides i with
  | Some o => o ∈ overrides ∧ wrap 8 (global_system_interrupt o) = i
  | None => ∀ o, o ∈ overrides → wrap 8 (global_system_interrupt o) ≠ i
  end.
Proof.
  induction overrides as [|o overrides IH]; cbn; [by intros o ?%elem_of_nil|].
  destruct (Z.eqb_spec (wrap 8 (global_system_interrupt o)) i); [split; [by left|done]|].
  destruct (override_for_target overrides i).
  - destruct IH. split; [by right|done].
  - intros o' [->|Ho']%elem_of_cons; [done|by apply IH].
Qed.

Lemma override_for_source_spec overrides source o :
  override_for_source overrides source = Some o → o ∈ overrides.
Proof.
  induction overrides as [|o' overrides IH]; cbn; [done|].
  destruct (_ =? _); [intros [= ->]; by left|intros; right; auto].
Qed.

(** The entry of the line that a source is routed to has the source's vector. *)
Lemma irq_entry_vector overrides id source :
  0 ≤ source → source + 0x20 < 256 →
  (∀ o, o ∈ overrides → wrap 8 (global_system_interrupt o) = target_gsi overrides source → isa_source o = source) →
  ∃ e, irq_entry overrides id (target_gsi overrides source) = Done e ∧ vector e = source + 0x20 ∧ mode e = Fixed.
Proof.
  intros Hs Hlt Hcons. unfold irq_entry. change (vector_number Pit) with 0x20.
  pose proof (override_for_target_spec overrides (target_gsi overrides source)) as Ht.
  destruct (override_for_target _ _) as [o|].
  - destruct Ht as [Ho Heq]. rewrite (Hcons o Ho Heq), add_w_ok, res_bind_ret_l by lia. eauto.
  - assert (target_gsi overrides source = source) as ->.
    { unfold target_gsi in *. destruct (override_for_source overrides source) as [o|] eqn:E; [|done].
      apply override_for_source_spec in E. by destruct (Ht o E). }
    rewrite add_w_ok, res_bind_ret_l by lia. eauto.
Qed.

Lemma allow_routes overrides nmis id base io v :
  let source := vector_number v - 0x20 in
  let line := target_gsi overrides source in
  0 ≤ source → base = wrap 8 base →
  (∀ o, o ∈ overrides → wrap 8 (global_system_interrupt o) = line → isa_source o = source) →
  (∀ i, base ≤ i < max_table_entry io → is_done (irq_entry overrides id i) = true) →
  base ≤ line < max_table_entry io →
  (∀ nmi, nmi ∈ nmis → wrap 8 (nmi_gsi nmi) ≠ line ∧ nmi_gsi nmi ≠ line) →
  ∃ io1 a, init_table overrides nmis id base io = Done io1 ∧
    allow (mkApic false io1 overrides nmis) v = Done a ∧
    vector (table_entry (io_apic a) line) = vector_number v ∧
    mode (table_entry (io_apic a) line) = Fixed ∧ masked (table_entry (io_apic a) line) = false ∧
    (∀ i, i ≠ line → table_entry (io_apic a) i = table_entry io1 i).
Proof.
  intros source line Hs Hbase Hcons Hdone Hline Hnmi.
  assert (vector_number v < 256) as Hv by (by destruct v).
  unfold init_table. rewrite <-Hbase.
  destruct (init_irqs_spec overrides id (seqZ base (max_table_entry io - base)) io) as (io1 & -> & Hin & _).
  { apply NoDup_seqZ. }
  { intros i Hi%elem_of_seqZ. apply Hdone. lia. }
  rewrite res_bind_ret_l.
  destruct (irq_entry_vector overrides id source Hs ltac:(unfold source; lia) Hcons) as (e & He & Hvec & Hmode).
  assert (table_entry (init_nmis id nmis io1) line = e) as Hentry.
  { rewrite init_nmis_other by (intros; by apply Hnmi).
    assert (line ∈ seqZ base (max_table_entry io - base)) as Hl by (apply elem_of_seqZ; lia).
    apply Hin in Hl. unfold line in *. congruence. }
  eexists _, _. split; [done|]. unfold allow. cbn [irq_overrides nmi_sources io_apic].
  change (vector_number Pit) with 0x20. rewrite sub_w_ok, res_bind_ret_l by lia. fold source line.
  assert (is_nmi nmis line = false) as ->.
  { clear -Hnmi. induction nmis as [|nmi nmis IH]; cbn; [done|].
    destruct (Z.eqb_spec (nmi_gsi nmi) line) as [Heq|_]; [by destruct (Hnmi nmi ltac:(by left))|].
    apply IH. intros n Hn. apply Hnmi. by right. }
  split; [done|]. cbn [io_apic]. rewrite table_entry_enable, decide_True, Hentry by done. cbn.
  split_and!; [unfold source in Hvec; lia|done|done|].
  intros i Hi. by rewrite table_entry_enable, decide_False.
Qed.

(** Opening the line of a device vector routes it as intended: when no other
    source is redirected to the same line, the line is inside the programmed part
    of the table and no NMI source uses it, [allow] unmasks exactly one entry of
    the table, in fixed mode and with that vector. *)
Theorem allow_routes_vector overrides nmis id base io v :
  let source := vector_number v - 0x20 in
  let line := target_gsi overrides source in
  0 ≤ source → base = wrap 8 base →
  (∀ o, o ∈ overrides → wrap 8 (global_system_interrupt o) = line → isa_source o = source) →
  (∀ i, base ≤ i < max_table_entry io → is_done (irq_entry overrides id i) = true) →
  base ≤ line < max_table_entry io →
  (∀ nmi, nmi ∈ nmis → wrap 8 (nmi_gsi nmi) ≠ line ∧ nmi_gsi nmi ≠ line) →
  ∃ io1 a, init_table overrides nmis id base io = Done io1 ∧
    allow (mkApic false io1 overrides nmis) v = Done a ∧
    vector (table_entry (io_apic a) line) = vector_number v ∧
    mode (table_entry (io_apic a) line) = Fixed ∧ masked (table_entry (io_apic a) line) = false ∧
    (∀ i, i ≠ line → table_entry (io_apic a) i = table_entry io1 i).
Proof. apply allow_routes. Qed.

(** the last line of the IO APIC is never programmed: the loop of [Apic::new]
    stops before [max_table_entry], which is the number of the last entry, so the
    entry stays as the IO APIC's own initialization left it and ignores its source
    override, unless an NMI source sits on it. *)
Theorem last_line_not_programmed overrides nmis id base io io1 :
  base = wrap 8 base → (∀ nmi, nmi ∈ nmis → wrap 8 (nmi_gsi nmi) ≠ max_table_entry io) →
  (∀ i, base ≤ i < max_table_entry io → is_done (irq_entry overrides id i) = true) →
  init_table overrides nmis id base io = Done io1 →
  table_entry io1 (max_table_entry io) = table_entry io (max_table_entry io).
Proof.
  intros Hbase Hnmi Hdone. unfold init_table. rewrite <-Hbase.
  destruct (init_irqs_spec overrides id (seqZ base (max_table_entry io - base)) io) as (io2 & -> & _ & Hout).
  { apply NoDup_seqZ. }
  { intros i Hi%elem_of_seqZ. apply Hdone. lia. }
  rewrite res_bind_ret_l. intros [= <-]. rewrite init_nmis_other by done. apply Hout.
  rewrite elem_of_seqZ. lia.
Qed.
End Apic.

(** ** Concrete inputs *)
Section Examples.
#[local] Existing Instance development.

(** An IO APIC as a table of 24 entries. *)
#[local] Instance demo_ops : IoApicOps := {|
  IoApic := Z → RedirectionTableEntry;
  table_entry io := io;
  set_table_entry i e io := fun j => if decide (j = i) then e else io j;
  enable_irq i io := fun j =>
    if decide (j = i) then
      let e := io i in mkEntry (mode e) (dest e) (vector e) false (low_active e) (level_triggered e)
    else io j;
  max_table_entry _ := 23;
|}.
#[local] Instance demo_laws : IoApicLaws.
Proof. by split. Qed.

Definition demo_io : IoApic := fun i => mkEntry Fixed 0 i true false false.
(** The override of every PC: the timer (source 0) is connected to line 2. *)
Definition demo_overrides : list InterruptSourceOverride := [mkOverride 0 2 SameAsBus SameAsBusMode].

Lemma demo_entries i : 0 ≤ i < 23 → is_done (irq_entry demo_overrides 0 i) = true.
Proof.
  intros Hi. assert (i ∈ seqZ 0 23) as Hin by (by apply elem_of_seqZ).
  clear Hi. revert i Hin. apply Forall_forall. by repeat constructor.
Qed.

Lemma allow_routes_vector_witness :
  ∃ io1 a, init_table demo_overrides [] 0 0 demo_io = Done io1 ∧
    allow (mkApic false io1 demo_overrides []) Pit = Done a ∧ vector (io_apic a 2) = 0x20.
Proof.
  destruct (allow_routes_vector demo_overrides [] 0 0 demo_io Pit) as (io1 & a & ? & ? & ? & _);
    [done|done| |apply demo_entries|done|by intros n ?%elem_of_nil|eauto].
  intros o [->|[]%elem_of_nil]%elem_of_cons. done.
Defined.

Lemma last_line_not_programmed_witness :
  vector (match init_table demo_overrides [] 0 0 demo_io with Done io => io 23 | _ => demo_io 0 end) = 23.
Proof.
  destruct (init_table demo_overrides [] 0 0 demo_io) as [io1| | |] eqn:E; [|vm_compute in E; discriminate..].
  assert (table_entry io1 23 = table_entry demo_io 23) as Heq.
  { apply (last_line_not_programmed demo_overrides [] 0 0 demo_io io1);
      [done|by intros n ?%elem_of_nil|apply demo_entries|done]. }
  exact (f_equal vector Heq).
Defined.
End Examples.
