(* ===== verification/ApicInit.v ===== *)
(** * Detecting and mapping the APIC (os/kernel/src/device/apic.rs)

    [Apic::new] checks what the processor and the ACPI tables describe, maps the
    registers of the local APIC and of the IO APIC into the current address space
    (Paging.v), initializes both and programs the redirection table (Apic.v).  The
    processor's features, the parsed tables and the two devices belong to the
    crates raw-cpuid, acpi and x2apic. *)

From S2P Require Import Interrupts Apic.
From S2P Require Import Prelude Frames Physical Paging PagingMap PagingCount PagingAlloc PagingSpace PagingCopy AddressSpaces.
#[local] Open Scope Z_scope.

(** What the MADT describes *)
Record IoApicDesc := mkIoApicDesc { address : Z; global_system_interrupt_base : Z }.
Record ApicDesc := mkApicDesc {
  io_apics : list IoApicDesc;
  interrupt_source_overrides : list InterruptSourceOverride;
  desc_nmi_sources : list NmiSource;
}.
(** The enumeration is non-exhaustive. *)
Inductive InterruptModel := Unknown | ApicModel (desc : ApicDesc) | OtherModel.

(** The two devices, as the crate creates them *)
Class ApicDevices `{IoApicOps} := {
  LocalApic : Type;
  (** [LocalApicBuilder] with the vectors for timer, errors and spurious interrupts and the
      address of the registers; building can fail *)
  build_local_apic : Z → Z → Z → Z → option LocalApic;
  local_apic_id : LocalApic → Z;
  enable : LocalApic → LocalApic;
  disable_timer : LocalApic → LocalApic;
  (** [IoApic::new] with the address of the registers, and [init] *)
  io_apic_new : Z → IoApic;
  io_apic_init : Z → IoApic → IoApic;
}.

Section ApicInit.
Context `{Profile} `{FrameAllocator} `{PageOps} `{EntryOps} `{ApicDevices}.

(** The page of a device's registers, which is mapped uncached *)
Definition device_page (msg : string) (address : Z) : res Page :=
  page ← page_from_start address;
  expect msg page.
Definition map_device (cr3 : Z) (spaces : list AddressSpace) (page : Page) (s : vm) : res vm :=
  a ← current_address_space cr3 spaces;
  last ← page_add page 1;
  m ← map_space a (mkPages page last) Kernel DEVICE_FLAGS s;
  Done m.2.

(** [Apic::new]: the IO APIC of the interrupt model *)
Definition new_io_apic (id cr3 : Z) (spaces : list AddressSpace) (int_model : InterruptModel) (s : vm) : res (Apic * vm) :=
  match int_model with
  | Unknown => Panic "No APIC described by MADT!"
  | ApicModel apic_desc =>
      if bool_decide (1 < length (io_apics apic_desc))%nat then Panic "More than one IO APIC found!"
      else
        io_apic_desc ← expect "No IO APIC described by MADT!" (io_apics apic_desc !! 0%nat);
        io_apic_page ← device_page "IO Apic MMIO address is not page aligned!" (address io_apic_desc);
        s ← map_device cr3 spaces io_apic_page s;
        let base := global_system_interrupt_base io_apic_desc in
        let io := io_apic_init (wrap 8 base) (io_apic_new (page_addr io_apic_page)) in
        let irq_overrides := interrupt_source_overrides apic_desc in
        let nmi_sources := desc_nmi_sources apic_desc in
        io ← init_table irq_overrides nmi_sources id base io;
        Done (mkApic false io irq_overrides nmi_sources, s)
  | OtherModel => Panic "No APIC described by MADT!"
  end.

(** [Apic::new].  [features] says whether the processor's features can be read and whether they
    include the APIC, [madt] (the access to the ACPI tables) whether the table is found and can be parsed. *)
Definition apic_new (features : option bool) (madt : res (option (option InterruptModel))) (xapic_base cr3 : Z)
    (spaces : list AddressSpace) (s : vm) : res (Apic * LocalApic * vm) :=
  match features with
  | None => Panic "APIC: Failed to read CPU ID features!"
  | Some has_apic =>
      if negb has_apic then Panic "APIC not available on this system!"
      else
        madt ← madt;
        madt ← expect "MADT not available!" madt;
        int_model ← expect "Interrupt model not found in MADT!" madt;
        apic_page ← device_page "Local Apic MMIO address is not page aligned!" xapic_base;
        s ← map_device cr3 spaces apic_page s;
        local_apic ← expect "Failed to initialize Local APIC!"
          (build_local_apic (vector_number ApicTimer) (vector_number ApicError) (vector_number Spurious) (page_addr apic_page));
        r ← new_io_apic (local_apic_id local_apic) cr3 spaces int_model s;
        Done (r.1, disable_timer (enable local_apic), r.2)
  end.
End ApicInit.

(** ** The mapping of the registers *)

Section Mapped.
Context `{Profile} `{FrameAllocatorLaws} `{!PhysFrameLaws} `{PageLaws} `{EntryLaws} `{ApicDevices}.

(** The address of a device's registers *)
Definition device_address (x : Z) : Prop := 0 ≤ x ∧ x mod FRAME_SIZE = 0 ∧ x / FRAME_SIZE + 1 < LOWER_HALF.

(** The pages that mapping one page maps: it, and those behind it by which it is extended ([upto]) *)
Definition device_pages (x p : Z) : bool := (x / FRAME_SIZE <=? p) && (p <? upto (x / FRAME_SIZE) (x / FRAME_SIZE + 1)).

Lemma device_page_ok msg x : device_address x → ∃ page, device_page msg x = Done page ∧ pn page = x / FRAME_SIZE ∧ page_addr page = x.
Proof.
  intros (Hx & Hal & Hhalf). destruct (page_from_start_ok x) as (page & Hp & Hpn); [|done|].
  { apply Z.mod_divide in Hal as [k ->]; [|done]. rewrite Z.div_mul in Hhalf by done. unfold FRAME_SIZE in *. lia. }
  exists page. unfold device_page. rewrite Hp, res_bind_ret_l. split; [done|]. split; [done|].
  rewrite page_addr_pn, Hpn. apply Z.mod_divide in Hal as [k ->]; [|done]. rewrite Z.div_mul by done. lia.
Qed.

(** An entry of a page in the set [ps] is mapped to the page itself, uncached, and others are kept. *)
Definition uncached (b : AddressSpace) (ps : Z → bool) (s s' : vm) : Prop := ∀ p, 0 ≤ p < span 4 →
  if ps p then entry_addr (entry_of b s' p) = FRAME_SIZE * p ∧ entry_flags (entry_of b s' p) = DEVICE_FLAGS
  else entry_of b s' p = entry_of b s p.

Lemma uncached_or b ps ps' s s1 s2 : uncached b ps s s1 → uncached b ps' s1 s2 → uncached b (fun p => ps p || ps' p) s s2.
Proof.
  intros Hfst Hsnd p Hp. specialize (Hfst p Hp). specialize (Hsnd p Hp). cbn beta in *.
  destruct (ps' p); rewrite ?orb_true_r, ?orb_false_r; [done|]. by rewrite Hsnd.
Qed.

(** One device takes at most three frames for page tables. *)
Lemma map_device_ok cr3 spaces b page O F s n :
  current_address_space cr3 spaces = Done b → depth b = 4%nat → space_ok b O F s → left_over s n →
  0 ≤ pn page → pn page + 1 < LOWER_HALF → 3 ≤ n Kernel →
  ∃ s' O' F' n', map_device cr3 spaces page s = Done s' ∧ space_ok b O' F' s' ∧ left_over s' n' ∧ n Kernel - 3 ≤ n' Kernel ∧
    uncached b (fun p => (pn page <=? p) && (p <? upto (pn page) (pn page + 1))) s s'.
Proof.
  intros Hb Hd Hok Hl Hp Hhalf Hn. destruct (page_add_ok page 1) as (last & Hlast & Hpl); [done|done|].
  assert (LOWER_HALF < span (depth b)) as Hspan by (by rewrite Hd).
  assert (table_cost Kernel 4 (ptes s) (root_table b) (pn page) (pn page + 1) Kernel ≤ 3) as Hcost.
  { etransitivity; [apply kernel_cost_tables; lia|]. cbn [tables]. unfold tables_at.
    replace (pn page + 1 - 1) with (pn page) by lia. lia. }
  destruct (total_done _ _ _ _ _ (map_space_total b (mkPages page last) Kernel DEVICE_FLAGS O F s n Hok ltac:(lia)
    ltac:(cbn; lia) ltac:(cbn; lia) ltac:(cbn; lia) device_flags_ok Hl)) as ([m s'] & Hrun & (_ & O' & F' & g & Hok' & _ & Hg & Hmap) & Hleft).
  { apply affordable_spec. cbn [pstart pend]. rewrite Hd, Hpl. intros []; [lia|rewrite kernel_cost_user; by eapply left_over_nonneg]. }
  cbn [fst snd pstart pend] in *. rewrite Hd, Hpl in *.
  eexists s', O', F', _. split; [unfold map_device; by rewrite Hb, res_bind_ret_l, Hlast, res_bind_ret_l, Hrun|].
  split; [done|split; [exact Hleft|split; [unfold less; lia|]]].
  intros p Hpr. specialize (Hmap p Hpr). cbn beta.
  destruct (Z.leb_spec (pn page) p), (Z.ltb_spec p (upto (pn page) (pn page + 1))); cbn [andb] in *; try done.
  destruct Hmap as [Ha Hf]. split; [|done]. rewrite Ha. apply Hg. lia.
Qed.

(** C31: on a system with an APIC whose tables describe one IO APIC, [Apic::new] maps the registers of
    both devices to themselves and uncached in the current address space, with at most six frames for page
    tables.  Each of the two pages is mapped together with as many pages behind it as lie before it in its last-level table, at most
    to the table's end ([device_pages]); pages outside of these do not change.
    It then hands the devices their addresses and vectors, programs the redirection table from the
    overrides and non-maskable sources of the tables (it panics only if a vector number overflows), and leaves
    the local APIC enabled with its timer disabled. *)
Theorem apic_new_maps_devices la d desc xapic_base cr3 spaces b O F s n :
  current_address_space cr3 spaces = Done b → depth b = 4%nat → space_ok b O F s → left_over s n → 6 ≤ n Kernel →
  device_address xapic_base → device_address (address desc) → io_apics d = [desc] →
  build_local_apic (vector_number ApicTimer) (vector_number ApicError) (vector_number Spurious) xapic_base = Some la →
  ∃ s' n', uncached b (fun p => device_pages xapic_base p || device_pages (address desc) p) s s' ∧
    left_over s' n' ∧ n Kernel - 6 ≤ n' Kernel ∧
    apic_new (Some true) (Done (Some (Some (ApicModel d)))) xapic_base cr3 spaces s =
      (io ← init_table (interrupt_source_overrides d) (desc_nmi_sources d) (local_apic_id la) (global_system_interrupt_base desc)
              (io_apic_init (wrap 8 (global_system_interrupt_base desc)) (io_apic_new (address desc)));
       Done (mkApic false io (interrupt_source_overrides d) (desc_nmi_sources d), disable_timer (enable la), s')).
Proof.
  intros Hb Hd Hok Hl Hn Hx Hio Hone Hla.
  destruct (device_page_ok "Local Apic MMIO address is not page aligned!" xapic_base Hx) as (p1 & Hp1 & Hpn1 & Ha1).
  destruct (device_page_ok "IO Apic MMIO address is not page aligned!" (address desc) Hio) as (p2 & Hp2 & Hpn2 & Ha2).
  assert (∀ x, device_address x → 0 ≤ x / FRAME_SIZE ∧ x / FRAME_SIZE + 1 < LOWER_HALF) as Hrange
    by (intros x (Hx0 & _ & Hx1); split; [by apply Z.div_pos|done]).
  destruct (map_device_ok cr3 spaces b p1 O F s n Hb Hd Hok Hl) as (s1 & O1 & F1 & n1 & Hm1 & Hok1 & Hl1 & Hn1 & Hu1);
    [rewrite Hpn1; by apply Hrange..|lia|].
  destruct (map_device_ok cr3 spaces b p2 O1 F1 s1 n1 Hb Hd Hok1 Hl1) as (s2 & O2 & F2 & n2 & Hm2 & _ & Hl2 & Hn2 & Hu2);
    [rewrite Hpn2; by apply Hrange..|lia|].
  exists s2, n2. split; [|split; [done|split; [lia|]]].
  - rewrite Hpn1 in Hu1. rewrite Hpn2 in Hu2. by eapply uncached_or.
  - unfold apic_new. cbn [negb]. rewrite res_bind_ret_l. cbn [expect]. rewrite res_bind_ret_l. cbn [expect]. rewrite res_bind_ret_l, Hp1, res_bind_ret_l, Hm1, res_bind_ret_l, Ha1, Hla.
    cbn [expect]. rewrite res_bind_ret_l. unfold new_io_apic. rewrite Hone. cbn [length].
    rewrite bool_decide_false by lia. change ([desc] !! 0%nat) with (Some desc). cbn [expect]. rewrite res_bind_ret_l.
    rewrite Hp2, res_bind_ret_l, Hm2, res_bind_ret_l, Ha2.
    rewrite res_bind_assoc. by destruct (init_table _ _ _ _ _).
Qed.
End Mapped.

(** ** A machine with one IO APIC, after boot *)

Section Examples.
#[local] Existing Instance development.
#[local] Existing Instance demo_layout.
#[local] Existing Instance demo_ops.

(** The local APIC: its vectors and address, and whether it and its timer are on *)
#[local] Instance demo_devices : ApicDevices := {|
  LocalApic := (Z * Z * Z * Z) * (bool * bool);
  build_local_apic timer error spurious base := Some ((timer, error, spurious, base), (false, true));
  local_apic_id _ := 0;
  enable la := (la.1, (true, la.2.2));
  disable_timer la := (la.1, (la.2.1, false));
  io_apic_new _ := demo_io;
  io_apic_init _ io := io;
|}.
Definition demo_local (on timer : bool) : LocalApic :=
  ((vector_number ApicTimer, vector_number ApicError, vector_number Spurious, 0xfee00000), (on, timer)).
Definition demo_desc : IoApicDesc := mkIoApicDesc 0xfec00000 0.
Definition demo_madt : ApicDesc := mkApicDesc [demo_desc] demo_overrides [].

Lemma apic_new_maps_devices_witness :
  ∃ io s', apic_new (Some true) (Done (Some (Some (ApicModel demo_madt)))) 0xfee00000 (root_table demo_booted.1) [demo_booted.1] demo_booted.2 =
      Done (mkApic false io demo_overrides [], demo_local true false, s') ∧
    vector (io 2) = vector_number Pit ∧
    entry_addr (entry_of demo_booted.1 s' 0xfee00) = 0xfee00000 ∧ entry_flags (entry_of demo_booted.1 s' 0xfec00) = DEVICE_FLAGS.
Proof.
  destruct demo_booted_ok as (O & F & n & Hok & Hd & _ & Hl & Hnk & _).
  assert (current_address_space (root_table demo_booted.1) [demo_booted.1] = Done demo_booted.1) as Hcur
    by (unfold current_address_space; cbn [List.find]; rewrite Z.eqb_refl; reflexivity).
  destruct (apic_new_maps_devices (demo_local false true) demo_madt demo_desc 0xfee00000 _ _ demo_booted.1 O F
    demo_booted.2 n Hcur Hd Hok Hl) as (s' & n' & Hmap & _ & _ & Hrun);
    [rewrite Hnk; lia|vm_compute; intuition congruence|vm_compute; intuition congruence|reflexivity|reflexivity|].
  destruct (init_table demo_overrides [] 0 0 demo_io) as [io| | |] eqn:Hio; [|vm_compute in Hio; discriminate..].
  exists io, s'. split; [|split; [|split]].
  - etransitivity; [exact Hrun|]. exact (f_equal (fun m => io ← m; Done _) Hio).
  - vm_compute in Hio. injection Hio as <-. reflexivity.
  - exact (proj1 (Hmap 0xfee00 ltac:(vm_compute; intuition congruence))).
  - exact (proj2 (Hmap 0xfec00 ltac:(vm_compute; intuition congruence))).
Defined.
End Examples.
