(* ===== verification/Drivers.v ===== *)
(** * Drivers that plug in, and the way of an interrupt to them

    [Timer::plugin] (os/kernel/src/device/pit.rs) and [Keyboard::plugin]
    (os/kernel/src/device/ps2.rs) assign a handler (Interrupts.v) and open the line of
    its vector (Apic.v).  With the gates of Descriptors.v this file follows an
    interrupt from the line to the handler. *)

From S2P Require Import Prelude Interrupts Descriptors Apic.
#[local] Open Scope Z_scope.

Section Drivers.
Context `{IdtOps} `{IoApicOps} `{Profile} {World : Type}.
Implicit Types (d : InterruptDispatcher (World := World)) (w : World).

(** [Timer::plugin] and [Keyboard::plugin], for the vector and the handler of the driver: [assign] at the
    dispatcher, then [allow] at the APIC *)
Definition plugin (v : InterruptVector) (handler : InterruptHandler World) d (a : Apic) : res (InterruptDispatcher * Apic) :=
  d ← assign d v handler;
  a ← allow a v;
  Done (d, a).

(** A device raises its line: the IO APIC drops the interrupt or sends the vector of the
    line's entry to the processor. *)
Definition raise (end_of_interrupt : World → res World) (t : idt) (a : Apic) (line : Z) d w : res (InterruptDispatcher * World) :=
  let e := table_entry (io_apic a) line in
  if masked e then Done (d, w) else interrupt end_of_interrupt t (vector e) d w.
End Drivers.

Section Delivery.
Context `{IdtLaws} `{IoApicLaws} `{Profile} {World : Type}.
Implicit Types (d : InterruptDispatcher (World := World)) (w : World).

(** The vectors of the interrupt lines have a gate that dispatches them. *)
Lemma interrupt_dispatched eoi v d w : 32 ≤ v < 255 → interrupt eoi (setup_idt idt_new) v d w = dispatch eoi d v w.
Proof.
  intros Hv. unfold interrupt. rewrite setup_idt_gates by (lia || (unfold reserved; repeat case_Z; cbn; lia || done)).
  destruct (Z.eqb_spec v 14); [lia|]. by rewrite (proj2 (Z.leb_le _ _)), (proj2 (Z.ltb_lt _ _)) by lia.
Qed.

(** C30: a plugged-in driver receives the interrupts of its device.  Let the redirection table be programmed by
    [Apic::new] and the gates by [setup_idt].  Plugging in a handler for a vector of a device succeeds, if the
    dispatcher has a list for it, no other source is redirected to the device's line, the line is in the programmed
    part of the table and no non-maskable source uses it.  It changes no other line and no other vector.  When the device then raises its
    line, the handlers that were assigned to the vector before run, then this handler, then the interrupt is ended. *)
Theorem plugged_line_runs_handler eoi overrides nmis id base io v h d w :
  let source := vector_number v - 0x20 in
  let line := target_gsi overrides source in
  0 ≤ source → base = wrap 8 base →
  (∀ o, o ∈ overrides → wrap 8 (global_system_interrupt o) = line → isa_source o = source) →
  (∀ i, base ≤ i < max_table_entry io → is_done (irq_entry overrides id i) = true) →
  base ≤ line < max_table_entry io →
  (∀ nmi, nmi ∈ nmis → wrap 8 (nmi_gsi nmi) ≠ line ∧ nmi_gsi nmi ≠ line) →
  vector_number v < Z.of_nat (length (int_vectors d)) ≤ 224 →
  ∃ io1 vec d' a, init_table overrides nmis id base io = Done io1 ∧
    int_vectors d !! Z.to_nat (vector_number v) = Some vec ∧
    plugin v h d (mkApic false io1 overrides nmis) = Done (d', a) ∧
    (∀ i, i ≠ line → table_entry (io_apic a) i = table_entry io1 i) ∧
    (∀ n, n ≠ Z.to_nat (vector_number v) → int_vectors d' !! n = int_vectors d !! n) ∧
    ∃ d'', raise eoi (setup_idt idt_new) a line d' w =
      w1 ← trigger_all (handlers vec) w; w2 ← h w1; w3 ← eoi w2; Done (d'', w3).
Proof.
  intros source line Hs Hbase Hcons Hdone Hline Hnmi Hv.
  destruct (allow_routes overrides nmis id base io v Hs Hbase Hcons Hdone Hline Hnmi) as (io1 & a & Hio1 & Ha & Hvec & _ & Hmask & Hother).
  fold source line in Hvec, Hmask, Hother.
  destruct (assign d v h) as [d'| | |] eqn:Hassign;
    [|unfold assign in Hassign; destruct (int_vectors d !! Z.to_nat (vector_number v)) eqn:Hl; try done;
      apply lookup_ge_None in Hl; unfold source in Hs; lia..].
  destruct (assign_dispatch eoi d v h d' w Hassign) as (vec & Hvec' & Hdisp & Hsame).
  exists io1, vec, d', a. split_and!; try done.
  - unfold plugin. by rewrite Hassign, res_bind_ret_l, Ha.
  - unfold raise. rewrite Hmask, Hvec. rewrite interrupt_dispatched by (unfold source in Hs; lia). exact Hdisp.
Qed.
End Delivery.

(** ** The timer of a PC *)
Section Examples.
#[local] Existing Instance development.
#[local] Existing Instance demo_idt.
#[local] Existing Instance demo_idt_laws.
#[local] Existing Instance demo_ops.
#[local] Existing Instance demo_laws.

Lemma plugged_line_runs_handler_witness :
  ∃ io1 d' a d'', init_table demo_overrides [] 0 0 demo_io = Done io1 ∧
    plugin Pit (demo_log "timer") dispatcher_new (mkApic false io1 demo_overrides []) = Done (d', a) ∧
    raise (demo_log "end of interrupt") (setup_idt idt_new) a 2 d' [] = Done (d'', ["timer"; "end of interrupt"]).
Proof.
  destruct (plugged_line_runs_handler (demo_log "end of interrupt") demo_overrides [] 0 0 demo_io Pit (demo_log "timer") dispatcher_new [])
    as (io1 & vec & d' & a & Hio & Hvec & Hplug & _ & _ & d'' & Hrun);
    [done|done| |apply demo_entries|done|by intros n ?%elem_of_nil|done|].
  - intros o [->|[]%elem_of_nil]%elem_of_cons. done.
  - exists io1, d', a, d''. split; [exact Hio|split; [exact Hplug|]].
    injection Hvec as <-. exact Hrun.
Defined.
End Examples.
