(* ===== verification/Ports.v ===== *)
(** * Port I/O and byte queues

    Device drivers read and write I/O ports through the crate x86_64, and buffer
    received bytes in a queue of the crate nolock.  A device is a class: what
    reading and writing a port does to it.  The queue is a class with laws. *)

From S2P Require Import Prelude.
#[local] Open Scope Z_scope.

Class Device := {
  dev : Type;
  port_in : Z → dev → Z * dev;
  port_out : Z → Z → dev → dev;
}.

(** Programs that access a device. *)
Definition io `{Device} (A : Type) : Type := dev → res (A * dev).
Definition io_ret `{Device} {A} (a : A) : io A := fun d => Done (a, d).
Definition io_bind `{Device} {A B} (m : io A) (k : A → io B) : io B :=
  fun d => m d ≫= (fun p => k p.1 p.2).
Definition read `{Device} (port : Z) : io Z := fun d => Done (port_in port d).
Definition write `{Device} (port v : Z) : io unit := fun d => Done (tt, port_out port v d).
Definition io_panic `{Device} {A} (msg : string) : io A := fun _ => Panic msg.

Declare Scope io_scope.
Delimit Scope io_scope with io.
Notation "x <- m ;; k" := (io_bind m (fun x => k)) (at level 100, m at next level, right associativity) : io_scope.
Notation "m ;; k" := (io_bind m (fun _ => k)) (at level 100, right associativity) : io_scope.

(** ** The queue between an interrupt handler and the readers *)

(** Results of [try_dequeue]. *)
Inductive dequeued := Byte (b : Z) | Empty | Closed.

(** A bounded queue of bytes, with what it holds, oldest first. *)
Class QueueOps := {
  queue : Type;
  queued : queue → list Z;
  try_enqueue : Z → queue → option queue;
  try_dequeue : queue → dequeued * queue;
}.

(** A queue that is open on both ends; enqueueing only fails when it is full. *)
Class QueueLaws `{QueueOps} : Prop := {
  enqueue_some b q q' : try_enqueue b q = Some q' → queued q' = queued q ++ [b];
  enqueue_none b q : try_enqueue b q = None → queued q ≠ [];
  enqueue_nonfull b q : queued q = [] → is_Some (try_enqueue b q);
  dequeue_cons q b l : queued q = b :: l → ∃ q', try_dequeue q = (Byte b, q') ∧ queued q' = l;
  dequeue_nil q : queued q = [] → try_dequeue q = (Empty, q);
}.

Section Queue.
Context `{QueueOps}.

(** The loop of the two interrupt handlers that store a byte: drop the oldest
    byte until the new one fits. *)
Fixpoint store_byte (fuel : nat) (msg : string) (b : Z) (q : queue) : res queue :=
  match try_enqueue b q with
  | Some q' => Done q'
  | None =>
      match fuel with
      | O => NoFuel
      | S fuel' =>
          match try_dequeue q with
          | (Byte _, q') => store_byte fuel' msg b q'
          | _ => Panic msg
          end
      end
  end.

(** The loop of [read_byte] over the state of the queue at each attempt;
    interrupts may fill it in between. *)
Fixpoint read_loop (attempts : list queue) : res (Z * queue) :=
  match attempts with
  | [] => NoFuel
  | q :: attempts' =>
      match try_dequeue q with
      | (Byte b, q') => Done (b, q')
      | (Closed, q') => Done (-1, q')
      | (Empty, _) => read_loop attempts'
      end
  end.

Context `{!QueueLaws}.

(** Storing never fails and only ever drops the oldest bytes. *)
Lemma store_byte_spec msg b q fuel :
  (length (queued q) ≤ fuel)%nat →
  ∃ q' dropped, store_byte fuel msg b q = Done q' ∧ queued q ++ [b] = dropped ++ queued q' ∧
    List.last (queued q') 0 = b.
Proof.
  remember (queued q) as l eqn:Hl. revert q fuel Hl.
  induction l as [|x l IH]; intros q fuel Hl Hfuel.
  - symmetry in Hl. destruct (enqueue_nonfull b q Hl) as [q' Hq].
    exists q', []. destruct fuel; cbn; rewrite Hq; (split; [done|]);
      rewrite (enqueue_some _ _ _ Hq), Hl; done.
  - destruct fuel as [|fuel]; [cbn in Hfuel; lia|]. cbn.
    destruct (try_enqueue b q) as [q'|] eqn:Hq.
    + exists q', []. rewrite (enqueue_some _ _ _ Hq), <-Hl. split_and!; [done|done|].
      by rewrite List.last_last.
    + destruct (dequeue_cons q x l) as (q1 & -> & Hq1); [done|].
      destruct (IH q1 fuel) as (q' & dropped & -> & Happ & Hlast); [done|cbn in Hfuel; lia|].
      exists q', (x :: dropped). split_and!; [done|cbn; by rewrite Happ|done].
Qed.

(** Reading returns the oldest byte as soon as there is one. *)
Lemma read_loop_spec empty q rest b l :
  Forall (fun q => queued q = []) empty → queued q = b :: l →
  ∃ q', read_loop (empty ++ q :: rest) = Done (b, q') ∧ queued q' = l.
Proof.
  intros Hempty Hq. induction Hempty as [|q0 empty Hnil _ IH]; cbn.
  - destruct (dequeue_cons q b l Hq) as (q' & -> & ?). eauto.
  - by rewrite (dequeue_nil q0 Hnil).
Qed.
End Queue.

(** A concrete queue: a list of at most [cap] bytes. *)
#[export] Instance list_queue (cap : nat) : QueueOps := {|
  queue := list Z;
  queued q := q;
  try_enqueue b q := if decide (length q < cap)%nat then Some (q ++ [b]) else None;
  try_dequeue q := match q with [] => (Empty, []) | b :: q' => (Byte b, q') end;
|}.
#[export] Instance list_queue_laws cap : QueueLaws (H := list_queue (S cap)).
Proof.
  split; cbn.
  - intros b q q'. case_decide; congruence.
  - intros b q. case_decide as Hq; [done|]. intros _ ->. cbn in Hq. lia.
  - intros b q ->. cbn. eauto.
  - intros q b l ->. eauto.
  - by intros q ->.
Qed.
