(* ===== verification/Pit.v ===== *)
(** * The programmable interval timer (os/kernel/src/device/pit.rs, speaker.rs, qemu_cfg.rs) *)

From S2P Require Import Prelude Ports.
#[local] Open Scope Z_scope.

Definition BASE_FREQUENCY : Z := 1193182.

(** [Timer] without its ports, which are constants. *)
Record Timer := mkTimer { interval_ns : Z; systime_ns : Z }.
Definition ctrl_port : Z := 0x43.
Definition data_port : Z := 0x40.

(** [Timer::new] *)
Definition timer_new : Timer := mkTimer 0 0.

Section Pit.
Context `{Profile}.

(** [systime_ms] *)
Definition systime_ms (t : Timer) : Z := systime_ns t / 1000000.

(** [inc_systime] *)
Definition inc_systime (t : Timer) : res Timer :=
  s ← add_w 64 (systime_ns t) (interval_ns t);
  Done (mkTimer (interval_ns t) s).

(** [trigger]: [while self.pending_incs > 0] *)
Fixpoint catch_up (fuel : nat) (pending_incs : Z) (t : Timer) : res (Z * Timer) :=
  match fuel with
  | O => NoFuel
  | S fuel' =>
      if 0 <? pending_incs then
        t' ← inc_systime t;
        p' ← sub_w 64 pending_incs 1;
        catch_up fuel' p' t'
      else Done (pending_incs, t)
  end.

(** [TimerInterruptHandler::trigger]; [writable] says whether [try_write] gets
    the timer.  The last result is whether [switch_thread] is called. *)
Definition trigger (writable : bool) (pending_incs : Z) (t : Timer) : res (Z * Timer * bool) :=
  p ← add_w 64 pending_incs 1;
  '(p', t', systime) ←
    (if writable then
       '(p', t') ← catch_up (S (Z.to_nat p)) p t;
       Done (p', t', systime_ms t')
     else Done (p, t, 1));
  Done (p', t', systime mod 10 =? 0).

(** [Timer::wait]: the loop over successive readings of [systime_ms] *)
Fixpoint wait_loop (end_time : Z) (readings : list Z) : res unit :=
  match readings with
  | [] => NoFuel
  | now :: readings' => if now <? end_time then wait_loop end_time readings' else Done tt
  end.
Definition wait (ms : Z) (readings : list Z) : res unit :=
  match readings with
  | [] => NoFuel
  | now :: readings' => end_time ← add_w 64 now ms; wait_loop end_time readings'
  end.

Section Ports.
Context `{Device}.
#[local] Open Scope io_scope.

(** [qemu_cfg::is_available] *)
Definition SELECTOR_PORT : Z := 0x510.
Definition DATA_PORT : Z := 0x511.
Definition is_available : io bool :=
  write SELECTOR_PORT 0 ;;
  a <- read DATA_PORT ;; b <- read DATA_PORT ;; c <- read DATA_PORT ;; d <- read DATA_PORT ;;
  io_ret ((a =? 0x51) && (b =? 0x45) && (c =? 0x4d) && (d =? 0x55)).

(** [interrupt_rate]: the divisor for an interval, and its nominal length *)
Definition rate_divisor (interval_ms : Z) : res Z :=
  divisor ← mul_w 64 (BASE_FREQUENCY / 1000) interval_ms;
  Done (if 65535 <? divisor then 65535 else divisor).
Definition rate_interval (divisor : Z) : res Z :=
  frequency ← div_w BASE_FREQUENCY divisor;
  div_w 1000000000 frequency.

(** [interrupt_rate] *)
Definition interrupt_rate (interval_ms : Z) (t : Timer) : io Timer := fun d =>
  divisor ← rate_divisor interval_ms;
  interval ← rate_interval divisor;
  (available <- is_available ;;
   let divisor := if available : bool then divisor * 2 else divisor in
   write ctrl_port 0x36 ;;
   write data_port (wrap 8 (Z.land divisor 0xff)) ;;
   write data_port (wrap 8 (Z.land (Z.shiftr divisor 8) 0xff)) ;;
   io_ret (mkTimer interval (systime_ns t))) d.

(** [Speaker] *)
Definition speaker_data_port : Z := 0x42.
Definition ppi_port : Z := 0x61.
Definition speaker_on (freq : Z) : io unit := fun d =>
  counter ← div_w BASE_FREQUENCY freq;
  (write ctrl_port 0xb6 ;;
   write speaker_data_port (wrap 8 (counter mod 256)) ;;
   write speaker_data_port (wrap 8 (counter / 256)) ;;
   status <- read ppi_port ;;
   write ppi_port (Z.lor status 0x03)) d.
Definition speaker_off : io unit :=
  status <- read ppi_port ;;
  write ppi_port (Z.land status 0xfc).
Definition speaker_play (freq duration_ms : Z) (readings : list Z) : io unit :=
  speaker_on freq ;;
  (fun d => _ ← wait duration_ms readings; Done (tt, d)) ;;
  speaker_off.
End Ports.
End Pit.

(** ** Properties *)
Section Ticks.
Context `{Profile}.

Lemma catch_up_spec fuel : ∀ p t,
  0 ≤ p < Z.of_nat fuel → 0 ≤ interval_ns t → 0 ≤ systime_ns t →
  p < 2 ^ 64 → systime_ns t + p * interval_ns t < 2 ^ 64 →
  catch_up fuel p t = Done (0, mkTimer (interval_ns t) (systime_ns t + p * interval_ns t)).
Proof.
  induction fuel as [|fuel IH]; intros p t Hp Hi Hs Hp64 Hsum; [lia|]. cbn [catch_up]. case_Z.
  - unfold inc_systime. rewrite add_w_ok, !res_bind_ret_l by nia. rewrite sub_w_ok, res_bind_ret_l by lia.
    rewrite IH by (cbn; nia). cbn. do 3 f_equal. lia.
  - assert (p = 0) as -> by lia. destruct t; cbn in *. do 3 f_equal. lia.
Qed.

(** Successive timer interrupts, each with or without access to the timer. *)
Fixpoint triggers (ws : list bool) (pending_incs : Z) (t : Timer) : res (Z * Timer) :=
  match ws with
  | [] => Done (pending_incs, t)
  | w :: ws' =>
      '(p, t', _) ← trigger w pending_incs t;
      triggers ws' p t'
  end.

Lemma trigger_spec w p t :
  0 ≤ p → p + 1 < 2 ^ 64 → 0 ≤ interval_ns t → 0 ≤ systime_ns t →
  systime_ns t + (p + 1) * interval_ns t < 2 ^ 64 →
  trigger w p t = Done (if w then (0, mkTimer (interval_ns t) (systime_ns t + (p + 1) * interval_ns t),
      (systime_ns t + (p + 1) * interval_ns t) / 1000000 mod 10 =? 0)
    else (p + 1, t, false)).
Proof.
  intros Hp Hp64 Hi Hs Hsum. unfold trigger. rewrite add_w_ok, res_bind_ret_l by lia. destruct w; [|done].
  rewrite catch_up_spec by (try done; lia). done.
Qed.

(** C38: no tick of the timer is lost: while the timer is locked by a reader, the
    ticks are counted, and the next interrupt that gets the timer adds them all, so
    that system time and pending ticks together always account for every interrupt. *)
Theorem ticks_not_lost ws p t :
  0 ≤ p → 0 ≤ interval_ns t → 0 ≤ systime_ns t → p + Z.of_nat (length ws) < 2 ^ 64 →
  systime_ns t + (p + Z.of_nat (length ws)) * interval_ns t < 2 ^ 64 →
  ∃ p' t', triggers ws p t = Done (p', t') ∧ interval_ns t' = interval_ns t ∧ 0 ≤ p' ∧
    systime_ns t' + p' * interval_ns t = systime_ns t + (p + Z.of_nat (length ws)) * interval_ns t ∧
    (List.last ws false = true → p' = 0).
Proof.
  revert p t. induction ws as [|w ws IH]; intros p t Hp Hi Hs Hp64 Hsum; cbn [triggers length] in *.
  { exists p, t. split_and!; try done; lia. }
  rewrite trigger_spec, res_bind_ret_l by (try done; nia). destruct w.
  - destruct (IH 0 (mkTimer (interval_ns t) (systime_ns t + (p + 1) * interval_ns t)))
      as (p' & t' & Hrun & Hi' & Hp' & Heq & Hlast); cbn; [done|done|nia|lia|nia|].
    exists p', t'. cbn in *. split_and!; [done|done|done|nia|]. intros Hw. destruct ws; [|auto].
    cbn in *. by injection Hrun as <- _.
  - destruct (IH (p + 1) t) as (p' & t' & Hrun & Hi' & Hp' & Heq & Hlast); [lia|done|done|lia|nia|].
    exists p', t'. split_and!; [done|done|done|nia|]. intros Hw. destruct ws; [done|auto].
Qed.

(** [wait] returns when, and only when, it reads a time at or after its end. *)
Lemma wait_returns ms now readings :
  0 ≤ now + ms < 2 ^ 64 →
  wait ms (now :: readings) = Done tt ↔ ∃ r, r ∈ readings ∧ now + ms ≤ r.
Proof.
  intros Hr. unfold wait. rewrite add_w_ok, res_bind_ret_l by done.
  induction readings as [|r readings IH]; cbn.
  - split; [done|]. by intros (r & []%elem_of_nil & _).
  - case_Z.
    + rewrite IH. setoid_rewrite elem_of_cons. split; [naive_solver|].
      intros (r' & [->|Hr'] & ?); [lia|eauto].
    + split; [|done]. intros _. exists r. split; [by left|lia].
Qed.
End Ticks.

Section Rate.
Context `{Profile} `{Device}.

(** The divisor the two bytes stand for. *)
Lemma two_bytes d :
  0 ≤ d →
  wrap 8 (Z.land d 0xff) + 256 * wrap 8 (Z.land (Z.shiftr d 8) 0xff) = d mod 65536.
Proof.
  intros Hd. change 0xff with (Z.ones 8). rewrite !Z.land_ones, Z.shiftr_div_pow2 by done.
  unfold wrap. change (2 ^ 8) with 256. rewrite !Z.mod_mod by done.
  change 65536 with (256 * 256). rewrite Z.rem_mul_r by done. done.
Qed.

(** [interrupt_rate] programs the divisor 1193 * ms, at most 65535, and notes
    the interval between two interrupts in nanoseconds; on QEMU it doubles the
    divisor without a check for 16 bits, so from 28 ms on the timer is programmed
    with a divisor that is 65536 too small.  An interval of 0 ms panics. *)
Theorem interrupt_rate_programs ms t d available d' :
  0 ≤ ms < 2 ^ 48 → is_available d = Done (available, d') →
  if decide (ms = 0) then interrupt_rate ms t d = Panic "attempt to divide by zero"
  else
    let divisor := Z.min (1193 * ms) 65535 in
    ∃ lo hi, interrupt_rate ms t d =
        Done (mkTimer (1000000000 / (BASE_FREQUENCY / divisor)) (systime_ns t),
              port_out data_port hi (port_out data_port lo (port_out ctrl_port 0x36 d'))) ∧
      lo + 256 * hi =
        (if available : bool then if decide (28 ≤ ms) then 2 * divisor - 65536 else 2 * divisor else divisor).
Proof.
  intros Hms Hav. unfold interrupt_rate, rate_divisor. change (BASE_FREQUENCY / 1000) with 1193.
  rewrite mul_w_ok, !res_bind_ret_l by lia.
  assert ((if 65535 <? 1193 * ms then 65535 else 1193 * ms) = Z.min (1193 * ms) 65535) as -> by (case_Z; lia).
  case_decide as Hzero; [by subst|]. cbv zeta. set (divisor := Z.min (1193 * ms) 65535).
  assert (1193 ≤ divisor ≤ 65535) as Hd by lia.
  assert (18 ≤ BASE_FREQUENCY / divisor) as Hf by (apply Z.div_le_lower_bound; unfold BASE_FREQUENCY; lia).
  unfold rate_interval, div_w.
  rewrite (proj2 (Z.eqb_neq divisor 0)), res_bind_ret_l, (proj2 (Z.eqb_neq (_ / _) 0)), res_bind_ret_l by lia.
  unfold io_bind at 1. rewrite Hav, res_bind_ret_l. cbn [fst snd].
  set (e := if available then divisor * 2 else divisor).
  exists (wrap 8 (Z.land e 0xff)), (wrap 8 (Z.land (Z.shiftr e 8) 0xff)). split; [reflexivity|].
  rewrite two_bytes by (destruct available; lia). unfold e. destruct available; [|by rewrite Z.mod_small by lia].
  case_decide.
  - symmetry. apply (Z.mod_unique _ _ 1); lia.
  - rewrite Z.mod_small by lia. lia.
Qed.

(** The tone generator gets the frequency's divisor modulo 2^16: frequencies
    below 19 Hz do not fit. *)
Lemma speaker_on_programs freq d :
  0 < freq < 2 ^ 64 →
  ∃ lo hi, 
    (let d1 := port_out speaker_data_port hi (port_out speaker_data_port lo (port_out ctrl_port 0xb6 d)) in
     speaker_on freq d = Done (tt, port_out ppi_port (Z.lor (port_in ppi_port d1).1 3) (port_in ppi_port d1).2)) ∧
    lo + 256 * hi = (BASE_FREQUENCY / freq) mod 65536.
Proof.
  intros Hf. unfold speaker_on, div_w. rewrite (proj2 (Z.eqb_neq freq 0)), res_bind_ret_l by lia.
  set (c := BASE_FREQUENCY / freq). exists (wrap 8 (c mod 256)), (wrap 8 (c / 256)). split; [reflexivity|].
  unfold wrap. change (2 ^ 8) with 256. rewrite Z.mod_mod by done.
  change 65536 with (256 * 256). rewrite (Z.rem_mul_r c 256 256) by done. done.
Qed.
End Rate.

(** ** Concrete inputs *)
Section Examples.
#[local] Existing Instance development.

Lemma ticks_not_lost_witness :
  ∃ t', triggers [true; false; false; true] 0 (mkTimer 1000000 0) = Done (0, t') ∧ systime_ms t' = 4.
Proof.
  destruct (ticks_not_lost [true; false; false; true] 0 (mkTimer 1000000 0))
    as (p' & t' & Hrun & Hi & _ & Heq & Hp); [done..|].
  rewrite (Hp eq_refl) in *. exists t'. split; [done|]. unfold systime_ms.
  replace (systime_ns t') with 4000000 by (cbn in Heq; lia). done.
Defined.

(** A device that records what is written; every port reads as the next byte of
    the identification of QEMU. *)
#[local] Instance demo_device : Device := {|
  dev := list Z * list (Z * Z);
  port_in _ d := (List.hd 0 d.1, (List.tl d.1, d.2));
  port_out p v d := (d.1, d.2 ++ [(p, v)]);
|}.
Definition demo_qemu : dev := ([0x51; 0x45; 0x4d; 0x55], []).
Lemma interrupt_rate_programs_witness :
  ∃ t lo hi, interrupt_rate 50 timer_new demo_qemu =
      Done (t, ([], [(0x510, 0); (0x43, 0x36); (0x40, lo); (0x40, hi)])) ∧
    lo + 256 * hi = 2 * 59650 - 65536.
Proof.
  destruct (interrupt_rate_programs 50 timer_new demo_qemu true ([], [(0x510, 0)]))
    as (lo & hi & Hrun & Heq); [done|done|].
  eexists _, lo, hi. split; [exact Hrun|exact Heq].
Defined.
End Examples.
