(* ===== verification/Serial.v ===== *)
(** * Serial ports (os/kernel/src/device/serial.rs) and the keyboard buffer (ps2.rs)

    The driver is written against the ports of any [Device]; its theorems are
    about [uart], a model of the registers of a 16550 UART. *)

From S2P Require Import Prelude Interrupts Ports.
#[local] Open Scope Z_scope.
#[local] Open Scope io_scope.

Inductive ComPort := COM1 | COM2 | COM3 | COM4.
(** [port as u16] *)
Definition com_base (port : ComPort) : Z :=
  match port with COM1 => 0x3f8 | COM2 => 0x2f8 | COM3 => 0x3e8 | COM4 => 0x2e8 end.

(** [enum BaudRate] *)
Inductive BaudRate :=
  | Baud115200 | Baud57600 | Baud38400 | Baud28800 | Baud23040 | Baud19200 | Baud14400
  | Baud12800 | Baud11520 | Baud9600 | Baud7680 | Baud7200 | Baud6400 | Baud5760 | Baud4800
  | Baud4608 | Baud3840 | Baud3600 | Baud3200 | Baud2880 | Baud2560 | Baud2400 | Baud2304
  | Baud1920 | Baud1800 | Baud1600 | Baud1536 | Baud1440 | Baud1280 | Baud1200 | Baud1152
  | Baud960 | Baud900 | Baud800 | Baud768 | Baud720 | Baud640 | Baud600 | Baud576 | Baud512
  | Baud480 | Baud450 | Baud400 | Baud384 | Baud360 | Baud320 | Baud300 | Baud288 | Baud256
  | Baud240 | Baud225 | Baud200 | Baud192 | Baud180 | Baud160 | Baud150 | Baud144 | Baud128
  | Baud120 | Baud100 | Baud96 | Baud90 | Baud80 | Baud75 | Baud72 | Baud64 | Baud60 | Baud50
  | Baud48 | Baud45 | Baud40 | Baud36 | Baud32 | Baud30 | Baud25 | Baud24 | Baud20 | Baud18
  | Baud16 | Baud15 | Baud12 | Baud10 | Baud9 | Baud8 | Baud6 | Baud5 | Baud4 | Baud3 | Baud2.

(** [speed as u16] *)
Definition baud_divisor (speed : BaudRate) : Z :=
  match speed with
  | Baud115200 => 1 | Baud57600 => 2 | Baud38400 => 3 | Baud28800 => 4 | Baud23040 => 5
  | Baud19200 => 6 | Baud14400 => 8 | Baud12800 => 9 | Baud11520 => 10 | Baud9600 => 12
  | Baud7680 => 15 | Baud7200 => 16 | Baud6400 => 18 | Baud5760 => 20 | Baud4800 => 24
  | Baud4608 => 25 | Baud3840 => 30 | Baud3600 => 32 | Baud3200 => 36 | Baud2880 => 40
  | Baud2560 => 45 | Baud2400 => 48 | Baud2304 => 50 | Baud1920 => 60 | Baud1800 => 64
  | Baud1600 => 72 | Baud1536 => 75 | Baud1440 => 80 | Baud1280 => 90 | Baud1200 => 96
  | Baud1152 => 100 | Baud960 => 120 | Baud900 => 128 | Baud800 => 144 | Baud768 => 150
  | Baud720 => 160 | Baud640 => 180 | Baud600 => 192 | Baud576 => 200 | Baud512 => 225
  | Baud480 => 240 | Baud450 => 256 | Baud400 => 288 | Baud384 => 300 | Baud360 => 320
  | Baud320 => 360 | Baud300 => 384 | Baud288 => 400 | Baud256 => 450 | Baud240 => 480
  | Baud225 => 512 | Baud200 => 576 | Baud192 => 600 | Baud180 => 640 | Baud160 => 720
  | Baud150 => 768 | Baud144 => 800 | Baud128 => 900 | Baud120 => 960 | Baud100 => 1152
  | Baud96 => 1200 | Baud90 => 1280 | Baud80 => 1440 | Baud75 => 1536 | Baud72 => 1600
  | Baud64 => 1800 | Baud60 => 1920 | Baud50 => 2304 | Baud48 => 2400 | Baud45 => 2560
  | Baud40 => 2880 | Baud36 => 3200 | Baud32 => 3600 | Baud30 => 3840 | Baud25 => 4608
  | Baud24 => 4800 | Baud20 => 5760 | Baud18 => 6400 | Baud16 => 7200 | Baud15 => 7680
  | Baud12 => 9600 | Baud10 => 11520 | Baud9 => 12800 | Baud8 => 14400 | Baud6 => 19200
  | Baud5 => 23040 | Baud4 => 28800 | Baud3 => 38400 | Baud2 => 57600
  end.

(** The rate in the name of a constructor, in bits per second. *)
Definition baud_rate (speed : BaudRate) : Z :=
  match speed with
  | Baud115200 => 115200 | Baud57600 => 57600 | Baud38400 => 38400 | Baud28800 => 28800
  | Baud23040 => 23040 | Baud19200 => 19200 | Baud14400 => 14400 | Baud12800 => 12800
  | Baud11520 => 11520 | Baud9600 => 9600 | Baud7680 => 7680 | Baud7200 => 7200
  | Baud6400 => 6400 | Baud5760 => 5760 | Baud4800 => 4800 | Baud4608 => 4608 | Baud3840 => 3840
  | Baud3600 => 3600 | Baud3200 => 3200 | Baud2880 => 2880 | Baud2560 => 2560 | Baud2400 => 2400
  | Baud2304 => 2304 | Baud1920 => 1920 | Baud1800 => 1800 | Baud1600 => 1600 | Baud1536 => 1536
  | Baud1440 => 1440 | Baud1280 => 1280 | Baud1200 => 1200 | Baud1152 => 1152 | Baud960 => 960
  | Baud900 => 900 | Baud800 => 800 | Baud768 => 768 | Baud720 => 720 | Baud640 => 640
  | Baud600 => 600 | Baud576 => 576 | Baud512 => 512 | Baud480 => 480 | Baud450 => 450
  | Baud400 => 400 | Baud384 => 384 | Baud360 => 360 | Baud320 => 320 | Baud300 => 300
  | Baud288 => 288 | Baud256 => 256 | Baud240 => 240 | Baud225 => 225 | Baud200 => 200
  | Baud192 => 192 | Baud180 => 180 | Baud160 => 160 | Baud150 => 150 | Baud144 => 144
  | Baud128 => 128 | Baud120 => 120 | Baud100 => 100 | Baud96 => 96 | Baud90 => 90 | Baud80 => 80
  | Baud75 => 75 | Baud72 => 72 | Baud64 => 64 | Baud60 => 60 | Baud50 => 50 | Baud48 => 48
  | Baud45 => 45 | Baud40 => 40 | Baud36 => 36 | Baud32 => 32 | Baud30 => 30 | Baud25 => 25
  | Baud24 => 24 | Baud20 => 20 | Baud18 => 18 | Baud16 => 16 | Baud15 => 15 | Baud12 => 12
  | Baud10 => 10 | Baud9 => 9 | Baud8 => 8 | Baud6 => 6 | Baud5 => 5 | Baud4 => 4 | Baud3 => 3
  | Baud2 => 2
  end.

(** [char::from(b)] as a string: the bytes of its UTF-8 encoding. *)
Definition char_from_utf8 (b : Z) : list Z :=
  if b <? 0x80 then [b] else [Z.lor 0xc0 (Z.shiftr b 6); Z.lor 0x80 (Z.land b 0x3f)].

Section Serial.
Context `{Device} `{QueueOps}.

(** [SerialPort]; [buffer] is a [Once] cell. *)
Record SerialPort := mkSerial { port : ComPort; buffer : option queue }.

(** [SerialPort::new] *)
Definition serial_new (p : ComPort) : SerialPort := mkSerial p None.

(** [check_port]: the loop over the values from [i] on, [n] of them *)
Fixpoint check_loop (p : ComPort) (n : nat) (i : Z) : io bool :=
  match n with
  | O => io_ret true
  | S n' =>
      write (com_base p + 7) i ;;
      v <- read (com_base p + 7) ;;
      if v =? i then check_loop p n' (i + 1) else io_ret false
  end.
Definition check_port (p : ComPort) : io bool := check_loop p 0xff 0.

(** [write_str]: the loop that waits for the transmitter; [polls] bounds it *)
Fixpoint wait_transmitter (polls : nat) (p : ComPort) : io unit :=
  match polls with
  | O => fun _ => NoFuel
  | S polls' =>
      status <- read (com_base p + 5) ;;
      if Z.land status 0x20 =? 0x20 then io_ret tt else wait_transmitter polls' p
  end.
Definition send (polls : nat) (p : ComPort) (b : Z) : io unit :=
  wait_transmitter polls p ;; write (com_base p) b.

(** [write_str]; the recursive call with a carriage return sends just that. *)
Fixpoint write_str (polls : nat) (p : ComPort) (bytes : list Z) : io unit :=
  match bytes with
  | [] => io_ret tt
  | b :: bytes' =>
      (if b =? 10 then send polls p 13 else io_ret tt) ;;
      send polls p b ;;
      write_str polls p bytes'
  end.

(** [write_byte] *)
Definition write_byte (polls : nat) (p : ComPort) (b : Z) : io unit :=
  write_str polls p (char_from_utf8 b).

(** [read_byte], over the states of the buffer at successive attempts *)
Definition read_byte (initialized : bool) (attempts : list queue) : res (Z * queue) :=
  if initialized then read_loop attempts else Panic "Serial: Trying to read before initialization!".

(** [SerialInterruptHandler::trigger]: the loop over the received bytes *)
Fixpoint receive_loop (fuel : nat) (p : ComPort) (buf : option queue) : io (option queue) :=
  match fuel with
  | O => fun _ => NoFuel
  | S fuel' =>
      status <- read (com_base p + 5) ;;
      if Z.land status 1 =? 1 then
        byte <- read (com_base p) ;;
        match buf with
        | Some q => fun d =>
            q' ← store_byte (length (queued q)) "Serial: Failed to store received byte in buffer!" byte q;
            receive_loop fuel' p (Some q') d
        | None => io_panic "Serial: Interrupt handler called before initialization!"
        end
      else io_ret buf
  end.
Definition serial_trigger (fuel : nat) (handler_port : ComPort) (serial : option SerialPort) :
    io (option SerialPort) :=
  match serial with
  | None => io_ret None
  | Some s =>
      identification <- read (com_base handler_port + 2) ;;
      if Z.land identification 1 =? 1 then io_ret (Some s)
      else
        buf <- receive_loop fuel handler_port (buffer s) ;;
        io_ret (Some (mkSerial (port s) buf))
  end.

(** [speed] *)
Definition speed (p : ComPort) (rate : BaudRate) : io unit :=
  interrupt_backup <- read (com_base p + 1) ;;
  line_control_backup <- read (com_base p + 3) ;;
  write (com_base p + 1) 0x00 ;;
  write (com_base p + 3) 0x80 ;;
  write (com_base p) (wrap 8 (Z.land (baud_divisor rate) 0x00ff)) ;;
  write (com_base p + 1) (wrap 8 (Z.shiftr (Z.land (baud_divisor rate) 0xff00) 8)) ;;
  write (com_base p + 3) line_control_backup ;;
  write (com_base p + 1) interrupt_backup.

(** [init]; [new_queue] is [mpmc::bounded::scq::queue]. *)
Definition serial_init (new_queue : Z → queue) (buffer_cap : Z) (rate : BaudRate) (s : SerialPort) : io SerialPort :=
  found <- check_port (port s) ;;
  if negb found then io_panic "Serial: Port not found!"
  else
    let s' := mkSerial (port s) (match buffer s with Some q => Some q | None => Some (new_queue buffer_cap) end) in
    write (com_base (port s) + 1) 0x00 ;;
    speed (port s) rate ;;
    write (com_base (port s) + 3) 0x03 ;;
    write (com_base (port s) + 2) 0x07 ;;
    write (com_base (port s) + 4) 0x0b ;;
    io_ret s'.

(** [init_write_only] *)
Definition serial_init_write_only (s : SerialPort) : io unit :=
  found <- check_port (port s) ;;
  if negb found then io_panic "Serial: Port not found!"
  else
    write (com_base (port s) + 1) 0x00 ;;
    speed (port s) Baud115200 ;;
    write (com_base (port s) + 3) 0x03 ;;
    write (com_base (port s) + 2) 0x00 ;;
    write (com_base (port s) + 4) 0x0b.

(** [plugin]: the vector of a port (the rest is in Services.v) *)
Definition serial_vector (p : ComPort) : InterruptVector :=
  match p with COM1 | COM3 => Com1 | COM2 | COM4 => Com2 end.
(** [KeyboardInterruptHandler::trigger] (ps2.rs): [data] is the result of
    [read_data] of the locked controller. *)
Definition KEYBOARD_BUFFER_CAPACITY : Z := 128.
Definition keyboard_trigger (controller_free : bool) (data : option Z) (buf : queue) : res queue :=
  if controller_free then
    match data with
    | Some b => store_byte (length (queued buf)) "Keyboard: Failed to store received byte in buffer!" b buf
    | None => Done buf
    end
  else Panic "Keyboard: Controller is locked during interrupt!".

(** [Keyboard::read_byte] (ps2.rs) *)
Definition keyboard_read_byte (attempts : list queue) : res (Z * queue) := read_loop attempts.
End Serial.

(** ** The registers of a 16550 UART *)

Record uart := mkUart {
  ier : Z; lcr : Z; mcr : Z; fcr : Z; scratch : Z;
  dll : Z; dlm : Z;          (** divisor latch *)
  received : list Z;         (** bytes in the receiver's buffer *)
  sent : list Z;             (** bytes that went over the line *)
  busy : nat;                (** how often the transmitter will report to be busy *)
  delay : nat;               (** how often it does so after each byte *)
}.

Definition dlab (u : uart) : bool := Z.testbit (lcr u) 7.

(** Reading and writing register [r]: with DLAB set, registers 0 and 1 are the
    divisor.  A byte that is written while the transmitter is busy is lost. *)
Definition uart_in (r : Z) (u : uart) : Z * uart :=
  if r =? 0 then
    if dlab u then (dll u, u)
    else (List.hd 0 (received u),
          mkUart (ier u) (lcr u) (mcr u) (fcr u) (scratch u) (dll u) (dlm u) (List.tl (received u)) (sent u) (busy u) (delay u))
  else if r =? 1 then (if dlab u then dlm u else ier u, u)
  else if r =? 2 then (match received u with [] => 1 | _ => 4 end, u)
  else if r =? 3 then (lcr u, u)
  else if r =? 5 then
    (Z.lor (match received u with [] => 0 | _ => 1 end) (match busy u with O => 0x20 | _ => 0 end),
     mkUart (ier u) (lcr u) (mcr u) (fcr u) (scratch u) (dll u) (dlm u) (received u) (sent u) (pred (busy u)) (delay u))
  else if r =? 7 then (scratch u, u)
  else (0, u).

Definition uart_out (r v : Z) (u : uart) : uart :=
  if r =? 0 then
    if dlab u then mkUart (ier u) (lcr u) (mcr u) (fcr u) (scratch u) v (dlm u) (received u) (sent u) (busy u) (delay u)
    else mkUart (ier u) (lcr u) (mcr u) (fcr u) (scratch u) (dll u) (dlm u) (received u)
      (match busy u with O => sent u ++ [v] | _ => sent u end) (delay u) (delay u)
  else if r =? 1 then
    if dlab u then mkUart (ier u) (lcr u) (mcr u) (fcr u) (scratch u) (dll u) v (received u) (sent u) (busy u) (delay u)
    else mkUart v (lcr u) (mcr u) (fcr u) (scratch u) (dll u) (dlm u) (received u) (sent u) (busy u) (delay u)
  else if r =? 2 then mkUart (ier u) (lcr u) (mcr u) v (scratch u) (dll u) (dlm u)
    (if Z.testbit v 1 then [] else received u) (sent u) (busy u) (delay u)
  else if r =? 3 then mkUart (ier u) v (mcr u) (fcr u) (scratch u) (dll u) (dlm u) (received u) (sent u) (busy u) (delay u)
  else if r =? 4 then mkUart (ier u) (lcr u) v (fcr u) (scratch u) (dll u) (dlm u) (received u) (sent u) (busy u) (delay u)
  else if r =? 7 then mkUart (ier u) (lcr u) (mcr u) (fcr u) v (dll u) (dlm u) (received u) (sent u) (busy u) (delay u)
  else u.

(** A machine whose port [p] is such a UART. *)
#[export] Instance uart_device (p : ComPort) : Device := {|
  dev := uart;
  port_in x u := uart_in (x - com_base p) u;
  port_out x v u := uart_out (x - com_base p) v u;
|}.

(** ** Properties *)

(** every [BaudRate] has the divisor that makes a UART with its clock of
    115200 Hz run at exactly the rate in its name, and the divisor fits 16 bits. *)
Theorem baud_rates_exact rate :
  baud_divisor rate * baud_rate rate = 115200 ∧ 0 < baud_divisor rate < 2 ^ 16.
Proof. by destruct rate. Qed.

Section Uart.
Context (p : ComPort) `{QueueLaws}.
#[local] Abbreviation UART := (dev (Device := uart_device p)).

Lemma split_divisor rate :
  wrap 8 (Z.land (baud_divisor rate) 0x00ff) +
  256 * wrap 8 (Z.shiftr (Z.land (baud_divisor rate) 0xff00) 8) = baud_divisor rate.
Proof. by destruct rate. Qed.

Lemma port_in_reg r (u : UART) : port_in (com_base p + r) u = uart_in r u.
Proof. cbn. f_equal. lia. Qed.
Lemma port_out_reg r v (u : UART) : port_out (com_base p + r) v u = uart_out r v u.
Proof. cbn. f_equal. lia. Qed.
Lemma port_in_base (u : UART) : port_in (com_base p) u = uart_in 0 u.
Proof. cbn. by rewrite Z.sub_diag. Qed.
Lemma port_out_base v (u : UART) : port_out (com_base p) v u = uart_out 0 v u.
Proof. cbn. by rewrite Z.sub_diag. Qed.

Lemma io_bind_read {A} (x : Z) (k : Z → io A) (u : UART) :
  io_bind (read x) k u = k (port_in x u).1 (port_in x u).2.
Proof. reflexivity. Qed.
Lemma io_bind_write {A} (x v : Z) (k : unit → io A) (u : UART) :
  io_bind (write x v) k u = k tt (port_out x v u).
Proof. reflexivity. Qed.
Lemma io_write (x v : Z) (u : UART) : write x v u = Done (tt, port_out x v u).
Proof. reflexivity. Qed.

Ltac io_simpl :=
  repeat first [rewrite io_bind_read|rewrite io_bind_write|rewrite io_write
               |rewrite port_in_reg|rewrite port_out_reg|rewrite port_in_base|rewrite port_out_base].

(** [speed] loads exactly the divisor of the given rate into the divisor
    latch and leaves all other registers of the UART as they were. *)
Theorem speed_sets_divisor rate (u : UART) :
  dlab u = false →
  ∃ u' : UART, speed p rate u = Done (tt, u') ∧ dll u' + 256 * dlm u' = baud_divisor rate ∧
    ier u' = ier u ∧ lcr u' = lcr u ∧ mcr u' = mcr u ∧ fcr u' = fcr u ∧
    received u' = received u ∧ sent u' = sent u.
Proof.
  intros Hdlab. unfold speed. io_simpl. eexists. split; [reflexivity|].
  assert (uart_in 1 u = (ier u, u)) as -> by (unfold uart_in; by rewrite Hdlab).
  cbn [fst snd]. change (uart_in 3 u) with (lcr u, u). cbn [fst snd].
  assert (uart_out 1 0 u = mkUart 0 (lcr u) (mcr u) (fcr u) (scratch u) (dll u) (dlm u) (received u) (sent u)
    (busy u) (delay u)) as -> by (unfold uart_out; by rewrite Hdlab).
  set (lo := wrap 8 (Z.land _ _)). set (hi := wrap 8 (Z.shiftr _ _)).
  assert (∀ x : UART, dlab (uart_out 3 (lcr u) x) = false) as Hback by (intros; exact Hdlab).
  match goal with |- context [uart_out 1 (ier u) (uart_out 3 (lcr u) ?x)] => set (u1 := x) end.
  assert (uart_out 1 (ier u) (uart_out 3 (lcr u) u1) = mkUart (ier u) (lcr u) (mcr u1) (fcr u1) (scratch u1)
    (dll u1) (dlm u1) (received u1) (sent u1) (busy u1) (delay u1)) as ->.
  { unfold uart_out at 1. by rewrite Hback. }
  split_and!; try reflexivity. apply split_divisor.
Qed.

(** The transmitter becomes ready after [busy] polls. *)
Lemma wait_transmitter_ready polls (u : UART) :
  (busy u < polls)%nat →
  wait_transmitter polls p u = Done (tt, mkUart (ier u) (lcr u) (mcr u) (fcr u) (scratch u) (dll u) (dlm u)
    (received u) (sent u) 0 (delay u)).
Proof.
  revert u. induction polls as [|polls IH]; intros u Hb; [lia|]. cbn [wait_transmitter]. io_simpl.
  destruct u as [i l m f s dl dm r se b de]. cbn in *. destruct b as [|b].
  - by destruct r.
  - pose proof (IH (mkUart i l m f s dl dm r se b de) ltac:(cbn; lia)) as IH'. by destruct r.
Qed.

Lemma send_sends polls b (u : UART) :
  dlab u = false → (busy u < polls)%nat →
  ∃ u' : UART, send polls p b u = Done (tt, u') ∧ dlab u' = false ∧ sent u' = sent u ++ [b] ∧
    busy u' = delay u ∧ delay u' = delay u.
Proof.
  intros Hdlab Hb. unfold send, io_bind at 1. rewrite wait_transmitter_ready, res_bind_ret_l by done.
  cbn [fst snd]. io_simpl. eexists. split; [reflexivity|]. unfold uart_out.
  change (dlab (mkUart _ _ _ _ _ _ _ _ _ _ _)) with (dlab u). by rewrite Hdlab.
Qed.

(** What the terminal on the other end of the line should get. *)
Fixpoint crlf (bytes : list Z) : list Z :=
  match bytes with
  | [] => []
  | b :: bytes' => (if b =? 10 then [13; b] else [b]) ++ crlf bytes'
  end.

Lemma write_str_result polls bytes (u : UART) :
  dlab u = false → (busy u < polls)%nat → (delay u < polls)%nat →
  ∃ u' : UART, write_str polls p bytes u = Done (tt, u') ∧ sent u' = sent u ++ crlf bytes.
Proof.
  revert u. induction bytes as [|b bytes IH]; intros u Hdlab Hb Hd; cbn [write_str crlf].
  { exists u. by rewrite app_nil_r. }
  assert (∃ u1 : UART, (if b =? 10 then send polls p 13 else io_ret tt) u = Done (tt, u1) ∧ dlab u1 = false ∧
    sent u1 = sent u ++ (if b =? 10 then [13] else []) ∧ (busy u1 < polls)%nat ∧ delay u1 = delay u)
    as (u1 & Hcr & Hdlab1 & Hsent1 & Hb1 & Hd1).
  { case_Z.
    - destruct (send_sends polls 13 u Hdlab Hb) as (u1 & ? & ? & ? & ? & ?). exists u1. split_and!; done || lia.
    - exists u. rewrite app_nil_r. split_and!; done. }
  destruct (send_sends polls b u1 Hdlab1 Hb1) as (u2 & Hsend & Hdlab2 & Hsent2 & Hb2 & Hd2).
  destruct (IH u2) as (u' & Hrest & Hsent); [done|lia|lia|].
  exists u'. unfold io_bind. rewrite Hcr, res_bind_ret_l. cbn [fst snd]. rewrite Hsend, res_bind_ret_l.
  cbn [fst snd]. split; [done|]. rewrite Hsent, Hsent2, Hsent1. case_Z; cbn; by rewrite <-!(assoc_L (++)).
Qed.

(** [write_str] sends every byte of the string, in order, each newline
    preceded by a carriage return, and loses none, however long the transmitter
    stays busy after each byte. *)
Theorem write_str_sends polls bytes (u : UART) :
  dlab u = false → (busy u < polls)%nat → (delay u < polls)%nat →
  ∃ u' : UART, write_str polls p bytes u = Done (tt, u') ∧ sent u' = sent u ++ crlf bytes.
Proof. apply write_str_result. Qed.

(** [write_byte] does not write one byte when the byte is not ASCII: it goes
    through a [String], and its two-byte UTF-8 encoding is sent instead. *)
Theorem write_byte_not_ascii polls b (u : UART) :
  0x80 ≤ b < 0x100 → dlab u = false → (busy u < polls)%nat → (delay u < polls)%nat →
  ∃ (u' : UART) b1 b2, write_byte polls p b u = Done (tt, u') ∧ sent u' = sent u ++ [b1; b2].
Proof.
  intros Hb Hdlab Hbusy Hdelay. unfold write_byte, char_from_utf8.
  rewrite (proj2 (Z.ltb_ge b 0x80)) by lia.
  destruct (write_str_result polls [Z.lor 0xc0 (Z.shiftr b 6); Z.lor 0x80 (Z.land b 0x3f)] u)
    as (u' & Hrun & Hsent); [done..|].
  exists u'. cbn [crlf] in Hsent.
  assert (∀ c x, Z.testbit c 7 = true → Z.lor c x ≠ 10) as Hne.
  { intros c x Hc Heq. apply (f_equal (fun z => Z.testbit z 7)) in Heq. by rewrite Z.lor_spec, Hc in Heq. }
  rewrite !(proj2 (Z.eqb_neq _ 10)) in Hsent.
  - eexists _, _. split; [exact Hrun|]. exact Hsent.
  - by apply Hne.
  - by apply Hne.
Qed.

Lemma check_loop_works n : ∀ i (u : UART), check_loop p n i u =
  Done (true, match n with O => u | _ => uart_out 7 (i + Z.of_nat n - 1) u end).
Proof.
  induction n as [|n IH]; intros i u; cbn [check_loop]; [done|]. io_simpl.
  change (uart_in 7 (uart_out 7 i u)) with (i, uart_out 7 i u). cbn [fst snd]. rewrite Z.eqb_refl, IH.
  destruct n; [by replace (i + Z.of_nat 1 - 1) with i by lia|].
  replace (i + 1 + Z.of_nat (S n) - 1) with (i + Z.of_nat (S (S n)) - 1) by lia. done.
Qed.

(** The receive loop moves every received byte into the buffer. *)
Lemma receive_loop_spec fuel : ∀ (u : UART) q,
  dlab u = false → (length (received u) < fuel)%nat →
  ∃ q' dropped u', receive_loop fuel p (Some q) u = Done (Some q', u') ∧ received u' = [] ∧
    queued q ++ received u = dropped ++ queued q'.
Proof.
  induction fuel as [|fuel IH]; intros u q Hdlab Hlen; [lia|]. cbn [receive_loop]. io_simpl.
  destruct u as [i l m f s dl dm r se b de]. cbn in Hlen |- *. change (Z.testbit l 7 = false) in Hdlab.
  destruct r as [|x r].
  - exists q, []. eexists. split_and!; [by destruct b|done|by rewrite app_nil_r].
  - replace (Z.land _ 1 =? 1) with true by (by destruct b). io_simpl.
    assert (uart_in 0 (mkUart i l m f s dl dm (x :: r) se (pred b) de) = (x, mkUart i l m f s dl dm r se (pred b) de))
      as -> by (unfold uart_in, dlab; cbn [lcr]; by rewrite Hdlab).
    cbn [fst snd].
    destruct (store_byte_spec "Serial: Failed to store received byte in buffer!" x q (length (queued q)))
      as (q1 & d1 & -> & Happ & _); [done|]. rewrite res_bind_ret_l.
    edestruct (IH (mkUart i l m f s dl dm r se (pred b) de) q1) as (q' & d & u' & Hrun & Hnil & Happ');
      [exact Hdlab|cbn in *; lia|].
    exists q', (d1 ++ d), u'. split_and!; [exact Hrun|done|]. cbn in *.
    by rewrite <-(assoc_L (++)), <-Happ', (assoc_L (++)), <-Happ, <-(assoc_L (++)).
Qed.

(** The receive interrupt empties the UART into the buffer: the buffer then
    holds the newest of the bytes it held and received, in order; only its oldest
    bytes are dropped when it is full, and the handler never panics. *)
Theorem serial_trigger_receives fuel q (u : UART) :
  dlab u = false → (length (received u) < fuel)%nat → received u ≠ [] →
  ∃ q' dropped u', serial_trigger fuel p (Some (mkSerial p (Some q))) u =
      Done (Some (mkSerial p (Some q')), u') ∧
    received u' = [] ∧ queued q ++ received u = dropped ++ queued q'.
Proof.
  intros Hdlab Hlen Hne. unfold serial_trigger. io_simpl.
  assert (uart_in 2 u = (4, u)) as -> by (unfold uart_in; cbn; by destruct (received u)).
  cbn [fst snd buffer port]. change (Z.land 4 1 =? 1) with false. cbv iota.
  destruct (receive_loop_spec fuel u q Hdlab Hlen) as (q' & d & u' & Hrun & Hnil & Happ).
  exists q', d, u'. split_and!; [|done|done]. unfold io_bind. by rewrite Hrun.
Qed.
End Uart.

(** ** Concrete inputs *)
Section Examples.
#[local] Existing Instance list_queue.

(** A UART with two received bytes, whose transmitter is busy for 3 polls. *)
Definition demo_uart : uart := mkUart 1 3 0 0 0 0 0 [65; 66] [] 3 2.

Lemma speed_sets_divisor_witness :
  ∃ u' : uart, @speed (uart_device COM1) COM1 Baud9600 demo_uart = Done (tt, u') ∧ dll u' + 256 * dlm u' = 12.
Proof.
  destruct (speed_sets_divisor COM1 Baud9600 demo_uart) as (u' & ? & ? & _); [done|eauto].
Defined.

Lemma write_str_sends_witness :
  ∃ u' : uart, @write_str (uart_device COM2) 4 COM2 [72; 105; 10] demo_uart = Done (tt, u') ∧
    sent u' = [72; 105; 13; 10].
Proof.
  destruct (write_str_sends COM2 4 [72; 105; 10] demo_uart) as (u' & Hrun & Hsent); [done|cbn; lia..|].
  exists u'. split; [exact Hrun|exact Hsent].
Defined.

Lemma write_byte_not_ascii_witness :
  ∃ (u' : uart) b1 b2, @write_byte (uart_device COM1) 4 COM1 0xe4 demo_uart = Done (tt, u') ∧ sent u' = [b1; b2].
Proof.
  destruct (write_byte_not_ascii COM1 4 0xe4 demo_uart) as (u' & b1 & b2 & Hrun & Hsent); [done|done|cbn; lia..|].
  exists u', b1, b2. split; [exact Hrun|exact Hsent].
Defined.

(** A buffer of two bytes that already holds one: the oldest byte is dropped. *)
Lemma serial_trigger_receives_witness :
  ∃ (q' : list Z) (u' : uart), @serial_trigger (uart_device COM1) (list_queue 2) 3 COM1
      (Some (@mkSerial (list_queue 2) COM1 (Some [64]))) demo_uart =
      Done (Some (@mkSerial (list_queue 2) COM1 (Some q')), u') ∧ q' = [65; 66].
Proof.
  destruct (@serial_trigger_receives COM1 (list_queue 2) (list_queue_laws 1) 3 [64] demo_uart)
    as (q' & dropped & u' & Hrun & _ & _); [done|cbn; lia|done|].
  exists q', u'. split; [exact Hrun|]. vm_compute in Hrun. congruence.
Defined.
End Examples.
