(* ===== verification/Ps2.v ===== *)
(** * PS/2 controller and keyboard (os/kernel/src/device/ps2.rs)

    The initialization of the controller and of the keyboard, and [init_keyboard]
    of lib.rs, which runs both.  The commands belong to the crate ps2: a class, with
    laws that state what the commands do to the configuration of the controller
    and to the keyboard.  The keyboard's buffer is in Serial.v. *)

From S2P Require Import Prelude.
#[local] Open Scope Z_scope.

(** The flags of the configuration byte that the driver uses *)
Definition ENABLE_KEYBOARD_INTERRUPT : Z := 0x01.
Definition ENABLE_MOUSE_INTERRUPT : Z := 0x02.
Definition DISABLE_KEYBOARD : Z := 0x10.
Definition DISABLE_MOUSE : Z := 0x20.
Definition ENABLE_TRANSLATE : Z := 0x40.

(** [bitflags]: [config.set(flags, value)] *)
Definition set_flags (config flags : Z) (value : bool) : Z :=
  if value then Z.lor config flags else Z.ldiff config flags.

Class ControllerOps := {
  controller : Type;
  ControllerError : Type;
  KeyboardError : Type;
  (** [From<ControllerError> for KeyboardError], used by [?] *)
  keyboard_error : ControllerError → KeyboardError;
  KeyboardType : Type;
  (** [ATWithTranslation], [MF2WithTranslation] or [ThinkPadWithTranslation] *)
  with_translation : KeyboardType → bool;
  disable_keyboard : controller → (unit + ControllerError) * controller;
  disable_mouse : controller → (unit + ControllerError) * controller;
  enable_keyboard : controller → (unit + ControllerError) * controller;
  read_data : controller → (Z + ControllerError) * controller;
  read_config : controller → (Z + ControllerError) * controller;
  write_config : Z → controller → (unit + ControllerError) * controller;
  test_controller : controller → (unit + ControllerError) * controller;
  test_keyboard : controller → (unit + ControllerError) * controller;
  test_mouse : controller → (unit + ControllerError) * controller;
  reset_and_self_test : controller → (unit + KeyboardError) * controller;
  disable_scanning : controller → (unit + KeyboardError) * controller;
  get_keyboard_type : controller → (KeyboardType + KeyboardError) * controller;
  set_defaults : controller → (unit + KeyboardError) * controller;
  set_scancode_set : Z → controller → (unit + KeyboardError) * controller;
  set_typematic_rate_and_delay : Z → controller → (unit + KeyboardError) * controller;
  set_leds : Z → controller → (unit + KeyboardError) * controller;
  enable_scanning : controller → (unit + KeyboardError) * controller;
}.

Section Driver.
Context `{ControllerOps}.

(** Commands that may fail; a panic ends the program. *)
Definition command (E A : Type) : Type := controller → res ((A + E) * controller).
Definition call {E A} (f : controller → (A + E) * controller) : command E A := fun s => Done (f s).
Definition return_ok {E A} (a : A) : command E A := fun s => Done (inl a, s).
Definition panic {E A} (msg : string) : command E A := fun _ => Panic msg.
(** [let a = m?; ...] *)
Definition and_then {E A B} (m : command E A) (k : A → command E B) : command E B :=
  fun s => r ← m s; match r.1 with inl a => k a r.2 | inr e => Done (inr e, r.2) end.
(** [m], with its result inspected instead of passed on *)
Definition attempt {E E' A} (m : command E A) : command E' (A + E) := fun s => r ← m s; Done (inl r.1, r.2).
Definition map_err {E E' A} (f : E → E') (m : command E A) : command E' A :=
  fun s => r ← m s; Done (match r.1 with inl a => inl a | inr e => inr (f e) end, r.2).
End Driver.

#[local] Notation "x ←? m ; k" := (and_then m (fun x => k)) (at level 20, m at level 100, k at level 200, right associativity).
#[local] Notation "m ;? k" := (and_then m (fun _ => k)) (at level 100, k at level 200, right associativity).

Section Init.
Context `{ControllerOps}.

(** [PS2::init_controller] *)
Definition init_controller : command ControllerError unit :=
  call disable_keyboard ;?
  call disable_mouse ;?
  attempt (call read_data) ;?
  config ←? call read_config;
  let config := set_flags config (Z.lor (Z.lor ENABLE_KEYBOARD_INTERRUPT ENABLE_MOUSE_INTERRUPT) ENABLE_TRANSLATE) false in
  call (write_config config) ;?
  call test_controller ;?
  current ←? call read_config;
  (if negb (current =? config) then call (write_config config) else return_ok tt) ;?
  keyboard ←? attempt (call test_keyboard);
  config ←? match keyboard with
            | inl _ =>
                call enable_keyboard ;?
                let config := set_flags config DISABLE_KEYBOARD false in
                let config := set_flags config ENABLE_KEYBOARD_INTERRUPT true in
                call (write_config config) ;? return_ok config
            | inr _ => panic "No keyboard detected!"
            end;
  mouse ←? attempt (call test_mouse);
  match mouse with
  | inl _ =>
      call enable_keyboard ;?
      let config := set_flags config DISABLE_MOUSE false in
      let config := set_flags config ENABLE_MOUSE_INTERRUPT true in
      call (write_config config)
  | inr _ => return_ok tt
  end.

(** [PS2::init_keyboard] *)
Definition init_keyboard : command KeyboardError unit :=
  reset ←? attempt (call reset_and_self_test);
  match reset with
  | inr _ => panic "Keyboard is not working!"
  | inl _ =>
      call disable_scanning ;?
      kb_type ←? call get_keyboard_type;
      (if with_translation kb_type then
         config ←? map_err keyboard_error (call read_config);
         map_err keyboard_error (call (write_config (set_flags config ENABLE_TRANSLATE true)))
       else return_ok tt) ;?
      call set_defaults ;?
      call (set_scancode_set 1) ;?
      call (set_typematic_rate_and_delay 0) ;?
      call (set_leds 0) ;?
      call enable_scanning
  end.

(** [init_keyboard] (lib.rs): both, with errors turned into panics *)
Definition init_ps2 (s : controller) : res controller :=
  r ← init_controller s;
  match r.1 with
  | inr _ => Panic "Failed to initialize PS2 controller"
  | inl _ =>
      r ← init_keyboard r.2;
      match r.1 with inr _ => Panic "Failed to initialize PS2 keyboard" | inl _ => Done r.2 end
  end.
End Init.

(** ** What the commands do *)

(** The configuration byte, the keyboard's scancode set and whether it scans *)
Class ControllerLaws `{ControllerOps} := {
  config : controller → Z;
  scancode_set : controller → Z;
  scanning : controller → bool;
  disable_keyboard_ok s s' : disable_keyboard s = (inl tt, s') → config s' = Z.lor (config s) DISABLE_KEYBOARD;
  disable_mouse_ok s s' : disable_mouse s = (inl tt, s') → config s' = Z.lor (config s) DISABLE_MOUSE;
  enable_keyboard_ok s s' : enable_keyboard s = (inl tt, s') → config s' = Z.ldiff (config s) DISABLE_KEYBOARD;
  read_data_config s r s' : read_data s = (r, s') → config s' = config s;
  read_config_ok s c s' : read_config s = (inl c, s') → c = config s ∧ config s' = config s;
  write_config_ok s c s' : write_config c s = (inl tt, s') → config s' = c;
  test_keyboard_config s r s' : test_keyboard s = (r, s') → config s' = config s;
  test_mouse_config s r s' : test_mouse s = (r, s') → config s' = config s;
  reset_and_self_test_config s r s' : reset_and_self_test s = (r, s') → config s' = config s;
  disable_scanning_config s r s' : disable_scanning s = (r, s') → config s' = config s;
  get_keyboard_type_config s r s' : get_keyboard_type s = (r, s') → config s' = config s;
  set_defaults_config s r s' : set_defaults s = (r, s') → config s' = config s;
  set_scancode_set_ok s n s' :
    set_scancode_set n s = (inl tt, s') → config s' = config s ∧ scancode_set s' = n;
  set_typematic_ok s n s' :
    set_typematic_rate_and_delay n s = (inl tt, s') → config s' = config s ∧ scancode_set s' = scancode_set s;
  set_leds_ok s n s' : set_leds n s = (inl tt, s') → config s' = config s ∧ scancode_set s' = scancode_set s;
  enable_scanning_ok s s' :
    enable_scanning s = (inl tt, s') → config s' = config s ∧ scancode_set s' = scancode_set s ∧ scanning s' = true;
}.

Section Facts.
Context `{ControllerLaws}.

(** The panics of the initialization *)
Definition init_panics : list string :=
  ["No keyboard detected!"; "Keyboard is not working!"; "Failed to initialize PS2 controller"; "Failed to initialize PS2 keyboard"].

(** When [m] succeeds on a state with [P], its result satisfies [Q]; it may only
    panic with a message of [init_panics]. *)
Definition ensures {E A} (P : controller → Prop) (m : command E A) (Q : A → controller → Prop) : Prop :=
  ∀ s, P s → match m s with
             | Done (inl a, s') => Q a s'
             | Done (inr _, _) => True
             | Panic msg => msg ∈ init_panics
             | _ => False
             end.

Lemma ensures_then {E A B} P (m : command E A) R (k : A → command E B) Q :
  ensures P m R → (∀ a, ensures (R a) (k a) Q) → ensures P (and_then m k) Q.
Proof.
  intros Hm Hk s HP. unfold and_then. specialize (Hm s HP). destruct (m s) as [[[a|e] s']| | |]; try done. by apply Hk.
Qed.
Lemma ensures_call {E A} P (f : controller → (A + E) * controller) Q :
  (∀ s a s', P s → f s = (inl a, s') → Q a s') → ensures P (call f) Q.
Proof. intros Hf s HP. unfold call. destruct (f s) as [[a|e] s'] eqn:Heq; [|done]. by eapply Hf. Qed.
Lemma ensures_attempt {E E' A} P (f : controller → (A + E) * controller) (Q : A + E → controller → Prop) :
  (∀ s r s', P s → f s = (r, s') → Q r s') → ensures (E := E') P (attempt (call f)) Q.
Proof. intros Hf s HP. unfold attempt, call. cbn. destruct (f s) as [r s'] eqn:Heq. by eapply Hf. Qed.
Lemma ensures_map_err {E E' A} P (f : E → E') (m : command E A) Q : ensures P m Q → ensures P (map_err f m) Q.
Proof. intros Hm s HP. unfold map_err. specialize (Hm s HP). by destruct (m s) as [[[a|e] s']| | |]. Qed.
Lemma ensures_ok {E A} (P : controller → Prop) (a : A) (Q : A → controller → Prop) : (∀ s, P s → Q a s) → ensures (E := E) P (return_ok a) Q.
Proof. intros HQ s HP. by apply HQ. Qed.
Lemma ensures_panic {E A} P msg (Q : A → controller → Prop) : msg ∈ init_panics → ensures (E := E) P (panic msg) Q.
Proof. by intros Hmsg s _. Qed.

(** The configuration with [init_controller]'s changes *)
Definition initial_config (c : Z) : Z :=
  set_flags (Z.lor (Z.lor c DISABLE_KEYBOARD) DISABLE_MOUSE)
    (Z.lor (Z.lor ENABLE_KEYBOARD_INTERRUPT ENABLE_MOUSE_INTERRUPT) ENABLE_TRANSLATE) false.
Definition keyboard_config (c : Z) : Z := set_flags (set_flags (initial_config c) DISABLE_KEYBOARD false) ENABLE_KEYBOARD_INTERRUPT true.
Definition mouse_config (c : Z) : Z := set_flags (set_flags (keyboard_config c) DISABLE_MOUSE false) ENABLE_MOUSE_INTERRUPT true.
Definition controller_config (c : Z) (mouse : bool) : Z := if mouse then mouse_config c else keyboard_config c.

(** Introduces a result that is not used *)
#[local] Ltac drop := let u := fresh in intros u; cbn beta; clear u.

Lemma init_controller_ok c :
  ensures (fun s => config s = c) init_controller (fun _ s => ∃ mouse, config s = controller_config c mouse).
Proof.
  unfold init_controller.
  eapply ensures_then; [apply ensures_call with (Q := fun _ s => config s = Z.lor c DISABLE_KEYBOARD)|drop].
  { intros s [] s' <-. apply disable_keyboard_ok. }
  eapply ensures_then; [apply ensures_call with (Q := fun _ s => config s = Z.lor (Z.lor c DISABLE_KEYBOARD) DISABLE_MOUSE)|drop].
  { intros s [] s' <-. apply disable_mouse_ok. }
  eapply ensures_then; [apply ensures_attempt with (Q := fun _ s => config s = Z.lor (Z.lor c DISABLE_KEYBOARD) DISABLE_MOUSE)|drop].
  { intros s r s' <-. apply read_data_config. }
  eapply ensures_then; [apply ensures_call with (Q := fun a s => a = Z.lor (Z.lor c DISABLE_KEYBOARD) DISABLE_MOUSE)|].
  { intros s r s' <- [-> _]%read_config_ok. done. }
  intros a. apply (ensures_then _ _ (fun _ _ => a = Z.lor (Z.lor c DISABLE_KEYBOARD) DISABLE_MOUSE)).
  { by apply ensures_call. }
  drop. apply (ensures_then _ _ (fun _ _ => a = Z.lor (Z.lor c DISABLE_KEYBOARD) DISABLE_MOUSE)).
  { by apply ensures_call. }
  drop. apply (ensures_then _ _ (fun cur s => a = Z.lor (Z.lor c DISABLE_KEYBOARD) DISABLE_MOUSE ∧ config s = cur)).
  { apply ensures_call. intros s r s' -> [-> ->]%read_config_ok. done. }
  intros cur. set (low := set_flags a _ false).
  apply (ensures_then _ _ (fun _ s => low = initial_config c)).
  { destruct (cur =? low); cbn [negb]; [apply ensures_ok; intros s|apply ensures_call; intros s u s']; intros [Ha _]; unfold low; by rewrite Ha. }
  drop. apply (ensures_then _ _ (fun _ s => low = initial_config c)); [by apply ensures_attempt|].
  intros kb. apply (ensures_then _ _ (fun cfg s => cfg = keyboard_config c ∧ config s = cfg)).
  { destruct kb; [|apply ensures_panic; unfold init_panics; set_solver].
    apply (ensures_then _ _ (fun _ s => low = initial_config c)); [by apply ensures_call|]. drop.
    apply (ensures_then _ _ (fun _ s => low = initial_config c ∧ config s = keyboard_config c)).
    - apply ensures_call. intros s [] s' Hlow Hw. rewrite Hlow in Hw. split; [done|]. by apply write_config_ok in Hw.
    - drop. apply ensures_ok. by intros s [-> ->]. }
  intros cfg. apply (ensures_then _ _ (fun _ s => cfg = keyboard_config c ∧ config s = cfg)).
  { apply ensures_attempt. intros s r s' [-> Hc] Ht. apply test_mouse_config in Ht. by rewrite Ht. }
  intros [|]; [|apply ensures_ok; intros s [-> Hc]; by exists false].
  apply (ensures_then _ _ (fun _ s => cfg = keyboard_config c)); [apply ensures_call; by intros s [] s' [-> _] _|].
  drop. apply ensures_call. intros s [] s' -> Hw%write_config_ok. by exists true.
Qed.

Lemma init_keyboard_ok c :
  ensures (fun s => config s = c) init_keyboard (fun _ s => scanning s = true ∧ scancode_set s = 1 ∧
    ∃ t, config s = if with_translation t then set_flags c ENABLE_TRANSLATE true else c).
Proof.
  unfold init_keyboard. apply (ensures_then _ _ (fun _ s => config s = c)).
  { apply ensures_attempt. intros s r s' <-. apply reset_and_self_test_config. }
  intros [|]; [|apply ensures_panic; unfold init_panics; set_solver].
  apply (ensures_then _ _ (fun _ s => config s = c)).
  { apply ensures_call. intros s r s' <-. apply disable_scanning_config. }
  drop. apply (ensures_then _ _ (fun _ s => config s = c)).
  { apply ensures_call. intros s r s' <-. apply get_keyboard_type_config. }
  intros t. set (d := if with_translation t then set_flags c ENABLE_TRANSLATE true else c).
  apply (ensures_then _ _ (fun _ s => config s = d)).
  { unfold d. destruct (with_translation t); [|by apply ensures_ok].
    apply (ensures_then _ _ (fun cfg s => cfg = c)).
    - apply ensures_map_err, ensures_call. intros s r s' <- [-> _]%read_config_ok. done.
    - intros cfg. apply ensures_map_err, ensures_call. by intros s [] s' -> Hw%write_config_ok. }
  drop. apply (ensures_then _ _ (fun _ s => config s = d)).
  { apply ensures_call. intros s r s' <-. apply set_defaults_config. }
  drop. apply (ensures_then _ _ (fun _ s => config s = d ∧ scancode_set s = 1)).
  { apply ensures_call. intros s [] s' <-. apply set_scancode_set_ok. }
  drop. apply (ensures_then _ _ (fun _ s => config s = d ∧ scancode_set s = 1)).
  { apply ensures_call. intros s [] s' [<- <-]. apply set_typematic_ok. }
  drop. apply (ensures_then _ _ (fun _ s => config s = d ∧ scancode_set s = 1)).
  { apply ensures_call. intros s [] s' [<- <-]. apply set_leds_ok. }
  drop. apply ensures_call. intros s [] s' [Hc Hs] (Hc' & Hs' & Hscan)%enable_scanning_ok.
  split_and!; [done|congruence|exists t; fold d; congruence].
Qed.

Lemma flag_bit n k : 0 ≤ n → Z.testbit (2 ^ n) k = (k =? n).
Proof.
  intros Hn. destruct (Z.eqb_spec k n) as [->|Hne]; [by apply Z.pow2_bits_true|]. apply Z.pow2_bits_false. congruence.
Qed.

(** After [init_keyboard] of lib.rs, if it does not panic, the keyboard scans with
    scancode set 1, its port and its interrupt are enabled, the port and the interrupt
    of the mouse are both enabled or both disabled, translation is enabled exactly
    if the keyboard's type asks for it, and no other bit of the controller's
    configuration has changed.  The panics are those of a missing or broken
    keyboard and of commands that fail. *)
Theorem init_ps2_configures s :
  match init_ps2 s with
  | Done s' =>
      scanning s' = true ∧ scancode_set s' = 1 ∧
      ∃ (mouse : bool) (t : KeyboardType), ∀ k, 0 ≤ k → Z.testbit (config s') k =
        if k =? 0 then true else if k =? 1 then mouse else if k =? 4 then false
        else if k =? 5 then negb mouse else if k =? 6 then with_translation t else Z.testbit (config s) k
  | Panic msg => msg ∈ init_panics
  | _ => False
  end.
Proof.
  unfold init_ps2. pose proof (init_controller_ok (config s) s eq_refl) as Hc.
  destruct (init_controller s) as [[[[]|e] s1]| | |]; cbn [res_bind fst snd mbind] in *; try done; [|unfold init_panics; set_solver].
  destruct Hc as [mouse Hc]. pose proof (init_keyboard_ok _ s1 Hc) as Hk.
  destruct (init_keyboard s1) as [[[[]|e] s2]| | |]; try done; [|cbn; unfold init_panics; set_solver].
  destruct Hk as (Hscan & Hset & t & Hk). cbn. split_and!; [done..|]. exists mouse, t. intros k Hk0. rewrite Hk.
  unfold controller_config, mouse_config, keyboard_config, initial_config, set_flags.
  change ENABLE_KEYBOARD_INTERRUPT with (2 ^ 0). change ENABLE_MOUSE_INTERRUPT with (2 ^ 1). change DISABLE_KEYBOARD with (2 ^ 4).
  change DISABLE_MOUSE with (2 ^ 5). change ENABLE_TRANSLATE with (2 ^ 6).
  destruct (with_translation t), mouse; rewrite ?Z.lor_spec, ?Z.ldiff_spec, ?Z.lor_spec, ?Z.ldiff_spec, ?Z.lor_spec, ?Z.ldiff_spec, ?Z.lor_spec, ?Z.ldiff_spec, ?Z.lor_spec, !flag_bit by done;
    repeat case_Z; try lia; subst; rewrite ?andb_true_r, ?orb_false_r, ?andb_false_r, ?orb_true_r; done.
Qed.
End Facts.

(** ** A concrete controller *)

(** An i8042 whose self test resets the configuration, with a keyboard that may have
    translation and possibly a mouse *)
Record i8042 := mkI8042 { byte : Z; kb_set : Z; kb_scan : bool; has_mouse : bool; translated : bool }.
Definition with_byte (c : Z) (s : i8042) : i8042 := mkI8042 c (kb_set s) (kb_scan s) (has_mouse s) (translated s).
Definition with_keyboard (n : Z) (scan : bool) (s : i8042) : i8042 := mkI8042 (byte s) n scan (has_mouse s) (translated s).

#[export] Instance i8042_ops : ControllerOps := {|
  controller := i8042;
  ControllerError := unit;
  KeyboardError := unit;
  keyboard_error := id;
  KeyboardType := bool;
  with_translation := id;
  disable_keyboard s := (inl tt, with_byte (Z.lor (byte s) DISABLE_KEYBOARD) s);
  disable_mouse s := (inl tt, with_byte (Z.lor (byte s) DISABLE_MOUSE) s);
  enable_keyboard s := (inl tt, with_byte (Z.ldiff (byte s) DISABLE_KEYBOARD) s);
  read_data s := (inr tt, s);
  read_config s := (inl (byte s), s);
  write_config c s := (inl tt, with_byte c s);
  test_controller s := (inl tt, with_byte 0x30 s);
  test_keyboard s := (inl tt, s);
  test_mouse s := (if has_mouse s then inl tt else inr tt, s);
  reset_and_self_test s := (inl tt, with_keyboard 2 true s);
  disable_scanning s := (inl tt, with_keyboard (kb_set s) false s);
  get_keyboard_type s := (inl (translated s), s);
  set_defaults s := (inl tt, with_keyboard 2 false s);
  set_scancode_set n s := (inl tt, with_keyboard n (kb_scan s) s);
  set_typematic_rate_and_delay _ s := (inl tt, s);
  set_leds _ s := (inl tt, s);
  enable_scanning s := (inl tt, with_keyboard (kb_set s) true s);
|}.

#[export] Instance i8042_laws : ControllerLaws.
Proof.
  refine {| config := byte; scancode_set := kb_set; scanning := kb_scan |}; cbn; intros; by simplify_eq.
Defined.

Definition demo_controller : @controller i8042_ops := mkI8042 0x47 2 false true true.
Lemma init_ps2_configures_witness :
  ∃ s', init_ps2 demo_controller = Done s' ∧ scanning s' = true ∧ scancode_set s' = 1 ∧ Z.testbit (config s') 2 = true.
Proof.
  pose proof (init_ps2_configures demo_controller) as Hinit.
  assert (is_done (init_ps2 demo_controller) = true) as Hdone by reflexivity.
  destruct (init_ps2 demo_controller) as [s'| | |]; try discriminate.
  destruct Hinit as (Hscan & Hset & mouse & t & Hbits). exists s'.
  split_and!; [reflexivity|exact Hscan|exact Hset|]. exact (Hbits 2 ltac:(lia)).
Defined.

(** Without a mouse, its port and its interrupt stay disabled. *)
Example init_ps2_without_mouse :
  init_ps2 (mkI8042 0x47 2 false false false : @controller i8042_ops) = Done (mkI8042 0x25 1 true false false : @controller i8042_ops).
Proof. reflexivity. Qed.
