(* ===== verification/Color.v ===== *)
(** * Colors (os/library/graphic/src/color.rs)

    Colors with 8-bit channels, their packed representations with 32, 24, 16 and
    15 bits per pixel, brightness and blending.  [blend] computes with [f64]; the
    model uses the IEEE 754 operations of the Standard Library's SpecFloat. *)

From S2P Require Import Prelude.
From Stdlib Require Import SpecFloat.
#[local] Open Scope Z_scope.
#[local] Ltac Zify.zify_post_hook ::= Z.to_euclidean_division_equations.

Record Color := mkColor { red : Z; green : Z; blue : Z; alpha : Z }.

#[export] Instance Color_eq_dec : EqDecision Color.
Proof. solve_decision. Defined.

Definition BRIGHTNESS_SHIFT : Z := 85.
Definition INVISIBLE : Color := mkColor 0 0 0 0.
Definition BLACK : Color := mkColor 0 0 0 255.
Definition RED : Color := mkColor 170 0 0 255.
Definition GREEN : Color := mkColor 0 170 0 255.
Definition YELLOW : Color := mkColor 170 170 0 255.
Definition BROWN : Color := mkColor 170 85 0 255.
Definition BLUE : Color := mkColor 0 0 170 255.
Definition MAGENTA : Color := mkColor 170 0 170 255.
Definition CYAN : Color := mkColor 0 170 170 255.
Definition WHITE : Color := mkColor 170 170 170 255.

Definition from_rgb_32 (rgba : Z) : Color :=
  mkColor (wrap 8 (Z.shiftr (Z.land rgba 0x00ff0000) 16)) (wrap 8 (Z.shiftr (Z.land rgba 0x0000ff00) 8))
    (wrap 8 (Z.land rgba 0x000000ff)) (wrap 8 (Z.shiftr (Z.land rgba 0xff000000) 24)).
Definition from_rgb_24 (rgb : Z) : Color :=
  mkColor (wrap 8 (Z.shiftr (Z.land rgb 0x00ff0000) 16)) (wrap 8 (Z.shiftr (Z.land rgb 0x0000ff00) 8))
    (wrap 8 (Z.land rgb 0x000000ff)) 0.
Definition from_rgb_16 (rgb : Z) : Color :=
  mkColor (wrap 8 (Z.shiftr (Z.land rgb 0xf800) 11 * (256 / 32))) (wrap 8 (Z.shiftr (Z.land rgb 0x07e0) 5 * (256 / 64)))
    (wrap 8 (Z.land rgb 0x001f * (256 / 32))) 0.
Definition from_rgb_15 (rgb : Z) : Color :=
  mkColor (wrap 8 (Z.shiftr (Z.land rgb 0x7c00) 10 * (256 / 32))) (wrap 8 (Z.shiftr (Z.land rgb 0x03e0) 5 * (256 / 32)))
    (wrap 8 (Z.land rgb 0x001f * (256 / 32))) 0.

Definition from_rgb (rgb bpp : Z) : res Color :=
  if bpp =? 32 then Done (from_rgb_32 rgb)
  else if bpp =? 24 then Done (from_rgb_24 rgb)
  else if bpp =? 16 then Done (from_rgb_16 (wrap 16 rgb))
  else if bpp =? 15 then Done (from_rgb_15 (wrap 16 rgb))
  else Panic "Color: Invalid bpp!".

Definition rgb_32 (c : Color) : Z :=
  Z.lor (Z.lor (Z.lor (Z.shiftl (alpha c) 24) (Z.shiftl (red c) 16)) (Z.shiftl (green c) 8)) (blue c).
Definition rgb_24 (c : Color) : Z :=
  Z.lor (Z.lor (Z.shiftl (red c) 16) (Z.shiftl (green c) 8)) (blue c).
Definition rgb_16 (c : Color) : Z :=
  Z.lor (Z.lor (Z.shiftr (blue c) 3) (Z.shiftl (Z.shiftr (green c) 2) 5)) (Z.shiftl (Z.shiftr (red c) 3) 11).
Definition rgb_15 (c : Color) : Z :=
  Z.lor (Z.lor (Z.shiftr (blue c) 3) (Z.shiftl (Z.shiftr (green c) 3) 5)) (Z.shiftl (Z.shiftr (red c) 3) 10).

(** [bright]: u16 arithmetic, clamped *)
Definition bright (c : Color) : Color :=
  let r := red c + BRIGHTNESS_SHIFT in
  let g := green c + BRIGHTNESS_SHIFT in
  let b := blue c + BRIGHTNESS_SHIFT in
  mkColor (if 0xff <? r then 0xff else r) (if 0xff <? g then 0xff else g) (if 0xff <? b then 0xff else b) (alpha c).

(** [dim]: i16 arithmetic, clamped *)
Definition dim (c : Color) : Color :=
  let r := red c - BRIGHTNESS_SHIFT in
  let g := green c - BRIGHTNESS_SHIFT in
  let b := blue c - BRIGHTNESS_SHIFT in
  mkColor (if r <? 0 then 0 else r) (if g <? 0 then 0 else g) (if b <? 0 then 0 else b) (alpha c).

Definition with_alpha (c : Color) (a : Z) : Color := mkColor (red c) (green c) (blue c) a.

(** [f64] *)
Definition f64_of (z : Z) : spec_float := binary_normalize 53 1024 z 0 false.
Definition fadd : spec_float → spec_float → spec_float := SFadd 53 1024.
Definition fsub : spec_float → spec_float → spec_float := SFsub 53 1024.
Definition fmul : spec_float → spec_float → spec_float := SFmul 53 1024.
Definition fdiv : spec_float → spec_float → spec_float := SFdiv 53 1024.

(** [x as u8]: truncation towards zero, saturating, 0 for NaN *)
Definition u8_of (f : spec_float) : Z :=
  match f with
  | S754_zero _ | S754_nan => 0
  | S754_infinity s => if s then 0 else 255
  | S754_finite s m e =>
      if s then 0 else Z.min 255 (Z.shiftl (Z.pos m) e)
  end.

(** [blend]: the resulting alpha and one channel *)
Definition blend_alpha3 (alpha1 alpha2 : spec_float) : spec_float :=
  fadd alpha1 (fmul (fsub (f64_of 1) alpha1) alpha2).
Definition blend_channel (alpha1 alpha2 alpha3 : spec_float) (under over : Z) : Z :=
  u8_of (fmul (fdiv (f64_of 1) alpha3)
    (fadd (fmul alpha1 (f64_of over)) (fmul (fmul (fsub (f64_of 1) alpha1) alpha2) (f64_of under)))).

(** [blend], for a color [self] that is not transparent *)
Definition blend_visible (self color : Color) : Color :=
  if alpha color =? 0 then self
  else if alpha color =? 0xff then color
  else
    let alpha1 := fdiv (f64_of (alpha color)) (f64_of 255) in
    let alpha2 := fdiv (f64_of (alpha self)) (f64_of 255) in
    let alpha3 := blend_alpha3 alpha1 alpha2 in
    mkColor (blend_channel alpha1 alpha2 alpha3 (red self) (red color))
      (blend_channel alpha1 alpha2 alpha3 (green self) (green color))
      (blend_channel alpha1 alpha2 alpha3 (blue self) (blue color))
      (u8_of (fmul alpha3 (f64_of 255))).

(** [blend]; the recursive call is on [BLACK], which is not transparent. *)
Definition blend (self color : Color) : Color :=
  if (alpha self =? 0) && negb (alpha color =? 0) && negb (alpha color =? 0xff) then blend_visible BLACK color
  else blend_visible self color.

(** ** Properties *)

Definition byte (z : Z) : Prop := 0 ≤ z < 256.
Definition color_ok (c : Color) : Prop := byte (red c) ∧ byte (green c) ∧ byte (blue c) ∧ byte (alpha c).

(** Packing fields is adding them up, unpacking is dividing. *)
Lemma lor_shiftl a b k : 0 ≤ k → 0 ≤ b < 2 ^ k → Z.lor (Z.shiftl a k) b = a * 2 ^ k + b.
Proof.
  intros Hk Hb. assert (Z.land (Z.shiftl a k) b = 0) as Hland.
  { apply Z.bits_inj'. intros n Hn. rewrite Z.land_spec, Z.bits_0. destruct (Z.ltb_spec n k).
    - by rewrite Z.shiftl_spec_low.
    - rewrite <-(Z.mod_small b (2 ^ k)), Z.mod_pow2_bits_high, andb_false_r by lia. done. }
  by rewrite <-Z.lxor_lor, <-Z.add_nocarry_lxor, Z.shiftl_mul_pow2.
Qed.

Lemma shiftr_land_field x k w :
  0 ≤ k → 0 ≤ w → Z.shiftr (Z.land x (Z.shiftl (Z.ones w) k)) k = (x / 2 ^ k) mod 2 ^ w.
Proof.
  intros Hk Hw. rewrite Z.shiftr_land, Z.shiftr_shiftl_l, Z.sub_diag, Z.shiftl_0_r by done.
  by rewrite Z.land_ones, Z.shiftr_div_pow2.
Qed.

(** The fields of a packed color, for the masks and shifts of the source. *)
Lemma rgb_32_sum c : color_ok c → rgb_32 c = alpha c * 2 ^ 24 + red c * 2 ^ 16 + green c * 2 ^ 8 + blue c.
Proof.
  intros (Hr & Hg & Hb & Ha). unfold byte, rgb_32 in *. rewrite <-!Z.lor_assoc.
  rewrite (lor_shiftl (green c) (blue c) 8), (lor_shiftl (red c) _ 16), (lor_shiftl (alpha c) _ 24) by lia. lia.
Qed.
Lemma rgb_24_sum c : color_ok c → rgb_24 c = red c * 2 ^ 16 + green c * 2 ^ 8 + blue c.
Proof.
  intros (Hr & Hg & Hb & Ha). unfold byte, rgb_24 in *. rewrite <-!Z.lor_assoc.
  rewrite (lor_shiftl (green c) (blue c) 8), (lor_shiftl (red c) _ 16) by lia. lia.
Qed.
Lemma rgb_16_sum c :
  color_ok c → rgb_16 c = red c / 8 * 2 ^ 11 + green c / 4 * 2 ^ 5 + blue c / 8.
Proof.
  intros (Hr & Hg & Hb & Ha). unfold byte, rgb_16 in *. rewrite !Z.shiftr_div_pow2 by done.
  change (2 ^ 3) with 8. change (2 ^ 2) with 4.
  rewrite (Z.lor_comm (Z.lor _ _)), (Z.lor_comm (blue c / _)).
  rewrite (lor_shiftl (green c / _) _ 5), (lor_shiftl (red c / _) _ 11) by lia. lia.
Qed.
Lemma rgb_15_sum c :
  color_ok c → rgb_15 c = red c / 8 * 2 ^ 10 + green c / 8 * 2 ^ 5 + blue c / 8.
Proof.
  intros (Hr & Hg & Hb & Ha). unfold byte, rgb_15 in *. rewrite !Z.shiftr_div_pow2 by done.
  change (2 ^ 3) with 8.
  rewrite (Z.lor_comm (Z.lor _ _)), (Z.lor_comm (blue c / _)).
  rewrite (lor_shiftl (green c / _) _ 5), (lor_shiftl (red c / _) _ 10) by lia. lia.
Qed.

(** The packed representation for a color depth, and the color it stands for. *)
Definition packed (bpp : Z) (c : Color) : Z :=
  if bpp =? 32 then rgb_32 c else if bpp =? 24 then rgb_24 c else if bpp =? 16 then rgb_16 c else rgb_15 c.
Definition round_channel (bits z : Z) : Z := z / 2 ^ (8 - bits) * 2 ^ (8 - bits).
Definition representable (bpp : Z) (c : Color) : Color :=
  if bpp =? 32 then c
  else if bpp =? 24 then with_alpha c 0
  else if bpp =? 16 then mkColor (round_channel 5 (red c)) (round_channel 6 (green c)) (round_channel 5 (blue c)) 0
  else mkColor (round_channel 5 (red c)) (round_channel 5 (green c)) (round_channel 5 (blue c)) 0.

Lemma packed_range bpp c :
  bpp ∈ [32; 24; 16; 15] → color_ok c → 0 ≤ packed bpp c < 2 ^ bpp.
Proof.
  intros Hbpp Hc. pose proof Hc as (Hr & Hg & Hb & Ha). unfold byte in *.
  repeat (apply elem_of_cons in Hbpp as [->|Hbpp]); [..|by apply elem_of_nil in Hbpp];
    unfold packed; cbn [Z.eqb Pos.eqb].
  - rewrite rgb_32_sum by done. lia.
  - rewrite rgb_24_sum by done. lia.
  - rewrite rgb_16_sum by done. lia.
  - rewrite rgb_15_sum by done. lia.
Qed.

(** Taking three packed fields apart. *)
Lemma unpack_fields a b c wa wb wc :
  0 ≤ wa → 0 ≤ wb → 0 ≤ wc → 0 ≤ a < 2 ^ wa → 0 ≤ b < 2 ^ wb → 0 ≤ c < 2 ^ wc →
  let x := a * 2 ^ (wb + wc) + b * 2 ^ wc + c in
  (x / 2 ^ (wb + wc)) mod 2 ^ wa = a ∧ (x / 2 ^ wc) mod 2 ^ wb = b ∧ x mod 2 ^ wc = c.
Proof.
  intros Hwa Hwb Hwc Ha Hb Hc x. unfold x. rewrite Z.pow_add_r by done.
  assert (0 < 2 ^ wb ∧ 0 < 2 ^ wc) as [HP HQ] by (split; apply Z.pow_pos_nonneg; lia).
  revert Hb Hc HP HQ. generalize (2 ^ wb) (2 ^ wc). intros P Q Hb Hc HP HQ. split_and!.
  - rewrite <-(Z.div_unique (a * (P * Q) + b * Q + c) (P * Q) a (b * Q + c)); [by apply Z.mod_small|nia|ring].
  - rewrite <-(Z.div_unique (a * (P * Q) + b * Q + c) Q (a * P + b) c); [|nia|ring].
    by rewrite Z.add_comm, Z_mod_plus_full, Z.mod_small.
  - replace (a * (P * Q) + b * Q + c) with (c + (a * P + b) * Q) by ring.
    by rewrite Z_mod_plus_full, Z.mod_small.
Qed.

Ltac field_lia := unfold wrap; rewrite ?Z.mod_mod by done; lia.

(** Packing a color and unpacking it again gives the color itself with 32 bits
    per pixel, and otherwise the color with its channels cut to the depth's bits -
    but always with alpha 0, that is, invisible. *)
Theorem from_rgb_packed bpp c :
  bpp ∈ [32; 24; 16; 15] → color_ok c → from_rgb (packed bpp c) bpp = Done (representable bpp c).
Proof.
  intros Hbpp Hc. pose proof Hc as (Hr & Hg & Hb & Ha).
  pose proof (packed_range bpp c Hbpp Hc) as Hrange. unfold byte in *.
  repeat (apply elem_of_cons in Hbpp as [->|Hbpp]); [..|by apply elem_of_nil in Hbpp];
    unfold from_rgb, packed, representable in *; cbn [Z.eqb Pos.eqb] in *; f_equal.
  - rewrite rgb_32_sum in * by done. unfold from_rgb_32.
    change 0xff000000 with (Z.shiftl (Z.ones 8) 24). change 0x00ff0000 with (Z.shiftl (Z.ones 8) 16).
    change 0x0000ff00 with (Z.shiftl (Z.ones 8) 8). change 0x000000ff with (Z.ones 8).
    rewrite !shiftr_land_field, Z.land_ones by done. destruct c; cbn in *. f_equal; field_lia.
  - rewrite rgb_24_sum in * by done. unfold from_rgb_24, with_alpha.
    change 0x00ff0000 with (Z.shiftl (Z.ones 8) 16).
    change 0x0000ff00 with (Z.shiftl (Z.ones 8) 8). change 0x000000ff with (Z.ones 8).
    rewrite !shiftr_land_field, Z.land_ones by done. destruct c; cbn in *. f_equal; field_lia.
  - rewrite rgb_16_sum in * by done. unfold from_rgb_16, round_channel. rewrite (wrap_small 16) by lia.
    change 0xf800 with (Z.shiftl (Z.ones 5) 11). change 0x07e0 with (Z.shiftl (Z.ones 6) 5).
    change 0x001f with (Z.ones 5).
    rewrite !shiftr_land_field, Z.land_ones by done.
    destruct (unpack_fields (red c / 8) (green c / 4) (blue c / 8) 5 6 5) as (E1 & E2 & E3); try (done || lia).
    change (6 + 5) with 11 in *. rewrite E1, E2, E3. unfold wrap.
    change (256 / 32) with 8. change (256 / 64) with 4. rewrite !Z.mod_small by lia. done.
  - rewrite rgb_15_sum in * by done. unfold from_rgb_15, round_channel. rewrite (wrap_small 16) by lia.
    change 0x7c00 with (Z.shiftl (Z.ones 5) 10). change 0x03e0 with (Z.shiftl (Z.ones 5) 5).
    change 0x001f with (Z.ones 5).
    rewrite !shiftr_land_field, Z.land_ones by done.
    destruct (unpack_fields (red c / 8) (green c / 8) (blue c / 8) 5 5 5) as (E1 & E2 & E3); try (done || lia).
    change (5 + 5) with 10 in *. rewrite E1, E2, E3. unfold wrap.
    change (256 / 32) with 8. change (256 / 64) with 4. rewrite !Z.mod_small by lia. done.
Qed.

(** [bright] and [dim] stay in range and keep alpha; [dim] undoes [bright] for
    every color whose channels are at most 170, like the eight basic colors. *)
Theorem bright_dim c :
  color_ok c →
  color_ok (bright c) ∧ color_ok (dim c) ∧ alpha (bright c) = alpha c ∧ alpha (dim c) = alpha c ∧
  (red c ≤ 170 → green c ≤ 170 → blue c ≤ 170 → dim (bright c) = c).
Proof.
  intros (Hr & Hg & Hb & Ha). unfold color_ok, byte, bright, dim, BRIGHTNESS_SHIFT in *. cbn.
  split_and!; try done; try (repeat case_Z; lia).
  intros. destruct c as [r g b a]; cbn in *.
  rewrite !(proj2 (Z.ltb_ge 0xff _)) by lia. f_equal; case_Z; lia.
Qed.

(** The alpha of a translucent color over an opaque one, for every alpha. *)
Definition blended_alpha (a : Z) : Z :=
  let alpha1 := fdiv (f64_of a) (f64_of 255) in
  u8_of (fmul (blend_alpha3 alpha1 (fdiv (f64_of 255) (f64_of 255))) (f64_of 255)).

Lemma blended_alpha_opaque : Forall (fun a => blended_alpha a = 255) (seqZ 1 254).
Proof. apply (bool_decide_unpack _). vm_compute. exact I. Qed.

(** With the rounding of 64-bit floating point numbers, blending any color onto
    an opaque or a transparent one never changes opacity: the result is exactly
    opaque, unless a transparent color is blended onto a transparent one. *)
Theorem blend_opaque self color :
  color_ok color → alpha self = 255 ∨ alpha self = 0 →
  blend self color = self ∧ alpha color = 0 ∨ alpha (blend self color) = 255.
Proof.
  intros (_ & _ & _ & Ha) Hself. unfold blend.
  assert (∀ s, alpha s = 255 → blend_visible s color = s ∧ alpha color = 0 ∨ alpha (blend_visible s color) = 255)
    as Hvisible.
  { intros s Hs. unfold blend_visible. destruct (Z.eqb_spec (alpha color) 0); [by left|].
    destruct (Z.eqb_spec (alpha color) 0xff); [by right|]. right. cbn [alpha].
    rewrite Hs. apply (proj1 (Forall_forall _ _) blended_alpha_opaque).
    apply elem_of_seqZ. unfold byte in Ha. lia. }
  destruct (Z.eqb_spec (alpha self) 0) as [H0|H0]; cbn [andb].
  - destruct (Z.eqb_spec (alpha color) 0) as [Hc|Hc]; cbn [negb andb].
    { left. unfold blend_visible. by rewrite (proj2 (Z.eqb_eq _ _) Hc). }
    destruct (Z.eqb_spec (alpha color) 0xff) as [Hf|Hf]; cbn [negb].
    { right. unfold blend_visible. by rewrite (proj2 (Z.eqb_neq _ _) Hc), (proj2 (Z.eqb_eq _ _) Hf). }
    destruct (Hvisible BLACK eq_refl) as [[_ ?]|?]; [done|by right].
  - apply Hvisible. lia.
Qed.

(** ** Concrete inputs *)
Lemma from_rgb_packed_witness : from_rgb (packed 16 YELLOW) 16 = Done (mkColor 168 168 0 0).
Proof.
  rewrite (from_rgb_packed 16 YELLOW); [reflexivity|set_solver|unfold color_ok, byte; cbn; lia].
Defined.
Lemma bright_dim_witness : dim (bright CYAN) = CYAN.
Proof. apply (bright_dim CYAN); [unfold color_ok, byte; cbn; lia|done..]. Defined.
Lemma blend_opaque_witness : alpha (blend WHITE (with_alpha RED 100)) = 255.
Proof.
  destruct (blend_opaque WHITE (with_alpha RED 100)) as [[_ Hc]|?]; [unfold color_ok, byte; cbn; lia|by left|done|done].
Defined.
