(* ===== verification/Lfb.v ===== *)
(** * The linear framebuffer (os/library/graphic/src/lfb.rs, buffered_lfb.rs)

    A framebuffer of [pitch * height] bytes; accesses outside of it are undefined
    behaviour.  Arithmetic is 32-bit.  The glyphs come from the crate font8x8. *)

From S2P Require Import Prelude Color.
#[local] Open Scope Z_scope.

Definition CHAR_HEIGHT : Z := 16.
Definition CHAR_WIDTH : Z := 8.

(** [LFB]; [pixel_drawer] is determined by [bpp], and [buffer] is the memory the
    pointer of the same name points to. *)
Record LFB := mkLfb { buffer : Z → Z; pitch : Z; width : Z; height : Z; bpp : Z }.

Definition with_buffer (l : LFB) (b : Z → Z) : LFB := mkLfb b (pitch l) (width l) (height l) (bpp l).

(** [ptr.offset(i).write(v)] for a byte *)
Definition write_u8 (i v : Z) (l : LFB) : res LFB :=
  if (0 <=? i) && (i <? pitch l * height l) then
    Done (with_buffer l (fun j => if j =? i then v else buffer l j))
  else Undef "write outside of the framebuffer".

(** A little-endian integer of [n] bytes at byte offset [i] *)
Fixpoint write_le (n : nat) (i v : Z) (l : LFB) : res LFB :=
  match n with
  | O => Done l
  | S n' => l' ← write_u8 i (v mod 256) l; write_le n' (i + 1) (v / 256) l'
  end.

(** The crate font8x8: the fonts in the order in which [draw_char] asks them. *)
Class FontOps := { fonts : list (Z → option (list Z)) }.
Class FontLaws `{FontOps} : Prop :=
  fonts_ok f c bitmap : f ∈ fonts → f c = Some bitmap → length bitmap = 8%nat.

Section Lfb.
Context `{Profile}.

Definition draw_pixel_15_bit (l : LFB) (x y : Z) (color : Color) : res LFB :=
  row ← mul_w 32 y (pitch l / 2);
  index ← add_w 32 x row;
  write_le 2 (2 * index) (rgb_15 color) l.
Definition draw_pixel_16_bit (l : LFB) (x y : Z) (color : Color) : res LFB :=
  row ← mul_w 32 y (pitch l / 2);
  index ← add_w 32 x row;
  write_le 2 (2 * index) (rgb_16 color) l.
Definition draw_pixel_24_bit (l : LFB) (x y : Z) (color : Color) : res LFB :=
  col ← mul_w 32 x 3;
  row ← mul_w 32 y (pitch l);
  index ← add_w 32 col row;
  let rgb := rgb_24 color in
  l ← write_u8 index (Z.land rgb 0xff) l;
  l ← write_u8 (index + 1) (Z.land (Z.shiftr rgb 8) 0xff) l;
  write_u8 (index + 2) (Z.land (Z.shiftr rgb 16) 0xff) l.
Definition draw_pixel_32_bit (l : LFB) (x y : Z) (color : Color) : res LFB :=
  row ← mul_w 32 y (pitch l / 4);
  index ← add_w 32 x row;
  write_le 4 (4 * index) (rgb_32 color) l.
Definition draw_pixel_stub : res LFB := Panic "Using empty LFB!".

(** [LFB::new]: the choice of the pixel drawer *)
Definition pixel_drawer (l : LFB) : Z → Z → Color → res LFB :=
  if bpp l =? 15 then draw_pixel_15_bit l
  else if bpp l =? 16 then draw_pixel_16_bit l
  else if bpp l =? 24 then draw_pixel_24_bit l
  else if bpp l =? 32 then draw_pixel_32_bit l
  else fun _ _ _ => draw_pixel_stub.

Definition draw_pixel (l : LFB) (x y : Z) (color : Color) : res LFB :=
  if (width l <=? x) || (height l <=? y) then Done l
  else pixel_drawer l x y color.

(** The range [a..b] *)
Definition range (a b : Z) : list Z := seqZ a (b - a).

Definition fill_rect (l : LFB) (x y w h : Z) (color : Color) : res LFB :=
  end_x ← add_w 32 x w;
  end_y ← add_w 32 y h;
  for_each (fun i => for_each (fun j l => draw_pixel l j i color) (range x end_x)) (range y end_y) l.

(** [draw_char]: the chain of font lookups *)
Fixpoint find_glyph (fs : list (Z → option (list Z))) (c : Z) : option (list Z) :=
  match fs with
  | [] => None
  | f :: fs' => match f c with Some bitmap => Some bitmap | None => find_glyph fs' c end
  end.

(** [draw_char]: the pixels of one column of one row *)
Definition draw_column (x y : Z) (fg_color bg_color : Color) (row y_offset col : Z) (l : LFB) : res LFB :=
  let color := if Z.land row (Z.shiftl 1 col) =? 0 then bg_color else fg_color in
  px ← add_w 32 x col;
  py ← add_w 32 y y_offset;
  l ← draw_pixel l px py color;
  py1 ← add_w 32 py 1;
  draw_pixel l px py1 color.

(** [draw_char]: the rows with their vertical offsets *)
Definition draw_char `{FontOps} (l : LFB) (x y : Z) (fg_color bg_color : Color) (c : Z) : res (LFB * bool) :=
  match find_glyph fonts c with
  | Some bitmap =>
      l' ← for_each (fun p => for_each (draw_column x y fg_color bg_color p.2 p.1) (range 0 8))
             (imap (fun i row => (2 * Z.of_nat i, row)) bitmap) l;
      Done (l', true)
  | None => Done (l, false)
  end.

(** [write_bytes(0, n)] at byte offset [i], and [copy_from] inside a buffer *)
Definition zero_bytes (i n : Z) (l : LFB) : res LFB :=
  if (0 <=? i) && (i + n <=? pitch l * height l) then
    Done (with_buffer l (fun j => if (i <=? j) && (j <? i + n) then 0 else buffer l j))
  else Undef "write outside of the framebuffer".
Definition copy_down (offset n : Z) (l : LFB) : res LFB :=
  if (0 <=? offset) && (offset + n <=? pitch l * height l) then
    Done (with_buffer l (fun j => if (0 <=? j) && (j <? n) then buffer l (j + offset) else buffer l j))
  else Undef "read outside of the framebuffer".

Definition clear (l : LFB) : res LFB :=
  n ← mul_w 32 (pitch l) (height l);
  zero_bytes 0 n l.

Definition scroll_up (l : LFB) (lines : Z) : res LFB :=
  offset ← mul_w 32 (pitch l) lines;
  rest ← sub_w 32 (height l) lines;
  n ← mul_w 32 (pitch l) rest;
  l ← copy_down offset n l;
  zero_bytes n offset l.

(** ** Geometry *)

Definition bytes_per_pixel (l : LFB) : Z :=
  if bpp l =? 32 then 4 else if bpp l =? 24 then 3 else 2.

(** A framebuffer that a bootloader may hand over. *)
Definition lfb_ok (l : LFB) : Prop :=
  bpp l ∈ [32; 24; 16; 15] ∧ 0 < width l ∧ 0 < height l ∧
  bytes_per_pixel l * width l ≤ pitch l ∧ pitch l * height l < 2 ^ 32 ∧
  (bpp l = 24 ∨ (bytes_per_pixel l | pitch l)).

(** The framebuffers with the same geometry. *)
Definition same_geometry (l l' : LFB) : Prop :=
  pitch l' = pitch l ∧ width l' = width l ∧ height l' = height l ∧ bpp l' = bpp l.

Definition on_screen (l : LFB) (x y : Z) : Prop := 0 ≤ x < width l ∧ 0 ≤ y < height l.
Definition offset_of (l : LFB) (x y : Z) : Z := bytes_per_pixel l * x + pitch l * y.

(** What the pixel at [x], [y] shows. *)
Fixpoint read_le (n : nat) (i : Z) (b : Z → Z) : Z :=
  match n with
  | O => 0
  | S n' => b i + 256 * read_le n' (i + 1) b
  end.
Definition pixel (l : LFB) (x y : Z) : Z := read_le (Z.to_nat (bytes_per_pixel l)) (offset_of l x y) (buffer l).

#[export] Instance same_geometry_equiv : Equivalence same_geometry.
Proof. unfold same_geometry. split; repeat intro; intuition congruence. Qed.

Lemma same_geometry_ok l l' : same_geometry l l' → lfb_ok l → lfb_ok l'.
Proof. intros (H1 & H2 & H3 & H4). unfold lfb_ok, bytes_per_pixel. by rewrite H1, H2, H3, H4. Qed.

Lemma same_geometry_offset l l' x y : same_geometry l l' → offset_of l' x y = offset_of l x y.
Proof. intros (H1 & H2 & H3 & H4). unfold offset_of, bytes_per_pixel. by rewrite H1, H4. Qed.

Lemma same_geometry_on_screen l l' x y : same_geometry l l' → on_screen l' x y ↔ on_screen l x y.
Proof. intros (H1 & H2 & H3 & H4). unfold on_screen. by rewrite H2, H3. Qed.

(** ** Writing pixels *)

Lemma write_u8_ok i v l :
  0 ≤ i < pitch l * height l →
  write_u8 i v l = Done (with_buffer l (fun j => if j =? i then v else buffer l j)).
Proof. intros Hi. unfold write_u8. by rewrite (proj2 (Z.leb_le 0 i)), (proj2 (Z.ltb_lt i _)) by lia. Qed.

Lemma write_le_spec n : ∀ i v l,
  0 ≤ i → i + Z.of_nat n ≤ pitch l * height l → 0 ≤ v < 256 ^ Z.of_nat n →
  ∃ l', write_le n i v l = Done l' ∧ same_geometry l l' ∧ read_le n i (buffer l') = v ∧
    (∀ j, ¬ i ≤ j < i + Z.of_nat n → buffer l' j = buffer l j).
Proof.
  induction n as [|n IH]; intros i v l Hi Hn Hv; cbn [write_le read_le].
  { exists l. split_and!; try done. change (256 ^ Z.of_nat 0) with 1 in Hv. lia. }
  rewrite write_u8_ok, res_bind_ret_l by lia. set (l1 := with_buffer l _).
  rewrite Nat2Z.inj_succ, Z.pow_succ_r in Hv by lia.
  destruct (IH (i + 1) (v / 256) l1) as (l' & Hrun & Hgeo & Hread & Hother).
  - lia.
  - cbn. lia.
  - split; [apply Z.div_pos; lia|apply Z.div_lt_upper_bound; lia].
  - exists l'. split_and!; [done|exact Hgeo| |].
    + rewrite Hread, Hother by lia. cbn. rewrite Z.eqb_refl. pose proof (Z.div_mod v 256). lia.
    + intros j Hj. rewrite Hother by lia. cbn. case_Z; [lia|done].
Qed.

Lemma read_le_shift n : ∀ i i' f g,
  (∀ k, 0 ≤ k < Z.of_nat n → f (i + k) = g (i' + k)) → read_le n i f = read_le n i' g.
Proof.
  induction n as [|n IH]; intros i i' f g Hfg; cbn; [done|]. f_equal.
  - rewrite <-(Z.add_0_r i), <-(Z.add_0_r i'). apply Hfg. lia.
  - f_equal. apply IH. intros k Hk. rewrite <-!Z.add_assoc. apply Hfg. lia.
Qed.
Lemma read_le_ext n i f g :
  (∀ j, i ≤ j < i + Z.of_nat n → f j = g j) → read_le n i f = read_le n i g.
Proof. intros Hfg. apply read_le_shift. intros k Hk. apply Hfg. lia. Qed.

Lemma bytes_per_pixel_cases l : bytes_per_pixel l = 2 ∨ bytes_per_pixel l = 3 ∨ bytes_per_pixel l = 4.
Proof. unfold bytes_per_pixel. repeat case_Z; auto. Qed.

(** Distinct pixels of the screen do not overlap. *)
Lemma pixels_disjoint l x y x' y' :
  lfb_ok l → on_screen l x y → on_screen l x' y' → (x', y') ≠ (x, y) →
  offset_of l x' y' + bytes_per_pixel l ≤ offset_of l x y ∨
  offset_of l x y + bytes_per_pixel l ≤ offset_of l x' y'.
Proof.
  intros (_ & _ & _ & Hp & _) [Hx Hy] [Hx' Hy'] Hne. unfold offset_of.
  pose proof (bytes_per_pixel_cases l).
  destruct (Z.lt_trichotomy y y') as [Hlt|[->|Hgt]].
  - right. assert (pitch l * y + pitch l ≤ pitch l * y') by nia. nia.
  - assert (x ≠ x') by congruence. destruct (Z.lt_trichotomy x x') as [|[|]]; [right|done|left]; nia.
  - left. assert (pitch l * y' + pitch l ≤ pitch l * y) by nia. nia.
Qed.

Lemma pixel_in_bounds l x y :
  lfb_ok l → on_screen l x y → 0 ≤ offset_of l x y ∧ offset_of l x y + bytes_per_pixel l ≤ pitch l * height l.
Proof.
  intros (_ & _ & _ & Hp & _) [Hx Hy]. unfold offset_of. pose proof (bytes_per_pixel_cases l).
  assert (pitch l * y + pitch l ≤ pitch l * height l) by nia. nia.
Qed.

(** What drawing one pixel does to the framebuffer. *)
Definition drawn (x y v : Z) (l l' : LFB) : Prop :=
  same_geometry l l' ∧
  ∀ x' y', on_screen l x' y' → pixel l' x' y' = if decide ((x', y') = (x, y)) then v else pixel l x' y'.

Lemma drawn_by_bytes l l' x y v :
  lfb_ok l → on_screen l x y → same_geometry l l' →
  read_le (Z.to_nat (bytes_per_pixel l)) (offset_of l x y) (buffer l') = v →
  (∀ j, ¬ offset_of l x y ≤ j < offset_of l x y + bytes_per_pixel l → buffer l' j = buffer l j) →
  drawn x y v l l'.
Proof.
  intros Hok Hon Hgeo Hread Hother. split; [done|]. intros x' y' Hon'.
  pose proof (bytes_per_pixel_cases l) as Hb. pose proof Hgeo as (_ & _ & _ & Hbpp).
  unfold pixel. rewrite (same_geometry_offset _ _ _ _ Hgeo).
  assert (bytes_per_pixel l' = bytes_per_pixel l) as -> by (unfold bytes_per_pixel; by rewrite Hbpp).
  case_decide as Heq; [by injection Heq as -> ->|].
  apply read_le_ext. intros j Hj. apply Hother.
  destruct (pixels_disjoint l x y x' y' Hok Hon Hon' Heq); lia.
Qed.

Lemma write_pixel l x y v :
  lfb_ok l → on_screen l x y → 0 ≤ v < 256 ^ bytes_per_pixel l →
  ∃ l', write_le (Z.to_nat (bytes_per_pixel l)) (offset_of l x y) v l = Done l' ∧ drawn x y v l l'.
Proof.
  intros Hok Hon Hv. destruct (pixel_in_bounds l x y Hok Hon) as [Hlo Hhi].
  pose proof (bytes_per_pixel_cases l) as Hb.
  destruct (write_le_spec (Z.to_nat (bytes_per_pixel l)) (offset_of l x y) v l)
    as (l' & Hrun & Hgeo & Hread & Hother); [lia|lia|by rewrite Z2Nat.id by lia|].
  exists l'. split; [done|]. rewrite Z2Nat.id in Hother by lia. by apply drawn_by_bytes.
Qed.

(** Each pixel drawer writes the packed color at the pixel's offset. *)
Lemma pixel_drawer_eq l x y color :
  lfb_ok l → on_screen l x y → color_ok color →
  pixel_drawer l x y color =
    write_le (Z.to_nat (bytes_per_pixel l)) (offset_of l x y) (packed (bpp l) color) l.
Proof.
  intros Hok Hon Hc. destruct (pixel_in_bounds l x y Hok Hon) as [Hlo Hhi].
  destruct Hok as (Hbpp & Hw0 & Hh0 & Hp & Hsize & Hdiv), Hon as [Hx Hy].
  unfold pixel_drawer, packed, offset_of, bytes_per_pixel in *.
  repeat (apply elem_of_cons in Hbpp as [Heq|Hbpp]; [|try by apply elem_of_nil in Hbpp]).
  all: rewrite Heq in *; cbn [Z.eqb Pos.eqb Z.to_nat Pos.to_nat Pos.iter_op] in *.
  - destruct Hdiv as [?|[k Hk]]; [done|]. unfold draw_pixel_32_bit. rewrite Hk, Z.div_mul by done.
    rewrite mul_w_ok, res_bind_ret_l by nia. rewrite add_w_ok, res_bind_ret_l by nia.
    change (Z.to_nat 4) with 4%nat. f_equal. lia.
  - unfold draw_pixel_24_bit. rewrite (mul_w_ok 32 x 3), res_bind_ret_l by nia.
    rewrite (mul_w_ok 32 y), res_bind_ret_l by nia. rewrite add_w_ok, res_bind_ret_l by nia.
    change 0xff with (Z.ones 8). rewrite !Z.land_ones, !Z.shiftr_div_pow2 by done.
    change (2 ^ 16) with (256 * 256). change (2 ^ 8) with 256. rewrite <-Z.div_div by done.
    replace (x * 3 + y * pitch l) with (3 * x + pitch l * y) by lia.
    change (Z.to_nat 3) with 3%nat. cbn [write_le].
    replace (3 * x + pitch l * y + 1 + 1) with (3 * x + pitch l * y + 2) by lia.
    destruct (write_u8 _ _ l) as [l1| | |]; cbn; [|done..]. destruct (write_u8 _ _ l1) as [l2| | |]; cbn; [|done..].
    by destruct (write_u8 _ _ l2).
  - destruct Hdiv as [?|[k Hk]]; [done|]. unfold draw_pixel_16_bit. rewrite Hk, Z.div_mul by done.
    rewrite mul_w_ok, res_bind_ret_l by nia. rewrite add_w_ok, res_bind_ret_l by nia.
    change (Z.to_nat 2) with 2%nat. f_equal. lia.
  - destruct Hdiv as [?|[k Hk]]; [done|]. unfold draw_pixel_15_bit. rewrite Hk, Z.div_mul by done.
    rewrite mul_w_ok, res_bind_ret_l by nia. rewrite add_w_ok, res_bind_ret_l by nia.
    change (Z.to_nat 2) with 2%nat. f_equal. lia.
Qed.

Lemma packed_bytes l color :
  lfb_ok l → color_ok color → 0 ≤ packed (bpp l) color < 256 ^ bytes_per_pixel l.
Proof.
  intros (Hbpp & _) Hc. pose proof (packed_range (bpp l) color Hbpp Hc) as [Hlo Hhi]. split; [done|].
  eapply Z.lt_le_trans; [exact Hhi|]. unfold bytes_per_pixel.
  repeat (apply elem_of_cons in Hbpp as [->|Hbpp]; [done|]). by apply elem_of_nil in Hbpp.
Qed.

(** Drawing a pixel changes exactly that pixel; off the screen it does nothing. *)
Lemma draw_pixel_result l x y color :
  lfb_ok l → color_ok color → 0 ≤ x → 0 ≤ y →
  ∃ l', draw_pixel l x y color = Done l' ∧ drawn x y (packed (bpp l) color) l l'.
Proof.
  intros Hok Hc Hx Hy. unfold draw_pixel.
  destruct (Z.leb_spec (width l) x) as [Hw|Hw]; cbn [orb].
  { exists l. split; [done|]. split; [done|]. intros x' y' [? _]. rewrite decide_False; [done|]. intros [= -> _]. lia. }
  destruct (Z.leb_spec (height l) y) as [Hh|Hh]; cbn [orb].
  { exists l. split; [done|]. split; [done|]. intros x' y' [_ ?]. rewrite decide_False; [done|]. intros [= _ ->]. lia. }
  assert (on_screen l x y) as Hon by (split; lia).
  rewrite pixel_drawer_eq by done. apply write_pixel; [done..|by apply packed_bytes].
Qed.

(** ** Loops that draw *)

(** [l'] shows color [f x y] at the pixels in [P] and is like [l] elsewhere. *)
Definition painted (P : Z → Z → bool) (f : Z → Z → Color) (l l' : LFB) : Prop :=
  same_geometry l l' ∧
  ∀ x y, on_screen l x y → pixel l' x y = if P x y then packed (bpp l) (f x y) else pixel l x y.

(** A list of pixels whose colors agree with [f]. *)
Lemma draw_all_spec (f : Z → Z → Color) ps : ∀ l,
  lfb_ok l → Forall (fun p => 0 ≤ p.1 ∧ 0 ≤ p.2 ∧ color_ok (f p.1 p.2)) ps →
  ∃ l', for_each (fun p l => draw_pixel l p.1 p.2 (f p.1 p.2)) ps l = Done l' ∧
    painted (fun x y => bool_decide ((x, y) ∈ ps)) f l l'.
Proof.
  induction ps as [|[px py] ps IH]; intros l Hok Hps; cbn [for_each].
  { exists l. split; [done|]. split; [done|]. intros x y _. rewrite bool_decide_false; [done|]. apply not_elem_of_nil. }
  apply Forall_cons in Hps as [(Hx & Hy & Hc) Hps]. cbn in Hx, Hy, Hc. cbn [fst snd].
  destruct (draw_pixel_result l px py (f px py) Hok Hc Hx Hy) as (l1 & -> & Hgeo1 & Hd1). rewrite res_bind_ret_l.
  destruct (IH l1 (same_geometry_ok _ _ Hgeo1 Hok) Hps) as (l' & -> & Hgeo' & Hd').
  exists l'. split; [done|]. split; [by etrans|]. intros x y Hon.
  rewrite Hd' by (by apply (same_geometry_on_screen _ _ _ _ Hgeo1)).
  pose proof Hgeo1 as (_ & _ & _ & ->). rewrite Hd1 by done.
  destruct (bool_decide_reflect ((x, y) ∈ ps)) as [Hin|Hin].
  - rewrite bool_decide_true; [done|by right].
  - case_decide as Heq; [injection Heq as -> ->; by rewrite bool_decide_true by left|].
    rewrite bool_decide_false; [done|]. by intros [?|?]%elem_of_cons.
Qed.

Lemma painted_ext P Q f l l' :
  (∀ x y, P x y = Q x y) → painted P f l l' → painted Q f l l'.
Proof. intros HPQ [Hgeo Hp]. split; [done|]. intros x y Hon. by rewrite <-HPQ, Hp. Qed.

Definition in_rect (x y w h px py : Z) : bool := (x <=? px) && (px <? x + w) && (y <=? py) && (py <? y + h).

Lemma elem_of_concat_map {A B} (g : A → list B) l p : p ∈ concat (map g l) ↔ ∃ a, a ∈ l ∧ p ∈ g a.
Proof.
  rewrite list_elem_of_In, List.in_concat. setoid_rewrite List.in_map_iff. setoid_rewrite list_elem_of_In.
  naive_solver.
Qed.
Lemma elem_of_concat_map_row {A B} (g : A → B) l p : p ∈ map g l ↔ ∃ a, a ∈ l ∧ p = g a.
Proof. rewrite list_elem_of_In, List.in_map_iff. setoid_rewrite list_elem_of_In. naive_solver. Qed.

Lemma fill_rect_result l x y w h color :
  lfb_ok l → color_ok color → 0 ≤ x → 0 ≤ y → 0 ≤ w → 0 ≤ h → x + w < 2 ^ 32 → y + h < 2 ^ 32 →
  ∃ l', fill_rect l x y w h color = Done l' ∧ painted (in_rect x y w h) (fun _ _ => color) l l'.
Proof.
  intros Hok Hc Hx Hy Hw Hh Hxw Hyh. unfold fill_rect. rewrite !add_w_ok, !res_bind_ret_l by lia.
  set (ps := concat (map (fun i => map (fun j => (j, i)) (range x (x + w))) (range y (y + h)))).
  assert (∀ px py, (px, py) ∈ ps ↔ x ≤ px < x + w ∧ y ≤ py < y + h) as Hps.
  { intros px py. unfold ps, range. rewrite elem_of_concat_map. split.
    - intros (i & Hi & (j & Hj & [= -> ->])%elem_of_concat_map_row). apply elem_of_seqZ in Hi, Hj. lia.
    - intros [? ?]. exists py. split; [apply elem_of_seqZ; lia|].
      apply elem_of_concat_map_row. exists px. split; [apply elem_of_seqZ; lia|done]. }
  destruct (draw_all_spec (fun _ _ => color) ps l Hok) as (l' & Hrun & Hp).
  { apply Forall_forall. intros [px py] Hin. apply Hps in Hin. cbn. split_and!; lia || done. }
  exists l'. split; [|eapply painted_ext; [|exact Hp]; intros px py; unfold in_rect].
  2:{ destruct (bool_decide_reflect ((px, py) ∈ ps)) as [Hin|Hin]; rewrite Hps in Hin; repeat case_Z; cbn; done || lia. }
  rewrite <-Hrun. unfold ps. rewrite for_each_concat. apply for_each_ext. intros i s _.
  by rewrite for_each_map.
Qed.

(** ** Characters *)

(** The color of a pixel of a glyph drawn at [x], [y]: two screen rows per row of
    the bitmap, the least significant bit on the left. *)
Definition glyph_color (bitmap : list Z) (x y : Z) (fg_color bg_color : Color) (px py : Z) : Color :=
  if Z.testbit (default 0 (bitmap !! Z.to_nat ((py - y) / 2))) (px - x) then fg_color else bg_color.

Lemma land_bit row col : 0 ≤ col → (Z.land row (Z.shiftl 1 col) =? 0) = negb (Z.testbit row col).
Proof.
  intros Hc. rewrite Z.shiftl_1_l. destruct (Z.testbit row col) eqn:E; cbn [negb].
  - apply Z.eqb_neq. intros Hz. apply (f_equal (fun z => Z.testbit z col)) in Hz.
    by rewrite Z.land_spec, Z.pow2_bits_true, E, Z.bits_0 in Hz by done.
  - apply Z.eqb_eq, Z.bits_inj'. intros n Hn. rewrite Z.land_spec, Z.bits_0.
    destruct (decide (n = col)) as [->|]; [by rewrite E|]. rewrite Z.pow2_bits_false, andb_false_r by lia. done.
Qed.

Definition column_pixels (x y col y_offset : Z) : list (Z * Z) := [(x + col, y + y_offset); (x + col, y + y_offset + 1)].

Lemma draw_column_eq bitmap x y fg bg i row col l :
  bitmap !! i = Some row → 0 ≤ x → 0 ≤ y → x + 8 ≤ 2 ^ 32 → y + 2 * Z.of_nat i + 2 ≤ 2 ^ 32 → 0 ≤ col < 8 →
  draw_column x y fg bg row (2 * Z.of_nat i) col l =
    for_each (fun p l => draw_pixel l p.1 p.2 (glyph_color bitmap x y fg bg p.1 p.2))
      (column_pixels x y col (2 * Z.of_nat i)) l.
Proof.
  intros Hrow Hx Hy Hxw Hyh Hcol. unfold draw_column, column_pixels. cbn [for_each fst snd].
  assert (∀ d, 0 ≤ d < 2 → glyph_color bitmap x y fg bg (x + col) (y + 2 * Z.of_nat i + d) =
    if Z.land row (Z.shiftl 1 col) =? 0 then bg else fg) as Hglyph.
  { intros d Hd. unfold glyph_color. replace (x + col - x) with col by lia.
    replace ((y + 2 * Z.of_nat i + d - y) / 2) with (Z.of_nat i)
      by (apply (Z.div_unique _ _ _ d); lia).
    rewrite Nat2Z.id, Hrow, land_bit by lia. cbn [from_option id]. by destruct (Z.testbit row col). }
  pose proof (Hglyph 0 ltac:(lia)) as H0. rewrite Z.add_0_r in H0.
  rewrite H0, (Hglyph 1) by lia. set (color := if _ =? _ then bg else fg).
  rewrite (add_w_ok 32 x col), res_bind_ret_l by lia.
  rewrite (add_w_ok 32 y), res_bind_ret_l by lia.
  destruct (draw_pixel l _ _ color) as [l1| | |]; [|done..]. rewrite !res_bind_ret_l.
  rewrite (add_w_ok 32 _ 1), res_bind_ret_l by lia. by destruct (draw_pixel l1 _ _ color).
Qed.

Context `{FontLaws}.

Lemma find_glyph_length fs c bitmap :
  (∀ f, f ∈ fs → f ∈ fonts) → find_glyph fs c = Some bitmap → length bitmap = 8%nat.
Proof.
  induction fs as [|f fs IH]; intros Hin; cbn; [done|].
  destruct (f c) as [b|] eqn:E.
  - intros [= ->]. apply (fonts_ok f c); [|done]. apply Hin. by left.
  - apply IH. intros f' Hf'. apply Hin. by right.
Qed.

Lemma elem_of_imap_rows (bitmap : list Z) p :
  p ∈ imap (fun i row => (2 * Z.of_nat i, row)) bitmap → ∃ i, p.1 = 2 * Z.of_nat i ∧ bitmap !! i = Some p.2.
Proof. intros (i & row & -> & Hrow)%elem_of_lookup_imap_1. eauto. Qed.

Lemma draw_char_result l x y fg bg c :
  lfb_ok l → color_ok fg → color_ok bg → 0 ≤ x → 0 ≤ y → x + 8 ≤ 2 ^ 32 → y + 16 ≤ 2 ^ 32 →
  match find_glyph fonts c with
  | Some bitmap => ∃ l', draw_char l x y fg bg c = Done (l', true) ∧
      painted (in_rect x y 8 16) (glyph_color bitmap x y fg bg) l l'
  | None => draw_char l x y fg bg c = Done (l, false)
  end.
Proof.
  intros Hok Hfg Hbg Hx Hy Hxw Hyh. unfold draw_char.
  destruct (find_glyph fonts c) as [bitmap|] eqn:Hglyph; [|done].
  assert (length bitmap = 8%nat) as Hlen by (by apply (find_glyph_length fonts c)).
  set (rows := imap (fun i row => (2 * Z.of_nat i, row)) bitmap).
  set (ps := concat (map (fun p : Z * Z => concat (map (fun col => column_pixels x y col p.1) (range 0 8))) rows)).
  assert (for_each (fun p => for_each (draw_column x y fg bg p.2 p.1) (range 0 8)) rows l =
    for_each (fun p l => draw_pixel l p.1 p.2 (glyph_color bitmap x y fg bg p.1 p.2)) ps l) as ->.
  { unfold ps. rewrite for_each_concat. apply for_each_ext. intros [o row] s Hin.
    apply elem_of_imap_rows in Hin as (i & Ho & Hrow). cbn in Ho, Hrow |- *. subst o.
    apply lookup_lt_Some in Hrow as Hi. rewrite for_each_concat. apply for_each_ext.
    intros col s' Hcol. apply elem_of_seqZ in Hcol. apply draw_column_eq; done || lia. }
  assert (∀ px py, (px, py) ∈ ps ↔ x ≤ px < x + 8 ∧ y ≤ py < y + 16) as Hps.
  { intros px py. unfold ps. rewrite elem_of_concat_map. split.
    - intros ([o row] & Hin & Hpx). apply elem_of_imap_rows in Hin as (i & Ho & Hrow). cbn in Ho. subst o.
      apply lookup_lt_Some in Hrow. apply elem_of_concat_map in Hpx as (col & Hcol & Hpx).
      apply elem_of_seqZ in Hcol. unfold column_pixels in Hpx.
      repeat (apply elem_of_cons in Hpx as [[= -> ->]|Hpx]; [cbn [fst]; lia|]). by apply elem_of_nil in Hpx.
    - intros [Hpx Hpy]. destruct (lookup_lt_is_Some_2 bitmap (Z.to_nat ((py - y) / 2))) as [row Hrow];
        [rewrite Hlen; pose proof (Z.div_mod (py - y) 2); pose proof (Z.mod_pos_bound (py - y) 2); lia|].
      exists (2 * ((py - y) / 2), row). split.
      + unfold rows. apply elem_of_lookup_imap. exists (Z.to_nat ((py - y) / 2)), row. split; [|done].
        rewrite Z2Nat.id; [done|]. apply Z.div_pos; lia.
      + apply elem_of_concat_map. exists (px - x). split; [apply elem_of_seqZ; lia|]. unfold column_pixels. cbn [fst].
        pose proof (Z.div_mod (py - y) 2). pose proof (Z.mod_pos_bound (py - y) 2).
        assert ((py - y) mod 2 = 0 ∨ (py - y) mod 2 = 1) as [?|?] by lia;
          apply elem_of_cons; [left|right; apply elem_of_cons; left]; f_equal; lia. }
  destruct (draw_all_spec (glyph_color bitmap x y fg bg) ps l Hok) as (l' & -> & Hp).
  { apply Forall_forall. intros [px py] Hin. apply Hps in Hin. cbn. split_and!; [lia|lia|].
    unfold glyph_color. by destruct (Z.testbit _ _). }
  rewrite res_bind_ret_l. exists l'. split; [done|]. eapply painted_ext; [|exact Hp].
  intros px py. unfold in_rect.
  destruct (bool_decide_reflect ((px, py) ∈ ps)) as [Hin|Hin]; rewrite Hps in Hin; repeat case_Z; cbn; done || lia.
Qed.

(** ** Scrolling and clearing *)

Lemma read_le_zero n i f : (∀ k, 0 ≤ k < Z.of_nat n → f (i + k) = 0) → read_le n i f = 0.
Proof.
  intros Hf. rewrite (read_le_shift n i i f (fun _ => 0)) by done.
  clear. revert i. induction n as [|n IH]; intros i; cbn; [done|]. by rewrite IH.
Qed.

Lemma scroll_up_result l lines :
  lfb_ok l → 0 ≤ lines ≤ height l →
  ∃ l', scroll_up l lines = Done l' ∧ same_geometry l l' ∧
    (∀ x y, on_screen l x y → pixel l' x y = if y <? height l - lines then pixel l x (y + lines) else 0).
Proof.
  intros Hok Hlines. pose proof Hok as (_ & Hw & Hh & Hp & Hsize & _).
  pose proof (bytes_per_pixel_cases l) as Hb. assert (0 < pitch l) as Hp0 by nia.
  unfold scroll_up. rewrite (mul_w_ok 32 (pitch l) lines), res_bind_ret_l by nia.
  rewrite sub_w_ok, res_bind_ret_l by nia. rewrite (mul_w_ok 32), res_bind_ret_l by nia.
  unfold copy_down, zero_bytes.
  rewrite (proj2 (Z.leb_le 0 (pitch l * lines))), (proj2 (Z.leb_le _ (pitch l * height l))) by nia.
  cbn [andb]. rewrite res_bind_ret_l. cbn [pitch height with_buffer].
  rewrite (proj2 (Z.leb_le 0 (pitch l * (height l - lines)))), (proj2 (Z.leb_le _ (pitch l * height l))) by nia.
  cbn [andb]. eexists. split; [done|]. split; [done|]. intros x y [Hx Hy]. unfold pixel.
  change (bytes_per_pixel (with_buffer _ _)) with (bytes_per_pixel l).
  change (offset_of (with_buffer _ _) x y) with (offset_of l x y). cbn [buffer with_buffer].
  assert (0 ≤ offset_of l x y ∧ offset_of l x y + bytes_per_pixel l ≤ pitch l * (y + 1)) as [Hlo Hhi]
    by (unfold offset_of; nia).
  case_Z.
  - assert (pitch l * (y + 1) ≤ pitch l * (height l - lines)) by nia.
    apply read_le_shift. intros k Hk. rewrite Z2Nat.id in Hk by lia.
    replace (offset_of l x (y + lines) + k) with (offset_of l x y + k + pitch l * lines) by (unfold offset_of; lia).
    repeat case_Z; cbn; done || lia.
  - assert (pitch l * (height l - lines) ≤ pitch l * y) by nia.
    assert (pitch l * (y + 1) ≤ pitch l * height l) by nia.
    apply read_le_zero. intros k Hk. rewrite Z2Nat.id in Hk by lia. unfold offset_of in *.
    rewrite (proj2 (Z.leb_le _ _)), (proj2 (Z.ltb_lt _ _)) by nia. done.
Qed.

Lemma clear_result l :
  lfb_ok l →
  ∃ l', clear l = Done l' ∧ same_geometry l l' ∧ (∀ x y, on_screen l x y → pixel l' x y = 0).
Proof.
  intros Hok. pose proof Hok as (_ & Hw & Hh & Hp & Hsize & _).
  pose proof (bytes_per_pixel_cases l) as Hb. assert (0 < pitch l) by nia.
  unfold clear, zero_bytes. rewrite mul_w_ok, res_bind_ret_l by nia. rewrite Z.add_0_l, !Z.leb_refl. cbn [andb].
  eexists. split; [done|]. split; [done|]. intros x y Hon. destruct (pixel_in_bounds l x y Hok Hon) as [Hlo Hhi].
  unfold pixel. change (bytes_per_pixel (with_buffer _ _)) with (bytes_per_pixel l).
  change (offset_of (with_buffer _ _) x y) with (offset_of l x y). cbn [buffer with_buffer].
  apply read_le_zero. intros k Hk. rewrite Z2Nat.id in Hk by lia.
  by rewrite (proj2 (Z.leb_le _ _)), (proj2 (Z.ltb_lt _ _)) by lia.
Qed.

(** ** Double buffering (buffered_lfb.rs) *)

Record BufferedLFB := mkBuffered { lfb : LFB; target_lfb : LFB }.

(** [BufferedLFB::new]; [memory] is the content of the fresh vector. *)
Definition buffered_new (memory : Z → Z) (target : LFB) : BufferedLFB :=
  mkBuffered (mkLfb memory (pitch target) (width target) (height target) (bpp target)) target.

(** [flush] *)
Definition flush (b : BufferedLFB) : res BufferedLFB :=
  n ← mul_w 32 (height (lfb b)) (pitch (lfb b));
  if n <=? pitch (target_lfb b) * height (target_lfb b) then
    Done (mkBuffered (lfb b) (with_buffer (target_lfb b)
      (fun j => if (0 <=? j) && (j <? n) then buffer (lfb b) j else buffer (target_lfb b) j)))
  else Undef "write outside of the framebuffer".

(** Both buffers have the geometry of the screen. *)
Definition buffered_ok (b : BufferedLFB) : Prop := lfb_ok (lfb b) ∧ same_geometry (lfb b) (target_lfb b).

Lemma flush_result b :
  buffered_ok b →
  ∃ b', flush b = Done b' ∧ buffered_ok b' ∧ lfb b' = lfb b ∧
    (∀ x y, on_screen (lfb b) x y → pixel (target_lfb b') x y = pixel (lfb b) x y).
Proof.
  intros [Hok Hgeo]. pose proof Hgeo as (Hpitch & Hwidth & Hheight & Hbpp).
  pose proof Hok as (_ & Hw & Hh & Hp & Hsize & _). pose proof (bytes_per_pixel_cases (lfb b)) as Hb.
  assert (0 < pitch (lfb b)) by nia.
  unfold flush. rewrite mul_w_ok, res_bind_ret_l by nia. rewrite Hpitch, Hheight.
  rewrite (proj2 (Z.leb_le _ _)) by lia. eexists. split; [done|]. split; [split; [done|]|split; [done|]].
  { by split_and!. }
  intros x y Hon. destruct (pixel_in_bounds (lfb b) x y Hok Hon) as [Hlo Hhi].
  unfold pixel. cbn [target_lfb]. rewrite (same_geometry_offset (lfb b)) by done.
  replace (bytes_per_pixel (with_buffer _ _)) with (bytes_per_pixel (lfb b))
    by (unfold bytes_per_pixel; cbn [bpp with_buffer]; by rewrite Hbpp).
  apply read_le_ext. intros j Hj. rewrite Z2Nat.id in Hj by lia. cbn [buffer with_buffer].
  rewrite (proj2 (Z.leb_le _ _)), (proj2 (Z.ltb_lt _ _)) by lia. done.
Qed.

(** ** The framebuffer's guarantees *)

(** [fill_rect] never writes outside of the framebuffer and colors exactly the
    visible pixels of the rectangle, in the packed format of the screen. *)
Theorem fill_rect_paints l x y w h color :
  lfb_ok l → color_ok color → 0 ≤ x → 0 ≤ y → 0 ≤ w → 0 ≤ h → x + w < 2 ^ 32 → y + h < 2 ^ 32 →
  ∃ l', fill_rect l x y w h color = Done l' ∧ same_geometry l l' ∧
    ∀ px py, on_screen l px py →
      pixel l' px py = if in_rect x y w h px py then packed (bpp l) color else pixel l px py.
Proof. apply fill_rect_result. Qed.

(** [draw_char] draws the glyph of the first font that has the character, each
    bit of its bitmap as a column of two pixels, in the given two colors, clips it
    to the screen, and changes nothing else; without a glyph it returns false. *)
Theorem draw_char_draws_glyph l x y fg bg c :
  lfb_ok l → color_ok fg → color_ok bg → 0 ≤ x → 0 ≤ y → x + 8 ≤ 2 ^ 32 → y + 16 ≤ 2 ^ 32 →
  match find_glyph fonts c with
  | Some bitmap => ∃ l', draw_char l x y fg bg c = Done (l', true) ∧ same_geometry l l' ∧
      ∀ px py, on_screen l px py →
        pixel l' px py = if in_rect x y 8 16 px py then packed (bpp l) (glyph_color bitmap x y fg bg px py)
                         else pixel l px py
  | None => draw_char l x y fg bg c = Done (l, false)
  end.
Proof. apply draw_char_result. Qed.

(** [scroll_up] moves the picture up by the given number of pixel lines, for
    every color depth and pitch, and blackens the lines that become free. *)
Theorem scroll_up_moves l lines :
  lfb_ok l → 0 ≤ lines ≤ height l →
  ∃ l', scroll_up l lines = Done l' ∧ same_geometry l l' ∧
    (∀ x y, on_screen l x y → pixel l' x y = if y <? height l - lines then pixel l x (y + lines) else 0).
Proof. apply scroll_up_result. Qed.
End Lfb.

(** ** Concrete inputs *)
Section Examples.
#[local] Existing Instance development.

(** A screen of 16 x 16 pixels with 24 bits and padding at the end of each line. *)
Definition demo_lfb : LFB := mkLfb (fun _ => 0) 50 16 16 24.
Lemma demo_lfb_ok : lfb_ok demo_lfb.
Proof. unfold lfb_ok, bytes_per_pixel. cbn. split_and!; first [lia|by left|set_solver]. Qed.

#[local] Instance demo_fonts : FontOps := {|
  fonts := [fun c => if c =? 65 then Some [0x0c; 0x1e; 0x33; 0x33; 0x3f; 0x33; 0x33; 0] else None]
|}.
#[local] Instance demo_font_laws : FontLaws.
Proof.
  intros f c bitmap Hf Hc. cbn in Hf. apply list_elem_of_singleton in Hf as ->.
  destruct (c =? 65); [|done]. by injection Hc as <-.
Qed.
Lemma demo_color_ok c : c ∈ [WHITE; BLACK; RED] → color_ok c.
Proof.
  intros Hc. unfold color_ok, byte.
  repeat (apply elem_of_cons in Hc as [->|Hc]; [cbn; lia|]). by apply elem_of_nil in Hc.
Qed.

Lemma fill_rect_paints_witness :
  ∃ l', fill_rect demo_lfb 10 10 20 20 RED = Done l' ∧ pixel l' 15 15 = 0xaa0000.
Proof.
  destruct (fill_rect_paints demo_lfb 10 10 20 20 RED) as (l' & Hrun & _ & Hp);
    [apply demo_lfb_ok|apply demo_color_ok; set_solver|done..|].
  exists l'. split; [done|]. rewrite Hp by (unfold on_screen; cbn; lia). reflexivity.
Defined.

Lemma draw_char_draws_glyph_witness :
  ∃ l', draw_char demo_lfb 8 0 WHITE BLACK 65 = Done (l', true) ∧ pixel l' 10 1 = 0xaaaaaa.
Proof.
  destruct (draw_char_draws_glyph demo_lfb 8 0 WHITE BLACK 65) as (l' & Hrun & _ & Hp);
    [apply demo_lfb_ok|apply demo_color_ok; set_solver|apply demo_color_ok; set_solver|done..|].
  exists l'. split; [done|]. rewrite Hp by (unfold on_screen; cbn; lia). reflexivity.
Defined.

Lemma scroll_up_moves_witness :
  ∃ l', scroll_up demo_lfb 4 = Done l' ∧ pixel l' 3 15 = 0.
Proof.
  destruct (scroll_up_moves demo_lfb 4) as (l' & Hrun & _ & Hp); [apply demo_lfb_ok|done|].
  exists l'. split; [done|]. by rewrite Hp by (unfold on_screen; cbn; lia).
Defined.
End Examples.
