(* ===== verification/Ansi.v ===== *)
(** * ANSI colors and escape sequences (os/library/graphic/src/ansi.rs) *)

From S2P Require Import Prelude Color.
From stdpp Require Import pretty.
#[local] Open Scope Z_scope.

Definition ESCAPE_SEQUENCE_START : Ascii.ascii := Ascii.ascii_of_nat 27.

(** The sequence [ESC \[] followed by the given text. *)
Definition csi (s : string) : string := String ESCAPE_SEQUENCE_START (String (Ascii.ascii_of_nat 91) s).

Definition RESET : string := csi "0m".
Definition FOREGROUND_BLACK : string := csi "30m".
Definition FOREGROUND_RED : string := csi "31m".
Definition FOREGROUND_GREEN : string := csi "32m".
Definition FOREGROUND_YELLOW : string := csi "33m".
Definition FOREGROUND_BLUE : string := csi "34m".
Definition FOREGROUND_MAGENTA : string := csi "35m".
Definition FOREGROUND_CYAN : string := csi "36m".
Definition FOREGROUND_WHITE : string := csi "37m".
Definition FOREGROUND_DEFAULT : string := csi "39m".
Definition FOREGROUND_BRIGHT_BLACK : string := csi "90m".
Definition FOREGROUND_BRIGHT_RED : string := csi "91m".
Definition FOREGROUND_BRIGHT_GREEN : string := csi "92m".
Definition FOREGROUND_BRIGHT_YELLOW : string := csi "93m".
Definition FOREGROUND_BRIGHT_BLUE : string := csi "94m".
Definition FOREGROUND_BRIGHT_MAGENTA : string := csi "95m".
Definition FOREGROUND_BRIGHT_CYAN : string := csi "96m".
Definition FOREGROUND_BRIGHT_WHITE : string := csi "97m".
Definition BACKGROUND_BLACK : string := csi "40m".
Definition BACKGROUND_RED : string := csi "41m".
Definition BACKGROUND_GREEN : string := csi "42m".
Definition BACKGROUND_YELLOW : string := csi "43m".
Definition BACKGROUND_BLUE : string := csi "44m".
Definition BACKGROUND_MAGENTA : string := csi "45m".
Definition BACKGROUND_CYAN : string := csi "46m".
Definition BACKGROUND_WHITE : string := csi "47m".
Definition BACKGROUND_DEFAULT : string := csi "49m".
Definition BACKGROUND_BRIGHT_BLACK : string := csi "100m".
Definition BACKGROUND_BRIGHT_RED : string := csi "101m".
Definition BACKGROUND_BRIGHT_GREEN : string := csi "102m".
Definition BACKGROUND_BRIGHT_YELLOW : string := csi "103m".
Definition BACKGROUND_BRIGHT_BLUE : string := csi "104m".
Definition BACKGROUND_BRIGHT_MAGENTA : string := csi "105m".
Definition BACKGROUND_BRIGHT_CYAN : string := csi "106m".
Definition BACKGROUND_BRIGHT_WHITE : string := csi "107m".

(** The table of the 256 colors: those of the 4-bit sequences, six faces of the color cube by their red
    channel, and shades of grey *)
Definition standard_colors : list Color :=
  [BLACK; RED; GREEN; YELLOW; BLUE; MAGENTA; CYAN; WHITE; bright BLACK; bright RED; bright GREEN;
   bright YELLOW; bright BLUE; bright MAGENTA; bright CYAN; bright WHITE].
Definition cube_face_0 : list Color :=
  [mkColor 0 0 0 255; mkColor 0 0 95 255; mkColor 0 0 135 255; mkColor 0 0 175 255;
   mkColor 0 0 215 255; mkColor 0 0 255 255; mkColor 0 95 0 255; mkColor 0 95 95 255;
   mkColor 0 95 135 255; mkColor 0 95 175 255; mkColor 0 95 215 255; mkColor 0 95 255 255;
   mkColor 0 135 0 255; mkColor 0 135 95 255; mkColor 0 135 135 255; mkColor 0 135 175 255;
   mkColor 0 135 215 255; mkColor 0 135 255 255; mkColor 0 175 0 255; mkColor 0 175 95 255;
   mkColor 0 175 135 255; mkColor 0 175 175 255; mkColor 0 175 215 255; mkColor 0 175 255 255;
   mkColor 0 215 0 255; mkColor 0 215 95 255; mkColor 0 215 135 255; mkColor 0 215 175 255;
   mkColor 0 215 215 255; mkColor 0 215 255 255; mkColor 0 255 0 255; mkColor 0 255 95 255;
   mkColor 0 255 135 255; mkColor 0 255 175 255; mkColor 0 255 215 255; mkColor 0 255 255 255].
Definition cube_face_95 : list Color :=
  [mkColor 95 0 0 255; mkColor 95 0 95 255; mkColor 95 0 135 255; mkColor 95 0 175 255;
   mkColor 95 0 215 255; mkColor 95 0 255 255; mkColor 95 95 0 255; mkColor 95 95 95 255;
   mkColor 95 95 135 255; mkColor 95 95 175 255; mkColor 95 95 215 255; mkColor 95 95 255 255;
   mkColor 95 135 0 255; mkColor 95 135 95 255; mkColor 95 135 135 255; mkColor 95 135 175 255;
   mkColor 95 135 215 255; mkColor 95 135 255 255; mkColor 95 175 0 255; mkColor 95 175 95 255;
   mkColor 95 175 135 255; mkColor 95 175 175 255; mkColor 95 175 215 255; mkColor 95 175 255 255;
   mkColor 95 215 0 255; mkColor 95 215 95 255; mkColor 95 215 135 255; mkColor 95 215 175 255;
   mkColor 95 215 215 255; mkColor 95 215 255 255; mkColor 95 255 0 255; mkColor 95 255 95 255;
   mkColor 95 255 135 255; mkColor 95 255 175 255; mkColor 95 255 215 255; mkColor 95 255 255 255].
Definition cube_face_135 : list Color :=
  [mkColor 135 0 0 255; mkColor 135 0 95 255; mkColor 135 0 135 255; mkColor 135 0 175 255;
   mkColor 135 0 215 255; mkColor 135 0 255 255; mkColor 135 95 0 255; mkColor 135 95 95 255;
   mkColor 135 95 135 255; mkColor 135 95 175 255; mkColor 135 95 215 255; mkColor 135 95 255 255;
   mkColor 135 135 0 255; mkColor 135 135 95 255; mkColor 135 135 135 255; mkColor 135 135 175 255;
   mkColor 135 135 215 255; mkColor 135 135 255 255; mkColor 135 175 0 255; mkColor 135 175 95 255;
   mkColor 135 175 135 255; mkColor 135 175 175 255; mkColor 135 175 215 255;
   mkColor 135 175 255 255; mkColor 135 215 0 255; mkColor 135 215 95 255; mkColor 135 215 135 255;
   mkColor 135 215 175 255; mkColor 135 215 215 255; mkColor 135 215 255 255; mkColor 135 255 0 255;
   mkColor 135 255 95 255; mkColor 135 255 135 255; mkColor 135 255 175 255;
   mkColor 135 255 215 255; mkColor 135 255 255 255].
Definition cube_face_175 : list Color :=
  [mkColor 175 0 0 255; mkColor 175 0 95 255; mkColor 175 0 135 255; mkColor 175 0 175 255;
   mkColor 175 0 215 255; mkColor 175 0 255 255; mkColor 175 95 0 255; mkColor 175 95 95 255;
   mkColor 175 95 135 255; mkColor 175 95 175 255; mkColor 175 95 215 255; mkColor 175 95 255 255;
   mkColor 175 135 0 255; mkColor 175 135 95 255; mkColor 175 135 135 255; mkColor 175 135 175 255;
   mkColor 175 135 215 255; mkColor 175 135 255 255; mkColor 175 175 0 255; mkColor 175 175 95 255;
   mkColor 175 175 135 255; mkColor 175 175 175 255; mkColor 175 175 215 255;
   mkColor 175 175 255 255; mkColor 175 215 0 255; mkColor 175 215 95 255; mkColor 175 215 135 255;
   mkColor 175 215 175 255; mkColor 175 215 215 255; mkColor 175 215 255 255; mkColor 175 255 0 255;
   mkColor 175 255 95 255; mkColor 175 255 135 255; mkColor 175 255 175 255;
   mkColor 175 255 215 255; mkColor 175 255 255 255].
Definition cube_face_215 : list Color :=
  [mkColor 215 0 0 255; mkColor 215 0 95 255; mkColor 215 0 135 255; mkColor 215 0 175 255;
   mkColor 215 0 215 255; mkColor 215 0 255 255; mkColor 215 95 0 255; mkColor 215 95 95 255;
   mkColor 215 95 135 255; mkColor 215 95 175 255; mkColor 215 95 215 255; mkColor 215 95 255 255;
   mkColor 215 135 0 255; mkColor 215 135 95 255; mkColor 215 135 135 255; mkColor 215 135 175 255;
   mkColor 215 135 215 255; mkColor 215 135 255 255; mkColor 215 175 0 255; mkColor 215 175 95 255;
   mkColor 215 175 135 255; mkColor 215 175 175 255; mkColor 215 175 215 255;
   mkColor 215 175 255 255; mkColor 215 215 0 255; mkColor 215 215 95 255; mkColor 215 215 135 255;
   mkColor 215 215 175 255; mkColor 215 215 215 255; mkColor 215 215 255 255; mkColor 215 255 0 255;
   mkColor 215 255 95 255; mkColor 215 255 135 255; mkColor 215 255 175 255;
   mkColor 215 255 215 255; mkColor 215 255 255 255].
Definition cube_face_255 : list Color :=
  [mkColor 255 0 0 255; mkColor 255 0 95 255; mkColor 255 0 135 255; mkColor 255 0 175 255;
   mkColor 255 0 215 255; mkColor 255 0 255 255; mkColor 255 95 0 255; mkColor 255 95 95 255;
   mkColor 255 95 135 255; mkColor 255 95 175 255; mkColor 255 95 215 255; mkColor 255 95 255 255;
   mkColor 255 135 0 255; mkColor 255 135 95 255; mkColor 255 135 135 255; mkColor 255 135 175 255;
   mkColor 255 135 215 255; mkColor 255 135 255 255; mkColor 255 175 0 255; mkColor 255 175 95 255;
   mkColor 255 175 135 255; mkColor 255 175 175 255; mkColor 255 175 215 255;
   mkColor 255 175 255 255; mkColor 255 215 0 255; mkColor 255 215 95 255; mkColor 255 215 135 255;
   mkColor 255 215 175 255; mkColor 255 215 215 255; mkColor 255 215 255 255; mkColor 255 255 0 255;
   mkColor 255 255 95 255; mkColor 255 255 135 255; mkColor 255 255 175 255;
   mkColor 255 255 215 255; mkColor 255 255 255 255].
Definition grayscale_colors : list Color :=
  [mkColor 8 8 8 255; mkColor 18 18 18 255; mkColor 28 28 28 255; mkColor 38 38 38 255;
   mkColor 48 48 48 255; mkColor 58 58 58 255; mkColor 68 68 68 255; mkColor 78 78 78 255;
   mkColor 88 88 88 255; mkColor 98 98 98 255; mkColor 108 108 108 255; mkColor 118 118 118 255;
   mkColor 128 128 128 255; mkColor 138 138 138 255; mkColor 148 148 148 255;
   mkColor 158 158 158 255; mkColor 168 168 168 255; mkColor 178 178 178 255;
   mkColor 188 188 188 255; mkColor 198 198 198 255; mkColor 208 208 208 255;
   mkColor 218 218 218 255; mkColor 228 228 228 255; mkColor 238 238 238 255].
Definition COLOR_TABLE_256 : list Color :=
  standard_colors ++ cube_face_0 ++ cube_face_95 ++ cube_face_135 ++ cube_face_175 ++ cube_face_215 ++ cube_face_255 ++
  grayscale_colors.

Inductive Color8 := Black | Red | Green | Yellow | Blue | Magenta | Cyan | White.
Definition color8_number (c : Color8) : Z :=
  match c with
  | Black => 0 | Red => 1 | Green => 2 | Yellow => 3 | Blue => 4 | Magenta => 5 | Cyan => 6 | White => 7
  end.

Inductive GraphicRendition :=
  | Normal | Bright | Dim | Italic | Underline | SlowBlink | FastBlink | Invert
  | ResetBrightDim | ResetItalic | ResetUnderline | ResetBlink | ResetInvert.
Definition rendition_number (g : GraphicRendition) : Z :=
  match g with
  | Normal => 0 | Bright => 1 | Dim => 2 | Italic => 3 | Underline => 4 | SlowBlink => 5 | FastBlink => 6
  | Invert => 7 | ResetBrightDim => 22 | ResetItalic => 23 | ResetUnderline => 24 | ResetBlink => 25
  | ResetInvert => 27
  end.

Inductive Key := KeyUp | KeyDown | KeyRight | KeyLeft.
Definition key_number (k : Key) : Z :=
  match k with KeyUp => 0x0100 | KeyDown => 0x0101 | KeyRight => 0x0102 | KeyLeft => 0x0103 end.

Definition fg_8bit_color (color_index : Z) : string := csi ("38;5;" +:+ pretty color_index +:+ "m").
Definition bg_8bit_color (color_index : Z) : string := csi ("48;5;" +:+ pretty color_index +:+ "m").
Definition fg_24bit_color (color : Color) : string :=
  csi ("38;2;" +:+ pretty (red color) +:+ ";" +:+ pretty (green color) +:+ ";" +:+ pretty (blue color) +:+ "m").
Definition bg_24bit_color (color : Color) : string :=
  csi ("48;2;" +:+ pretty (red color) +:+ ";" +:+ pretty (green color) +:+ ";" +:+ pretty (blue color) +:+ "m").

(** ** The layout of the color table

    The xterm palette: 8 colors and their bright variants, a cube with six levels
    per channel, and 24 shades of grey. *)
Definition cube_level (n : Z) : Z := if n =? 0 then 0 else 55 + 40 * n.
Definition xterm_color (i : Z) : Color :=
  if i <? 8 then mkColor (170 * (i mod 2)) (170 * (i / 2 mod 2)) (170 * (i / 4)) 255
  else if i <? 16 then bright (mkColor (170 * (i mod 2)) (170 * (i / 2 mod 2)) (170 * ((i - 8) / 4)) 255)
  else if i <? 232 then
    mkColor (cube_level ((i - 16) / 36)) (cube_level ((i - 16) / 6 mod 6)) (cube_level ((i - 16) mod 6)) 255
  else mkColor (8 + 10 * (i - 232)) (8 + 10 * (i - 232)) (8 + 10 * (i - 232)) 255.

Lemma color_table_eq : COLOR_TABLE_256 = map xterm_color (seqZ 0 256).
Proof. vm_compute. reflexivity. Qed.

Lemma color_table_lookup i : 0 ≤ i < 256 → COLOR_TABLE_256 !! Z.to_nat i = Some (xterm_color i).
Proof.
  intros Hi. rewrite color_table_eq. change (map xterm_color) with (fmap (M := list) xterm_color).
  rewrite list_lookup_fmap, lookup_seqZ_lt by lia. cbn. do 2 f_equal. lia.
Qed.

Lemma color_table_ok : Forall color_ok COLOR_TABLE_256.
Proof.
  apply (bool_decide_unpack _). vm_compute. exact I.
Qed.
