(* ===== verification/Log.v ===== *)
(** * The logger (os/kernel/src/log.rs) and the choice of the serial port (lib.rs)

    Records of the crate log are written to the registered streams, or, as long as
    there are none, to a serial port in pieces that need no heap.  What a record
    writes is a list of outputs in order; the text of its arguments, formatted
    and (if it is a constant) unformatted, comes with the record. *)

From S2P Require Import Prelude Ports Interrupts Serial Color Ansi.
From stdpp Require Import pretty.
#[local] Open Scope Z_scope.

(** The crate's levels, in its order *)
Inductive Level := Error | Warn | Info | Debug | Trace.
Definition level_no (l : Level) : Z :=
  match l with Error => 1 | Warn => 2 | Info => 3 | Debug => 4 | Trace => 5 end.

Record record := mkRecord {
  record_level : Level;
  record_file : option string;
  record_line : option Z;
  record_args : string;
  record_str : option string;
}.

(** [Logger]; a stream is the address of its object. *)
Record Logger := mkLogger { level : Level; streams : list Z; serial : option ComPort }.
Definition logger_new : Logger := mkLogger Info [] None.

Inductive output := ToSerial (s : string) | ToStream (stream : Z) (s : string).

Definition enabled (l : Logger) (record_level : Level) : bool := level_no record_level <=? level_no (level l).

Definition ansi_color (l : Level) : string :=
  match l with
  | Trace => FOREGROUND_BRIGHT_WHITE
  | Debug => FOREGROUND_BRIGHT_GREEN
  | Info => FOREGROUND_BRIGHT_BLUE
  | Warn => FOREGROUND_BRIGHT_YELLOW
  | Error => FOREGROUND_BRIGHT_RED
  end.
Definition level_token (l : Level) : string :=
  match l with Trace => "TRC" | Debug => "DBG" | Info => "INF" | Warn => "WRN" | Error => "ERR" end.

Definition SLASH : Ascii.ascii := Ascii.ascii_of_nat 47.
(** [split('/').rev().next()]: the part after the last slash, [piece] being the part
    of the current piece that was read *)
Fixpoint last_piece (piece s : string) : string :=
  match s with
  | EmptyString => piece
  | String c s => if Ascii.eqb c SLASH then last_piece "" s else last_piece (piece +:+ String c "") s
  end.
Definition newline : string := String (Ascii.ascii_of_nat 10) "".

(** The format [{:0>3}] *)
Fixpoint zeros (n : nat) : string := match n with O => "" | S n => "0" +:+ zeros n end.
Definition pad3 (n : Z) : string := let s : string := pretty n in zeros (3 - String.length s) +:+ s.

(** [log]: the line that is written to the streams *)
Definition log_line (systime : Z) (r : record) (file : string) : string :=
  FOREGROUND_CYAN +:+ "[" +:+ pretty (systime / 1000) +:+ "." +:+ pad3 (systime mod 1000) +:+ "]" +:+
  ansi_color (record_level r) +:+ "[" +:+ level_token (record_level r) +:+ "]" +:+ FOREGROUND_DEFAULT +:+
  "[" +:+ file +:+ "@" +:+ pad3 (default 0 (record_line r)) +:+ "] " +:+ record_args r +:+ newline.

(** [log]; [heap] is [allocator().is_initialized()]. *)
Definition log (heap : bool) (systime : Z) (r : record) (l : Logger) : list output :=
  if negb (enabled l (record_level r)) then []
  else
    let file := last_piece "" (default "unknown" (record_file r)) in
    match streams l with
    | [] =>
        match serial l with
        | None => []
        | Some _ =>
            map ToSerial [FOREGROUND_CYAN; "[0.000]"; ansi_color (record_level r); "["; level_token (record_level r); "]";
                          FOREGROUND_DEFAULT; "["; file; "] ";
                          if heap then record_args r
                          else default "Formatted messages are not supported before heap initialization!" (record_str r);
                          newline]
        end
    | streams => map (fun stream => ToStream stream (log_line systime r file)) streams
    end.

(** [register] and [remove] *)
Definition register (stream : Z) (l : Logger) : Logger := mkLogger (level l) (streams l ++ [stream]) (serial l).
Definition remove (stream : Z) (l : Logger) : Logger :=
  mkLogger (level l) (List.filter (fun element => negb (element =? stream)) (streams l)) (serial l).

Section Init.
Context `{Device} `{QueueOps}.
#[local] Open Scope io_scope.

(** The first of the four ports that is there *)
Definition find_port : io (option ComPort) :=
  (com1 <- check_port COM1 ;;
   if com1 : bool then io_ret (Some COM1)
   else
     com2 <- check_port COM2 ;;
     if com2 : bool then io_ret (Some COM2)
     else
       com3 <- check_port COM3 ;;
       if com3 : bool then io_ret (Some COM3)
       else
         com4 <- check_port COM4 ;;
         if com4 : bool then io_ret (Some COM4) else io_ret None).

(** [Logger::init]; [profile] is the constant of the generated module built_info. *)
Definition logger_init (profile : string) (l : Logger) : io Logger :=
  (found <- find_port ;;
   let l := match found with Some p => mkLogger (level l) (streams l) (Some p) | None => l end in
   match serial l with
   | Some p => serial_init_write_only (serial_new p)
   | None => io_ret tt
   end ;;
   io_ret (if String.eqb profile "debug" then mkLogger Debug (streams l) (serial l) else l)).

(** [init_serial_port] (lib.rs) with the content of the [Once] cell *)
Definition init_serial_port (new_queue : Z → queue) (cell : option SerialPort) : io (option SerialPort) :=
  (found <- find_port ;;
   match found with
   | Some p =>
       s <- serial_init new_queue 128 Baud115200 (serial_new p) ;;
       io_ret (match cell with Some c => Some c | None => Some s end)
   | None => io_ret cell
   end).
End Init.

(** ** What reaches a stream *)

Inductive registration := Register (stream : Z) | Remove (stream : Z).
Definition apply_registration (l : Logger) (a : registration) : Logger :=
  match a with Register p => register p l | Remove p => remove p l end.

(** How often a stream has been registered since it was last removed *)
Definition registered (p : Z) (history : list registration) : nat :=
  foldl (fun n a => match a with
                    | Register q => if q =? p then S n else n
                    | Remove q => if q =? p then O else n
                    end) O history.

Definition received (p : Z) (o : list output) : list string :=
  omap (fun o => match o with ToStream q s => if q =? p then Some s else None | ToSerial _ => None end) o.

Lemma received_lines p line l :
  received p (map (fun q => ToStream q line) l) = replicate (count_occ Z.eq_dec l p) line.
Proof.
  induction l as [|q l IH]; [done|]. cbn. destruct (Z.eq_dec q p) as [->|Hne].
  - rewrite Z.eqb_refl. cbn. by f_equal.
  - by rewrite (proj2 (Z.eqb_neq _ _)).
Qed.

Lemma count_register p q l : count_occ Z.eq_dec (l ++ [q]) p = ((if (q =? p)%Z then 1 else 0) + count_occ Z.eq_dec l p)%nat.
Proof. rewrite count_occ_app. cbn. destruct (Z.eq_dec q p), (Z.eqb_spec q p); done || lia. Qed.
Lemma registered_remove p q l :
  count_occ Z.eq_dec (List.filter (fun x => negb (x =? q)) l) p = if (q =? p)%Z then O else count_occ Z.eq_dec l p.
Proof.
  induction l as [|x l IH]; cbn; [by case_Z|]. destruct (Z.eqb_spec x q) as [Hxq|Hxq]; cbn; rewrite IH;
    destruct (Z.eqb_spec q p), (Z.eq_dec x p); congruence.
Qed.

Lemma registered_count p history l n :
  count_occ Z.eq_dec (streams l) p = n →
  count_occ Z.eq_dec (streams (foldl apply_registration l history)) p =
    foldl (fun n a => match a with
                      | Register q => if q =? p then S n else n
                      | Remove q => if q =? p then O else n
                      end) n history.
Proof.
  revert l n. induction history as [|[q|q] history IH]; cbn; intros l n Hn; [done| |]; apply IH; cbn.
  - rewrite count_register, Hn. by case_Z.
  - rewrite registered_remove, Hn. done.
Qed.

(** After any registrations and removals, while some stream is registered, a record
    that the level admits reaches every stream as one whole line per registration
    since its last removal. *)
Lemma log_reaches_streams heap systime r l history p :
  enabled l (record_level r) = true → streams l = [] →
  let l' := foldl apply_registration l history in
  streams l' ≠ [] →
  received p (log heap systime r l') =
    replicate (registered p history) (log_line systime r (last_piece "" (default "unknown" (record_file r)))).
Proof.
  intros Hlevel Hnone l' Hsome. unfold log.
  assert (level l' = level l) as Hl'.
  { unfold l'. clear. revert l. induction history as [|[q|q] history IH]; intros l; [done|..]; cbn; by rewrite IH. }
  unfold enabled in *. rewrite Hl', Hlevel. cbn [negb].
  assert (registered p history = count_occ Z.eq_dec (streams l') p) as ->.
  { symmetry. apply registered_count. by rewrite Hnone. }
  destruct (streams l') as [|q qs]; [done|]. apply received_lines.
Qed.

Definition demo_record : record := mkRecord Info (Some "os/kernel/src/boot.rs") (Some 67) "Welcome" None.
Example log_line_example : log_line 12034 demo_record (last_piece "" "os/kernel/src/boot.rs") =
  FOREGROUND_CYAN +:+ "[12.034]" +:+ FOREGROUND_BRIGHT_BLUE +:+ "[INF]" +:+ FOREGROUND_DEFAULT +:+ "[boot.rs@067] Welcome" +:+ newline.
Proof. vm_compute. reflexivity. Qed.
