(* ===== verification/Terminal.v ===== *)
(** * The framebuffer terminal (os/kernel/src/device/lfb_terminal.rs)

    A grid of characters with cursor and colors over a double-buffered framebuffer,
    controlled by text and ANSI escape sequences.  Positions are pairs of column
    and row, [pos.0] and [pos.1] of the source.  All operations lock [display],
    [cursor] and [color] in this order for their whole duration, so that each is
    one step on the state.  The escape sequence parser is the crate anstyle-parse,
    the keyboard decoder the crate pc-keyboard; both are classes. *)

From S2P Require Import Prelude Color Lfb Ansi Ports Serial Pit.
#[local] Open Scope Z_scope.

(** [0x2588] is a valid character. *)
Definition CURSOR : Z := 0x2588.
Definition TAB_SPACES : Z := 8.

Record CursorState := mkCursor { pos : Z * Z; saved_pos : Z * Z }.
Record ColorState := mkColors {
  fg_color : Color; bg_color : Color; fg_base_color : Color; bg_base_color : Color;
  fg_bright : bool; bg_bright : bool; invert : bool; bright : bool; dim : bool }.
Record Character := mkCharacter { value : Z; ch_fg : Color; ch_bg : Color }.
Record DisplayState := mkDisplay { size : Z * Z; dlfb : BufferedLFB; char_buffer : list Character }.
Record LFBTerminal := mkTerminal { display : DisplayState; cursor : CursorState; color : ColorState }.

#[export] Instance Character_eq_dec : EqDecision Character.
Proof. solve_decision. Defined.

(** [size_of::<Character>()] *)
Definition CHARACTER_SIZE : Z := 12.

Definition with_pos (c : CursorState) (p : Z * Z) : CursorState := mkCursor p (saved_pos c).
Definition with_lfb (d : DisplayState) (l : LFB) : DisplayState :=
  mkDisplay (size d) (mkBuffered l (target_lfb (dlfb d))) (char_buffer d).
Definition with_target (d : DisplayState) (l : LFB) : DisplayState :=
  mkDisplay (size d) (mkBuffered (lfb (dlfb d)) l) (char_buffer d).
Definition with_chars (d : DisplayState) (b : list Character) : DisplayState := mkDisplay (size d) (dlfb d) b.

Definition cursor_new : CursorState := mkCursor (0, 0) (0, 0).
Definition color_new : ColorState := mkColors WHITE BLACK WHITE BLACK false false false false false.

(** Parameters of an escape sequence: values with their subparameters. *)
Definition Params : Type := list (list Z).

(** What the parser reports: [print], [execute] and [csi_dispatch]; [hook], [put],
    [unhook], [osc_dispatch] and [esc_dispatch] do nothing. *)
Inductive action :=
  | Print (c : Z)
  | Execute (byte : Z)
  | CsiDispatch (params : Params) (code : Z)
  | Ignored.

(** [Parser::advance] reports at most a few actions per byte. *)
Class ParserOps := {
  parser : Type;
  parser_new : parser;
  advance : parser → Z → list action * parser;
}.

(** [Keyboard::add_byte] and [Keyboard::process_keyevent] in one: the decoded key. *)
Inductive DecodedKey := Unicode (c : Z) | RawKey.
Class DecoderOps := {
  decoder : Type;
  add_byte : Z → decoder → option DecodedKey * decoder;
}.

Section Display.
Context `{Profile} `{FontOps}.

Definition as_cell (p : Z * Z) : res (Z * Z) :=
  x ← mul_w 32 p.1 CHAR_WIDTH;
  y ← mul_w 32 p.2 CHAR_HEIGHT;
  Done (x, y).

(** [pos.1 * size.0 + pos.0], in 16 bits *)
Definition cell_index (d : DisplayState) (p : Z * Z) : res Z :=
  row ← mul_w 16 p.2 (size d).1;
  add_w 16 row p.1.

(** [DisplayState::new]; [capacity] is the capacity of the new vector. *)
Definition display_new (capacity : Z) (memory : Z → Z) (target : LFB) : res DisplayState :=
  let b := buffered_new memory target in
  l ← clear (lfb b);
  b ← flush (mkBuffered l (target_lfb b));
  Done (mkDisplay (wrap 16 (width target / CHAR_WIDTH), wrap 16 (height target / CHAR_HEIGHT)) b
    (replicate (Z.to_nat capacity) (mkCharacter 32 WHITE BLACK))).

Definition print_char_at (d : DisplayState) (col : ColorState) (c : Z) (p : Z * Z) : res (DisplayState * bool) :=
  xy ← as_cell p;
  r ← draw_char (lfb (dlfb d)) xy.1 xy.2 (fg_color col) (bg_color col) c;
  let d := with_lfb d r.1 in
  if r.2 : bool then
    r ← draw_char (target_lfb (dlfb d)) xy.1 xy.2 (fg_color col) (bg_color col) c;
    Done (with_target d r.1, r.2)
  else Done (d, false).

(** [fill_rect] of the back buffer, and [flush] *)
Definition fill (d : DisplayState) (x y w h : Z) (c : Color) : res DisplayState :=
  l ← fill_rect (lfb (dlfb d)) x y w h c;
  Done (with_lfb d l).
Definition flush_display (d : DisplayState) : res DisplayState :=
  b ← flush (dlfb d);
  Done (mkDisplay (size d) b (char_buffer d)).

(** [iter_mut().filter(...).for_each(...)]: the characters at the indices in [p]
    get the given value and the current colors. *)
Definition overwrite (p : Z → bool) (v : Z) (col : ColorState) (buf : list Character) : list Character :=
  imap (fun i ch => if p (Z.of_nat i) then mkCharacter v (fg_color col) (bg_color col) else ch) buf.

(** [skip(k).enumerate().filter(|item| item.0 < n)] *)
Definition after_skip (k n : Z) (i : Z) : bool := (k <=? i) && (i - k <? n).

(** [copy_from] inside the character buffer, [n] characters down from [offset] *)
Definition copy_chars (offset n : Z) (buf : list Character) : res (list Character) :=
  if (0 <=? n) && (offset + n <=? Z.of_nat (length buf)) then
    Done (take (Z.to_nat n) (drop (Z.to_nat offset) buf) ++ drop (Z.to_nat n) buf)
  else Undef "read outside of the character buffer".

Definition scroll_up (d : DisplayState) (col : ColorState) : res DisplayState :=
  rows ← sub_w 64 (size d).2 1;
  skip ← mul_w 64 (size d).1 rows;
  n ← mul_w 64 skip CHARACTER_SIZE;
  buf ← copy_chars (size d).1 (n / CHARACTER_SIZE) (char_buffer d);
  let d := with_chars d (overwrite (fun i => skip <=? i) 0 col buf) in
  l ← Lfb.scroll_up (lfb (dlfb d)) CHAR_HEIGHT;
  let d := with_lfb d l in
  last ← sub_w 16 (size d).2 1;
  y ← mul_w 32 last CHAR_HEIGHT;
  w ← mul_w 32 (size d).1 CHAR_WIDTH;
  d ← fill d 0 y w CHAR_HEIGHT (bg_color col);
  flush_display d.

Fixpoint position_loop (fuel : nat) (d : DisplayState) (cur : CursorState) (col : ColorState)
  : res (DisplayState * CursorState) :=
  if (size d).2 <=? (pos cur).2 then
    match fuel with
    | O => NoFuel
    | S fuel =>
        row ← sub_w 16 (pos cur).2 1;
        d ← scroll_up d col;
        position_loop fuel d (with_pos cur ((pos cur).1, row)) col
    end
  else Done (d, cur).
Definition position (d : DisplayState) (cur : CursorState) (col : ColorState) (p : Z * Z)
  : res (DisplayState * CursorState) :=
  position_loop (S (Z.to_nat p.2)) d (with_pos cur p) col.

Definition handle_tab (d : DisplayState) (cur : CursorState) (col : ColorState) : res (DisplayState * CursorState) :=
  next ← add_w 16 (pos cur).1 TAB_SPACES;
  if (size d).1 <=? next then
    row ← add_w 16 (pos cur).2 1;
    position d cur col (0, row)
  else position d cur col (next / TAB_SPACES * TAB_SPACES, (pos cur).2).

Definition clear_screen (d : DisplayState) (col : ColorState) : res DisplayState :=
  wh ← as_cell (size d);
  d ← fill d 0 0 wh.1 wh.2 (bg_color col);
  flush_display (with_chars d (overwrite (fun _ => true) 0 col (char_buffer d))).

Definition clear_screen_to_cursor (d : DisplayState) (cur : CursorState) (col : ColorState) : res DisplayState :=
  y ← mul_w 32 (pos cur).2 CHAR_HEIGHT;
  x ← mul_w 32 (pos cur).1 CHAR_WIDTH;
  d ← fill d 0 y x CHAR_HEIGHT (bg_color col);
  w ← mul_w 32 (size d).1 CHAR_WIDTH;
  d ← fill d 0 0 w y (bg_color col);
  match char_buffer d with
  | [] => flush_display d
  | buf =>
      index ← cell_index d (pos cur);
      flush_display (with_chars d (overwrite (fun i => i <? index) 0 col buf))
  end.

Definition clear_screen_from_cursor (d : DisplayState) (cur : CursorState) (col : ColorState) : res DisplayState :=
  xy ← as_cell (pos cur);
  rest ← sub_w 16 (size d).1 (pos cur).1;
  w ← mul_w 32 rest CHAR_WIDTH;
  d ← fill d xy.1 xy.2 w CHAR_HEIGHT (bg_color col);
  next ← add_w 16 (pos cur).2 1;
  y ← mul_w 32 next CHAR_HEIGHT;
  w ← mul_w 32 (size d).1 CHAR_WIDTH;
  below ← sub_w 16 (size d).2 (pos cur).2;
  below ← sub_w 16 below 1;
  h ← mul_w 32 below CHAR_HEIGHT;
  d ← fill d 0 y w h (bg_color col);
  index ← cell_index d (pos cur);
  flush_display (with_chars d (overwrite (fun i => index <=? i) 0 col (char_buffer d))).

Definition clear_line (d : DisplayState) (cur : CursorState) (col : ColorState) : res DisplayState :=
  y ← mul_w 32 (pos cur).2 CHAR_HEIGHT;
  w ← mul_w 32 (size d).1 CHAR_WIDTH;
  d ← fill d 0 y w CHAR_HEIGHT (bg_color col);
  start ← mul_w 16 (pos cur).2 (size d).1;
  flush_display (with_chars d (overwrite (after_skip start (size d).1) 97 col (char_buffer d))).

Definition clear_line_to_cursor (d : DisplayState) (cur : CursorState) (col : ColorState) : res DisplayState :=
  y ← mul_w 32 (pos cur).2 CHAR_HEIGHT;
  w ← mul_w 32 (pos cur).1 CHAR_WIDTH;
  d ← fill d 0 y w CHAR_HEIGHT (bg_color col);
  start ← mul_w 16 (pos cur).2 (size d).1;
  flush_display (with_chars d (overwrite (after_skip start (pos cur).1) 0 col (char_buffer d))).

Definition clear_line_from_cursor (d : DisplayState) (cur : CursorState) (col : ColorState) : res DisplayState :=
  xy ← as_cell (pos cur);
  rest ← sub_w 16 (size d).1 (pos cur).1;
  w ← mul_w 32 rest CHAR_WIDTH;
  d ← fill d xy.1 xy.2 w CHAR_HEIGHT (bg_color col);
  index ← cell_index d (pos cur);
  flush_display (with_chars d (overwrite (after_skip index rest) 0 col (char_buffer d))).

(** ** Printing *)

(** [char_buffer\[index\] = ...] *)
Definition set_char (d : DisplayState) (i : Z) (ch : Character) : res DisplayState :=
  if (0 <=? i) && (i <? Z.of_nat (length (char_buffer d))) then
    Done (with_chars d (<[Z.to_nat i := ch]> (char_buffer d)))
  else Panic "index out of bounds".

(** [print_char]: the character itself *)
Definition print_step (d : DisplayState) (cur : CursorState) (col : ColorState) (c : Z)
  : res (DisplayState * CursorState) :=
  if c =? 10 then
    d ← clear_line_from_cursor d cur col;
    row ← add_w 16 (pos cur).2 1;
    Done (d, with_pos cur (0, row))
  else
    r ← print_char_at d col c (pos cur);
    if r.2 : bool then
      index ← cell_index r.1 (pos cur);
      d ← set_char r.1 index (mkCharacter c (fg_color col) (bg_color col));
      x ← add_w 16 (pos cur).1 1;
      Done (d, with_pos cur (x, (pos cur).2))
    else Done (r.1, cur).

(** [print_char]: the end of the line *)
Definition wrap_step (d : DisplayState) (cur : CursorState) : res CursorState :=
  if (size d).1 <=? (pos cur).1 then
    row ← add_w 16 (pos cur).2 1;
    Done (with_pos cur (0, row))
  else Done cur.

(** [print_char]: the end of the screen *)
Definition scroll_step (d : DisplayState) (cur : CursorState) (col : ColorState) : res (DisplayState * CursorState) :=
  if (size d).2 <=? (pos cur).2 then
    d ← scroll_up d col;
    last ← sub_w 16 (size d).2 1;
    r ← print_char_at d col 95 (0, (size d).2);
    Done (r.1, with_pos cur (0, last))
  else Done (d, cur).

Definition print_char (t : LFBTerminal) (c : Z) : res LFBTerminal :=
  r ← print_step (display t) (cursor t) (color t) c;
  cur ← wrap_step r.1 r.2;
  r ← scroll_step r.1 cur (color t);
  Done (mkTerminal r.1 r.2 (color t)).

(** [LFBTerminal::new] and [Terminal::clear] *)
Definition terminal_new (capacity : Z) (memory : Z → Z) (target : LFB) : res LFBTerminal :=
  d ← display_new capacity memory target;
  Done (mkTerminal d cursor_new color_new).
Definition terminal_clear (t : LFBTerminal) : res LFBTerminal :=
  d ← clear_screen (display t) (color t);
  r ← position d (cursor t) (color t) (0, 0);
  Done (mkTerminal r.1 r.2 (color t)).

(** One round of [CursorThread::run]: the cursor blinks on the screen only. *)
Definition cursor_round (visible : bool) (t : LFBTerminal) : res (LFBTerminal * bool) :=
  let d := display t in
  index ← cell_index d (pos (cursor t));
  character ← expect "index out of bounds" (char_buffer d !! Z.to_nat index);
  xy ← as_cell (pos (cursor t));
  r ← draw_char (target_lfb (dlfb d)) xy.1 xy.2 (ch_fg character) (ch_bg character)
        (if visible then value character else CURSOR);
  Done (mkTerminal (with_target d r.1) (cursor t) (color t), negb visible).
End Display.

(** ** Escape sequences *)
Section Sequences.
Context `{Profile} `{FontOps}.

(** [param\[0\]] *)
Definition param0 (param : list Z) : res Z := expect "index out of bounds" (param !! 0%nat).

(** [iter.next()] *)
Definition next (iter : Params) : option (list Z) * Params :=
  match iter with
  | [] => (None, [])
  | param :: iter => (Some param, iter)
  end.

(** [iter.next()?\[0\]]: the [?] leaves the surrounding function. *)
Definition next_value {A} (iter : Params) (k : Z → Params → res (option A * Params)) : res (option A * Params) :=
  match next iter with
  | (None, iter) => Done (None, iter)
  | (Some param, iter) => v ← param0 param; k v iter
  end.

Definition parse_complex_color (iter : Params) : res (option Color * Params) :=
  next_value iter (fun mode iter =>
    if mode =? 2 then
      next_value iter (fun red iter => next_value iter (fun green iter => next_value iter (fun blue iter =>
        Done (Some (mkColor (wrap 8 red) (wrap 8 green) (wrap 8 blue) 255), iter))))
    else if mode =? 5 then
      next_value iter (fun index iter =>
        if index <=? 255 then
          c ← expect "index out of bounds" (COLOR_TABLE_256 !! Z.to_nat index);
          Done (Some c, iter)
        else Done (None, iter))
    else Done (None, iter)).

Definition ansi_color (code : Z) (iter : Params) : res (option Color * Params) :=
  if code =? 0 then Done (Some BLACK, iter)
  else if code =? 1 then Done (Some RED, iter)
  else if code =? 2 then Done (Some GREEN, iter)
  else if code =? 3 then Done (Some YELLOW, iter)
  else if code =? 4 then Done (Some BLUE, iter)
  else if code =? 5 then Done (Some MAGENTA, iter)
  else if code =? 6 then Done (Some CYAN, iter)
  else if (code =? 7) || (code =? 9) then Done (Some WHITE, iter)
  else if code =? 8 then parse_complex_color iter
  else Done (None, iter).

Definition handle_ansi_graphic_rendition (c : ColorState) (code : Z) : ColorState :=
  if code =? 0 then mkColors WHITE BLACK WHITE BLACK false false false false false
  else
    let 'mkColors fg bg fgb bgb fgbr bgbr inv br di := c in
    if code =? 1 then mkColors fg bg fgb bgb fgbr bgbr inv true di
    else if code =? 2 then mkColors fg bg fgb bgb fgbr bgbr inv br true
    else if code =? 7 then mkColors fg bg fgb bgb fgbr bgbr true br di
    else if code =? 22 then mkColors fg bg fgb bgb fgbr bgbr inv false false
    else if code =? 27 then mkColors fg bg fgb bgb fgbr bgbr false br di
    else c.

(** The base colors, with the brightness of the code that selects them *)
Definition set_fg (c : ColorState) (b : bool) (col : option Color) : ColorState :=
  let 'mkColors fg bg fgb bgb fgbr bgbr inv br di := c in
  match col with Some x => mkColors fg bg x bgb b bgbr inv br di | None => c end.
Definition set_bg (c : ColorState) (b : bool) (col : option Color) : ColorState :=
  let 'mkColors fg bg fgb bgb fgbr bgbr inv br di := c in
  match col with Some x => mkColors fg bg fgb x fgbr b inv br di | None => c end.

(** [handle_ansi_color]: one round of the loop *)
Definition color_code (c : ColorState) (code : Z) (iter : Params) : res (ColorState * Params) :=
  let between a b := (a <=? code) && (code <=? b) in
  if between 0 29 then Done (handle_ansi_graphic_rendition c code, iter)
  else if between 30 39 then r ← ansi_color (code - 30) iter; Done (set_fg c false r.1, r.2)
  else if between 40 49 then r ← ansi_color (code - 40) iter; Done (set_bg c false r.1, r.2)
  else if between 90 97 then r ← ansi_color (code - 90) iter; Done (set_fg c true r.1, r.2)
  else if between 100 107 then r ← ansi_color (code - 100) iter; Done (set_bg c true r.1, r.2)
  else Done (c, iter).
Fixpoint color_loop (fuel : nat) (c : ColorState) (iter : Params) : res ColorState :=
  match next iter with
  | (None, _) => Done c
  | (Some param, iter) =>
      match fuel with
      | O => NoFuel
      | S fuel =>
          code ← param0 param;
          r ← color_code c code iter;
          color_loop fuel r.1 r.2
      end
  end.

(** [handle_ansi_color]: the colors that result from base colors and modes *)
Definition effective_colors (c : ColorState) : ColorState :=
  let 'mkColors _ _ fgb bgb fgbr bgbr inv br di := c in
  let fg_self := if inv : bool then bgb else fgb in
  let bg_self := if inv : bool then fgb else bgb in
  let fg_self := if br || fgbr : bool then Color.bright fg_self else fg_self in
  let fg_self := if di : bool then Color.dim fg_self else fg_self in
  let bg_self := if bgbr : bool then Color.bright bg_self else bg_self in
  mkColors fg_self bg_self fgb bgb fgbr bgbr inv br di.
Definition handle_ansi_color (c : ColorState) (params : Params) : res ColorState :=
  c ← color_loop (length params) c params;
  Done (effective_colors c).

(** [handle_ansi_cursor_sequence]; the first parameter, if there is one *)
Definition with_param (params : Params) (k : Z → res (DisplayState * CursorState))
  (otherwise : res (DisplayState * CursorState)) : res (DisplayState * CursorState) :=
  match next params with
  | (Some param, _) => v ← param0 param; k v
  | (None, _) => otherwise
  end.
Definition at_least_one (n : Z) : Z := if n =? 0 then 1 else n.
(** [if v < bound { v } else { bound - 1 }] *)
Definition below (v bound : Z) : res Z := if v <? bound then Done v else sub_w 16 bound 1.
(** [if v > bound { bound - 1 } else { v }] *)
Definition not_above (v bound : Z) : res Z := if bound <? v then sub_w 16 bound 1 else Done v.

Definition handle_ansi_cursor_sequence (d : DisplayState) (cur : CursorState) (col : ColorState) (code : Z)
  (params : Params) : res (DisplayState * CursorState) :=
  let x := (pos cur).1 in
  let y := (pos cur).2 in
  let stay := Done (d, cur) in
  if code =? 0x41 then with_param params (fun y_move =>
    row ← sub_w 16 y (at_least_one y_move);
    position d cur col (x, if 0 <? row then row else 0)) stay
  else if code =? 0x42 then with_param params (fun y_move =>
    row ← add_w 16 y (at_least_one y_move);
    row ← below row (size d).2;
    position d cur col (x, row)) stay
  else if code =? 0x43 then with_param params (fun x_move =>
    column ← add_w 16 x (at_least_one x_move);
    column ← below column (size d).1;
    position d cur col (column, y)) stay
  else if code =? 0x44 then with_param params (fun x_move =>
    column ← sub_w 16 x (at_least_one x_move);
    position d cur col (if 0 <? column then column else 0, y)) stay
  else if code =? 0x45 then with_param params (fun v =>
    row ← add_w 16 y v;
    row ← add_w 16 row 1;
    row ← below row (size d).2;
    position d cur col (0, row)) stay
  else if code =? 0x46 then with_param params (fun v =>
    row ← sub_w 16 y v;
    row ← sub_w 16 row 1;
    position d cur col (0, if 0 <? row then row else 0)) stay
  else if code =? 0x47 then with_param params (fun column =>
    column ← below column (size d).1;
    position d cur col (column, y)) stay
  else if (code =? 0x48) || (code =? 0x66) then
    match params with
    | param1 :: param2 :: _ =>
        column ← param0 param1;
        row ← param0 param2;
        column ← not_above column (size d).1;
        row ← not_above row (size d).2;
        position d cur col (column, row)
    | _ => position d cur col (0, 0)
    end
  else if code =? 0x73 then Done (d, mkCursor (pos cur) (pos cur))
  else if code =? 0x75 then position d cur col (saved_pos cur)
  else stay.

Definition handle_ansi_erase_sequence (d : DisplayState) (cur : CursorState) (col : ColorState) (code : Z)
  (params : Params) : res (DisplayState * CursorState) :=
  erase_code ← (match next params with (Some param, _) => param0 param | (None, _) => Done 0 end);
  let keep (m : res DisplayState) := d ← m; Done (d, cur) in
  if code =? 0x4a then
    if erase_code =? 0 then keep (clear_screen_from_cursor d cur col)
    else if erase_code =? 1 then keep (clear_screen_to_cursor d cur col)
    else if erase_code =? 2 then d ← clear_screen d col; position d cur col (0, 0)
    else Done (d, cur)
  else if code =? 0x4b then
    if erase_code =? 0 then keep (clear_line_from_cursor d cur col)
    else if erase_code =? 1 then keep (clear_line_to_cursor d cur col)
    else if erase_code =? 2 then keep (clear_line d cur col)
    else Done (d, cur)
  else Done (d, cur).

(** The handlers that change display and cursor, as operations on the terminal *)
Definition on_screen_state (t : LFBTerminal)
  (f : DisplayState → CursorState → ColorState → res (DisplayState * CursorState)) : res LFBTerminal :=
  r ← f (display t) (cursor t) (color t);
  Done (mkTerminal r.1 r.2 (color t)).

Definition csi_dispatch (t : LFBTerminal) (params : Params) (code : Z) : res LFBTerminal :=
  if ((0x41 <=? code) && (code <=? 0x48)) || (code =? 0x66) || (code =? 0x6e) || (code =? 0x73) || (code =? 0x75) then
    on_screen_state t (fun d cur col => handle_ansi_cursor_sequence d cur col code params)
  else if (code =? 0x4a) || (code =? 0x4b) then
    on_screen_state t (fun d cur col => handle_ansi_erase_sequence d cur col code params)
  else if code =? 0x6d then
    c ← handle_ansi_color (color t) params;
    Done (mkTerminal (display t) (cursor t) c)
  else Done t.

Context `{Device}.

(** [handle_bell]; [readings] is what the two waits read from the system timer. *)
Definition handle_bell (readings : list Z * list Z) : io unit :=
  (speaker_play 440 250 readings.1 ;; speaker_play 880 250 readings.2)%io.

Definition lift {A} (m : res A) : io A := fun dv => a ← m; Done (a, dv).
Definition execute (readings : list Z * list Z) (t : LFBTerminal) (byte : Z) : io LFBTerminal :=
  if byte =? 0x07 then (handle_bell readings ;; io_ret t)%io
  else if byte =? 0x09 then lift (on_screen_state t handle_tab)
  else if byte =? 0x0a then lift (print_char t 10)
  else io_ret t.

(** [Perform] *)
Definition perform (readings : list Z * list Z) (a : action) (t : LFBTerminal) : io LFBTerminal :=
  match a with
  | Print c => lift (print_char t c)
  | Execute byte => execute readings t byte
  | CsiDispatch params code => lift (csi_dispatch t params code)
  | Ignored => io_ret t
  end.
Fixpoint perform_all (readings : list Z * list Z) (l : list action) (t : LFBTerminal) : io LFBTerminal :=
  match l with
  | [] => io_ret t
  | a :: l => (t <- perform readings a t ;; perform_all readings l t)%io
  end.

Context `{ParserOps}.

(** [write_str]: it works on a copy of the parser and stores it back at the end. *)
Fixpoint write_bytes (readings : nat → list Z * list Z) (bytes : list Z) (t : LFBTerminal) (p : parser)
  : io (LFBTerminal * parser) :=
  match bytes with
  | [] => io_ret (t, p)
  | b :: bytes =>
      (t <- perform_all (readings 0%nat) (advance p b).1 t ;;
       write_bytes (fun i => readings (S i)) bytes t (advance p b).2)%io
  end.
Definition write_str (readings : nat → list Z * list Z) (string : list Z) (t : LFBTerminal) (p : parser)
  : io (LFBTerminal * parser) := write_bytes readings string t p.

(** [write_byte]: the character of that number, encoded in UTF-8 *)
Definition write_byte (readings : nat → list Z * list Z) (b : Z) (t : LFBTerminal) (p : parser)
  : io (LFBTerminal * parser) := write_str readings (char_from_utf8 b) t p.

Context `{DecoderOps}.

(** [read_byte]: waits for a decoded character; [scancodes] are the results of the
    keyboard's [read_byte], -1 if its queue is closed. *)
Fixpoint read_key (scancodes : list Z) (dec : decoder) : res (Z * decoder) :=
  match scancodes with
  | [] => NoFuel
  | scancode :: scancodes =>
      if scancode =? -1 then Panic "Keyboard stream closed!"
      else
        match add_byte (wrap 8 scancode) dec with
        | (Some (Unicode c), dec) => Done (c, dec)
        | (_, dec) => read_key scancodes dec
        end
  end.
Definition read_byte (readings : nat → list Z * list Z) (scancodes : list Z) (dec : decoder) (t : LFBTerminal)
  (p : parser) : io (Z * (LFBTerminal * parser * decoder)) := fun dv =>
  k ← read_key scancodes dec;
  r ← write_byte readings (wrap 8 k.1) t p dv;
  let i := wrap 16 k.1 in
  Done ((if i <? 2 ^ 15 then i else i - 2 ^ 16, (r.1.1, r.1.2, k.2)), r.2).
End Sequences.
