(* ===== verification/TerminalScreen.v ===== *)
(** * The terminal's screen: the operations on the display

    What the character buffer and the framebuffers show, and that clearing,
    scrolling, positioning and printing of Terminal.v implement the corresponding
    operations on an abstract grid of characters. *)

From S2P Require Import Prelude Color Lfb Ansi Ports Serial Pit Terminal.
#[local] Open Scope Z_scope.

(** ** The screen and the character buffer *)
Section Screen.
Context `{Profile} `{FontLaws}.

Definition colors_ok (c : ColorState) : Prop :=
  color_ok (fg_color c) ∧ color_ok (bg_color c) ∧ color_ok (fg_base_color c) ∧ color_ok (bg_base_color c).

(** The geometry fits the framebuffer, and cells have 16-bit numbers. *)
Definition display_ok (d : DisplayState) : Prop :=
  buffered_ok (dlfb d) ∧ 0 < (size d).1 ∧ 0 < (size d).2 ∧
  CHAR_WIDTH * (size d).1 ≤ width (lfb (dlfb d)) ∧ CHAR_HEIGHT * (size d).2 ≤ height (lfb (dlfb d)) ∧
  (size d).1 * (size d).2 < 2 ^ 16 ∧ (size d).1 * (size d).2 ≤ Z.of_nat (length (char_buffer d)) ∧
  Forall (fun ch => color_ok (ch_fg ch) ∧ color_ok (ch_bg ch)) (char_buffer d).

(** What a pixel shows, without the unused high byte of 32-bit pixels *)
Definition rgb (v : Z) : Z := v mod 2 ^ 24.

Definition cell_color (ch : Character) (x y px py : Z) : Color :=
  match find_glyph fonts (value ch) with
  | Some bitmap => glyph_color bitmap x y (ch_fg ch) (ch_bg ch) px py
  | None => ch_bg ch
  end.
(** The framebuffer shows the character in the cell at [x], [y]. *)
Definition displays (l : LFB) (x y : Z) (ch : Character) : Prop :=
  ∀ px py, in_rect (CHAR_WIDTH * x) (CHAR_HEIGHT * y) CHAR_WIDTH CHAR_HEIGHT px py = true →
    rgb (pixel l px py) = rgb (packed (bpp l) (cell_color ch (CHAR_WIDTH * x) (CHAR_HEIGHT * y) px py)).

(** The abstract terminal: cells with characters. *)
Definition Grid : Type := Z → Z → Character.
Definition in_grid (d : DisplayState) (x y : Z) : Prop := 0 ≤ x < (size d).1 ∧ 0 ≤ y < (size d).2.
Definition index_of (d : DisplayState) (x y : Z) : Z := y * (size d).1 + x.

(** The character buffer holds the grid, and back buffer and screen show it. *)
Definition shows (d : DisplayState) (g : Grid) : Prop :=
  ∀ x y, in_grid d x y →
    char_buffer d !! Z.to_nat (index_of d x y) = Some (g x y) ∧
    displays (lfb (dlfb d)) x y (g x y) ∧ displays (target_lfb (dlfb d)) x y (g x y).

(** The operations on the grid *)
Definition blank (col : ColorState) : Character := mkCharacter 0 (fg_color col) (bg_color col).
Definition grid_clear (p : Z → Z → bool) (ch : Character) (g : Grid) : Grid :=
  fun x y => if p x y then ch else g x y.
Definition grid_scroll (h : Z) (ch : Character) (g : Grid) : Grid :=
  fun x y => if y =? h - 1 then ch else g x (y + 1).

(** The font has empty glyphs for the null character and the space. *)
Class BlankLaws : Prop :=
  blank_glyph c bitmap : c = 0 ∨ c = 32 → find_glyph fonts c = Some bitmap → Forall (eq 0) bitmap.

Lemma in_grid_index d x y : display_ok d → in_grid d x y → 0 ≤ index_of d x y < (size d).1 * (size d).2.
Proof. intros (_ & Hw & Hh & _) [Hx Hy]. unfold index_of. nia. Qed.

(** Cells have different numbers. *)
Lemma index_of_inj d x y x' y' :
  in_grid d x y → in_grid d x' y' → index_of d x y = index_of d x' y' → x = x' ∧ y = y'.
Proof.
  unfold index_of. intros [Hx Hy] [Hx' Hy'] Heq.
  assert (y = y') as ->; [|lia]. destruct (Z.lt_trichotomy y y') as [|[|]]; [nia|done|nia].
Qed.

Lemma cell_color_blank `{!BlankLaws} ch x y px py :
  value ch = 0 ∨ value ch = 32 → cell_color ch x y px py = ch_bg ch.
Proof.
  intros Hv. unfold cell_color. destruct (find_glyph fonts (value ch)) as [bitmap|] eqn:E; [|done].
  unfold glyph_color. pose proof (blank_glyph _ _ Hv E) as Hblank.
  destruct (bitmap !! _) as [row|] eqn:Hrow; cbn [default from_option id].
  - eapply Forall_lookup_1 in Hrow; [|done]. by rewrite <-Hrow, Z.bits_0.
  - by rewrite Z.bits_0.
Qed.

Lemma in_rect_spec x y w h px py : in_rect x y w h px py = true ↔ x ≤ px < x + w ∧ y ≤ py < y + h.
Proof. unfold in_rect. rewrite !andb_true_iff, !Z.leb_le, !Z.ltb_lt. lia. Qed.

(** A pixel of a cell *)
Lemma in_cell x y px py :
  in_rect (CHAR_WIDTH * x) (CHAR_HEIGHT * y) CHAR_WIDTH CHAR_HEIGHT px py = true ↔
  px / CHAR_WIDTH = x ∧ py / CHAR_HEIGHT = y.
Proof.
  rewrite in_rect_spec. unfold CHAR_WIDTH, CHAR_HEIGHT. split.
  - intros [Hx Hy]. split; symmetry; [apply (Z.div_unique _ _ _ (px - 8 * x))|apply (Z.div_unique _ _ _ (py - 16 * y))]; lia.
  - intros [<- <-]. pose proof (Z.div_mod px 8). pose proof (Z.mod_pos_bound px 8).
    pose proof (Z.div_mod py 16). pose proof (Z.mod_pos_bound py 16). lia.
Qed.

(** Rectangles of whole cells *)
Lemma in_rect_cells x y w h px py :
  in_rect (x * CHAR_WIDTH) (y * CHAR_HEIGHT) (w * CHAR_WIDTH) (h * CHAR_HEIGHT) px py =
  in_rect x y w h (px / CHAR_WIDTH) (py / CHAR_HEIGHT).
Proof.
  apply eq_true_iff_eq. rewrite !in_rect_spec. unfold CHAR_WIDTH, CHAR_HEIGHT.
  pose proof (Z.div_mod px 8). pose proof (Z.mod_pos_bound px 8).
  pose proof (Z.div_mod py 16). pose proof (Z.mod_pos_bound py 16). lia.
Qed.

Lemma grid_pixel_on_screen d x y px py :
  display_ok d → in_grid d x y → px / CHAR_WIDTH = x → py / CHAR_HEIGHT = y → on_screen (lfb (dlfb d)) px py.
Proof.
  intros (_ & _ & _ & Hw & Hh & _) [Hx Hy] <- <-. unfold on_screen, CHAR_WIDTH, CHAR_HEIGHT in *.
  pose proof (Z.div_mod px 8). pose proof (Z.mod_pos_bound px 8).
  pose proof (Z.div_mod py 16). pose proof (Z.mod_pos_bound py 16). lia.
Qed.

(** [l'] is [l] with the pixels of the cells in [p] in one color. *)
Definition cleared (p : Z → Z → bool) (c : Color) (l l' : LFB) : Prop :=
  painted (fun px py => p (px / CHAR_WIDTH) (py / CHAR_HEIGHT)) (fun _ _ => c) l l'.

Lemma cleared_trans p q c l l1 l' :
  cleared p c l l1 → cleared q c l1 l' → cleared (fun x y => q x y || p x y) c l l'.
Proof.
  intros [Hg1 Hp] [Hg' Hq]. split; [by etrans|]. intros px py Hon.
  rewrite Hq by (by apply (same_geometry_on_screen _ _ _ _ Hg1)). pose proof Hg1 as (_ & _ & _ & ->).
  rewrite Hp by done. by destruct (q _ _), (p _ _).
Qed.

(** ** Filling, flushing and erasing *)

Lemma buffered_with b l' : buffered_ok b → same_geometry (lfb b) l' → buffered_ok (mkBuffered l' (target_lfb b)).
Proof.
  intros [Hok Hgeo] Hl. split; cbn; [by apply (same_geometry_ok _ _ Hl)|]. etrans; [symmetry; exact Hl|done].
Qed.

(** Exchanging the back buffer for one of the same geometry, or the characters *)
Lemma display_ok_lfb d l' : display_ok d → same_geometry (lfb (dlfb d)) l' → display_ok (with_lfb d l').
Proof.
  intros (Hb & Hrest) Hl. split; [by apply buffered_with|]. cbn. destruct Hl as (_ & -> & -> & _). done.
Qed.

Lemma fill_cells d x y w h c :
  display_ok d → color_ok c → 0 ≤ x < 2 ^ 16 → 0 ≤ y < 2 ^ 16 → 0 ≤ w < 2 ^ 16 → 0 ≤ h < 2 ^ 16 →
  ∃ l', fill d (x * CHAR_WIDTH) (y * CHAR_HEIGHT) (w * CHAR_WIDTH) (h * CHAR_HEIGHT) c = Done (with_lfb d l') ∧
    cleared (in_rect x y w h) c (lfb (dlfb d)) l'.
Proof.
  intros ([Hok _] & _) Hc Hx Hy Hw Hh. unfold fill.
  destruct (fill_rect_result (lfb (dlfb d)) (x * CHAR_WIDTH) (y * CHAR_HEIGHT) (w * CHAR_WIDTH) (h * CHAR_HEIGHT) c)
    as (l' & -> & Hp); try (done || unfold CHAR_WIDTH, CHAR_HEIGHT; lia).
  exists l'. split; [done|]. eapply painted_ext; [|exact Hp]. intros px py. apply in_rect_cells.
Qed.

(** What every erasing operation ends with *)
Lemma finish_ok d l' buf' :
  display_ok d → same_geometry (lfb (dlfb d)) l' → length buf' = length (char_buffer d) →
  Forall (fun ch => color_ok (ch_fg ch) ∧ color_ok (ch_bg ch)) buf' →
  ∃ d', flush_display (with_chars (with_lfb d l') buf') = Done d' ∧ display_ok d' ∧ size d' = size d ∧
    char_buffer d' = buf' ∧ lfb (dlfb d') = l' ∧ same_geometry l' (target_lfb (dlfb d')) ∧
    (∀ px py, on_screen l' px py → pixel (target_lfb (dlfb d')) px py = pixel l' px py).
Proof.
  intros Hd Hgeo Hlen Hbuf. pose proof (display_ok_lfb _ _ Hd Hgeo) as Hd1. pose proof Hd1 as (Hb & Hrest).
  unfold flush_display. destruct (flush_result _ Hb) as (b' & Hrun & [Hb1 Hb2] & Hl & Hpix).
  cbn [dlfb with_chars] in *. rewrite Hrun, res_bind_ret_l. cbn [lfb dlfb with_lfb] in Hl.
  subst l'. eexists. split; [done|]. cbn in *. split_and!; try done.
  unfold display_ok. cbn. rewrite Hlen. destruct Hrest as (? & ? & ? & ? & ? & ? & _). by split_and!.
Qed.

Lemma overwrite_length p v col buf : length (overwrite p v col buf) = length buf.
Proof. apply length_imap. Qed.
Lemma overwrite_ok p v col buf :
  colors_ok col → Forall (fun ch => color_ok (ch_fg ch) ∧ color_ok (ch_bg ch)) buf →
  Forall (fun ch => color_ok (ch_fg ch) ∧ color_ok (ch_bg ch)) (overwrite p v col buf).
Proof.
  intros (Hf & Hb & _) Hbuf. apply Forall_lookup. intros i ch (ch' & Hch & ->)%list_lookup_imap_Some.
  destruct (p _); [done|]. exact (Forall_lookup_1 _ _ _ _ Hbuf Hch).
Qed.
Lemma overwrite_lookup p v col buf i ch :
  0 ≤ i → buf !! Z.to_nat i = Some ch →
  overwrite p v col buf !! Z.to_nat i = Some (if p i then mkCharacter v (fg_color col) (bg_color col) else ch).
Proof. intros Hi Hch. unfold overwrite. by rewrite list_lookup_imap, Hch, Z2Nat.id by done. Qed.

(** Clearing cells on the framebuffer clears what it displays. *)
Lemma displays_cleared `{!BlankLaws} d p col l l' x y ch :
  display_ok d → in_grid d x y → same_geometry (lfb (dlfb d)) l →
  cleared p (bg_color col) l l' →
  displays l x y ch → displays l' x y (if p x y then blank col else ch).
Proof.
  intros Hd Hin Hgeo [(_ & _ & _ & Hbpp) Hpix] Hch px py Hcell. pose proof Hcell as [Hx Hy]%in_cell.
  assert (on_screen l px py) as Hon.
  { apply (same_geometry_on_screen _ _ _ _ Hgeo). by eapply grid_pixel_on_screen. }
  rewrite Hpix, Hx, Hy, Hbpp by done. destruct (p x y); [|by apply Hch].
  by rewrite cell_color_blank by (by left).
Qed.

(** What the back buffer displays is on the screen after a flush. *)
Lemma displays_flushed d l l' x y ch :
  display_ok d → in_grid d x y → same_geometry (lfb (dlfb d)) l → same_geometry l l' →
  (∀ px py, on_screen l px py → pixel l' px py = pixel l px py) → displays l x y ch → displays l' x y ch.
Proof.
  intros Hd Hin Hgeo (_ & _ & _ & Hbpp) Hpix Hdis px py Hcell. pose proof Hcell as [Hx Hy]%in_cell.
  rewrite Hpix, Hbpp; [by apply Hdis|].
  apply (same_geometry_on_screen _ _ _ _ Hgeo). by eapply grid_pixel_on_screen.
Qed.

(** The simulation for erasing operations: [q] selects the indices of the cells in [p]. *)
Lemma erase_result `{!BlankLaws} d p q r col l' :
  display_ok d → colors_ok col → cleared p (bg_color col) (lfb (dlfb d)) l' →
  (∀ x y, in_grid d x y → p x y = r x y ∧ q (index_of d x y) = r x y) →
  ∃ d', flush_display (with_chars (with_lfb d l') (overwrite q 0 col (char_buffer d))) = Done d' ∧
    display_ok d' ∧ size d' = size d ∧ (∀ g, shows d g → shows d' (grid_clear r (blank col) g)).
Proof.
  intros Hd Hcol Hclear Hr. pose proof Hd as (_ & _ & _ & _ & _ & _ & _ & Hchars).
  destruct (finish_ok d l' (overwrite q 0 col (char_buffer d)))
    as (d' & Hrun & Hd' & Hsize & Hbuf & Hl & Hgeo & Hpix); [done|apply Hclear|apply overwrite_length|by apply overwrite_ok|].
  exists d'. split_and!; [done..|]. intros g Hg x y Hin.
  unfold in_grid in Hin. rewrite Hsize in Hin. fold (in_grid d x y) in Hin.
  destruct (Hg x y Hin) as (Hch & Hdis & _). unfold grid_clear, index_of. rewrite Hsize, Hbuf, Hl.
  fold (index_of d x y). pose proof (in_grid_index d x y Hd Hin) as Hi. destruct (Hr x y Hin) as [<- Hq].
  assert (displays l' x y (if p x y then blank col else g x y)) as Hdis'
    by (by apply (displays_cleared d p col (lfb (dlfb d)) l')).
  split_and!; [rewrite (overwrite_lookup _ _ _ _ _ (g x y)) by (done || lia); by rewrite Hq| done|].
  apply (displays_flushed d l'); [done..|apply Hclear|done|done|done].
Qed.

Lemma size_bounds d : display_ok d → 0 < (size d).1 < 2 ^ 16 ∧ 0 < (size d).2 < 2 ^ 16.
Proof. intros (_ & Hw & Hh & _ & _ & Hwh & _). nia. Qed.

Lemma as_cell_ok p : 0 ≤ p.1 < 2 ^ 16 → 0 ≤ p.2 < 2 ^ 16 → as_cell p = Done (p.1 * CHAR_WIDTH, p.2 * CHAR_HEIGHT).
Proof.
  intros Hx Hy. unfold as_cell. unfold CHAR_WIDTH, CHAR_HEIGHT. rewrite (mul_w_ok 32 p.1), res_bind_ret_l by lia.
  by rewrite (mul_w_ok 32 p.2), res_bind_ret_l by lia.
Qed.

(** A cursor in the grid; it may stand behind the last column. *)
Definition cursor_ok (d : DisplayState) (p : Z * Z) : Prop := 0 ≤ p.1 ≤ (size d).1 ∧ 0 ≤ p.2 < (size d).2.

Lemma cell_index_ok d p :
  display_ok d → cursor_ok d p → (size d).1 * (size d).2 < 2 ^ 16 → cell_index d p = Done (index_of d p.1 p.2).
Proof.
  intros Hd [Hx Hy] Hwh. unfold cell_index, index_of.
  pose proof (size_bounds d Hd). assert (p.2 * (size d).1 + (size d).1 ≤ (size d).1 * (size d).2) by nia.
  rewrite (mul_w_ok 16 p.2), res_bind_ret_l by nia. by rewrite add_w_ok by nia.
Qed.

(** ** The regions of the erasing operations *)
Definition whole_screen (x y : Z) : bool := true.
Definition before_cursor (p : Z * Z) (x y : Z) : bool := (y <? p.2) || ((y =? p.2) && (x <? p.1)).
Definition from_cursor (p : Z * Z) (x y : Z) : bool := negb (before_cursor p x y).
Definition line_before_cursor (p : Z * Z) (x y : Z) : bool := (y =? p.2) && (x <? p.1).
Definition line_from_cursor (p : Z * Z) (x y : Z) : bool := (y =? p.2) && (p.1 <=? x).
Definition cursor_line (p : Z * Z) (x y : Z) : bool := y =? p.2.

(** An operation that erases the region [r]. *)
Definition erases (m : res DisplayState) (d : DisplayState) (col : ColorState) (r : Z → Z → bool) : Prop :=
  ∃ d', m = Done d' ∧ display_ok d' ∧ size d' = size d ∧ (∀ g, shows d g → shows d' (grid_clear r (blank col) g)).

(** Decides membership of a cell in a region, for rectangles and index ranges. *)
Ltac region :=
  intros x y [? ?];
  unfold whole_screen, from_cursor, before_cursor, line_before_cursor, line_from_cursor, in_rect, index_of, after_skip;
  split; repeat case_Z; cbn [andb orb negb]; first [done|exfalso; nia].

Ltac finish_erase Hl :=
  match type of Hl with
  | cleared _ _ (lfb (dlfb ?d)) ?l =>
      change (char_buffer (with_lfb d l)) with (char_buffer d); eapply erase_result; [done..|exact Hl|region]
  end.

Context `{!BlankLaws}.

Lemma clear_screen_erases d col :
  display_ok d → colors_ok col → erases (clear_screen d col) d col whole_screen.
Proof.
  intros Hd Hcol. pose proof (size_bounds d Hd). pose proof Hcol as (_ & Hbg & _). unfold clear_screen.
  rewrite as_cell_ok, res_bind_ret_l by lia. cbn [fst snd].
  destruct (fill_cells d 0 0 (size d).1 (size d).2 (bg_color col)) as (l' & Hrun & Hl); [done|done|lia..|].
  change (0 * CHAR_WIDTH) with 0 in Hrun. change (0 * CHAR_HEIGHT) with 0 in Hrun. rewrite Hrun, res_bind_ret_l.
  finish_erase Hl.
Qed.

Lemma clear_line_from_cursor_erases d cur col :
  display_ok d → colors_ok col → cursor_ok d (pos cur) →
  erases (clear_line_from_cursor d cur col) d col (line_from_cursor (pos cur)).
Proof.
  intros Hd Hcol Hcur. pose proof (size_bounds d Hd). pose proof Hcol as (_ & Hbg & _).
  pose proof Hd as (_ & _ & _ & _ & _ & Hwh & _). pose proof Hcur as [Hx Hy]. unfold clear_line_from_cursor.
  rewrite as_cell_ok, res_bind_ret_l by lia. rewrite (sub_w_ok 16 (size d).1), res_bind_ret_l by lia.
  rewrite (mul_w_ok 32 ((size d).1 - _)), res_bind_ret_l by (unfold CHAR_WIDTH; lia). cbn [fst snd].
  destruct (fill_cells d (pos cur).1 (pos cur).2 ((size d).1 - (pos cur).1) 1 (bg_color col)) as (l' & Hrun & Hl);
    [done|done|lia..|].
  change (1 * CHAR_HEIGHT) with CHAR_HEIGHT in Hrun. rewrite Hrun, res_bind_ret_l.
  change (cell_index (with_lfb d l')) with (cell_index d). rewrite cell_index_ok, res_bind_ret_l by done.
  finish_erase Hl.
Qed.

Lemma clear_line_to_cursor_erases d cur col :
  display_ok d → colors_ok col → cursor_ok d (pos cur) →
  erases (clear_line_to_cursor d cur col) d col (line_before_cursor (pos cur)).
Proof.
  intros Hd Hcol Hcur. pose proof (size_bounds d Hd). pose proof Hcol as (_ & Hbg & _).
  pose proof Hd as (_ & _ & _ & _ & _ & Hwh & _). pose proof Hcur as [Hx Hy]. unfold clear_line_to_cursor.
  rewrite (mul_w_ok 32 (pos cur).2), res_bind_ret_l by (unfold CHAR_HEIGHT; lia).
  rewrite (mul_w_ok 32 (pos cur).1), res_bind_ret_l by (unfold CHAR_WIDTH; lia).
  destruct (fill_cells d 0 (pos cur).2 (pos cur).1 1 (bg_color col)) as (l' & Hrun & Hl); [done|done|lia..|].
  change (0 * CHAR_WIDTH) with 0 in Hrun. change (1 * CHAR_HEIGHT) with CHAR_HEIGHT in Hrun.
  rewrite Hrun, res_bind_ret_l. change (size (with_lfb d l')) with (size d).
  rewrite (mul_w_ok 16 (pos cur).2), res_bind_ret_l by nia. finish_erase Hl.
Qed.

Lemma clear_screen_to_cursor_erases d cur col :
  display_ok d → colors_ok col → cursor_ok d (pos cur) →
  erases (clear_screen_to_cursor d cur col) d col (before_cursor (pos cur)).
Proof.
  intros Hd Hcol Hcur. pose proof (size_bounds d Hd). pose proof Hcol as (_ & Hbg & _).
  pose proof Hd as (_ & _ & _ & _ & _ & Hwh & Hlen & _). pose proof Hcur as [Hx Hy]. unfold clear_screen_to_cursor.
  rewrite (mul_w_ok 32 (pos cur).2), res_bind_ret_l by (unfold CHAR_HEIGHT; lia).
  rewrite (mul_w_ok 32 (pos cur).1), res_bind_ret_l by (unfold CHAR_WIDTH; lia).
  destruct (fill_cells d 0 (pos cur).2 (pos cur).1 1 (bg_color col)) as (l1 & Hrun1 & Hl1); [done|done|lia..|].
  change (0 * CHAR_WIDTH) with 0 in Hrun1. change (1 * CHAR_HEIGHT) with CHAR_HEIGHT in Hrun1.
  rewrite Hrun1, res_bind_ret_l. change (size (with_lfb d l1)) with (size d).
  rewrite (mul_w_ok 32 (size d).1), res_bind_ret_l by (unfold CHAR_WIDTH; lia).
  destruct (fill_cells (with_lfb d l1) 0 0 (size d).1 (pos cur).2 (bg_color col)) as (l2 & Hrun2 & Hl2);
    [apply display_ok_lfb; [done|apply Hl1]|done|lia..|].
  change (0 * CHAR_WIDTH) with 0 in Hrun2. change (0 * CHAR_HEIGHT) with 0 in Hrun2. rewrite Hrun2, res_bind_ret_l.
  change (with_lfb (with_lfb d l1) l2) with (with_lfb d l2). change (lfb (dlfb (with_lfb d l1))) with l1 in Hl2.
  pose proof (cleared_trans _ _ _ _ _ _ Hl1 Hl2) as Hl.
  change (cell_index (with_lfb d l2)) with (cell_index d). rewrite cell_index_ok by done.
  change (char_buffer (with_lfb d l2)) with (char_buffer d).
  destruct (char_buffer d) as [|ch buf] eqn:Hbuf; [cbn in Hlen; nia|]. rewrite <-Hbuf, res_bind_ret_l.
  finish_erase Hl.
Qed.

Lemma clear_screen_from_cursor_erases d cur col :
  display_ok d → colors_ok col → cursor_ok d (pos cur) →
  erases (clear_screen_from_cursor d cur col) d col (from_cursor (pos cur)).
Proof.
  intros Hd Hcol Hcur. pose proof (size_bounds d Hd). pose proof Hcol as (_ & Hbg & _).
  pose proof Hd as (_ & _ & _ & _ & _ & Hwh & Hlen & _). pose proof Hcur as [Hx Hy]. unfold clear_screen_from_cursor.
  rewrite as_cell_ok, res_bind_ret_l by lia. rewrite (sub_w_ok 16 (size d).1), res_bind_ret_l by lia.
  rewrite (mul_w_ok 32 ((size d).1 - _)), res_bind_ret_l by (unfold CHAR_WIDTH; lia). cbn [fst snd].
  destruct (fill_cells d (pos cur).1 (pos cur).2 ((size d).1 - (pos cur).1) 1 (bg_color col)) as (l1 & Hrun1 & Hl1);
    [done|done|lia..|].
  change (1 * CHAR_HEIGHT) with CHAR_HEIGHT in Hrun1. rewrite Hrun1, res_bind_ret_l.
  change (size (with_lfb d l1)) with (size d).
  rewrite (add_w_ok 16 _ 1), res_bind_ret_l by lia.
  rewrite (mul_w_ok 32 ((pos cur).2 + 1)), res_bind_ret_l by (unfold CHAR_HEIGHT; lia).
  rewrite (mul_w_ok 32 (size d).1), res_bind_ret_l by (unfold CHAR_WIDTH; lia).
  rewrite (sub_w_ok 16 (size d).2), res_bind_ret_l by lia. rewrite (sub_w_ok 16 _ 1), res_bind_ret_l by lia.
  rewrite (mul_w_ok 32 ((size d).2 - _ - 1)), res_bind_ret_l by (unfold CHAR_HEIGHT; lia).
  destruct (fill_cells (with_lfb d l1) 0 ((pos cur).2 + 1) (size d).1 ((size d).2 - (pos cur).2 - 1) (bg_color col))
    as (l2 & Hrun2 & Hl2); [apply display_ok_lfb; [done|apply Hl1]|done|lia..|].
  change (0 * CHAR_WIDTH) with 0 in Hrun2. rewrite Hrun2, res_bind_ret_l.
  change (with_lfb (with_lfb d l1) l2) with (with_lfb d l2). change (lfb (dlfb (with_lfb d l1))) with l1 in Hl2.
  pose proof (cleared_trans _ _ _ _ _ _ Hl1 Hl2) as Hl.
  change (cell_index (with_lfb d l2)) with (cell_index d). rewrite cell_index_ok, res_bind_ret_l by done.
  finish_erase Hl.
Qed.

(** ** Scrolling *)

Definition chars_ok (buf : list Character) : Prop :=
  Forall (fun ch => color_ok (ch_fg ch) ∧ color_ok (ch_bg ch)) buf.

Lemma display_ok_chars d buf :
  display_ok d → length buf = length (char_buffer d) → chars_ok buf → display_ok (with_chars d buf).
Proof. intros (? & ? & ? & ? & ? & ? & ? & _) Hlen Hbuf. unfold display_ok. cbn. rewrite Hlen. by split_and!. Qed.

(** The characters after [scroll_up] *)
Definition scrolled (d : DisplayState) (col : ColorState) : list Character :=
  let n := (size d).1 * ((size d).2 - 1) in
  overwrite (fun i => n <=? i) 0 col
    (take (Z.to_nat n) (drop (Z.to_nat (size d).1) (char_buffer d)) ++ drop (Z.to_nat n) (char_buffer d)).

Lemma scrolled_length d col : display_ok d → length (scrolled d col) = length (char_buffer d).
Proof.
  intros Hd. pose proof (size_bounds d Hd). destruct Hd as (_ & _ & _ & _ & _ & _ & Hlen & _).
  unfold scrolled. rewrite overwrite_length, length_app, length_take, !length_drop.
  assert (0 ≤ (size d).1 * ((size d).2 - 1)) by nia. lia.
Qed.

Lemma scrolled_ok d col : display_ok d → colors_ok col → chars_ok (scrolled d col).
Proof.
  intros (_ & _ & _ & _ & _ & _ & _ & Hchars) Hcol. apply overwrite_ok; [done|].
  apply Forall_app. split; [apply Forall_take|]; by apply Forall_drop.
Qed.

Lemma scrolled_lookup d col g x y :
  display_ok d → in_grid d x y → shows d g →
  scrolled d col !! Z.to_nat (index_of d x y) = Some (grid_scroll (size d).2 (blank col) g x y).
Proof.
  intros Hd Hin Hg. pose proof (size_bounds d Hd). pose proof (in_grid_index d x y Hd Hin) as Hi.
  pose proof Hd as (_ & _ & _ & _ & _ & _ & Hlen & _). pose proof Hin as [Hx Hy].
  set (n := (size d).1 * ((size d).2 - 1)). assert (0 ≤ n) as Hn by (unfold n; nia). unfold scrolled, grid_scroll. fold n.
  destruct (Z.eqb_spec y ((size d).2 - 1)) as [->|Hne].
  - assert (n ≤ index_of d x ((size d).2 - 1)) as Hni by (unfold index_of, n; nia).
    edestruct (lookup_lt_is_Some_2 (take (Z.to_nat n) (drop (Z.to_nat (size d).1) (char_buffer d)) ++
      drop (Z.to_nat n) (char_buffer d)) (Z.to_nat (index_of d x ((size d).2 - 1)))) as [ch Hch].
    { rewrite length_app, length_take, !length_drop. lia. }
    rewrite (overwrite_lookup _ _ _ _ _ ch) by (done || lia). by rewrite (proj2 (Z.leb_le _ _) Hni).
  - assert (in_grid d x (y + 1)) as Hin1 by (split; lia). destruct (Hg x (y + 1) Hin1) as (Hch & _).
    assert (index_of d x y < n) as Hni by (unfold index_of, n; nia).
    rewrite (overwrite_lookup _ _ _ _ _ (g x (y + 1))); [by rewrite (proj2 (Z.leb_gt _ _) Hni)|lia|].
    rewrite lookup_app_l by (rewrite length_take, length_drop; unfold n in *; nia).
    rewrite lookup_take_lt, lookup_drop by lia. rewrite <-Hch. f_equal. unfold index_of. nia.
Qed.

Lemma cell_color_shift ch x y px py k : cell_color ch x (y + k) px (py + k) = cell_color ch x y px py.
Proof. unfold cell_color, glyph_color. by replace (py + k - (y + k)) with (py - y) by lia. Qed.

(** The pixels after [scroll_up] *)
Lemma displays_scrolled d l1 l2 col g x y :
  display_ok d → in_grid d x y → shows d g → same_geometry (lfb (dlfb d)) l1 →
  (∀ px py, on_screen (lfb (dlfb d)) px py → pixel l1 px py =
     if py <? height (lfb (dlfb d)) - CHAR_HEIGHT then pixel (lfb (dlfb d)) px (py + CHAR_HEIGHT) else 0) →
  cleared (in_rect 0 ((size d).2 - 1) (size d).1 1) (bg_color col) l1 l2 →
  displays l2 x y (grid_scroll (size d).2 (blank col) g x y).
Proof.
  intros Hd Hin Hg Hgeo Hscroll [(_ & _ & _ & Hbpp2) Hfill] px py Hcell. pose proof Hcell as [Hpx Hpy]%in_cell.
  pose proof (grid_pixel_on_screen d x y px py Hd Hin Hpx Hpy) as Hon. pose proof Hin as [Hx Hy].
  pose proof Hd as (_ & _ & _ & _ & Hh & _). pose proof Hgeo as (_ & _ & _ & Hbpp).
  rewrite Hfill by (by apply (same_geometry_on_screen _ _ _ _ Hgeo)). rewrite Hpx, Hpy, Hbpp2, Hbpp. unfold grid_scroll.
  apply in_rect_spec in Hcell. unfold CHAR_WIDTH, CHAR_HEIGHT in *.
  destruct (Z.eqb_spec y ((size d).2 - 1)) as [->|Hne].
  - rewrite (proj2 (in_rect_spec _ _ _ _ _ _)) by lia. by rewrite cell_color_blank by (by left).
  - destruct (in_rect 0 ((size d).2 - 1) (size d).1 1 x y) eqn:E; [apply in_rect_spec in E; lia|].
    rewrite Hscroll, (proj2 (Z.ltb_lt _ _)) by (done || lia).
    destruct (Hg x (y + 1)) as (_ & Hdis & _); [split; lia|]. unfold displays, CHAR_WIDTH, CHAR_HEIGHT in Hdis.
    rewrite Hdis by (apply in_rect_spec; lia). by rewrite Z.mul_add_distr_l, cell_color_shift.
Qed.

Lemma scroll_up_correct d col :
  display_ok d → colors_ok col →
  ∃ d', scroll_up d col = Done d' ∧ display_ok d' ∧ size d' = size d ∧
    (∀ g, shows d g → shows d' (grid_scroll (size d).2 (blank col) g)).
Proof.
  intros Hd Hcol. pose proof (size_bounds d Hd). pose proof Hcol as (_ & Hbg & _).
  pose proof Hd as ([Hok _] & _ & _ & _ & Hh & _ & Hlen & _). unfold scroll_up.
  rewrite (sub_w_ok 64 (size d).2), res_bind_ret_l by lia. rewrite (mul_w_ok 64 (size d).1), res_bind_ret_l by nia.
  set (n := (size d).1 * ((size d).2 - 1)). assert (0 ≤ n < 2 ^ 32) as Hn by (unfold n; nia).
  rewrite (mul_w_ok 64 n), res_bind_ret_l by (unfold CHARACTER_SIZE; lia).
  rewrite Z.div_mul by done. unfold copy_chars.
  rewrite (proj2 (Z.leb_le 0 n)), (proj2 (Z.leb_le _ (Z.of_nat _))) by (unfold n; nia). cbn [andb].
  rewrite res_bind_ret_l. change (char_buffer (with_chars d _)) with (char_buffer d). cbn zeta.
  fold n. change (overwrite _ 0 col _) with (scrolled d col).
  set (d1 := with_chars d (scrolled d col)).
  destruct (scroll_up_result (lfb (dlfb d)) CHAR_HEIGHT) as (l1 & Hl1 & Hgeo & Hscroll);
    [done|unfold CHAR_HEIGHT in *; lia|].
  change (lfb (dlfb d1)) with (lfb (dlfb d)). rewrite Hl1, res_bind_ret_l. change (size d1) with (size d).
  rewrite (sub_w_ok 16 (size d).2), res_bind_ret_l by lia.
  rewrite (mul_w_ok 32 ((size d).2 - 1)), res_bind_ret_l by (unfold CHAR_HEIGHT; lia).
  change (size (with_lfb d1 l1)) with (size d). rewrite (mul_w_ok 32 (size d).1), res_bind_ret_l by (unfold CHAR_WIDTH; lia).
  assert (display_ok d1) as Hd1 by (apply display_ok_chars; [done|by apply scrolled_length|by apply scrolled_ok]).
  pose proof (display_ok_lfb d1 l1 Hd1 Hgeo) as Hd2.
  destruct (fill_cells (with_lfb d1 l1) 0 ((size d).2 - 1) (size d).1 1 (bg_color col)) as (l2 & Hl2 & Hclear);
    [done|done|lia..|].
  change (0 * CHAR_WIDTH) with 0 in Hl2. change (1 * CHAR_HEIGHT) with CHAR_HEIGHT in Hl2. rewrite Hl2, res_bind_ret_l.
  destruct (finish_ok (with_lfb d1 l1) l2 (scrolled d col) Hd2 (proj1 Hclear)) as (d' & Hrun & Hd' & Hsize & Hbuf & Hl & Hgeo' & Hpix);
    [done|by apply scrolled_ok|].
  change (size (with_lfb d1 l1)) with (size d) in Hsize.
  exists d'. split_and!; [exact Hrun|done..|]. intros g Hg x y Hin. unfold in_grid in Hin. rewrite Hsize in Hin. unfold index_of. rewrite Hsize, Hbuf, Hl.
  assert (displays l2 x y (grid_scroll (size d).2 (blank col) g x y)) as Hdis
    by (by apply (displays_scrolled d l1 l2 col)).
  split_and!; [by apply scrolled_lookup|done|].
  apply (displays_flushed (with_lfb d1 l1) l2); [done..|apply Hclear|done|done|done].
Qed.

(** ** Positioning *)

(** [position] scrolls once per row that the position lies below the screen. *)
Definition grid_scrolls (h : Z) (ch : Character) (n : nat) (g : Grid) : Grid := Nat.iter n (grid_scroll h ch) g.

Lemma position_loop_correct fuel : ∀ d cur col,
  display_ok d → colors_ok col → 0 ≤ (pos cur).2 < 2 ^ 16 → (pos cur).2 ≤ Z.of_nat fuel →
  let row := Z.min (pos cur).2 ((size d).2 - 1) in
  ∃ d', position_loop fuel d cur col = Done (d', with_pos cur ((pos cur).1, row)) ∧ display_ok d' ∧ size d' = size d ∧
    (∀ g, shows d g → shows d' (grid_scrolls (size d).2 (blank col) (Z.to_nat ((pos cur).2 - row)) g)).
Proof.
  induction fuel as [|fuel IH]; intros d cur col Hd Hcol Hp Hfuel row; pose proof (size_bounds d Hd); cbn [position_loop].
  all: destruct (Z.leb_spec (size d).2 (pos cur).2) as [Hle|Hgt]; [|unfold row; rewrite Z.min_l by lia; exists d].
  2,4: rewrite Z.sub_diag; destruct cur as [[x y] saved]; by split_and!.
  { lia. }
  rewrite (sub_w_ok 16 (pos cur).2), res_bind_ret_l by lia.
  destruct (scroll_up_correct d col Hd Hcol) as (d1 & Hrun & Hd1 & Hsize & Hshows). rewrite Hrun, res_bind_ret_l.
  destruct (IH d1 (with_pos cur ((pos cur).1, (pos cur).2 - 1)) col) as (d' & Hrun' & Hd' & Hsize' & Hshows');
    [done|done|cbn; lia|cbn; lia|].
  cbn [pos with_pos fst snd saved_pos] in *. rewrite Hsize in *. unfold row. rewrite Z.min_r in Hrun', Hshows' |- * by lia.
  exists d'. split_and!; [done|done|congruence|]. intros g Hg. apply Hshows in Hg. apply Hshows' in Hg.
  replace (Z.to_nat ((pos cur).2 - ((size d).2 - 1))) with (S (Z.to_nat ((pos cur).2 - 1 - ((size d).2 - 1)))) by lia.
  unfold grid_scrolls in *. by rewrite Nat.iter_succ_r.
Qed.

Lemma position_correct d cur col p :
  display_ok d → colors_ok col → 0 ≤ p.2 < 2 ^ 16 →
  let row := Z.min p.2 ((size d).2 - 1) in
  ∃ d', position d cur col p = Done (d', with_pos cur (p.1, row)) ∧ display_ok d' ∧ size d' = size d ∧
    (∀ g, shows d g → shows d' (grid_scrolls (size d).2 (blank col) (Z.to_nat (p.2 - row)) g)).
Proof.
  intros Hd Hcol Hp. unfold position.
  apply (position_loop_correct (S (Z.to_nat p.2)) d (with_pos cur p) col); [done|done|done|cbn; lia].
Qed.

Lemma position_in_grid d cur col p : p.2 < (size d).2 → position d cur col p = Done (d, with_pos cur p).
Proof. intros Hp. unfold position. cbn. by rewrite (proj2 (Z.leb_gt _ _)) by lia. Qed.

(** ** Printing a character *)

Definition drawn_at (p : Z * Z) (bitmap : list Z) (col : ColorState) : LFB → LFB → Prop :=
  painted (in_rect (p.1 * CHAR_WIDTH) (p.2 * CHAR_HEIGHT) CHAR_WIDTH CHAR_HEIGHT)
    (glyph_color bitmap (p.1 * CHAR_WIDTH) (p.2 * CHAR_HEIGHT) (fg_color col) (bg_color col)).

Lemma print_char_at_correct d col c p :
  display_ok d → colors_ok col → 0 ≤ p.1 < 2 ^ 16 → 0 ≤ p.2 < 2 ^ 16 →
  match find_glyph fonts c with
  | Some bitmap => ∃ l1 l2, print_char_at d col c p = Done (with_target (with_lfb d l1) l2, true) ∧
      drawn_at p bitmap col (lfb (dlfb d)) l1 ∧ drawn_at p bitmap col (target_lfb (dlfb d)) l2
  | None => print_char_at d col c p = Done (d, false)
  end.
Proof.
  intros ([Hok Hgeo] & _) (Hfg & Hbg & _) Hx Hy. unfold print_char_at.
  rewrite as_cell_ok, res_bind_ret_l by done. cbn [fst snd].
  assert (∀ l, lfb_ok l → match find_glyph fonts c with
    | Some bitmap => ∃ l', draw_char l (p.1 * CHAR_WIDTH) (p.2 * CHAR_HEIGHT) (fg_color col) (bg_color col) c = Done (l', true) ∧
        drawn_at p bitmap col l l'
    | None => draw_char l (p.1 * CHAR_WIDTH) (p.2 * CHAR_HEIGHT) (fg_color col) (bg_color col) c = Done (l, false)
    end) as Hdraw.
  { intros l Hl. apply draw_char_result; done || unfold CHAR_WIDTH, CHAR_HEIGHT; lia. }
  pose proof (Hdraw _ Hok) as H1'. pose proof (Hdraw _ (same_geometry_ok _ _ Hgeo Hok)) as H2'.
  destruct (find_glyph fonts c) as [bitmap|].
  - destruct H1' as (l1 & -> & Hl1). destruct H2' as (l2 & Hrun2 & Hl2). rewrite res_bind_ret_l. cbn [fst snd].
    change (target_lfb (dlfb (with_lfb d l1))) with (target_lfb (dlfb d)). rewrite Hrun2, res_bind_ret_l. eauto.
  - rewrite H1', res_bind_ret_l. by destruct d as [s [l t] b].
Qed.

(** Drawing keeps the state well-formed and changes at most one cell. *)
Lemma display_ok_drawn d l1 l2 :
  display_ok d → same_geometry (lfb (dlfb d)) l1 → same_geometry (target_lfb (dlfb d)) l2 →
  display_ok (with_target (with_lfb d l1) l2).
Proof.
  intros Hd H1' H2'. pose proof (display_ok_lfb d l1 Hd H1') as ([Hok Hgeo] & Hrest). split; [|done].
  split; [done|]. cbn in *. by etrans.
Qed.

Lemma displays_drawn p bitmap c col l l' x y ch :
  find_glyph fonts c = Some bitmap → drawn_at p bitmap col l l' →
  (∀ px py, px / CHAR_WIDTH = x → py / CHAR_HEIGHT = y → on_screen l px py) → displays l x y ch →
  displays l' x y (if (x =? p.1) && (y =? p.2) then mkCharacter c (fg_color col) (bg_color col) else ch).
Proof.
  intros Hglyph [(_ & _ & _ & Hbpp) Hpix] Hon Hdis px py Hcell. pose proof Hcell as [Hx Hy]%in_cell.
  rewrite Hpix, Hbpp by auto. rewrite (Z.mul_comm p.1), (Z.mul_comm p.2).
  destruct (in_rect (CHAR_WIDTH * p.1) _ _ _ _ _) eqn:E.
  - apply in_cell in E as [E1 E2]. rewrite <-Hx, <-Hy, E1, E2, !Z.eqb_refl. cbn [andb].
    unfold cell_color. cbn [value ch_fg ch_bg]. by rewrite Hglyph.
  - destruct (Z.eqb_spec x p.1) as [->|]; [|by apply Hdis]. destruct (Z.eqb_spec y p.2) as [->|]; [|by apply Hdis].
    congruence.
Qed.

(** ** The abstract terminal *)

Definition terminal_ok (t : LFBTerminal) : Prop :=
  display_ok (display t) ∧ colors_ok (color t) ∧
  cursor_ok (display t) (pos (cursor t)) ∧ cursor_ok (display t) (saved_pos (cursor t)).

Definition one_cell (p : Z * Z) (x y : Z) : bool := (x =? p.1) && (y =? p.2).

(** Printing on a grid of [w] x [h] cells: a newline clears the rest of the line, a
    character without a glyph is ignored; behind the last column the cursor
    moves to the next line, behind the last line the grid scrolls. *)
Definition grid_put (col : ColorState) (c : Z) (p : Z * Z) (g : Grid) : Grid * (Z * Z) :=
  if c =? 10 then (grid_clear (line_from_cursor p) (blank col) g, (0, p.2 + 1))
  else
    match find_glyph fonts c with
    | Some _ => (grid_clear (one_cell p) (mkCharacter c (fg_color col) (bg_color col)) g, (p.1 + 1, p.2))
    | None => (g, p)
    end.
Definition grid_wrap (w : Z) (p : Z * Z) : Z * Z := if w <=? p.1 then (0, p.2 + 1) else p.
Definition grid_print (w h : Z) (col : ColorState) (c : Z) (s : Grid * (Z * Z)) : Grid * (Z * Z) :=
  let s' := grid_put col c s.2 s.1 in
  let p := grid_wrap w s'.2 in
  if h <=? p.2 then (grid_scroll h (blank col) s'.1, (0, h - 1)) else (s'.1, p).

(** What a step of [print_char] establishes *)
Definition step_to (d d' : DisplayState) (g g' : Grid) : Prop := display_ok d' ∧ size d' = size d ∧ (shows d g → shows d' g').

Lemma shows_drawn d p bitmap c col l1 l2 g buf :
  display_ok d → find_glyph fonts c = Some bitmap →
  drawn_at p bitmap col (lfb (dlfb d)) l1 → drawn_at p bitmap col (target_lfb (dlfb d)) l2 → shows d g →
  (∀ x y, in_grid d x y → char_buffer d !! Z.to_nat (index_of d x y) = Some (g x y) →
     buf !! Z.to_nat (index_of d x y) =
     Some (grid_clear (one_cell p) (mkCharacter c (fg_color col) (bg_color col)) g x y)) →
  shows (with_chars (with_target (with_lfb d l1) l2) buf)
    (grid_clear (one_cell p) (mkCharacter c (fg_color col) (bg_color col)) g).
Proof.
  intros Hd Hglyph Hl1 Hl2 Hg Hbuf x y Hin. change (in_grid _ x y) with (in_grid d x y) in Hin.
  destruct (Hg x y Hin) as (Hch & Hd1 & Hd2). split_and!; [by apply Hbuf| |]; unfold grid_clear, one_cell.
  - apply (displays_drawn p bitmap c col (lfb (dlfb d)) l1); [done|done| |done]. intros. by eapply grid_pixel_on_screen.
  - apply (displays_drawn p bitmap c col (target_lfb (dlfb d)) l2); [done|done| |done]. intros.
    pose proof Hd as ([_ Hgeo] & _). apply (same_geometry_on_screen _ _ _ _ Hgeo). by eapply grid_pixel_on_screen.
Qed.

Lemma print_step_correct d cur col c g :
  display_ok d → colors_ok col → in_grid d (pos cur).1 (pos cur).2 →
  ∃ d', print_step d cur col c = Done (d', with_pos cur (grid_put col c (pos cur) g).2) ∧
    step_to d d' g (grid_put col c (pos cur) g).1.
Proof.
  intros Hd Hcol Hin. pose proof Hin as [Hx Hy]. pose proof (size_bounds d Hd).
  pose proof Hd as (_ & _ & _ & _ & _ & Hwh & Hlen & Hchars).
  unfold print_step, grid_put. destruct (c =? 10).
  - destruct (clear_line_from_cursor_erases d cur col Hd Hcol) as (d' & Hrun & Hd' & Hsize & Hshows); [split; lia|].
    rewrite Hrun, res_bind_ret_l, (add_w_ok 16 (pos cur).2), res_bind_ret_l by lia. exists d'.
    split; [done|]. unfold step_to. cbn [fst snd]. auto.
  - pose proof (print_char_at_correct d col c (pos cur) Hd Hcol ltac:(lia) ltac:(lia)) as Hprint.
    destruct (find_glyph fonts c) as [bitmap|] eqn:Hglyph; [|].
    2:{ rewrite Hprint, res_bind_ret_l. cbn [fst snd]. exists d. split; [|by split]. by destruct cur as [[x y] sv]. }
    destruct Hprint as (l1 & l2 & Hrun & Hl1 & Hl2). rewrite Hrun, res_bind_ret_l. cbn [fst snd].
    set (ch := mkCharacter c (fg_color col) (bg_color col)).
    change (cell_index (with_target _ _)) with (cell_index d). rewrite cell_index_ok, res_bind_ret_l by (done || split; lia).
    pose proof (in_grid_index d _ _ Hd Hin) as Hi. unfold set_char. change (char_buffer (with_target _ _)) with (char_buffer d).
    rewrite (proj2 (Z.leb_le _ _)), (proj2 (Z.ltb_lt _ _)) by lia. cbn [andb]. rewrite res_bind_ret_l.
    rewrite add_w_ok, res_bind_ret_l by lia. eexists. split; [done|]. split_and!; [|done|].
    + apply (display_ok_chars (with_target (with_lfb d l1) l2)); [|cbn; by rewrite length_insert|].
      * apply display_ok_drawn; [done|apply Hl1|apply Hl2].
      * apply Forall_insert; [done|]. split; [apply Hcol|]. by destruct Hcol as (_ & ? & _).
    + intros Hg. apply (shows_drawn d (pos cur) bitmap c col l1 l2 g); [done..|].
      intros x y Hin' Hch. pose proof (in_grid_index d x y Hd Hin'). unfold grid_clear, one_cell.
      destruct (decide (index_of d x y = index_of d (pos cur).1 (pos cur).2)) as [Heq|Hne].
      * destruct (index_of_inj d x y (pos cur).1 (pos cur).2) as [-> ->]; [done..|]. rewrite !Z.eqb_refl.
        apply list_lookup_insert_eq. lia.
      * rewrite list_lookup_insert_ne by lia. rewrite Hch. destruct (Z.eqb_spec x (pos cur).1) as [->|]; [|done].
        destruct (Z.eqb_spec y (pos cur).2) as [->|]; [done|]. done.
Qed.

Lemma wrap_step_correct d cur :
  ((size d).1 ≤ (pos cur).1 → 0 ≤ (pos cur).2 < 2 ^ 16 - 1) →
  wrap_step d cur = Done (with_pos cur (grid_wrap (size d).1 (pos cur))).
Proof.
  intros Hp. unfold wrap_step, grid_wrap. case_Z; [|by destruct cur as [[x y] sv]].
  by rewrite add_w_ok, res_bind_ret_l by lia.
Qed.

(** The underscore that is drawn below the grid after scrolling is not in a cell. *)
Lemma scroll_step_correct d cur col g :
  display_ok d → colors_ok col → 0 ≤ (pos cur).2 →
  let scrolls := (size d).2 <=? (pos cur).2 in
  ∃ d', scroll_step d cur col = Done (d', with_pos cur (if scrolls then (0, (size d).2 - 1) else pos cur)) ∧
    step_to d d' g (if scrolls then grid_scroll (size d).2 (blank col) g else g).
Proof.
  intros Hd Hcol Hp scrolls. unfold scroll_step. fold scrolls. pose proof (size_bounds d Hd).
  destruct scrolls; [|exists d; destruct cur as [[x y] sv]; split; [done|by split]].
  destruct (scroll_up_correct d col Hd Hcol) as (d1 & Hrun & Hd1 & Hsize & Hshows). rewrite Hrun, res_bind_ret_l.
  rewrite Hsize. rewrite sub_w_ok, res_bind_ret_l by lia.
  pose proof (print_char_at_correct d1 col 95 (0, (size d).2) Hd1 Hcol) as Hprint. cbn [fst snd] in Hprint.
  specialize (Hprint ltac:(lia) ltac:(lia)). destruct (find_glyph fonts 95) as [bitmap|] eqn:Hglyph.
  - destruct Hprint as (l1 & l2 & Hrun' & Hl1 & Hl2). rewrite Hrun', res_bind_ret_l. cbn [fst snd].
    eexists. split; [done|]. split_and!; [|done|].
    + apply display_ok_drawn; [done|apply Hl1|apply Hl2].
    + intros Hg. apply Hshows in Hg. intros x y Hin.
      assert (y ≠ (size d).2) as Hy by (destruct Hin as [_ Hy]; cbn in Hy; rewrite Hsize in Hy; lia).
      pose proof (shows_drawn d1 (0, (size d).2) bitmap 95 col l1 l2 _ (char_buffer d1) Hd1 Hglyph Hl1 Hl2 Hg) as Hdraw.
      unfold shows, grid_clear, one_cell in Hdraw. cbn [fst snd] in Hdraw.
      specialize (fun H => Hdraw H x y Hin). rewrite (proj2 (Z.eqb_neq _ _) Hy), andb_false_r in Hdraw. apply Hdraw.
      intros x' y' [_ Hy'] Hch. rewrite Hsize in Hy'. by rewrite (proj2 (Z.eqb_neq y' _)), andb_false_r by lia.
  - rewrite Hprint, res_bind_ret_l. exists d1. split; [done|]. split_and!; [done|done|auto].
Qed.

(** The terminal with cursor [s.2] shows the grid [s.1]. *)
Definition represents (t : LFBTerminal) (s : Grid * (Z * Z)) : Prop :=
  terminal_ok t ∧ shows (display t) s.1 ∧ pos (cursor t) = s.2 ∧ in_grid (display t) s.2.1 s.2.2.

Lemma grid_print_in_grid d col c s :
  display_ok d → in_grid d s.2.1 s.2.2 →
  in_grid d (grid_print (size d).1 (size d).2 col c s).2.1 (grid_print (size d).1 (size d).2 col c s).2.2.
Proof.
  intros Hd [Hx Hy]. pose proof (size_bounds d Hd). unfold in_grid, grid_print.
  set (s1 := grid_put col c s.2 s.1). set (p := grid_wrap (size d).1 s1.2).
  assert (0 ≤ s1.2.1 ∧ 0 ≤ s1.2.2) as [Hx1 Hy1].
  { unfold s1, grid_put. destruct (c =? 10); [|destruct (find_glyph fonts c)]; cbn [fst snd]; lia. }
  assert (0 ≤ p.1 < (size d).1 ∧ 0 ≤ p.2) as [Hx2 Hy2] by (unfold p, grid_wrap; case_Z; cbn [fst snd]; lia).
  case_Z; cbn [fst snd]; lia.
Qed.

Lemma print_char_result t c s :
  represents t s →
  ∃ t', print_char t c = Done t' ∧ size (display t') = size (display t) ∧ color t' = color t ∧
    saved_pos (cursor t') = saved_pos (cursor t) ∧
    represents t' (grid_print (size (display t)).1 (size (display t)).2 (color t) c s).
Proof.
  intros ((Hd & Hcol & Hcur & Hsaved) & Hg & Hpos & Hin). destruct t as [d cur col], s as [g p].
  cbn [display cursor color fst snd] in *. subst p. pose proof (size_bounds d Hd). pose proof Hin as [Hx Hy].
  pose proof (grid_print_in_grid d col c (g, pos cur) Hd Hin) as Hin'. unfold print_char. cbn [display cursor color].
  destruct (print_step_correct d cur col c g Hd Hcol Hin) as (d1 & Hrun1 & Hd1 & Hs1 & Hg1).
  rewrite Hrun1, res_bind_ret_l. cbn [fst snd]. set (s1 := grid_put col c (pos cur) g) in *.
  assert (0 ≤ s1.2.1 ∧ 0 ≤ s1.2.2 ∧ ((size d).1 ≤ s1.2.1 → s1.2.2 < (size d).2)) as (Hx1 & Hy1 & Hxy1).
  { unfold s1, grid_put. destruct (c =? 10); [|destruct (find_glyph fonts c)]; cbn [fst snd]; lia. }
  rewrite wrap_step_correct by (rewrite Hs1; cbn [pos with_pos]; lia). rewrite res_bind_ret_l, Hs1. cbn [pos with_pos].
  destruct (scroll_step_correct d1 (with_pos (with_pos cur s1.2) (grid_wrap (size d).1 s1.2)) col s1.1 Hd1 Hcol)
    as (d2 & Hrun2 & Hd2 & Hs2 & Hg2).
  { cbn [pos with_pos]. unfold grid_wrap. case_Z; cbn [fst snd]; lia. }
  cbn [pos with_pos] in *. rewrite Hs1 in *. rewrite Hrun2, res_bind_ret_l. cbn [fst snd].
  eexists. split; [done|]. cbn [display cursor color saved_pos pos with_pos]. split_and!; [done..|].
  assert (∀ p, (grid_print (size d).1 (size d).2 col c (g, pos cur)).2 = p →
    (if (size d).2 <=? (grid_wrap (size d).1 s1.2).2 then (0, (size d).2 - 1) else grid_wrap (size d).1 s1.2) = p) as Hp.
  { intros p <-. unfold grid_print. cbn [fst snd]. fold s1. by case_Z. }
  rewrite (Hp _ eq_refl). unfold represents, terminal_ok, cursor_ok, in_grid in *.
  cbn [display cursor color saved_pos pos with_pos]. rewrite Hs2. split_and!; try done; try lia.
  unfold grid_print. cbn [fst snd]. fold s1. specialize (Hg2 (Hg1 Hg)). by destruct (_ <=? _).
Qed.
End Screen.
