(* ===== verification/TerminalSafety.v ===== *)
(** * Safety of the terminal

    Every operation of Terminal.v is free of undefined behaviour and terminates, in
    every build and for all parameters of escape sequences. *)

From S2P Require Import Prelude Color Lfb Ansi Ports Serial Pit Terminal TerminalScreen.
#[local] Open Scope Z_scope.

Definition u16 (z : Z) : Prop := 0 ≤ z < 2 ^ 16.
Ltac u16_lia := unfold u16, CHAR_WIDTH, CHAR_HEIGHT in *; cbn [fst snd] in *; lia.

Section Safety.
Context `{Profile} `{FontLaws} `{!BlankLaws}.

(** ** Safety

    What holds in every build and for every sequence of bytes: the cursor may leave
    the line, but never the rows of the screen. *)
Definition cursor_safe (d : DisplayState) (cur : CursorState) : Prop :=
  u16 (pos cur).1 ∧ 0 ≤ (pos cur).2 < (size d).2 ∧ u16 (saved_pos cur).1 ∧ u16 (saved_pos cur).2.
Definition terminal_safe (t : LFBTerminal) : Prop :=
  display_ok (display t) ∧ colors_ok (color t) ∧ cursor_safe (display t) (cursor t).

(** A safe operation on the display *)
Definition display_step (d d' : DisplayState) : Prop := display_ok d' ∧ size d' = size d.
Definition state_step (d : DisplayState) (r : DisplayState * CursorState) : Prop :=
  display_step d r.1 ∧ cursor_safe d r.2.

Lemma erases_safe m d col r : erases m d col r → safe m (display_step d).
Proof. intros (d' & -> & Hd' & Hsize & _). by split. Qed.

Lemma finish_safe d l' q v col :
  display_ok d → colors_ok col → same_geometry (lfb (dlfb d)) l' →
  safe (flush_display (with_chars (with_lfb d l') (overwrite q v col (char_buffer d)))) (display_step d).
Proof.
  intros Hd Hcol Hgeo. destruct (finish_ok d l' (overwrite q v col (char_buffer d)) Hd Hgeo)
    as (d' & -> & Hd' & Hsize & _); [apply overwrite_length|apply overwrite_ok; [done|apply Hd]|by split].
Qed.

Lemma cell_index_safe d p : safe (cell_index d p) u16.
Proof.
  unfold cell_index. eapply safe_bind; [by apply safe_arith|]. intros v _. by apply safe_arith.
Qed.

Ltac finish_safely :=
  repeat match goal with
  | |- context [char_buffer (with_lfb ?d ?l)] => change (char_buffer (with_lfb d l)) with (char_buffer d)
  end; by apply finish_safe.

Lemma clear_line_safe d cur col :
  display_ok d → colors_ok col → cursor_safe d cur → safe (clear_line d cur col) (display_step d).
Proof.
  intros Hd Hcol (Hx & Hy & _). pose proof (size_bounds d Hd). pose proof Hcol as (_ & Hbg & _). unfold clear_line.
  rewrite (mul_w_ok 32 (pos cur).2), res_bind_ret_l by u16_lia.
  rewrite (mul_w_ok 32 (size d).1), res_bind_ret_l by u16_lia.
  destruct (fill_cells d 0 (pos cur).2 (size d).1 1 (bg_color col)) as (l' & Hrun & Hl & _); [done|done|lia..|].
  change (0 * CHAR_WIDTH) with 0 in Hrun. change (1 * CHAR_HEIGHT) with CHAR_HEIGHT in Hrun. rewrite Hrun, res_bind_ret_l.
  eapply safe_bind; [by apply safe_arith|]. intros start _. finish_safely.
Qed.

Lemma clear_line_to_cursor_safe d cur col :
  display_ok d → colors_ok col → cursor_safe d cur → safe (clear_line_to_cursor d cur col) (display_step d).
Proof.
  intros Hd Hcol (Hx & Hy & _). pose proof (size_bounds d Hd). pose proof Hcol as (_ & Hbg & _). unfold clear_line_to_cursor.
  rewrite (mul_w_ok 32 (pos cur).2), res_bind_ret_l by u16_lia.
  rewrite (mul_w_ok 32 (pos cur).1), res_bind_ret_l by u16_lia.
  destruct (fill_cells d 0 (pos cur).2 (pos cur).1 1 (bg_color col)) as (l' & Hrun & Hl & _); [done|done|u16_lia..|].
  change (0 * CHAR_WIDTH) with 0 in Hrun. change (1 * CHAR_HEIGHT) with CHAR_HEIGHT in Hrun. rewrite Hrun, res_bind_ret_l.
  eapply safe_bind; [by apply safe_arith|]. intros start _. finish_safely.
Qed.

Lemma clear_line_from_cursor_safe d cur col :
  display_ok d → colors_ok col → cursor_safe d cur → safe (clear_line_from_cursor d cur col) (display_step d).
Proof.
  intros Hd Hcol (Hx & Hy & _). pose proof (size_bounds d Hd). pose proof Hcol as (_ & Hbg & _). unfold clear_line_from_cursor.
  rewrite as_cell_ok, res_bind_ret_l by u16_lia. cbn [fst snd].
  eapply safe_bind; [by apply safe_arith|]. intros rest Hrest.
  rewrite (mul_w_ok 32 rest), res_bind_ret_l by u16_lia.
  destruct (fill_cells d (pos cur).1 (pos cur).2 rest 1 (bg_color col)) as (l' & Hrun & Hl & _); [done|done|u16_lia..|].
  change (1 * CHAR_HEIGHT) with CHAR_HEIGHT in Hrun. rewrite Hrun, res_bind_ret_l.
  eapply safe_bind; [apply cell_index_safe|]. intros index _. finish_safely.
Qed.

Lemma clear_screen_to_cursor_safe d cur col :
  display_ok d → colors_ok col → cursor_safe d cur → safe (clear_screen_to_cursor d cur col) (display_step d).
Proof.
  intros Hd Hcol (Hx & Hy & _). pose proof (size_bounds d Hd). pose proof Hcol as (_ & Hbg & _). unfold clear_screen_to_cursor.
  rewrite (mul_w_ok 32 (pos cur).2), res_bind_ret_l by u16_lia.
  rewrite (mul_w_ok 32 (pos cur).1), res_bind_ret_l by u16_lia.
  destruct (fill_cells d 0 (pos cur).2 (pos cur).1 1 (bg_color col)) as (l1 & Hrun1 & Hl1 & _); [done|done|u16_lia..|].
  change (0 * CHAR_WIDTH) with 0 in Hrun1. change (1 * CHAR_HEIGHT) with CHAR_HEIGHT in Hrun1.
  rewrite Hrun1, res_bind_ret_l. change (size (with_lfb d l1)) with (size d).
  rewrite (mul_w_ok 32 (size d).1), res_bind_ret_l by u16_lia.
  destruct (fill_cells (with_lfb d l1) 0 0 (size d).1 (pos cur).2 (bg_color col)) as (l2 & Hrun2 & Hl2 & _);
    [by apply display_ok_lfb|done|lia..|].
  change (0 * CHAR_WIDTH) with 0 in Hrun2. change (0 * CHAR_HEIGHT) with 0 in Hrun2. rewrite Hrun2, res_bind_ret_l.
  change (with_lfb (with_lfb d l1) l2) with (with_lfb d l2). change (lfb (dlfb (with_lfb d l1))) with l1 in Hl2.
  assert (same_geometry (lfb (dlfb d)) l2) as Hgeo by (by etrans).
  change (char_buffer (with_lfb d l2)) with (char_buffer d).
  destruct (char_buffer d) as [|ch buf] eqn:Hbuf.
  { replace (with_lfb d l2) with (with_chars (with_lfb d l2) (overwrite (fun _ => true) 0 col (char_buffer d)))
      by (unfold with_chars, with_lfb; cbn; by rewrite Hbuf). finish_safely. }
  eapply safe_bind; [apply cell_index_safe|]. intros index _. rewrite <-Hbuf. finish_safely.
Qed.

Lemma clear_screen_from_cursor_safe d cur col :
  display_ok d → colors_ok col → cursor_safe d cur → safe (clear_screen_from_cursor d cur col) (display_step d).
Proof.
  intros Hd Hcol (Hx & Hy & _). pose proof (size_bounds d Hd). pose proof Hcol as (_ & Hbg & _). unfold clear_screen_from_cursor.
  rewrite as_cell_ok, res_bind_ret_l by u16_lia. cbn [fst snd].
  eapply safe_bind; [by apply safe_arith|]. intros rest Hrest.
  rewrite (mul_w_ok 32 rest), res_bind_ret_l by u16_lia.
  destruct (fill_cells d (pos cur).1 (pos cur).2 rest 1 (bg_color col)) as (l1 & Hrun1 & Hl1 & _); [done|done|u16_lia..|].
  change (1 * CHAR_HEIGHT) with CHAR_HEIGHT in Hrun1. rewrite Hrun1, res_bind_ret_l.
  change (size (with_lfb d l1)) with (size d). rewrite (add_w_ok 16 _ 1), res_bind_ret_l by lia.
  rewrite (mul_w_ok 32 ((pos cur).2 + 1)), res_bind_ret_l by u16_lia.
  rewrite (mul_w_ok 32 (size d).1), res_bind_ret_l by u16_lia.
  rewrite (sub_w_ok 16 (size d).2), res_bind_ret_l by lia. rewrite (sub_w_ok 16 _ 1), res_bind_ret_l by lia.
  rewrite (mul_w_ok 32 ((size d).2 - _ - 1)), res_bind_ret_l by u16_lia.
  destruct (fill_cells (with_lfb d l1) 0 ((pos cur).2 + 1) (size d).1 ((size d).2 - (pos cur).2 - 1) (bg_color col))
    as (l2 & Hrun2 & Hl2 & _); [by apply display_ok_lfb|done|lia..|].
  change (0 * CHAR_WIDTH) with 0 in Hrun2. rewrite Hrun2, res_bind_ret_l.
  change (with_lfb (with_lfb d l1) l2) with (with_lfb d l2). change (lfb (dlfb (with_lfb d l1))) with l1 in Hl2.
  assert (same_geometry (lfb (dlfb d)) l2) as Hgeo by (by etrans).
  eapply safe_bind; [apply cell_index_safe|]. intros index _. finish_safely.
Qed.

Lemma position_safe d cur col p :
  display_ok d → colors_ok col → cursor_safe d cur → u16 p.1 → u16 p.2 → safe (position d cur col p) (state_step d).
Proof.
  intros Hd Hcol (_ & _ & Hs1 & Hs2) Hx Hy. pose proof (size_bounds d Hd).
  destruct (position_correct d cur col p Hd Hcol Hy) as (d' & -> & Hd' & Hsize & _).
  split; [by split|]. unfold cursor_safe. cbn. split_and!; done || u16_lia.
Qed.

Lemma handle_tab_safe d cur col :
  display_ok d → colors_ok col → cursor_safe d cur → safe (handle_tab d cur col) (state_step d).
Proof.
  intros Hd Hcol Hcur. pose proof (size_bounds d Hd). pose proof Hcur as (Hx & Hy & _). unfold handle_tab.
  eapply safe_bind; [by apply safe_arith|]. intros next Hnext. case_Z.
  - eapply safe_bind; [by apply safe_arith|]. intros row Hrow. by apply position_safe.
  - apply position_safe; [done..| |cbn [snd]; u16_lia]. cbn [fst]. unfold TAB_SPACES.
    pose proof (Z.div_mod next 8). pose proof (Z.mod_pos_bound next 8). u16_lia.
Qed.

Lemma print_char_at_safe d col c p :
  display_ok d → colors_ok col → u16 p.1 → u16 p.2 →
  safe (print_char_at d col c p) (fun r => display_step d r.1).
Proof.
  intros Hd Hcol Hx Hy. pose proof (print_char_at_correct d col c p Hd Hcol Hx Hy) as Hprint.
  destruct (find_glyph fonts c) as [bitmap|]; [|by rewrite Hprint].
  destruct Hprint as (l1 & l2 & -> & [Hg1 _] & [Hg2 _]). split; [by apply display_ok_drawn|done].
Qed.

Definition cursor_u16 (cur : CursorState) : Prop :=
  u16 (pos cur).1 ∧ u16 (pos cur).2 ∧ u16 (saved_pos cur).1 ∧ u16 (saved_pos cur).2.

Ltac cursor_tac Hsaved :=
  unfold cursor_u16, cursor_safe; cbn [fst snd pos saved_pos with_pos]; split_and!; try apply Hsaved; done || u16_lia.

Lemma set_char_safe d i ch :
  display_ok d → color_ok (ch_fg ch) ∧ color_ok (ch_bg ch) → safe (set_char d i ch) (display_step d).
Proof.
  intros Hd Hch. unfold set_char. destruct (_ && _); [|done]. split; [|done].
  apply display_ok_chars; [done|apply length_insert|]. apply Forall_insert; [apply Hd|done].
Qed.

Lemma print_step_safe d cur col c :
  display_ok d → colors_ok col → cursor_safe d cur →
  safe (print_step d cur col c) (fun r => display_step d r.1 ∧ cursor_u16 r.2).
Proof.
  intros Hd Hcol Hcur. pose proof (size_bounds d Hd). pose proof Hcur as (Hx & Hy & Hsaved). unfold print_step.
  destruct (c =? 10).
  - eapply safe_bind; [by apply clear_line_from_cursor_safe|]. intros d' Hd'.
    eapply safe_bind; [by apply safe_arith|]. intros row Hrow. split; [done|]. cursor_tac Hsaved.
  - eapply safe_bind; [apply print_char_at_safe; done || u16_lia|]. intros [d1 b] [Hd1 Hs1]. cbn [fst snd] in *.
    destruct b; [|split; [by split|]; cursor_tac Hsaved].
    eapply safe_bind; [apply cell_index_safe|]. intros index _.
    eapply safe_bind; [apply set_char_safe; [done|split; [apply Hcol|by destruct Hcol as (_ & ? & _)]]|]. intros d2 [Hd2 Hs2].
    eapply safe_bind; [by apply safe_arith|]. intros x Hx'. split; [split; [done|cbn [fst]; congruence]|].
    cursor_tac Hsaved.
Qed.

Lemma print_char_safe t c : terminal_safe t → safe (print_char t c) terminal_safe.
Proof.
  intros (Hd & Hcol & Hcur). destruct t as [d cur col]. unfold print_char. cbn [display cursor color] in *.
  eapply safe_bind; [by apply print_step_safe|]. intros [d1 cur1] [[Hd1 Hs1] Hcur1]. cbn [fst snd] in *.
  apply safe_bind with cursor_u16.
  { unfold wrap_step. destruct Hcur1 as (Hx & Hy & Hsaved). case_Z; [|cursor_tac Hsaved].
    eapply safe_bind; [by apply safe_arith|]. intros row Hrow. cursor_tac Hsaved. }
  intros cur2 (Hx & Hy & Hsaved). pose proof (size_bounds d1 Hd1) as Hsz.
  apply safe_bind with (fun r => display_ok r.1 ∧ cursor_safe r.1 r.2).
  { unfold scroll_step. case_Z; [|split; [done|]; cursor_tac Hsaved].
    destruct (scroll_up_correct d1 col Hd1 Hcol) as (d2 & -> & Hd2 & Hs2 & _). rewrite res_bind_ret_l, Hs2.
    rewrite sub_w_ok, res_bind_ret_l by lia.
    eapply safe_bind; [apply print_char_at_safe; [done..|u16_lia|u16_lia]|]. intros [d3 b] [Hd3 Hs3]. cbn [fst snd] in *.
    split; [done|]. unfold cursor_safe. cbn [fst snd]. rewrite Hs3, Hs2. cursor_tac Hsaved. }
  intros [d3 cur3] [Hd3 Hcur3]. by split_and!.
Qed.

(** Parameters are 16-bit numbers. *)
Definition params_ok (params : Params) : Prop := Forall (Forall u16) params.
Definition action_ok (a : action) : Prop := match a with CsiDispatch params _ => params_ok params | _ => True end.

Lemma param0_safe param : Forall u16 param → safe (param0 param) u16.
Proof. intros Hp. destruct param as [|v param]; [done|]. by apply Forall_cons in Hp as [Hv _]. Qed.

Lemma with_param_safe params k m Q :
  params_ok params → (∀ v, u16 v → safe (k v) Q) → safe m Q → safe (with_param params k m) Q.
Proof.
  intros Hp Hk Hm. unfold with_param. destruct params as [|param params]; cbn [next]; [done|].
  apply Forall_cons in Hp as [Hparam _]. eapply safe_bind; [by apply param0_safe|done].
Qed.

Lemma below_safe v bound : u16 v → safe (below v bound) u16.
Proof. intros Hv. unfold below. case_Z; [done|]. by apply safe_arith. Qed.
Lemma not_above_safe v bound : u16 v → safe (not_above v bound) u16.
Proof. intros Hv. unfold not_above. case_Z; [|done]. by apply safe_arith. Qed.

Ltac safe_steps :=
  repeat match goal with
  | |- safe (arith _ _ _ ≫= _) _ => eapply safe_bind; [by apply safe_arith|intros ? ?]
  | |- safe (add_w _ _ _ ≫= _) _ => eapply safe_bind; [by apply safe_arith|intros ? ?]
  | |- safe (sub_w _ _ _ ≫= _) _ => eapply safe_bind; [by apply safe_arith|intros ? ?]
  | |- safe (below _ _ ≫= _) _ => eapply safe_bind; [by apply below_safe|intros ? ?]
  | |- safe (not_above _ _ ≫= _) _ => eapply safe_bind; [by apply not_above_safe|intros ? ?]
  | Hp : Forall u16 ?p |- safe (param0 ?p ≫= _) _ => eapply safe_bind; [by apply param0_safe|intros ? ?]
  end.

Lemma cursor_sequence_safe d cur col code params :
  display_ok d → colors_ok col → cursor_safe d cur → params_ok params →
  safe (handle_ansi_cursor_sequence d cur col code params) (state_step d).
Proof.
  intros Hd Hcol Hcur Hp. pose proof (size_bounds d Hd) as Hsz. pose proof Hcur as (Hx & Hy & Hsx & Hsy).
  assert (safe (Done (d, cur)) (state_step d)) as Hstay by done.
  unfold handle_ansi_cursor_sequence.
  repeat match goal with |- safe (if ?b then _ else _) _ => destruct b end;
    try (apply with_param_safe; [done| |done]; intros v Hv; safe_steps;
         apply position_safe; [done..| |]; cbn [fst snd]; try case_Z; done || u16_lia); try done.
  - destruct params as [|p1 [|p2 params]]; [apply position_safe; done || u16_lia..|].
    apply Forall_cons in Hp as [Hp1 Hp]. apply Forall_cons in Hp as [Hp2 _].
    safe_steps. by apply position_safe.
  - unfold state_step. split; [done|]. unfold cursor_safe. cbn [pos saved_pos snd]. split_and!; done || u16_lia.
  - by apply position_safe.
Qed.

Lemma keep_safe d cur (m : res DisplayState) :
  cursor_safe d cur → safe m (display_step d) → safe (d' ← m; Done (d', cur)) (state_step d).
Proof. intros Hcur Hm. eapply safe_bind; [done|]. intros d' Hd'. by split. Qed.

Lemma erase_sequence_safe d cur col code params :
  display_ok d → colors_ok col → cursor_safe d cur → params_ok params →
  safe (handle_ansi_erase_sequence d cur col code params) (state_step d).
Proof.
  intros Hd Hcol Hcur Hp. unfold handle_ansi_erase_sequence.
  apply safe_bind with u16.
  { destruct params as [|param params]; cbn [next]; [done|]. apply Forall_cons in Hp as [Hparam _]. by apply param0_safe. }
  intros n _. repeat match goal with |- safe (if ?b then _ else _) _ => destruct b end; try done;
    try (apply keep_safe; [done|]).
  - by apply clear_screen_from_cursor_safe.
  - by apply clear_screen_to_cursor_safe.
  - eapply safe_bind; [eapply erases_safe; by apply clear_screen_erases|]. intros d' [Hd' Hsize].
    apply safe_weaken with (state_step d').
    + apply position_safe; [done|done| |done..]. unfold cursor_safe. by rewrite Hsize.
    + intros r [[Hr1 Hr2] Hr3]. split; [split; [done|congruence]|]. unfold cursor_safe in *. by rewrite <-Hsize.
  - by apply clear_line_from_cursor_safe.
  - by apply clear_line_to_cursor_safe.
  - by apply clear_line_safe.
Qed.

(** ** Colors *)

(** What parsing a color leaves: a valid color, and not more parameters. *)
Definition color_result (n : nat) (r : option Color * Params) : Prop :=
  from_option color_ok True r.1 ∧ params_ok r.2 ∧ (length r.2 ≤ n)%nat.

Lemma next_value_safe n iter k :
  params_ok iter → (length iter ≤ n)%nat →
  (∀ v iter', u16 v → params_ok iter' → (length iter' ≤ n)%nat → safe (k v iter') (color_result n)) →
  safe (next_value iter k) (color_result n).
Proof.
  intros Hp Hn Hk. unfold next_value. destruct iter as [|param iter]; cbn [next]; [by split_and!|].
  apply Forall_cons in Hp as [Hparam Hp]. cbn in Hn.
  eapply safe_bind; [by apply param0_safe|]. intros v Hv. apply Hk; [done..|lia].
Qed.

Lemma parse_complex_color_safe n iter :
  params_ok iter → (length iter ≤ n)%nat → safe (parse_complex_color iter) (color_result n).
Proof.
  intros Hp Hn. unfold parse_complex_color. apply next_value_safe; [done..|]. intros mode i0 _ Hp0 Hn0.
  destruct (mode =? 2); [|destruct (mode =? 5); [|done]].
  - apply next_value_safe; [done..|]. intros r i1 _ Hp1 Hn1. apply next_value_safe; [done..|]. intros g i2 _ Hp2 Hn2.
    apply next_value_safe; [done..|]. intros b i3 _ Hp3 Hn3. split; [|done]. cbn. unfold color_ok, byte. cbn.
    split_and!; try apply (wrap_range 8); lia.
  - apply next_value_safe; [done..|]. intros i i1 Hi Hp1 Hn1. case_Z; [|done].
    rewrite color_table_lookup by u16_lia. cbn [expect]. rewrite res_bind_ret_l. split; [|done]. cbn [fst from_option].
    eapply Forall_lookup_1; [apply color_table_ok|apply (color_table_lookup i); u16_lia].
Qed.

Lemma basic_color_ok c : c ∈ [BLACK; RED; GREEN; YELLOW; BLUE; MAGENTA; CYAN; WHITE] → color_ok c.
Proof.
  intros Hc. eapply Forall_forall in Hc; [exact Hc|]. repeat (apply Forall_cons_2; [unfold color_ok, byte; cbn; lia|]).
  apply Forall_nil_2.
Qed.

Lemma ansi_color_safe n code iter :
  params_ok iter → (length iter ≤ n)%nat → safe (ansi_color code iter) (color_result n).
Proof.
  intros Hp Hn. unfold ansi_color.
  repeat match goal with |- safe (if ?b then _ else _) _ => destruct b end;
    try (split; [apply basic_color_ok; set_solver|done]); [by apply parse_complex_color_safe|done].
Qed.

Lemma rendition_ok c code : colors_ok c → colors_ok (handle_ansi_graphic_rendition c code).
Proof.
  intros Hc. destruct c. unfold handle_ansi_graphic_rendition. repeat case_Z; try exact Hc.
  unfold colors_ok. cbn. split_and!; apply basic_color_ok; set_solver.
Qed.

Lemma set_fg_ok c b col : colors_ok c → from_option color_ok True col → colors_ok (set_fg c b col).
Proof. intros (H1' & H2' & H3' & H4') Hcol. destruct c, col; by split_and!. Qed.
Lemma set_bg_ok c b col : colors_ok c → from_option color_ok True col → colors_ok (set_bg c b col).
Proof. intros (H1' & H2' & H3' & H4') Hcol. destruct c, col; by split_and!. Qed.

Lemma bright_ok c : color_ok c → color_ok (Color.bright c).
Proof. unfold color_ok, byte, Color.bright, BRIGHTNESS_SHIFT. cbn. intros. repeat case_Z; lia. Qed.
Lemma dim_ok c : color_ok c → color_ok (Color.dim c).
Proof. unfold color_ok, byte, Color.dim, BRIGHTNESS_SHIFT. cbn. intros. repeat case_Z; lia. Qed.

Lemma effective_colors_ok c : colors_ok c → colors_ok (effective_colors c).
Proof.
  intros (H1' & H2' & H3' & H4'). destruct c as [fg bg fgb bgb fgbr bgbr inv br di]. unfold effective_colors, colors_ok. cbn in *.
  destruct inv, (br || fgbr), di, bgbr; split_and!; auto using bright_ok, dim_ok.
Qed.

Lemma color_code_safe n c code iter :
  colors_ok c → params_ok iter → (length iter ≤ n)%nat →
  safe (color_code c code iter) (fun r => colors_ok r.1 ∧ params_ok r.2 ∧ (length r.2 ≤ n)%nat).
Proof.
  intros Hc Hp Hn. unfold color_code.
  repeat match goal with |- safe (if ?b then _ else _) _ => destruct b end;
    try (eapply safe_bind; [by apply (ansi_color_safe n)|]; intros r (Hr & Hp' & Hn'));
    split; cbn [fst snd]; auto using rendition_ok, set_fg_ok, set_bg_ok.
Qed.

(** One round per parameter is enough fuel. *)
Lemma color_loop_safe fuel : ∀ c iter,
  colors_ok c → params_ok iter → (length iter ≤ fuel)%nat → safe (color_loop fuel c iter) colors_ok.
Proof.
  induction fuel as [|fuel IH]; intros c [|param iter] Hc Hp Hn; cbn [color_loop next]; try done; cbn in Hn; [lia|].
  apply Forall_cons in Hp as [Hparam Hp]. eapply safe_bind; [by apply param0_safe|]. intros code _.
  eapply safe_bind; [apply (color_code_safe fuel); [done|done|lia]|]. intros [c' iter'] (Hc' & Hp' & Hn'). by apply IH.
Qed.

Lemma handle_ansi_color_safe c params : colors_ok c → params_ok params → safe (handle_ansi_color c params) colors_ok.
Proof.
  intros Hc Hp. unfold handle_ansi_color. eapply safe_bind; [by apply color_loop_safe|].
  intros c' Hc'. by apply effective_colors_ok.
Qed.

Lemma csi_dispatch_safe t params code :
  terminal_safe t → params_ok params → safe (csi_dispatch t params code) terminal_safe.
Proof.
  intros (Hd & Hcol & Hcur) Hp. unfold csi_dispatch, on_screen_state.
  assert (∀ m, safe m (state_step (display t)) →
    safe (r ← m; Done (mkTerminal r.1 r.2 (color t))) terminal_safe) as Hstate.
  { intros m Hm. eapply safe_bind; [done|]. intros r [[Hd' Hsize] Hcur']. split; [done|]. split; [done|].
    unfold cursor_safe in *. cbn. by rewrite Hsize. }
  repeat match goal with |- safe (if ?b then _ else _) _ => destruct b end.
  - apply Hstate. by apply cursor_sequence_safe.
  - apply Hstate. by apply erase_sequence_safe.
  - eapply safe_bind; [by apply handle_ansi_color_safe|]. intros c Hc. by split.
  - by split.
Qed.
End Safety.

(** ** The parser *)
Section Parser.
Context `{Profile} `{FontLaws} `{!BlankLaws} `{Device} `{ParserOps}.

(** The parser reports 16-bit parameters; between escape sequences it passes
    printable characters and newlines on one by one. *)
Class ParserLaws := {
  ground : parser → Prop;
  ground_new : ground parser_new;
  advance_ok p b : Forall action_ok (advance p b).1;
  advance_text p b : ground p → 0x20 ≤ b < 0x7f → (advance p b).1 = [Print b] ∧ ground (advance p b).2;
  advance_newline p : ground p → (advance p 0x0a).1 = [Execute 0x0a] ∧ ground (advance p 0x0a).2;
}.
Context `{!ParserLaws}.

(** The system timer advances far enough for the two tones of the bell. *)
Definition readings_ok (r : list Z * list Z) : Prop := wait 250 r.1 = Done tt ∧ wait 250 r.2 = Done tt.

Lemma lift_safe {A} (m : res A) dv Q : safe m Q → safe (lift m dv) (fun r => Q r.1).
Proof. by destruct m. Qed.

Lemma handle_bell_done readings dv : readings_ok readings → ∃ dv', handle_bell readings dv = Done (tt, dv').
Proof.
  intros [H1' H2']. unfold handle_bell, io_bind, speaker_play, speaker_on, io_bind, write, read, div_w.
  cbn -[wait]. rewrite H1'. cbn -[wait]. rewrite H2'. cbn. eauto.
Qed.

Lemma perform_safe readings a t dv :
  terminal_safe t → action_ok a → readings_ok readings → safe (perform readings a t dv) (fun r => terminal_safe r.1).
Proof.
  intros Ht Ha Hr. destruct a as [c|byte|params code|]; cbn [perform].
  - by apply lift_safe, print_char_safe.
  - unfold execute. repeat match goal with |- safe ((if ?b then _ else _) _) _ => destruct b end; [| | |done].
    + unfold io_bind. destruct (handle_bell_done readings dv Hr) as [dv' ->]. done.
    + apply lift_safe. destruct Ht as (Hd & Hcol & Hcur). unfold on_screen_state.
      eapply safe_bind; [by apply handle_tab_safe|]. intros r [[Hd' Hsize] Hcur']. split; [done|]. split; [done|].
      unfold cursor_safe in *. cbn. by rewrite Hsize.
    + by apply lift_safe, print_char_safe.
  - by apply lift_safe, csi_dispatch_safe.
  - done.
Qed.

Lemma perform_all_safe readings l : ∀ t dv,
  terminal_safe t → Forall action_ok l → readings_ok readings →
  safe (perform_all readings l t dv) (fun r => terminal_safe r.1).
Proof.
  induction l as [|a l IH]; intros t dv Ht Hl Hr; cbn [perform_all]; [done|]. apply Forall_cons in Hl as [Ha Hl].
  unfold io_bind at 1. eapply safe_bind; [by apply perform_safe|]. intros [t' dv'] Ht'. by apply IH.
Qed.

(** C21: memory safety of the terminal.  Whatever bytes are written to it, in every
    build, it never accesses memory outside of the framebuffer or the character
    buffer and every loop ends; it may only panic, and otherwise it stays in a
    well-formed state, with the cursor in a row of the screen. *)
Theorem write_str_safe bytes : ∀ readings t p dv,
  terminal_safe t → (∀ i, readings_ok (readings i)) →
  safe (write_str readings bytes t p dv) (fun r => terminal_safe r.1.1).
Proof.
  unfold write_str. induction bytes as [|b bytes IH]; intros readings t p dv Ht Hr; cbn [write_bytes]; [done|].
  unfold io_bind at 1. eapply safe_bind; [apply perform_all_safe; [done|apply advance_ok|done]|].
  intros [t' dv'] Ht'. by apply IH.
Qed.

End Parser.
