(* ===== verification/TerminalText.v ===== *)
(** * Text and escape sequences on the terminal

    The effect of text, of the erasing and positioning sequences and of colors on
    the abstract grid of TerminalScreen.v. *)

From S2P Require Import Prelude Color Lfb Ansi Ports Serial Pit Terminal TerminalScreen TerminalSafety.
#[local] Open Scope Z_scope.

(** ** Text *)
Section Text.
Context `{Profile} `{FontLaws} `{!BlankLaws} `{Device} `{ParserOps} `{!ParserLaws}.

(** C19: text on the screen.  Writing printable characters and newlines does to the
    grid of characters exactly what printing them one after the other does -
    wrapping at the last column, clearing the rest of the line at a newline and
    scrolling behind the last row - and afterwards both the back buffer and the
    screen show, pixel by pixel, the glyphs of the grid in their colors. *)
Theorem write_str_text bytes : ∀ readings t p s dv,
  represents t s → ground p → Forall (fun b => 0x20 ≤ b < 0x7f ∨ b = 0x0a) bytes →
  let w := (size (display t)).1 in
  let h := (size (display t)).2 in
  ∃ t' p', write_str readings bytes t p dv = Done ((t', p'), dv) ∧ ground p' ∧ color t' = color t ∧
    size (display t') = (w, h) ∧ represents t' (fold_left (fun s c => grid_print w h (color t) c s) bytes s).
Proof.
  unfold write_str. induction bytes as [|b bytes IH]; intros readings t p s dv Ht Hp Hb; cbn [write_bytes fold_left].
  { exists t, p. split_and!; try done. by destruct (size _). }
  apply Forall_cons in Hb as [Hb Hbytes].
  destruct (print_char_result t b s Ht) as (t1 & Hrun1 & Hs1 & Hc1 & _ & Ht1).
  assert (ground (advance p b).2 ∧ perform_all (readings 0%nat) (advance p b).1 t dv = Done (t1, dv)) as [Hp1 Hrun].
  { destruct Hb as [Hb | ->].
    - destruct (advance_text p b Hp Hb) as [-> Hp']. cbn. unfold io_bind, lift. by rewrite Hrun1.
    - destruct (advance_newline p Hp) as [-> Hp']. cbn -[print_char]. unfold io_bind, lift. by rewrite Hrun1. }
  unfold io_bind at 1. rewrite Hrun, res_bind_ret_l. cbn [fst snd].
  destruct (IH (fun i => readings (S i)) t1 _ _ dv Ht1 Hp1 Hbytes) as (t' & p' & Hrun' & Hp' & Hc' & Hs' & Ht').
  rewrite Hs1, Hc1 in *. exists t', p'. split_and!; done || congruence.
Qed.
End Text.

(** ** The initial state *)
Section Initial.
Context `{Profile} `{FontLaws} `{!BlankLaws}.

Lemma rgb_black l px py : lfb_ok l → pixel l px py = 0 → rgb (pixel l px py) = rgb (packed (bpp l) BLACK).
Proof.
  intros (Hbpp & _) ->. repeat (apply elem_of_cons in Hbpp as [->|Hbpp]; [reflexivity|]). by apply elem_of_nil in Hbpp.
Qed.

(** A terminal starts with spaces on a black screen. *)
Lemma terminal_new_result capacity memory target :
  let w := width target / CHAR_WIDTH in
  let h := height target / CHAR_HEIGHT in
  lfb_ok target → 0 < w → 0 < h → w * h < 2 ^ 16 → CHARACTER_SIZE * (w * h) ≤ capacity →
  ∃ t, terminal_new capacity memory target = Done t ∧ size (display t) = (w, h) ∧ color t = color_new ∧
    saved_pos (cursor t) = (0, 0) ∧ represents t (fun _ _ => mkCharacter 32 WHITE BLACK, (0, 0)).
Proof.
  intros w h Hok Hw Hh Hwh Hcap. unfold terminal_new, display_new.
  set (b := buffered_new memory target).
  assert (lfb_ok (lfb b)) as Hb by done.
  destruct (clear_result (lfb b) Hb) as (l & Hrun & Hgeo & Hzero). rewrite Hrun, res_bind_ret_l.
  assert (buffered_ok (mkBuffered l (target_lfb b))) as Hbuf by (apply (buffered_with b); [split; done|done]).
  destruct (flush_result _ Hbuf) as (b' & Hrun' & Hb' & Hl & Hpix). rewrite Hrun', !res_bind_ret_l. cbn [lfb] in Hl, Hpix.
  unfold w, h. rewrite !wrap_small by nia. fold w h. set (d := mkDisplay _ _ _).
  assert (∀ n : nat, Forall (fun ch => color_ok (ch_fg ch) ∧ color_ok (ch_bg ch)) (replicate n (mkCharacter 32 WHITE BLACK))) as Hcol.
  { intros n. induction n; constructor; [|done]. split; apply basic_color_ok; set_solver. }
  unfold CHARACTER_SIZE in Hcap.
  assert (display_ok d) as Hd.
  { unfold display_ok. cbn. rewrite Hl. destruct Hgeo as (_ & -> & -> & _). rewrite length_replicate. cbn.
    assert (CHAR_WIDTH * w ≤ width target) by (by apply Z.mul_div_le).
    assert (CHAR_HEIGHT * h ≤ height target) by (by apply Z.mul_div_le).
    assert (0 < w * h) by nia. split_and!; done || lia. }
  eexists. split; [done|]. split; [done|]. split; [done|]. split; [done|]. unfold represents. cbn [display cursor color fst snd pos cursor_new].
  assert (in_grid d 0 0) as Hin by (split; cbn; lia).
  split_and!; try done.
  - unfold terminal_ok, cursor_ok. cbn. split_and!; done || lia.
  - intros x y Hin'. pose proof (in_grid_index d x y Hd Hin') as Hi. cbn [size fst snd d] in Hi.
    assert (displays l x y (mkCharacter 32 WHITE BLACK)) as Hdis.
    { intros px py [Hx Hy]%in_cell. pose proof (grid_pixel_on_screen d x y px py Hd Hin' Hx Hy) as Hon.
      cbn [dlfb d] in Hon. rewrite Hl in Hon. rewrite cell_color_blank by (by right). cbn [ch_bg].
      apply rgb_black; [by apply (same_geometry_ok _ _ Hgeo)|]. apply Hzero.
      by apply (same_geometry_on_screen _ _ _ _ Hgeo). }
    cbn [char_buffer dlfb d]. rewrite Hl. split_and!; [|done|].
    + apply lookup_replicate. split; [done|]. cbn in Hi. lia.
    + apply (displays_flushed d l); [done|done|by cbn; rewrite Hl| |done|done]. rewrite <-Hl. apply Hb'.
Qed.
End Initial.

(** ** Erasing *)
Section Erasing.
Context `{Profile} `{FontLaws} `{!BlankLaws}.

(** The region that an erasing sequence stands for. *)
Definition erase_region (code n : Z) (p : Z * Z) : option (Z → Z → bool) :=
  if code =? 0x4a then
    if n =? 0 then Some (from_cursor p) else if n =? 1 then Some (before_cursor p)
    else if n =? 2 then Some whole_screen else None
  else if code =? 0x4b then
    if n =? 0 then Some (line_from_cursor p) else if n =? 1 then Some (line_before_cursor p) else None
  else None.

(** A missing parameter is zero. *)
Definition first_param (params : Params) (n : Z) : Prop :=
  params = [] ∧ n = 0 ∨ ∃ sub rest, params = (n :: sub) :: rest.

Lemma first_param_value params n :
  first_param params n →
  (match next params with (Some param, _) => param0 param | (None, _) => Done 0 end) = Done n.
Proof. by intros [[-> ->]|(sub & rest & ->)]. Qed.

(** C33: erasing.  The sequences J with 0, 1, 2 or no parameter and K with 0, 1 or no
    parameter erase exactly their region of the grid in the current colors, in the
    character buffer, in the back buffer and on the screen; J 2 also moves the
    cursor to the origin.  (K with 2 is not among them, see [clear_line_writes_a].) *)
Theorem csi_erase t params code n r g :
  terminal_ok t → shows (display t) g → first_param params n → erase_region code n (pos (cursor t)) = Some r →
  ∃ t', csi_dispatch t params code = Done t' ∧ terminal_ok t' ∧ color t' = color t ∧
    shows (display t') (grid_clear r (blank (color t)) g) ∧
    pos (cursor t') = if (code =? 0x4a) && (n =? 2) then (0, 0) else pos (cursor t).
Proof.
  intros (Hd & Hcol & Hcur & Hsaved) Hg Hn Hr. pose proof (size_bounds _ Hd) as Hsz.
  assert (∀ m, erases m (display t) (color t) r → ∃ t', (r' ← (d ← m; Done (d, cursor t));
    Done (mkTerminal r'.1 r'.2 (color t))) = Done t' ∧ terminal_ok t' ∧ color t' = color t ∧
    shows (display t') (grid_clear r (blank (color t)) g) ∧ pos (cursor t') = pos (cursor t)) as Hkeep.
  { intros m (d' & -> & Hd' & Hsize & Hshows). eexists. split; [done|]. unfold terminal_ok, cursor_ok.
    cbn. rewrite Hsize. by split_and!; try done; apply Hshows || apply Hcur || apply Hsaved. }
  assert (code = 0x4a ∨ code = 0x4b) as Hcode.
  { unfold erase_region in Hr. destruct (Z.eqb_spec code 0x4a); [by left|]. destruct (Z.eqb_spec code 0x4b); [by right|done]. }
  assert (csi_dispatch t params code = on_screen_state t
    (fun d cur col => handle_ansi_erase_sequence d cur col code params)) as -> by (by destruct Hcode as [-> | ->]).
  unfold on_screen_state, handle_ansi_erase_sequence. rewrite (first_param_value _ _ Hn), res_bind_ret_l.
  unfold erase_region in Hr. destruct (Z.eqb_spec code 0x4a) as [->|]; [|destruct (Z.eqb_spec code 0x4b) as [->|]; [|done]];
    destruct (Z.eqb_spec n 0) as [->|]; try destruct (Z.eqb_spec n 1) as [->|]; try destruct (Z.eqb_spec n 2) as [->|];
    try done; injection Hr as <-; cbn [andb Z.eqb Pos.eqb].
  - by apply Hkeep, clear_screen_from_cursor_erases.
  - by apply Hkeep, clear_screen_to_cursor_erases.
  - destruct (clear_screen_erases _ _ Hd Hcol) as (d' & -> & Hd' & Hsize & Hshows). rewrite res_bind_ret_l.
    rewrite position_in_grid, res_bind_ret_l by (rewrite Hsize; cbn; lia). cbn [fst snd].
    eexists. split; [done|]. unfold terminal_ok, cursor_ok. cbn. rewrite Hsize.
    split_and!; try done; try lia; try apply Hsaved. by apply Hshows.
  - by apply Hkeep, clear_line_from_cursor_erases.
  - by apply Hkeep, clear_line_to_cursor_erases.
Qed.
End Erasing.

(** ** Moving the cursor *)
Section Moving.
Context `{Profile} `{FontLaws} `{!BlankLaws}.

(** Where the sequences A to G move the cursor on [w] x [h] cells; [None] if the
    16-bit computation of the new position overflows. *)
Definition move_target (code n w h : Z) (p : Z * Z) : option (Z * Z) :=
  let m := at_least_one n in
  if code =? 0x41 then if m <=? p.2 then Some (p.1, p.2 - m) else None
  else if code =? 0x42 then if p.2 + m <? 2 ^ 16 then Some (p.1, Z.min (p.2 + m) (h - 1)) else None
  else if code =? 0x43 then if p.1 + m <? 2 ^ 16 then Some (Z.min (p.1 + m) (w - 1), p.2) else None
  else if code =? 0x44 then if m <=? p.1 then Some (p.1 - m, p.2) else None
  else if code =? 0x45 then if p.2 + n + 1 <? 2 ^ 16 then Some (0, Z.min (p.2 + n + 1) (h - 1)) else None
  else if code =? 0x46 then if n + 1 <=? p.2 then Some (0, p.2 - n - 1) else None
  else if code =? 0x47 then Some (Z.min n (w - 1), p.2)
  else None.

Lemma below_ok v bound : 0 < bound < 2 ^ 16 → below v bound = Done (Z.min v (bound - 1)).
Proof.
  intros Hb. unfold below. case_Z; [by rewrite Z.min_l by lia|]. rewrite sub_w_ok by lia. by rewrite Z.min_r by lia.
Qed.

Lemma clamp_zero v : 0 ≤ v → (if 0 <? v then v else 0) = v.
Proof. intros Hv. case_Z; lia. Qed.

(** Both outcomes of a step of 16-bit arithmetic *)
Lemma arith_cases w z msg :
  (0 ≤ z < 2 ^ w ∧ arith w z msg = Done z) ∨
  (¬ 0 ≤ z < 2 ^ w ∧ arith w z msg = if overflow_checks then Panic msg else Done (wrap w z)).
Proof.
  destruct (in_width w z) eqn:E.
  - left. apply in_width_spec in E. split; [done|by apply arith_ok].
  - right. split; [rewrite <-in_width_spec; congruence|]. apply arith_overflow. rewrite <-in_width_spec. congruence.
Qed.

(** Moving inside of the grid does not touch the display. *)
Definition moved (t : LFBTerminal) (p : Z * Z) : LFBTerminal :=
  mkTerminal (display t) (with_pos (cursor t) p) (color t).

Lemma moves_to t p d cur col :
  d = display t → cur = cursor t → col = color t → p.2 < (size d).2 →
  (r ← position d cur col p; Done (mkTerminal r.1 r.2 (color t))) = Done (moved t p).
Proof. intros -> -> -> Hp. by rewrite position_in_grid, res_bind_ret_l. Qed.

(** Executes the steps of a move, and finds the one that overflows. *)
Ltac move_steps :=
  repeat first [rewrite add_w_ok by lia|rewrite sub_w_ok by lia|rewrite below_ok by lia|rewrite clamp_zero by lia
               |rewrite res_bind_ret_l].
Ltac move_overflow Hov :=
  unfold add_w, sub_w;
  repeat match goal with
  | |- context [arith ?w ?z ?msg ≫= _] =>
      destruct (arith_cases w z msg) as [[? ->]|[? ->]]; [try (exfalso; lia); rewrite res_bind_ret_l|]
  end; (destruct overflow_checks; [eexists; reflexivity|done]).

(** C34: moving the cursor.  With a parameter [n], the sequences A to D move the
    cursor up, down, right and left by [n] cells, but at least by one, E and F to
    the start of a line below or above, G to a column; down, right and G stop at the
    last row or column.  Moving up or left beyond the edge, where the source means to
    stop at 0, underflows: the kernel panics in the development profile. *)
Theorem csi_move t code n sub rest :
  terminal_ok t → u16 n → 0x41 ≤ code ≤ 0x47 →
  match move_target code n (size (display t)).1 (size (display t)).2 (pos (cursor t)) with
  | Some p => csi_dispatch t ((n :: sub) :: rest) code = Done (moved t p) ∧ terminal_ok (moved t p)
  | None => overflow_checks → ∃ msg, csi_dispatch t ((n :: sub) :: rest) code = Panic msg
  end.
Proof.
  intros (Hd & Hcol & Hcur & Hsaved) Hn Hcode. pose proof (size_bounds _ Hd) as [Hw Hh].
  pose proof Hcur as [Hx Hy]. unfold u16 in Hn.
  assert (∀ p, cursor_ok (display t) p → terminal_ok (moved t p)) as Hok by (intros p Hp; by split_and!; try apply Hsaved; try apply Hp).
  assert (1 ≤ at_least_one n < 2 ^ 16) as Hm by (unfold at_least_one; case_Z; lia).
  assert (csi_dispatch t ((n :: sub) :: rest) code = on_screen_state t
    (fun d cur col => handle_ansi_cursor_sequence d cur col code ((n :: sub) :: rest))) as ->.
  { unfold csi_dispatch. rewrite (proj2 (Z.leb_le 0x41 code)), (proj2 (Z.leb_le code 0x48)) by lia. done. }
  unfold on_screen_state, handle_ansi_cursor_sequence, with_param, move_target. cbn [next param0 expect lookup list_lookup].
  assert (code = 0x41 ∨ code = 0x42 ∨ code = 0x43 ∨ code = 0x44 ∨ code = 0x45 ∨ code = 0x46 ∨ code = 0x47) as Hcodes by lia.
  repeat destruct Hcodes as [-> | Hcodes]; [..|subst code]; cbn [Z.eqb Pos.eqb]; rewrite ?res_bind_ret_l.
  1-6: case_Z; [split; [move_steps; apply moves_to; cbn [snd]; done || lia|apply Hok; split; cbn [fst snd]; lia]|].
  1-6: intros Hov; move_overflow Hov.
  split; [move_steps; apply moves_to; cbn [snd]; done || lia|apply Hok; split; cbn [fst snd]; lia].
Qed.
End Moving.

(** ** Setting the position *)
Section Positioning.
Context `{Profile} `{FontLaws} `{!BlankLaws}.

(** The sequences H and f take the column first and count from 0, unlike the
    standard that they implement.  Positions beyond the size are clamped, but the
    comparisons are off by one: the column behind the last one is accepted, and the
    row behind the last one scrolls the screen. *)
Lemma csi_position t c sub r sub' rest g :
  terminal_ok t → shows (display t) g → u16 c → u16 r →
  let w := (size (display t)).1 in
  let h := (size (display t)).2 in
  ∃ t', csi_dispatch t ((c :: sub) :: (r :: sub') :: rest) 0x48 = Done t' ∧ terminal_ok t' ∧
    pos (cursor t') = (if w <? c then w - 1 else c, if h <=? r then h - 1 else r) ∧
    shows (display t') (if r =? h then grid_scroll h (blank (color t)) g else g).
Proof.
  intros (Hd & Hcol & Hcur & Hsaved) Hg Hc Hr w h. pose proof (size_bounds _ Hd) as [Hw Hh]. unfold u16 in *. fold w h in Hw, Hh.
  change (csi_dispatch _ _ _) with (on_screen_state t (fun d cur col =>
    column ← not_above c w; row ← not_above r h; position d cur col (column, row))).
  unfold on_screen_state, not_above. cbn [param0 expect lookup list_lookup].
  assert ((if w <? c then sub_w 16 w 1 else Done c) = Done (if w <? c then w - 1 else c)) as ->
    by (case_Z; [by rewrite sub_w_ok by lia|done]).
  assert ((if h <? r then sub_w 16 h 1 else Done r) = Done (if h <? r then h - 1 else r)) as ->
    by (case_Z; [by rewrite sub_w_ok by lia|done]).
  rewrite !res_bind_ret_l. set (p := (_, _)).
  destruct (position_correct (display t) (cursor t) (color t) p Hd Hcol) as (d' & Hrun & Hd' & Hsize & Hshows).
  { cbn. case_Z; lia. }
  rewrite Hrun, res_bind_ret_l. cbn [fst snd] in *. eexists. split; [done|].
  assert (Z.min p.2 (h - 1) = if h <=? r then h - 1 else r) as Hrow by (cbn; destruct (Z.leb_spec h r), (Z.ltb_spec h r); lia).
  fold h in Hrow, Hshows. unfold terminal_ok, cursor_ok. cbn [display cursor color pos saved_pos with_pos fst snd].
  fold h. rewrite Hrow, Hsize. fold w h. split_and!; try done; try apply Hsaved;
    try (cbn [p fst]; repeat case_Z; lia).
  apply Hshows in Hg. rewrite Hrow in Hg. unfold p in Hg. cbn [snd] in Hg.
  destruct (Z.eqb_spec r h) as [->|Hne].
  - rewrite Z.ltb_irrefl, Z.leb_refl in Hg. by replace (Z.to_nat (h - (h - 1))) with 1%nat in Hg by lia.
  - assert (∀ x, Z.to_nat (x - x) = 0%nat) as H0' by lia.
    destruct (Z.leb_spec h r), (Z.ltb_spec h r); try lia; by rewrite H0' in Hg.
Qed.

(** ** [clear_line]

    The sequence K 2 blanks the line on the screen, but fills the character buffer
    with the letter a, so that the buffer does not hold what is shown any more. *)
Lemma clear_line_writes_a d cur col x :
  display_ok d → colors_ok col → cursor_ok d (pos cur) → 0 ≤ x < (size d).1 →
  ∃ d', clear_line d cur col = Done d' ∧
    char_buffer d' !! Z.to_nat (index_of d x (pos cur).2) = Some (mkCharacter 97 (fg_color col) (bg_color col)) ∧
    (∀ ch, displays (lfb (dlfb d)) x (pos cur).2 ch → displays (lfb (dlfb d')) x (pos cur).2 (blank col)).
Proof.
  intros Hd Hcol Hcur Hx. pose proof (size_bounds d Hd). pose proof Hcol as (_ & Hbg & _).
  pose proof Hd as (_ & _ & _ & _ & _ & Hwh & Hlen & _). pose proof Hcur as [_ Hy]. unfold clear_line.
  assert (in_grid d x (pos cur).2) as Hin by (split; lia). pose proof (in_grid_index d _ _ Hd Hin).
  rewrite (mul_w_ok 32 (pos cur).2), res_bind_ret_l by (unfold CHAR_HEIGHT; lia).
  rewrite (mul_w_ok 32 (size d).1), res_bind_ret_l by (unfold CHAR_WIDTH; lia).
  destruct (fill_cells d 0 (pos cur).2 (size d).1 1 (bg_color col)) as (l' & Hrun & Hl); [done|done|lia..|].
  change (0 * CHAR_WIDTH) with 0 in Hrun. change (1 * CHAR_HEIGHT) with CHAR_HEIGHT in Hrun. rewrite Hrun, res_bind_ret_l.
  change (size (with_lfb d l')) with (size d). change (char_buffer (with_lfb d l')) with (char_buffer d).
  rewrite (mul_w_ok 16 (pos cur).2), res_bind_ret_l by nia.
  destruct (finish_ok d l' (overwrite (after_skip ((pos cur).2 * (size d).1) (size d).1) 97 col (char_buffer d)) Hd (proj1 Hl))
    as (d' & Hrun' & _ & _ & Hbuf & Hl' & _); [apply overwrite_length|apply overwrite_ok; [done|apply Hd]|].
  exists d'. rewrite Hrun', Hbuf, Hl'. split; [done|]. split.
  - destruct (lookup_lt_is_Some_2 (char_buffer d) (Z.to_nat (index_of d x (pos cur).2))) as [ch Hch]; [lia|].
    rewrite (overwrite_lookup _ _ _ _ _ ch) by (done || lia). unfold after_skip, index_of.
    by rewrite (proj2 (Z.leb_le _ _)), (proj2 (Z.ltb_lt _ _)) by lia.
  - intros ch Hch. pose proof (displays_cleared d _ col _ _ _ _ ch Hd Hin (reflexivity _) Hl Hch) as Hdis.
    by rewrite (proj2 (in_rect_spec _ _ _ _ _ _)) in Hdis by lia.
Qed.
End Positioning.

(** ** Colors *)
Section Colors.

(** The ways to select a color, the parameters that select it as foreground
    ([base] 30) or background ([base] 40), and the color they mean. *)
Inductive ColorSpec := Basic (n : Z) | Intense (n : Z) | Indexed (n : Z) | True_color (r g b : Z).
Definition spec_ok (s : ColorSpec) : Prop :=
  match s with
  | Basic n | Intense n => 0 ≤ n < 8
  | Indexed n => byte n
  | True_color r g b => byte r ∧ byte g ∧ byte b
  end.
Definition spec_params (base : Z) (s : ColorSpec) : Params :=
  match s with
  | Basic n => [[base + n]]
  | Intense n => [[base + 60 + n]]
  | Indexed n => [[base + 8]; [5]; [n]]
  | True_color r g b => [[base + 8]; [2]; [r]; [g]; [b]]
  end.
Definition spec_color (s : ColorSpec) : Color :=
  match s with
  | Basic n => xterm_color n
  | Intense n => xterm_color (n + 8)
  | Indexed n => xterm_color n
  | True_color r g b => mkColor r g b 255
  end.

(** A state without inversion, bold and dim; its base colors are what is shown. *)
Definition plain (c : ColorState) : Prop :=
  invert c = false ∧ bright c = false ∧ dim c = false ∧ effective_colors c = c.

Lemma basic_colors n : 0 ≤ n < 8 → ∀ iter, ansi_color n iter = Done (Some (xterm_color n), iter).
Proof.
  intros Hn iter. assert (n = 0 ∨ n = 1 ∨ n = 2 ∨ n = 3 ∨ n = 4 ∨ n = 5 ∨ n = 6 ∨ n = 7) as Hcases by lia.
  by repeat destruct Hcases as [-> | Hcases]; [..|subst n].
Qed.
Lemma intense_colors n : 0 ≤ n < 8 → Color.bright (xterm_color n) = xterm_color (n + 8).
Proof.
  intros Hn. assert (n = 0 ∨ n = 1 ∨ n = 2 ∨ n = 3 ∨ n = 4 ∨ n = 5 ∨ n = 6 ∨ n = 7) as Hcases by lia.
  by repeat destruct Hcases as [-> | Hcases]; [..|subst n].
Qed.

(** A color specification after its first parameter *)
Lemma indexed_color n iter :
  byte n → parse_complex_color ([5] :: [n] :: iter) = Done (Some (xterm_color n), iter).
Proof.
  unfold byte. intros Hn. unfold parse_complex_color, next_value.
  cbn [next param0 expect lookup list_lookup Z.eqb Pos.eqb]. rewrite !res_bind_ret_l.
  cbn [Z.eqb Pos.eqb]. rewrite (proj2 (Z.leb_le _ _)) by lia. by rewrite color_table_lookup.
Qed.
Lemma true_color r g b iter :
  byte r → byte g → byte b →
  parse_complex_color ([2] :: [r] :: [g] :: [b] :: iter) = Done (Some (mkColor r g b 255), iter).
Proof.
  unfold byte. intros Hr Hg Hb. unfold parse_complex_color, next_value.
  cbn [next param0 expect lookup list_lookup Z.eqb Pos.eqb]. rewrite !res_bind_ret_l. cbn [Z.eqb Pos.eqb].
  by rewrite !wrap_small by lia.
Qed.

(** The rounds of the loop for one color *)
Lemma color_loop_spec c base s :
  base = 30 ∨ base = 40 → spec_ok s →
  let set := if base =? 30 then set_fg else set_bg in
  color_loop (length (spec_params base s)) c (spec_params base s) =
  Done (match s with
        | Intense n => set c true (Some (xterm_color n))
        | _ => set c false (Some (spec_color s))
        end).
Proof.
  intros Hbase Hs. destruct s as [n|n|n|r g b]; cbn [spec_ok] in Hs; cbn [spec_params length color_loop next param0 expect lookup list_lookup];
    rewrite res_bind_ret_l; unfold color_code.
  - destruct Hbase as [-> | ->]; cbn [Z.eqb Pos.eqb].
    + rewrite (proj2 (Z.leb_gt (30 + n) 29)), (proj2 (Z.leb_le 30 _)), (proj2 (Z.leb_le (30 + n) 39)), andb_false_r by lia.
      cbn [andb]. replace (30 + n - 30) with n by lia. by rewrite basic_colors by done.
    + rewrite (proj2 (Z.leb_gt (40 + n) 29)), (proj2 (Z.leb_gt (40 + n) 39)), (proj2 (Z.leb_le 40 _)),
        (proj2 (Z.leb_le (40 + n) 49)), !andb_false_r by lia.
      cbn [andb]. replace (40 + n - 40) with n by lia. by rewrite basic_colors by done.
  - destruct Hbase as [-> | ->]; cbn [Z.eqb Pos.eqb];
      [change (30 + 60 + n) with (90 + n)|change (40 + 60 + n) with (100 + n)].
    + rewrite (proj2 (Z.leb_gt (90 + n) 29)), (proj2 (Z.leb_gt (90 + n) 39)), (proj2 (Z.leb_gt (90 + n) 49)),
        (proj2 (Z.leb_le 90 _)), (proj2 (Z.leb_le (90 + n) 97)), !andb_false_r by lia.
      cbn [andb]. replace (90 + n - 90) with n by lia. by rewrite basic_colors by done.
    + rewrite (proj2 (Z.leb_gt (100 + n) 29)), (proj2 (Z.leb_gt (100 + n) 39)), (proj2 (Z.leb_gt (100 + n) 49)),
        (proj2 (Z.leb_gt (100 + n) 97)), (proj2 (Z.leb_le 100 _)), (proj2 (Z.leb_le (100 + n) 107)), !andb_false_r by lia.
      cbn [andb]. replace (100 + n - 100) with n by lia. by rewrite basic_colors by done.
  - destruct Hbase as [-> | ->]; unfold ansi_color; cbn -[parse_complex_color color_loop xterm_color set_fg set_bg]; by rewrite indexed_color.
  - destruct Hs as (Hr & Hg & Hb). destruct Hbase as [-> | ->]; unfold ansi_color;
      cbn -[parse_complex_color color_loop set_fg set_bg]; by rewrite true_color.
Qed.

(** Colors.  Selecting any of the 8 colors, their bright variants, the 256 colors
    of the xterm palette or a 24-bit color, as foreground or background, sets
    exactly this color and leaves the other one alone. *)
Theorem sgr_selects c s :
  plain c → spec_ok s →
  (∃ c', handle_ansi_color c (spec_params 30 s) = Done c' ∧ plain c' ∧ fg_color c' = spec_color s ∧ bg_color c' = bg_color c) ∧
  (∃ c', handle_ansi_color c (spec_params 40 s) = Done c' ∧ plain c' ∧ fg_color c' = fg_color c ∧ bg_color c' = spec_color s).
Proof.
  intros (Hinv & Hbr & Hdi & Heff) Hs. unfold handle_ansi_color.
  rewrite !color_loop_spec, !res_bind_ret_l by auto. cbn [Z.eqb Pos.eqb].
  destruct c as [fg bg fgb bgb fgbr bgbr inv br di]. cbn [invert bright dim] in *. subst inv br di.
  injection Heff as Hfg Hbg. cbn [fg_color bg_color].
  assert (∀ n, s = Intense n → Color.bright (xterm_color n) = xterm_color (n + 8)) as Hint
    by (intros n ->; by apply intense_colors).
  split; (eexists; split; [done|]); destruct s; cbn [set_fg set_bg effective_colors spec_color orb plain fg_color bg_color];
    unfold plain; cbn; rewrite <-?Hint by done; done.
Qed.

(** The code 49, which resets the background, selects white instead of the default
    black, because [ansi_color] maps 9 to white for both. *)
Lemma background_default_is_white c :
  plain c → ∃ c', handle_ansi_color c [[49]] = Done c' ∧ bg_color c' = WHITE ∧ bg_color color_new = BLACK.
Proof.
  intros (Hinv & Hbr & Hdi & _). destruct c. cbn in *. subst.
  eexists. split; [reflexivity|]. split; reflexivity.
Qed.
End Colors.

(** ** The blinking cursor *)
Section Blinking.
Context `{Profile} `{FontLaws} `{!BlankLaws}.

Lemma draw_on_target_safe t l' :
  terminal_safe t → same_geometry (target_lfb (dlfb (display t))) l' →
  terminal_safe (mkTerminal (with_target (display t) l') (cursor t) (color t)).
Proof.
  intros (Hd & Hcol & Hcur) Hgeo. split_and!; try done.
  destruct (display t) as [sz [l tl] buf]. apply (display_ok_drawn _ l l' Hd); [by cbn|done].
Qed.

(** The cursor thread is safe in every state that the terminal reaches. *)
Lemma cursor_round_safe visible t :
  terminal_safe t → safe (cursor_round visible t) (fun r => terminal_safe r.1 ∧ r.2 = negb visible).
Proof.
  intros Ht. pose proof Ht as (Hd & Hcol & Hcur). pose proof (size_bounds _ Hd). pose proof Hcur as (Hx & Hy & _).
  pose proof Hd as ([Hok Hgeo] & _ & _ & _ & _ & _ & _ & Hchars).
  unfold cursor_round. eapply safe_bind; [apply cell_index_safe|]. intros index Hindex.
  destruct (char_buffer (display t) !! Z.to_nat index) as [ch|] eqn:Hch; [|done]. cbn [expect]. rewrite res_bind_ret_l.
  rewrite as_cell_ok, res_bind_ret_l by u16_lia. cbn [fst snd].
  pose proof (Forall_lookup_1 _ _ _ _ Hchars Hch) as [Hfg Hbg].
  pose proof (draw_char_result (target_lfb (dlfb (display t))) ((pos (cursor t)).1 * CHAR_WIDTH) ((pos (cursor t)).2 * CHAR_HEIGHT)
    (ch_fg ch) (ch_bg ch) (if visible then value ch else CURSOR) (same_geometry_ok _ _ Hgeo Hok) Hfg Hbg) as Hdraw.
  do 4 (specialize (Hdraw ltac:(u16_lia))).
  destruct (find_glyph fonts _) as [bitmap|].
  - destruct Hdraw as (l' & -> & Hgeo' & _). split; [by apply draw_on_target_safe|done].
  - rewrite Hdraw. split; [by apply draw_on_target_safe|done].
Qed.
End Blinking.

(** ** Concrete inputs *)
Section Examples.
#[local] Existing Instance development.

(** A screen of 16 x 32 pixels: two rows of two characters. *)
Definition small_lfb : LFB := mkLfb (fun _ => 0) 50 16 32 24.
Lemma small_lfb_ok : lfb_ok small_lfb.
Proof. unfold lfb_ok, bytes_per_pixel. cbn. split_and!; first [lia|by left|set_solver]. Qed.

#[local] Instance small_fonts : FontOps := {|
  fonts := [fun c => if c =? 65 then Some [0x0c; 0x1e; 0x33; 0x33; 0x3f; 0x33; 0x33; 0]
                     else if (c =? 0) || (c =? 32) then Some [0; 0; 0; 0; 0; 0; 0; 0] else None]
|}.
#[local] Instance small_font_laws : FontLaws.
Proof.
  intros f c bitmap Hf Hc. cbn in Hf. apply list_elem_of_singleton in Hf as ->.
  destruct (c =? 65); [by injection Hc as <-|]. destruct (_ || _); [by injection Hc as <-|done].
Qed.
#[local] Instance small_blank_laws : BlankLaws.
Proof. intros c bitmap [-> | ->] Hc; injection Hc as <-; repeat constructor. Qed.

(** No device reacts, and a parser that knows text and newlines only. *)
#[local] Instance no_device : Device := {| dev := unit; port_in _ d := (0, d); port_out _ _ d := d |}.
Definition quiet : dev (Device := no_device) := tt.
#[local] Instance text_parser : ParserOps := {|
  parser := unit; parser_new := tt;
  advance _ b := (if (0x20 <=? b) && (b <? 0x7f) then [Print b] else if b =? 0x0a then [Execute 0x0a] else [Ignored], tt);
|}.
#[local] Instance text_parser_laws : ParserLaws.
Proof.
  refine {| ground _ := True |}; try done.
  - intros [] b. cbn. destruct (_ && _); [|destruct (_ =? _)]; by repeat constructor.
  - intros [] b _ [Hlo Hhi]. cbn. by rewrite (proj2 (Z.leb_le _ _) Hlo), (proj2 (Z.ltb_lt _ _) Hhi).
Defined.

(** A new terminal, and what it shows. *)
Definition empty_grid : Grid := fun _ _ => mkCharacter 32 WHITE BLACK.
Lemma small_terminal :
  ∃ t, terminal_new 48 (fun _ => 0) small_lfb = Done t ∧ size (display t) = (2, 2) ∧ color t = color_new ∧
    saved_pos (cursor t) = (0, 0) ∧ represents t (empty_grid, (0, 0)).
Proof. apply (terminal_new_result 48 (fun _ => 0) small_lfb small_lfb_ok); done. Qed.

Lemma write_str_text_witness :
  ∃ t t' p', terminal_new 48 (fun _ => 0) small_lfb = Done t ∧
    write_str (fun _ => ([], [])) [65; 10; 65; 65; 65] t parser_new quiet = Done ((t', p'), quiet) ∧
    pos (cursor t') = (1, 1) ∧ char_buffer (display t') !! 2%nat = Some (mkCharacter 65 WHITE BLACK).
Proof.
  destruct small_terminal as (t & Hnew & Hsize & Hcol & _ & Ht).
  destruct (write_str_text [65; 10; 65; 65; 65] (fun _ => ([], [])) t parser_new _ quiet Ht)
    as (t' & p' & Hrun & _ & _ & Hsize' & (Hok & Hshows & Hpos & _)); [done|repeat constructor; lia|].
  rewrite Hsize, Hcol in *. exists t, t', p'. split_and!; [done|exact Hrun|exact Hpos|].
  destruct (Hshows 0 1) as (Hch & _); [split; rewrite Hsize'; cbn; lia|].
  unfold index_of in Hch. rewrite Hsize' in Hch. exact Hch.
Defined.

Lemma write_str_safe_witness :
  ∃ t, terminal_new 48 (fun _ => 0) small_lfb = Done t ∧
    safe (write_str (fun _ => ([0; 500], [0; 500])) [7; 65; 10; 65; 27] t parser_new quiet) (fun r => terminal_safe r.1.1).
Proof.
  destruct small_terminal as (t & Hnew & Hsize & Hcol & Hsaved & (Hd & Hc & Hcur & _) & _ & Hpos & _). exists t. split; [done|].
  apply write_str_safe; [|intros i; split; vm_compute; reflexivity].
  split_and!; try done. unfold cursor_safe, u16. rewrite Hpos, Hsaved, Hsize. cbn. lia.
Defined.

Lemma csi_erase_witness :
  ∃ t t', terminal_new 48 (fun _ => 0) small_lfb = Done t ∧ csi_dispatch t [[2]] 0x4a = Done t' ∧
    char_buffer (display t') !! 0%nat = Some (mkCharacter 0 WHITE BLACK).
Proof.
  destruct small_terminal as (t & Hnew & Hsize & Hcol & Hsaved & (Hok & Hshows & Hpos & _)).
  destruct (csi_erase t [[2]] 0x4a 2 whole_screen empty_grid Hok Hshows) as (t' & Hrun & (Hd' & _) & _ & Hshows' & _);
    [right; by exists [], []|done|].
  exists t, t'. split_and!; [done|done|]. pose proof (size_bounds _ Hd').
  destruct (Hshows' 0 0) as (Hch & _); [split; lia|]. unfold index_of in Hch. rewrite Hcol in Hch. exact Hch.
Defined.

(** Down and right, and up beyond the edge *)
Lemma csi_move_witness :
  ∃ t, terminal_new 48 (fun _ => 0) small_lfb = Done t ∧
    (csi_dispatch t [[5]] 0x42 = Done (moved t (0, 1)) ∧ terminal_ok (moved t (0, 1))) ∧
    ∃ msg, csi_dispatch t [[1]] 0x41 = Panic msg.
Proof.
  destruct small_terminal as (t & Hnew & Hsize & _ & _ & (Hok & _ & Hpos & _)). exists t. split; [done|]. split.
  - pose proof (csi_move t 0x42 5 [] [] Hok ltac:(unfold u16; lia) ltac:(lia)) as Hmove.
    rewrite Hsize, Hpos in Hmove. exact Hmove.
  - pose proof (csi_move t 0x41 1 [] [] Hok ltac:(unfold u16; lia) ltac:(lia)) as Hmove.
    rewrite Hsize, Hpos in Hmove. by apply Hmove.
Defined.

Lemma sgr_selects_witness :
  ∃ c', handle_ansi_color color_new [[38]; [2]; [1]; [2]; [3]] = Done c' ∧ fg_color c' = mkColor 1 2 3 255.
Proof.
  destruct (sgr_selects color_new (True_color 1 2 3)) as [(c' & Hrun & _ & Hfg & _) _]; [done|by split_and!|].
  by exists c'.
Defined.
End Examples.
