(* ===== verification/Console.v ===== *)
(** * Formatted output and the input loop (os/kernel/src/device/terminal.rs, boot.rs)

    The thread that [start] creates: it prompts for a line, and the terminal echoes the keys that it reads.
    What it shows is one text, the transcript of the session, as if it was written at once. *)

From S2P Require Import Prelude Ports Serial Lfb Terminal TerminalText.
#[local] Open Scope Z_scope.

Section Console.
Context `{Profile} `{FontOps} `{Device} `{ParserOps} `{DecoderOps}.

(** Terminal with its parser, and the decoder of the keyboard *)
Definition session : Type := LFBTerminal * parser * decoder.
(** ["> "] *)
Definition prompt : list Z := [0x3e; 0x20].

(** What happens while the loop waits for a key: the scancodes that the keyboard reads, and the system times that bells
    read when the key is echoed and when the prompt follows. *)
Record waiting := mkWaiting {
  scancodes : list Z;
  echo_times : nat → list Z * list Z;
  prompt_times : nat → list Z * list Z;
}.

(** The loop over the keys of [l]; then it waits for more. *)
Fixpoint input_loop (l : list waiting) (s : session) : io session :=
  match l with
  | [] => io_ret s
  | w :: l =>
      (r <- Terminal.read_byte (echo_times w) (scancodes w) s.2 s.1.1 s.1.2 ;;
       if r.1 =? -1 then io_panic "Terminal input stream closed!"
       else if r.1 =? 0x0a then
         o <- Terminal.write_str (prompt_times w) prompt r.2.1.1 r.2.1.2 ;; input_loop l (o, r.2.2)
       else input_loop l r.2)%io
  end.
Definition read_input (times : nat → list Z * list Z) (l : list waiting) (s : session) : io session :=
  (o <- Terminal.write_str times prompt s.1.1 s.1.2 ;; input_loop l (o, s.2))%io.

(** The keys that are typed, as the decoder reports them *)
Fixpoint typed (l : list waiting) (dec : decoder) : res (list Z * decoder) :=
  match l with
  | [] => Done ([], dec)
  | w :: l => k ← read_key (scancodes w) dec; r ← typed l k.2; Done (k.1 :: r.1, r.2)
  end.

(** What a key adds to the text: the character of its low eight bits, and a prompt after a newline *)
Definition shown (c : Z) : list Z := char_from_utf8 (wrap 8 c) ++ if wrap 16 c =? 0x0a then prompt else [].
Definition transcript (cs : list Z) : list Z := prompt ++ flat_map shown cs.

(** [f] for the first [n] bytes, then [g] *)
Definition then_times (n : nat) (f g : nat → list Z * list Z) (i : nat) : list Z * list Z :=
  if (i <? n)%nat then f i else g (i - n)%nat.
Fixpoint loop_times (l : list waiting) (cs : list Z) : nat → list Z * list Z :=
  match l, cs with
  | w :: l, c :: cs =>
      then_times (length (char_from_utf8 (wrap 8 c))) (echo_times w)
        (if wrap 16 c =? 0x0a then then_times (length prompt) (prompt_times w) (loop_times l cs) else loop_times l cs)
  | _, _ => fun _ => ([], [])
  end.

(** ** Writing in pieces *)

Lemma write_times f g bytes t p dv : (∀ i, (i < length bytes)%nat → f i = g i) →
  write_bytes f bytes t p dv = write_bytes g bytes t p dv.
Proof.
  revert f g t p dv. induction bytes as [|b bytes IH]; intros f g t p dv Hfg; cbn [write_bytes]; [done|].
  rewrite Hfg by (cbn; lia). unfold io_bind. apply res_bind_ext. intros r.
  apply IH. intros i Hi. apply Hfg. cbn. lia.
Qed.

Lemma write_pieces b1 b2 f g t p dv :
  write_bytes (then_times (length b1) f g) (b1 ++ b2) t p dv = (r ← write_bytes f b1 t p dv; write_bytes g b2 r.1.1 r.1.2 r.2).
Proof.
  revert f t p dv. induction b1 as [|b b1 IH]; intros f t p dv; cbn [app write_bytes].
  { apply write_times. intros i _. unfold then_times. cbn. by rewrite Nat.sub_0_r. }
  unfold io_bind. rewrite res_bind_assoc. change (then_times (length (b :: b1)) f g 0%nat) with (f 0%nat).
  apply res_bind_ext. intros r. etransitivity; [|apply (IH (fun i => f (S i)))]. apply write_times. done.
Qed.

(** [print] (device/terminal.rs): the formatted text comes in pieces, each with the system times that its bells read.
    How it is divided makes no difference. *)
Fixpoint print (pieces : list ((nat → list Z * list Z) * list Z)) (t : LFBTerminal) (p : parser) : io (LFBTerminal * parser) :=
  match pieces with
  | [] => io_ret (t, p)
  | (times, piece) :: pieces => (r <- Terminal.write_str times piece t p ;; print pieces r.1 r.2)%io
  end.
Fixpoint print_times (pieces : list ((nat → list Z * list Z) * list Z)) : nat → list Z * list Z :=
  match pieces with
  | [] => fun _ => ([], [])
  | (times, piece) :: pieces => then_times (length piece) times (print_times pieces)
  end.
Lemma print_whole pieces t p dv : print pieces t p dv = Terminal.write_str (print_times pieces) (concat pieces.*2) t p dv.
Proof.
  revert t p dv. induction pieces as [|[times piece] pieces IH]; intros t p dv; cbn [print print_times fmap list_fmap concat]; [done|].
  unfold Terminal.write_str in *. cbn [snd]. rewrite write_pieces. unfold io_bind. apply res_bind_ext. intros [[t1 p1] dv1]. apply IH.
Qed.

(** A session in which nothing more is typed than [cs] *)
Lemma input_loop_writes l : ∀ cs dec dec' t p dv,
  typed l dec = Done (cs, dec') → Forall (fun c => wrap 16 c ≠ 0xffff) cs →
  input_loop l (t, p, dec) dv = (r ← write_bytes (loop_times l cs) (flat_map shown cs) t p dv; Done ((r.1, dec'), r.2)).
Proof.
  induction l as [|w l IH]; intros cs dec dec' t p dv Ht Hcs; cbn [typed] in Ht; [by injection Ht as <- <-|].
  apply res_bind_done in Ht as ([c dec1] & Hkey & Ht). apply res_bind_done in Ht as ([cs1 dec2] & Ht & Hr).
  injection Hr as <- <-. cbn [fst snd] in *. inversion_clear Hcs as [|? ? Hc Hcs1].
  cbn [input_loop flat_map loop_times]. unfold shown at 1. rewrite <-app_assoc, write_pieces.
  unfold io_bind, Terminal.read_byte, Terminal.write_byte, Terminal.write_str. cbn [fst snd]. rewrite Hkey, res_bind_ret_l.
  cbn [fst snd]. rewrite !res_bind_assoc. apply res_bind_ext. intros [[t1 p1] dv1]. rewrite !res_bind_ret_l. cbn [fst snd].
  assert (0 ≤ wrap 16 c < 2 ^ 16) as Hw by (apply wrap_range; lia). change (2 ^ 16) with 65536 in *. change (2 ^ 15) with 32768 in *.
  destruct (Z.ltb_spec (wrap 16 c) 32768), (Z.eqb_spec (wrap 16 c) 10) as [He|Hn];
    repeat match goal with |- context[?a =? ?b] => rewrite (proj2 (Z.eqb_neq a b)) by lia end; try lia.
  - rewrite write_pieces, !res_bind_assoc. apply res_bind_ext. intros [[t2 p2] dv2]. cbn [fst snd]. by apply IH.
  - by apply IH.
  - by apply IH.
Qed.

(** C20: the input loop shows the transcript of the session.  Whatever scancodes arrive, if the keys [cs] are decoded from
    them, the thread does to terminal and speaker exactly what writing one text does: the prompt, and each
    key's character, with a new prompt after each newline.  Of a key's character only the low eight bits
    are echoed, and the low sixteen decide whether it is a newline; the one with all of them set would
    end the program. *)
Theorem read_input_writes_transcript times l cs dec dec' t p dv :
  typed l dec = Done (cs, dec') → Forall (fun c => wrap 16 c ≠ 0xffff) cs →
  read_input times l (t, p, dec) dv =
    (r ← Terminal.write_str (then_times (length prompt) times (loop_times l cs)) (transcript cs) t p dv; Done ((r.1, dec'), r.2)).
Proof.
  intros Ht Hcs. unfold read_input, io_bind, Terminal.write_str, transcript. cbn [fst snd].
  rewrite write_pieces, res_bind_assoc. apply res_bind_ext. intros [[t1 p1] dv1]. by apply input_loop_writes.
Qed.
End Console.

(** ** A session with two keys *)
Section Examples.
#[local] Existing Instance development.
#[local] Existing Instance small_fonts.
#[local] Existing Instance no_device.
#[local] Existing Instance text_parser.

(** Scancodes of the first set for A and enter; those of released keys decode to nothing. *)
#[local] Instance two_keys : DecoderOps := {|
  decoder := unit;
  add_byte b _ := (if b =? 0x1e then Some (Unicode 65) else if b =? 0x1c then Some (Unicode 0x0a) else None, tt);
|}.
Definition demo_waits : list waiting :=
  [mkWaiting [0x1e] (fun _ => ([], [])) (fun _ => ([], [])); mkWaiting [0x9e; 0x1c] (fun _ => ([], [])) (fun _ => ([], []))].

Definition demo_times : nat → list Z * list Z := then_times 2 (fun _ => ([], [])) (loop_times demo_waits [65; 0x0a]).
Lemma demo_transcript : ∃ t r, terminal_new 48 (fun _ => 0) small_lfb = Done t ∧
  Terminal.write_str demo_times (transcript [65; 0x0a]) t parser_new quiet = Done r ∧ pos (cursor r.1.1) = (1, 1).
Proof.
  assert (match terminal_new 48 (fun _ => 0) small_lfb with
          | Done t => match Terminal.write_str demo_times (transcript [65; 0x0a]) t parser_new quiet with
                      | Done r => pos (cursor r.1.1) = (1, 1) | _ => False end
          | _ => False end) as Hd by (vm_compute; reflexivity).
  destruct (terminal_new _ _ _) as [t| | |]; [|by destruct Hd..]. exists t.
  destruct (Terminal.write_str _ _ _ _ _) as [r| | |]; [|by destruct Hd..]. by exists r.
Qed.

Lemma read_input_writes_transcript_witness :
  ∃ t r, terminal_new 48 (fun _ => 0) small_lfb = Done t ∧
    read_input (fun _ => ([], [])) demo_waits (t, parser_new, tt) quiet = Done r ∧
    pos (cursor r.1.1.1) = (1, 1) ∧ transcript [65; 0x0a] = [0x3e; 0x20; 65; 0x0a; 0x3e; 0x20].
Proof.
  assert (typed demo_waits tt = Done ([65; 0x0a], tt)) as Ht by reflexivity.
  assert (Forall (fun c => wrap 16 c ≠ 0xffff) [65; 0x0a]) as Hc by (repeat constructor; discriminate).
  destruct demo_transcript as (t & r & Hnew & Hw & Hp). exists t. eexists. split; [exact Hnew|]. split.
  - etransitivity; [exact (read_input_writes_transcript _ _ _ _ _ t parser_new quiet Ht Hc)|].
    exact (f_equal (fun m => r ← m; Done _) Hw).
  - exact (conj Hp eq_refl).
Defined.

(** The euro sign is echoed as the not sign. *)
Example euro_sign : shown 0x20ac = char_from_utf8 0xac.
Proof. reflexivity. Qed.
End Examples.
