(* ===== verification/Services.v ===== *)
(** * The kernel's services (os/kernel/src/lib.rs)

    The statics of the kernel are the state of a monad, and with them what the devices
    and the memory hold.  Services that are created at run time are in [Once] cells, which are
    empty at first; their getters panic as long as they are.  What the program does then is a
    parameter [missing] here, so that Start.v can show that it does not matter. *)

From stdpp Require Import fin_maps.
From S2P Require Import Machine.
From S2P Require Import Prelude Frames Physical PagingAlloc Ports Serial Ps2 Pit Color Lfb Terminal.
From S2P Require Import Heap Interrupts Descriptors Apic Log Scheduler Thread Paging ApicInit Drivers.
#[local] Open Scope Z_scope.

(** Closures of the threads that are started at boot: [CursorThread::run], which [init_terminal] starts, and the input
    loop of [start] *)
Inductive closure := RunCursor | ReadInput.
#[local] Hint Extern 0 ThreadOps => exact (@thread_ops closure) : typeclass_instances.

Section Services.
Context `{Profile} `{PhysFrameOps} `{NodeLayout} `{PageOps} `{EntryOps} `{VirtAddrOps} `{SelectorOps}.
Context `{Device} `{QueueOps} `{ControllerOps} `{HeapOps} `{IdtOps} `{ApicDevices} `{GdtOps} `{FinMap Z M} {World : Type}.

(** [acpi::AcpiTables] with [from_rsdp] and [find_table::<Madt>], and tables of the EFI by their address *)
Class AcpiOps := {
  AcpiTables : Type;
  from_rsdp : Z → option AcpiTables;
  find_madt : AcpiTables → option (option InterruptModel);
}.
Context `{AcpiOps}.

(** Memory and devices, then the statics *)
Inductive field :=
  | PORTS | PS2_HARDWARE | MEMORY | CR3 | SEGMENTS | MSRS | INTERRUPTS_ENABLED
  | ADDRESS_SPACES | THREAD_ID_COUNTER
  | GDT | IDT | EFI_SYSTEM_TABLE | ACPI_TABLES | ALLOCATOR | LOGGER | SCHEDULER | INTERRUPT_DISPATCHER
  | APIC | TIMER | SERIAL_PORT | TERMINAL | PS2.
#[local] Instance field_eq_dec : EqDecision field.
Proof. solve_decision. Defined.

Definition content (f : field) : Type :=
  match f with
  | PORTS => dev
  | PS2_HARDWARE => controller
  | MEMORY => vm
  | CR3 => Z
  | SEGMENTS => segments
  | MSRS => msrs
  | INTERRUPTS_ENABLED => bool
  | ADDRESS_SPACES => list AddressSpace
  | THREAD_ID_COUNTER => Z
  | GDT => gdt
  | IDT => idt
  | EFI_SYSTEM_TABLE => option Z
  | ACPI_TABLES => option AcpiTables
  | ALLOCATOR => heap
  | LOGGER => Logger
  | SCHEDULER => option (Scheduler M)
  | INTERRUPT_DISPATCHER => option (InterruptDispatcher (World := World))
  | APIC => option (Apic * LocalApic)
  | TIMER => Timer
  | SERIAL_PORT => option SerialPort
  | TERMINAL => option LFBTerminal
  | PS2 => option controller
  end.
Definition kernel : Type := ∀ f, content f.
Definition set_field (f : field) (x : content f) (k : kernel) : kernel := fun g =>
  match decide (f = g) with
  | left e => eq_rect f content x g e
  | right _ => k g
  end.

(** Programs on the kernel's state *)
Definition kern (A : Type) : Type := kernel → res (A * kernel).
#[export] Instance kern_ret : MRet kern := fun A a k => Done (a, k).
#[export] Instance kern_bind : MBind kern := fun A B c m k => m k ≫= (fun r => c r.1 r.2).
Definition get (f : field) : kern (content f) := fun k => Done (k f, k).
Definition put (f : field) (x : content f) : kern () := fun k => Done (tt, set_field f x k).
Definition lift {A} (r : res A) : kern A := fun k => a ← r; Done (a, k).
Definition modify (f : field) (c : content f → res (content f)) : kern () :=
  x ← get f; x ← lift (c x); put f x.
(** Programs that access the ports *)
Definition on_ports {A} (m : io A) : kern A :=
  d ← get PORTS; r ← lift (m d); put PORTS r.2;; mret r.1.

(** [Once::call_once] *)
Definition once {A} (cell : option A) (init : kern A) : kern (option A) :=
  match cell with
  | Some a => mret (Some a)
  | None => a ← init; mret (Some a)
  end.

(** The program panics when a getter finds an empty cell. *)
Definition panic : ∀ A, string → res A := fun A msg => Panic msg.
Section Getters.
Variable missing : ∀ A, string → res A.

(** [Once::get] and [expect] *)
Definition existing {A} (msg : string) (cell : option A) : kern A :=
  match cell with
  | Some a => mret a
  | None => lift (missing A msg)
  end.

(** [efi_system_table] and [init_efi_system_table] *)
Definition efi_system_table : kern (option Z) := get EFI_SYSTEM_TABLE.
Definition init_efi_system_table (table : Z) : kern () :=
  t ← get EFI_SYSTEM_TABLE; t ← once t (mret table); put EFI_SYSTEM_TABLE t.

(** [acpi_tables] and [init_acpi_tables] *)
Definition acpi_tables : kern AcpiTables :=
  t ← get ACPI_TABLES; existing "Trying to access ACPI tables before initialization!" t.
Definition init_acpi_tables (rsdp_addr : Z) : kern () :=
  t ← get ACPI_TABLES;
  t ← once t (lift (expect "Failed to parse ACPI tables" (from_rsdp rsdp_addr)));
  put ACPI_TABLES t.

(** [interrupt_dispatcher] and [scheduler] create their services on the first access. *)
Definition interrupt_dispatcher : kern InterruptDispatcher :=
  d ← get INTERRUPT_DISPATCHER;
  let d := default dispatcher_new d in
  put INTERRUPT_DISPATCHER (Some d);; mret d.
Definition scheduler : kern (Scheduler M) :=
  s ← get SCHEDULER;
  let s := default scheduler_new s in
  put SCHEDULER (Some s);; mret s.

(** [apic] and [init_apic]; what the processor reports is given. *)
Definition apic : kern (Apic * LocalApic) := a ← get APIC; existing "Trying to access APIC before initialization!" a.
Definition init_apic (features : option bool) (xapic_base : Z) : kern () :=
  a ← get APIC;
  a ← once a (t ← get ACPI_TABLES; cr3 ← get CR3; spaces ← get ADDRESS_SPACES; s ← get MEMORY;
              r ← lift (apic_new features
                    (match t with Some t => Done (find_madt t) | None => missing _ "Trying to access ACPI tables before initialization!" end)
                    xapic_base cr3 spaces s);
              put MEMORY r.2;; mret r.1);
  put APIC a.

(** [init_serial_port] *)
Definition init_serial_port_service (new_queue : Z → queue) : kern () :=
  s ← get SERIAL_PORT; s ← on_ports (init_serial_port new_queue s); put SERIAL_PORT s.

(** [terminal_initialized], [terminal] *)
Definition terminal_initialized : kern bool := t ← get TERMINAL; mret (bool_decide (is_Some t)).
Definition terminal : kern LFBTerminal := t ← get TERMINAL; existing "Trying to access terminal before initialization!" t.

(** [init_keyboard] and [ps2_devices] *)
Definition ps2_devices : kern controller := p ← get PS2; existing "Trying to access keyboard before initialization!" p.
Definition init_keyboard_service : kern () :=
  p ← get PS2;
  p ← once p (c ← get PS2_HARDWARE; lift (init_ps2 c));
  put PS2 p.

(** [Thread::new_kernel_thread] and [ready]; [with_capacity] are the buffers that the heap gives to a thread. *)
Section Threads.
Variables (kickoff_kernel_thread : Z) (with_capacity : Z → Z → vec).
Definition ready_kernel_thread (entry : closure) : kern () :=
  scheduler;;
  counter ← get THREAD_ID_COUNTER;
  let '(id, counter) := next_thread_id counter in
  put THREAD_ID_COUNTER counter;;
  spaces ← get ADDRESS_SPACES;
  a ← lift (kernel_address_space spaces);
  t ← lift (new_kernel_thread kickoff_kernel_thread id (root_table a) (with_capacity id) entry);
  s ← scheduler;
  put SCHEDULER (Some (ready s t)).

(** [init_terminal]; [capacity] and [memory] belong to the vectors of the terminal, [target] is the framebuffer. *)
Definition init_terminal (capacity : Z) (memory : Z → Z) (target : LFB) : kern () :=
  t ← get TERMINAL;
  t ← once t (lift (terminal_new capacity memory target));
  put TERMINAL t;;
  ready_kernel_thread RunCursor.
End Threads.

(** Drivers that plug in: [Timer::plugin], [Keyboard::plugin] and [SerialPort::plugin] *)
Definition plugin_service (v : InterruptVector) (handler : InterruptHandler World) : kern () :=
  d ← interrupt_dispatcher;
  d ← lift (assign d v handler);
  put INTERRUPT_DISPATCHER (Some d);;
  a ← apic;
  a1 ← lift (allow a.1 v);
  put APIC (Some (a1, a.2)).
Definition timer_plugin : InterruptHandler World → kern () := plugin_service Pit.
Definition keyboard_plugin : InterruptHandler World → kern () := plugin_service Keyboard.
Definition serial_plugin (s : SerialPort) (handler : InterruptHandler World) : kern () :=
  match Serial.buffer s with
  | None => lift (Panic "Serial: Calling plugin() before initialization!")
  | Some _ =>
      plugin_service (serial_vector (Serial.port s)) handler;;
      on_ports (write (com_base (Serial.port s) + 1) 0x01)
  end.
End Getters.
End Services.
