(* ===== verification/Start.v ===== *)
(** * The start of the kernel (os/kernel/src/boot.rs)

    [start] is the function that the bootloader enters.  It calls all components in order:
    the memory map (BootMap.v, Heap.v), segments (Descriptors.v), page frames and page tables
    (Physical.v, BootPaging.v), and the services of lib.rs (Services.v), and hands over to the scheduler.  Log
    output and the text of the banner are left out. *)

From stdpp Require Import fin_maps.
From S2P Require Import Machine.
From S2P Require Import Prelude Frames Physical BootMap PagingAlloc Ports Serial Ps2 Pit Color Lfb Terminal.
From S2P Require Import Heap Interrupts Descriptors Apic Log Scheduler Thread Paging BootPaging ApicInit Drivers Services.
#[local] Open Scope Z_scope.
#[local] Hint Extern 0 ThreadOps => exact (@thread_ops closure) : typeclass_instances.

(** What the Multiboot2 information contains: the memory maps; the pointers to image handle and system table of the EFI, and
    the runtime table that exiting its boot services yields; the framebuffer, if its type is known, with its
    memory; the addresses of the tags for ACPI. *)
Record framebuffer_info := mkFramebuffer { fb_address : Z; fb_pitch : Z; fb_width : Z; fb_height : Z; fb_bpp : Z; fb_memory : Z → Z }.
Record multiboot_information := mkMultiboot {
  memory_maps : boot_information;
  efi_ih64_tag : option Z;
  efi_sdt64_tag : option Z;
  runtime_table : Z;
  framebuffer_tag : option (option framebuffer_info);
  rsdp_v2_tag : option Z;
  rsdp_v1_tag : option Z;
}.
Definition MAGIC : Z := 0x36d76289.
(** [size_of::<Tag>()] *)
Definition TAG_SIZE : Z := 8.
(** [Handle::from_ptr] and [SystemTable::from_ptr] *)
Definition from_ptr (p : Z) : option Z := if p =? 0 then None else Some p.

Section Start.
Context `{Profile} `{PhysFrameOps} `{NodeLayout} `{PageOps} `{EntryOps} `{VirtAddrOps} `{SelectorOps} `{FontOps}.
Context `{Device} `{QueueOps} `{ControllerOps} `{HeapOps} `{IdtOps} `{ApicDevices} `{GdtOps} `{StarOps} `{FinMap Z M} {World : Type} `{AcpiOps}.

(** Addresses of the image, of functions and of statics; what the processor reports; boxed handlers; buffers
    of vectors *)
Record environment := mkEnv {
  data_start : Z; data_end : Z;
  tss : Z; syscall_handler : Z; kickoff_kernel_thread : Z; serial_stream : Z; terminal_stream : Z;
  profile : string;
  features : option bool; xapic_base : Z;
  timer_handler : InterruptHandler World; keyboard_handler : InterruptHandler World; serial_handler : InterruptHandler World;
  new_queue : Z → queue; with_capacity : Z → Z → vec; capacity : Z; back_buffer : Z → Z;
}.
Variable missing : ∀ A, string → res A.
Variable env : environment.
Let kernel := kernel (M := M) (World := World).
Let kern := kern (M := M) (World := World).

(** The memory map, and the heap in it; exiting the boot services of the EFI leaves the runtime table. *)
Definition boot_regions (multiboot : multiboot_information) : kern (list PhysFrameRange * PhysFrameRange) :=
  match efi_boot_services (memory_maps multiboot) with
  | Some _ =>
      image ← lift (expect "EFI image handle not available!" (efi_ih64_tag multiboot));
      sdt ← lift (expect "EFI system table not available!" (efi_sdt64_tag multiboot));
      lift (expect "Failed to create EFI image handle struct from pointer!" (from_ptr image));;
      lift (expect "Failed to create EFI system table struct from pointer!" (from_ptr sdt));;
      mret ()
  | None => mret ()
  end;;
  kernel_region ← lift (kernel_image_region (data_start env) (data_end env));
  r ← lift (scan_memory_map (memory_maps multiboot) kernel_region);
  h ← lift (init_kernel_heap r.2);
  put ALLOCATOR h;;
  match efi_boot_services (memory_maps multiboot) with
  | Some _ => init_efi_system_table (runtime_table multiboot)
  | None => mret ()
  end;;
  mret r.

(** Segments, page frames and the address space of the kernel *)
Definition setup_segments : kern () :=
  g ← get GDT; c ← get SEGMENTS;
  r ← lift (init_gdt (tss env) g c);
  put GDT r.1;; put SEGMENTS r.2.
Definition setup_memory (regions : list PhysFrameRange) (heap_region : PhysFrameRange) : kern AddressSpace :=
  kernel_region ← lift (kernel_image_region (data_start env) (data_end env));
  available ← lift (available_memory_regions regions kernel_region heap_region);
  s ← get MEMORY;
  st ← lift (Physical.init (frames s) available (end_ heap_region));
  top ← lift (phys_limit st);
  spaces ← get ADDRESS_SPACES;
  r ← lift (create_address_space (frame_addr top) spaces (mkVm st (nodes_in (frames s) st (ptes s))));
  put ADDRESS_SPACES r.1.2;; put MEMORY r.2;;
  root ← lift (page_table_address r.1.1);
  put CR3 (frame_addr root);;
  mret r.1.1.

(** Serial port and terminal, and their registration with the logger *)
Definition setup_output (multiboot : multiboot_information) (address_space : AddressSpace) : kern () :=
  init_serial_port_service (new_queue env);;
  serial ← get SERIAL_PORT;
  match serial with
  | Some _ => modify LOGGER (fun l => Done (register (serial_stream env) l))
  | None => mret ()
  end;;
  fb ← lift (expect "No framebuffer information provided by bootloader!" (framebuffer_tag multiboot));
  fb ← lift (expect "Unknown framebuffer type!" fb);
  modify MEMORY (map_framebuffer address_space (fb_address fb) (fb_height fb) (fb_pitch fb));;
  init_terminal (kickoff_kernel_thread env) (with_capacity env) (capacity env) (back_buffer env)
    (mkLfb (fb_memory fb) (fb_pitch fb) (fb_width fb) (fb_height fb) (fb_bpp fb));;
  terminal missing;;
  modify LOGGER (fun l => Done (register (terminal_stream env) l)).

(** ACPI, interrupts, system calls and the timer *)
Definition setup_interrupts (multiboot : multiboot_information) : kern () :=
  rsdp_addr ← lift (match rsdp_v2_tag multiboot with
                    | Some tag => add_w 64 tag TAG_SIZE
                    | None =>
                        match rsdp_v1_tag multiboot with
                        | Some tag => add_w 64 tag TAG_SIZE
                        | None => Panic "ACPI not available!"
                        end
                    end);
  init_acpi_tables rsdp_addr;;
  modify IDT (fun t => Done (setup_idt t));;
  modify MSRS (syscall_init (syscall_handler env));;
  init_apic missing (features env) (xapic_base env);;
  t ← get TIMER; t ← on_ports (interrupt_rate 1 t); put TIMER t;;
  timer_plugin missing (timer_handler env);;
  put INTERRUPTS_ENABLED true.

(** The runtime services of the EFI, the keyboard, and interrupts of the serial port *)
Definition setup_devices (multiboot : multiboot_information) : kern () :=
  table ← efi_system_table;
  match table with
  | Some _ => mret ()
  | None =>
      match efi_sdt64_tag multiboot with
      | Some sdt => match from_ptr sdt with Some table => init_efi_system_table table | None => mret () end
      | None => mret ()
      end
  end;;
  init_keyboard_service;;
  ps2_devices missing;;
  keyboard_plugin missing (keyboard_handler env);;
  serial ← get SERIAL_PORT;
  match serial with
  | Some s => serial_plugin missing s (serial_handler env)
  | None => mret ()
  end.

(** The stages of [start] up to its threads *)
Definition setup (multiboot : multiboot_information) : kern () :=
  r ← boot_regions multiboot;
  setup_segments;;
  address_space ← setup_memory r.1 r.2;
  setup_output multiboot address_space;;
  setup_interrupts multiboot;;
  setup_devices multiboot.

(** The end of [start]: the thread that reads the input, and the scheduler *)
Definition start_threads : kern action :=
  ready_kernel_thread (kickoff_kernel_thread env) (with_capacity env) ReadInput;;
  terminal missing;;
  modify LOGGER (fun l => Done (remove (terminal_stream env) l));;
  t ← terminal missing; t ← lift (terminal_clear t); put TERMINAL (Some t);;
  s ← scheduler; r ← lift (Scheduler.start s); put SCHEDULER (Some r.1);;
  mret r.2.

(** [start]; [multiboot] is what [BootInformation::load] yields. *)
Definition start (magic : Z) (multiboot : option multiboot_information) : kern action :=
  l ← get LOGGER; l ← on_ports (logger_init (profile env) l); put LOGGER l;;
  if negb (magic =? MAGIC) then lift (Panic "Invalid Multiboot2 magic number!")
  else
    multiboot ← lift (expect "Failed to get Multiboot2 information!" multiboot);
    setup multiboot;;
    start_threads.
End Start.
