(* ===== verification/StartOrder.v ===== *)
(** * The order of the kernel's start

    [start] never accesses a service before it is initialized, and what the kernel has when
    it hands over to the scheduler. *)

From stdpp Require Import fin_maps gmap.
From S2P Require Import Machine.
From S2P Require Import Prelude Frames Physical BootMap PagingAlloc Ports Serial Ps2 Pit Color Lfb Terminal.
From S2P Require Import Heap Interrupts Descriptors Apic Log Scheduler Thread Paging PagingSpace AddressSpaces BootPaging ApicInit Drivers Services Start.
#[local] Open Scope Z_scope.
#[local] Hint Extern 0 ThreadOps => exact (@thread_ops closure) : typeclass_instances.

(** [x] and [y] are the same, and if they are a result it satisfies [Q]. *)
Definition same_result {A} (x y : res A) (Q : A → Prop) : Prop := x = y ∧ ∀ a, y = Done a → Q a.
Lemma same_bind {A B} (x y : res A) (c c' : A → res B) P Q :
  same_result x y P → (∀ a, P a → same_result (c a) (c' a) Q) → same_result (x ≫= c) (y ≫= c') Q.
Proof. intros [-> HP] Hc. destruct y as [a| | |]; cbn; [by apply Hc, HP|by split..]. Qed.
Lemma same_refl {A} (x : res A) (Q : A → Prop) : (∀ a, x = Done a → Q a) → same_result x x Q.
Proof. by split. Qed.
Lemma same_done {A} (a : A) (Q : A → Prop) : Q a → same_result (Done a) (Done a) Q.
Proof. intros Ha. split; [done|]. by intros b [= <-]. Qed.
Lemma same_weaken {A} (x y : res A) (P Q : A → Prop) : same_result x y P → (∀ a, P a → Q a) → same_result x y Q.
Proof. intros [-> HP] HQ. split; [done|]. intros a Ha. by apply HQ, HP. Qed.

Section Order.
Context `{Profile} `{PhysFrameOps} `{!PhysFrameLaws} `{NodeLayout} `{PageOps} `{EntryOps} `{VirtAddrOps} `{SelectorOps} `{FontOps}.
Context `{Device} `{QueueOps} `{ControllerOps} `{HeapOps} `{IdtOps} `{ApicDevices} `{GdtOps} `{StarOps} `{FinMap Z M} {World : Type} `{AcpiOps}.
Let kernel := kernel (M := M) (World := World).
Let kern := kern (M := M) (World := World).
Implicit Types (k : kernel).

Lemma set_field_eq f x k : set_field f x k f = x.
Proof. unfold set_field. destruct (decide (f = f)) as [e|]; [|done]. by rewrite (Eqdep_dec.UIP_dec field_eq_dec e eq_refl). Qed.
Lemma set_field_ne f g x k : f ≠ g → set_field f x k g = k g.
Proof. intros Hne. unfold set_field. by destruct (decide (f = g)). Qed.

(** One step of a program *)
Lemma same_get {A} f (c c' : content f → kern A) k Q : same_result (c (k f) k) (c' (k f) k) Q → same_result ((get f ≫= c) k) ((get f ≫= c') k) Q.
Proof. done. Qed.
Lemma same_put {A} f x (c c' : () → kern A) k Q :
  same_result (c tt (set_field f x k)) (c' tt (set_field f x k)) Q → same_result ((put f x ≫= c) k) ((put f x ≫= c') k) Q.
Proof. done. Qed.
Lemma same_lift {A B} (r : res B) (c c' : B → kern A) k Q :
  (∀ a, r = Done a → same_result (c a k) (c' a k) Q) → same_result ((lift r ≫= c) k) ((lift r ≫= c') k) Q.
Proof. destruct r as [a| | |]; [intros Hc; exact (Hc a eq_refl)|by split..]. Qed.
Lemma same_seq {A B} (m m' : kern B) (c c' : B → kern A) k P Q :
  same_result (m k) (m' k) P → (∀ a k', P (a, k') → same_result (c a k') (c' a k') Q) → same_result ((m ≫= c) k) ((m' ≫= c') k) Q.
Proof. intros Hm Hc. unfold mbind, kern_bind. eapply same_bind; [exact Hm|]. intros [a k'] HP. by apply Hc. Qed.
Lemma same_ret {A} (a : A) k (Q : A * kernel → Prop) : Q (a, k) → same_result ((mret a : kern A) k) ((mret a : kern A) k) Q.
Proof. apply same_done. Qed.

(** [k'] is [k] but for the fields in [fs]. *)
Definition touches (fs : list field) k k' : Prop := ∀ f, f ∉ fs → k' f = k f.
Lemma touches_refl fs k : touches fs k k.
Proof. by intros f. Qed.
Lemma touches_set fs f x k k' : touches fs k k' → f ∈ fs → touches fs k (set_field f x k').
Proof. intros Hk Hf g Hg. rewrite set_field_ne; [by apply Hk|]. by intros ->. Qed.
Lemma touches_trans fs fs' k k1 k2 : touches fs k k1 → touches fs' k1 k2 → (∀ f, f ∈ fs' → f ∈ fs) → touches fs k k2.
Proof. intros H1' H2' Hsub f Hf. rewrite H2' by auto. by apply H1'. Qed.

Ltac sets := repeat (apply touches_set; [|set_solver]).
Ltac keeps := sets; first [apply touches_refl|eassumption].

Variable missing : ∀ A, string → res A.

(** Symbolic execution: [fields] reads fields through updates, [step] executes an access to a field. *)
Ltac fields := repeat first [rewrite set_field_eq|rewrite set_field_ne by done].
Ltac fields_in H := repeat first [rewrite set_field_eq in H|rewrite set_field_ne in H by done].
Ltac step :=
  lazymatch goal with
  | |- same_result ((get ?f ≫= _) _) _ _ => apply (same_get f)
  | |- same_result ((put ?f ?x ≫= _) _) _ _ => apply (same_put f x)
  | |- same_result ((lift ?r ≫= _) _) _ _ => apply (same_lift r)
  | |- same_result (mret ?a ?k) _ _ => apply (same_ret a k)
  end; cbv beta zeta.

(** *** The services *)

Lemma on_ports_same {A} (m : io A) k :
  same_result (on_ports m k) ((on_ports m : kern A) k) (fun r => ∃ d, m (k PORTS) = Done (r.1, d) ∧ r.2 = set_field PORTS d k).
Proof.
  unfold on_ports. step. step. intros [a d] Ha. step. step. cbn. by exists d.
Qed.

Lemma scheduler_same k : same_result (scheduler k) ((scheduler : kern _) k) (fun r =>
  r.1 = default scheduler_new (k SCHEDULER) ∧ r.2 = set_field SCHEDULER (Some r.1) k).
Proof. unfold scheduler. step. cbn zeta. step. by step. Qed.

(** A new thread goes to the front of the queue. *)
Definition scheduler_of k : Scheduler M := default scheduler_new (k SCHEDULER).
Lemma ready_kernel_thread_same kickoff with_capacity entry k :
  same_result (ready_kernel_thread kickoff with_capacity entry k) ((ready_kernel_thread kickoff with_capacity entry : kern _) k) (fun r =>
    touches [SCHEDULER; THREAD_ID_COUNTER] k r.2 ∧
    ∃ t, Thread.entry t = entry ∧ tid t = k THREAD_ID_COUNTER ∧ r.2 THREAD_ID_COUNTER = wrap 64 (k THREAD_ID_COUNTER + 1) ∧
      r.2 SCHEDULER = Some (ready (scheduler_of k) t)).
Proof.
  unfold ready_kernel_thread. eapply same_seq; [apply scheduler_same|]. cbn [fst snd]. intros s k1 (-> & ->).
  step. fields. cbn [next_thread_id]. step. step. fields. step. intros a _. step. intros t Ht.
  eapply same_seq; [apply scheduler_same|]. cbn [fst snd]. intros s k1 (-> & ->).
  split; [done|]. intros [[] k'] [= <-]. cbn [fst snd].
  fields. cbn [default].
  unfold new_kernel_thread in Ht. apply prepare_kernel_stack_same in Ht as (Hid & _ & _ & He).
  split; [keeps|]. exists t. by rewrite He, Hid.
Qed.

Lemma init_efi_same table k : same_result (init_efi_system_table table k) ((init_efi_system_table table : kern _) k) (fun r =>
  touches [EFI_SYSTEM_TABLE] k r.2 ∧ r.2 EFI_SYSTEM_TABLE = Some (default table (k EFI_SYSTEM_TABLE))).
Proof.
  unfold init_efi_system_table. step. eapply same_seq with (P := fun r => r.1 = Some (default table (k EFI_SYSTEM_TABLE)) ∧ r.2 = k).
  - unfold once. destruct (k EFI_SYSTEM_TABLE) as [t|]; by split; [|intros [] [= <- <-]].
  - cbn [fst snd]. intros t k' (-> & ->). split; [done|]. intros r [= <-]. cbn [fst snd].
    split; [keeps|]. by fields.
Qed.

Lemma init_acpi_same rsdp k : same_result (init_acpi_tables rsdp k) ((init_acpi_tables rsdp : kern _) k) (fun r =>
  touches [ACPI_TABLES] k r.2 ∧ is_Some (r.2 ACPI_TABLES)).
Proof.
  unfold init_acpi_tables. step. eapply same_seq with (P := fun r => is_Some r.1 ∧ r.2 = k).
  - unfold once. destruct (k ACPI_TABLES) as [t|]; [by split; [|intros [] [= <- <-]]|]. step. intros t _. by step.
  - cbn [fst snd]. intros t k' (Ht & ->). split; [done|]. intros r [= <-]. cbn [fst snd].
    split; [keeps|]. by fields.
Qed.

(** [Apic::new] accesses the ACPI tables. *)
Lemma init_apic_same features base k : is_Some (k ACPI_TABLES) →
  same_result (init_apic missing features base k) ((init_apic panic features base : kern _) k) (fun r =>
    touches [APIC; MEMORY] k r.2 ∧ is_Some (r.2 APIC)).
Proof.
  intros [tables Ht]. unfold init_apic. step. eapply same_seq with (P := fun r => is_Some r.1 ∧ touches [APIC; MEMORY] k r.2).
  - unfold once. destruct (k APIC) as [a|]; [by split; [|intros [] [= <- <-]]|].
    eapply same_seq with (P := fun r => touches [APIC; MEMORY] k r.2).
    + do 4 step. rewrite Ht. step. intros a _. step. step. cbn. keeps.
    + cbn [fst snd]. intros a k' Hk. by step.
  - cbn [fst snd]. intros a k' (Ha & Hk). split; [done|]. intros r [= <-]. cbn [fst snd].
    split; [keeps|]. by fields.
Qed.

Lemma init_keyboard_same k : same_result (init_keyboard_service k) ((init_keyboard_service : kern _) k) (fun r =>
  touches [PS2] k r.2 ∧ is_Some (r.2 PS2)).
Proof.
  unfold init_keyboard_service. step. eapply same_seq with (P := fun r => is_Some r.1 ∧ r.2 = k).
  - unfold once. destruct (k PS2) as [t|]; [by split; [|intros [] [= <- <-]]|].
    eapply same_seq with (P := fun r => r.2 = k); [step; split; [done|]; intros [c k'] Hc; unfold lift in Hc; by inv_res|].
    cbn. intros c k' ->. by step.
  - cbn [fst snd]. intros t k' (Ht & ->). split; [done|]. intros r [= <-]. cbn [fst snd].
    split; [keeps|]. by fields.
Qed.

(** Plugging in a driver accesses the APIC. *)
Definition dispatcher_of k : InterruptDispatcher := default dispatcher_new (k INTERRUPT_DISPATCHER).
Lemma plugin_same v h k : is_Some (k APIC) →
  same_result (plugin_service missing v h k) ((plugin_service panic v h : kern _) k) (fun r =>
    touches [INTERRUPT_DISPATCHER; APIC] k r.2 ∧ is_Some (r.2 APIC) ∧
    assign (dispatcher_of k) v h = Done (dispatcher_of r.2) ∧ is_Some (r.2 INTERRUPT_DISPATCHER)).
Proof.
  intros [a Ha]. unfold plugin_service. eapply same_seq with (P := fun r => r.1 = dispatcher_of k ∧ r.2 = set_field INTERRUPT_DISPATCHER (Some r.1) k).
  { unfold interrupt_dispatcher. step. step. by step. }
  cbn [fst snd]. intros d k1 (-> & ->). step. intros d Hd. step.
  eapply same_seq with (P := fun r => r.1 = a ∧ r.2 = set_field INTERRUPT_DISPATCHER (Some d) (set_field INTERRUPT_DISPATCHER (Some (dispatcher_of k)) k)).
  { unfold apic. step. fields. rewrite Ha. cbn [existing]. by step. }
  cbn [fst snd]. intros a' k1 (-> & ->). step. intros a1 _. split; [done|]. intros r [= <-]. cbn [fst snd].
  split; [keeps|]. unfold dispatcher_of. by fields.
Qed.

(** The streams of the logger are the registered ones. *)
Lemma logger_init_streams profile l d l' d' : logger_init profile l d = Done (l', d') → streams l' = streams l.
Proof.
  unfold logger_init, io_bind. intros Hl. inv_res. destruct a as [found d1]. cbn [fst snd] in *.
  destruct found; inv_res; unfold io_ret in *; simplify_eq; by destruct (String.eqb profile "debug").
Qed.

Definition serial_streams (env : environment (World := World)) (s : option SerialPort) : list Z :=
  if s is Some _ then [serial_stream env] else [].

(** A new thread in the kernel's scheduler *)
Definition readied (entry : closure) (id : Z) (s s' : Scheduler M) : Prop := ∃ t, Thread.entry t = entry ∧ tid t = id ∧ s' = ready s t.

Lemma init_terminal_same kickoff with_capacity capacity memory target k :
  same_result (init_terminal kickoff with_capacity capacity memory target k) ((init_terminal kickoff with_capacity capacity memory target : kern _) k) (fun r =>
    touches [TERMINAL; SCHEDULER; THREAD_ID_COUNTER] k r.2 ∧ is_Some (r.2 TERMINAL) ∧
    readied RunCursor (k THREAD_ID_COUNTER) (scheduler_of k) (scheduler_of r.2) ∧ r.2 THREAD_ID_COUNTER = wrap 64 (k THREAD_ID_COUNTER + 1)).
Proof.
  unfold init_terminal. step. eapply same_seq with (P := fun r => is_Some r.1 ∧ r.2 = k).
  - unfold once. destruct (k TERMINAL) as [t|]; [by split; [|intros [] [= <- <-]]|]. step. intros t _. by step.
  - cbn [fst snd]. intros t k' (Ht & ->). step.
    eapply same_weaken; [apply ready_kernel_thread_same|]. cbn beta. intros r (Hk & t1 & He & Hid & Hc & Hs).
    unfold scheduler_of in *. rewrite Hs, Hc. fields. rewrite (Hk TERMINAL) by set_solver. fields.
    split; [|split; [done|split; [|done]]].
    + eapply touches_trans; [|exact Hk|set_solver]. keeps.
    + exists t1. split; [done|]. split; [by rewrite Hid; fields|done].
Qed.

Lemma terminal_same k : is_Some (k TERMINAL) →
  same_result (terminal missing k) ((terminal panic : kern _) k) (fun r => k TERMINAL = Some r.1 ∧ r.2 = k).
Proof. intros [t Ht]. unfold terminal. step. rewrite Ht. cbn [existing]. by step. Qed.

Lemma modify_same f c k : same_result (modify f c k) ((modify f c : kern _) k) (fun r => ∃ x, c (k f) = Done x ∧ r.2 = set_field f x k).
Proof. unfold modify. step. step. intros x Hx. split; [done|]. intros r [= <-]. cbn. by exists x. Qed.

Lemma same_modify f c k (Q : () * kernel → Prop) : (∀ x, c (k f) = Done x → Q (tt, set_field f x k)) →
  same_result (modify f c k) ((modify f c : kern _) k) Q.
Proof. intros HQ. eapply same_weaken; [apply modify_same|]. intros [[] k'] (x & Hx & Hk'). cbn in Hk'. subst k'. by apply HQ. Qed.

(** *** The stages of [start] *)
Variable env : environment (World := World).

Lemma boot_regions_same multiboot k :
  same_result (boot_regions env multiboot k) ((boot_regions env multiboot : kern _) k) (fun r => touches [ALLOCATOR; EFI_SYSTEM_TABLE] k r.2).
Proof.
  unfold boot_regions. eapply same_seq with (P := fun r => r.2 = k).
  { destruct (efi_boot_services _); [|by step]. step. intros image _. step. intros sdt _. step. intros _ _. step. intros _ _. by step. }
  cbn [snd]. intros _ k1 ->. step. intros region _. step. intros r _. step. intros h _. step.
  eapply same_seq with (P := fun r => touches [ALLOCATOR; EFI_SYSTEM_TABLE] k r.2).
  - assert (touches [ALLOCATOR; EFI_SYSTEM_TABLE] k (set_field ALLOCATOR h k)) as Ht by keeps.
    destruct (efi_boot_services _); [|by step]. eapply same_weaken; [apply init_efi_same|]. intros [] [Hk _].
    eapply touches_trans; [exact Ht|exact Hk|set_solver].
  - cbn [snd]. intros _ k1 Hk. by step.
Qed.

Lemma init_gdt_loaded t g c g' c' : init_gdt t g c = Done (g', c') → gdtr c' = Some g'.
Proof.
  unfold init_gdt, load_tss, set_cs, set_ss. intros Hi. inv_res. unfold null_segments. cbn [gdtr].
  repeat match goal with E : match ?x with _ => _ end = Done _ |- _ => destruct x; simplify_eq; cbn [gdtr] in * end; done.
Qed.
Lemma setup_segments_same k :
  same_result (setup_segments env k) ((setup_segments env : kern _) k) (fun r => touches [GDT; SEGMENTS] k r.2 ∧ gdtr (r.2 SEGMENTS) = Some (r.2 GDT)).
Proof.
  unfold setup_segments. step. step. step. intros [g c] Hg. step. split; [done|]. intros r [= <-]. cbn [fst snd]. fields.
  split; [keeps|]. by eapply init_gdt_loaded.
Qed.

(** The first address space is registered, and in use. *)
Definition in_use (a : AddressSpace) k : Prop := k ADDRESS_SPACES = [a] ∧ k CR3 = root_table a.
Lemma setup_memory_same regions heap_region k : k ADDRESS_SPACES = [] →
  same_result (setup_memory env regions heap_region k) ((setup_memory env regions heap_region : kern _) k) (fun r =>
    touches [ADDRESS_SPACES; MEMORY; CR3] k r.2 ∧ in_use r.1 r.2).
Proof.
  intros Hspaces. unfold setup_memory. step. intros region _. step. intros available _. step. step. intros st _. step. intros limit _. step. rewrite Hspaces.
  step. intros [[a spaces] s] Ha. step. step. step. intros root Hroot. step. step. cbn [fst snd] in *.
  split; [keeps|]. unfold in_use. fields. unfold page_table_address in Hroot. apply frame_at_done in Hroot. split; [|done].
  unfold create_address_space in Ha. by inv_res.
Qed.

Lemma setup_output_same multiboot a k :
  same_result (setup_output missing env multiboot a k) ((setup_output panic env multiboot a : kern _) k) (fun r =>
    touches [PORTS; SERIAL_PORT; LOGGER; MEMORY; TERMINAL; SCHEDULER; THREAD_ID_COUNTER] k r.2 ∧ is_Some (r.2 TERMINAL) ∧
    streams (r.2 LOGGER) = streams (k LOGGER) ++ serial_streams env (r.2 SERIAL_PORT) ++ [terminal_stream env] ∧
    readied RunCursor (k THREAD_ID_COUNTER) (scheduler_of k) (scheduler_of r.2) ∧ r.2 THREAD_ID_COUNTER = wrap 64 (k THREAD_ID_COUNTER + 1)).
Proof.
  unfold setup_output. eapply same_seq with (P := fun r => touches [PORTS; SERIAL_PORT] k r.2).
  { unfold init_serial_port_service. step. eapply same_seq; [apply on_ports_same|]. cbn [fst snd]. intros s k1 (d & _ & ->).
    split; [done|]. intros r [= <-]. cbn [snd]. keeps. }
  cbn [snd]. intros _ k1 Hk1. step. set (serial := k1 SERIAL_PORT).
  eapply same_seq with (P := fun r => touches [LOGGER] k1 r.2 ∧ streams (r.2 LOGGER) = streams (k LOGGER) ++ serial_streams env serial).
  { assert (k1 LOGGER = k LOGGER) as Hlog by (apply Hk1; set_solver). destruct serial; cbn [serial_streams].
    - apply same_modify. intros l [= <-]. cbn [snd]. split; [keeps|]. fields. cbn [streams register]. by rewrite Hlog.
    - step. cbn [snd]. split; [keeps|]. by rewrite Hlog, app_nil_r. }
  cbn [snd]. intros _ k2 [Hk2 Hlog]. step. intros fb _. step. intros fb' _.
  eapply same_seq; [apply modify_same|]. cbn beta. intros [] k3 (m & _ & Hk3). cbn [snd] in Hk3. subst k3.
  eapply same_seq; [apply init_terminal_same|]. cbn [snd]. intros _ k3 (Hk3 & Ht & Hready & Hcount).
  eapply same_seq; [by apply terminal_same|]. cbn [fst snd]. intros t k4 (_ & ->).
  apply same_modify. intros l [= <-]. cbn [snd].
  assert (touches [PORTS; SERIAL_PORT; LOGGER; MEMORY; TERMINAL; SCHEDULER; THREAD_ID_COUNTER] k k3) as Hk.
  { eapply touches_trans; [|exact Hk3|set_solver]. apply touches_set; [|set_solver].
    eapply touches_trans; [|exact Hk2|set_solver]. intros f Hf. apply Hk1. set_solver. }
  assert (k2 SCHEDULER = k SCHEDULER ∧ k2 THREAD_ID_COUNTER = k THREAD_ID_COUNTER) as [Hs Hc]
    by (split; (etransitivity; [apply Hk2; set_solver|apply Hk1; set_solver])).
  unfold scheduler_of in *. fields_in Hready. fields_in Hcount.
  rewrite Hs in Hready. rewrite Hc in Hready, Hcount.
  split; [keeps|]. fields. split; [done|]. split; [|done].
  rewrite (Hk3 LOGGER), (Hk3 SERIAL_PORT) by set_solver. fields. rewrite (Hk2 SERIAL_PORT) by set_solver. fold serial.
  cbn [streams register]. by rewrite Hlog, <-app_assoc.
Qed.

(** The handlers of a vector *)
Definition handlers_of k (v : InterruptVector) : list (InterruptHandler World) :=
  match int_vectors (dispatcher_of k) !! Z.to_nat (vector_number v) with Some vec => handlers vec | None => [] end.

Lemma assigned v h k k' : assign (dispatcher_of k) v h = Done (dispatcher_of k') →
  ∀ v', handlers_of k' v' = if vector_number v' =? vector_number v then handlers_of k v ++ [h] else handlers_of k v'.
Proof.
  unfold assign, handlers_of. destruct (int_vectors (dispatcher_of k) !! Z.to_nat (vector_number v)) as [vec|] eqn:Hv; [|done].
  intros Ha v'. injection Ha as Ha. rewrite <-Ha. cbn [int_vectors]. destruct (Z.eqb_spec (vector_number v') (vector_number v)) as [->|Hn].
  - rewrite list_lookup_insert_eq by (by eapply lookup_lt_Some). done.
  - rewrite list_lookup_insert_ne; [done|]. assert (∀ u, 0 ≤ vector_number u) as Hpos by (by intros []). pose proof (Hpos v). pose proof (Hpos v'). lia.
Qed.

Lemma setup_interrupts_same multiboot k :
  same_result (setup_interrupts missing env multiboot k) ((setup_interrupts panic env multiboot : kern _) k) (fun r =>
    touches [ACPI_TABLES; IDT; MSRS; MEMORY; APIC; PORTS; TIMER; INTERRUPT_DISPATCHER; INTERRUPTS_ENABLED] k r.2 ∧
    is_Some (r.2 ACPI_TABLES) ∧ is_Some (r.2 APIC) ∧ r.2 IDT = setup_idt (k IDT) ∧ r.2 INTERRUPTS_ENABLED = true ∧
    assign (dispatcher_of k) Pit (timer_handler env) = Done (dispatcher_of r.2)).
Proof.
  unfold setup_interrupts. step. intros rsdp _.
  eapply same_seq; [apply init_acpi_same|]. cbn [snd]. intros _ k1 [Hk1 Hacpi].
  eapply same_seq; [apply modify_same|]. cbn beta. intros [] k2 (t & [= <-] & Hk2). cbn [snd] in Hk2. subst k2.
  eapply same_seq; [apply modify_same|]. cbn beta. intros [] k2 (m & _ & Hk2). cbn [snd] in Hk2. subst k2.
  eapply same_seq; [apply init_apic_same; by fields|]. cbn [snd]. intros _ k2 [Hk2 Hapic].
  step. eapply same_seq; [apply on_ports_same|]. cbn [fst snd]. intros tm k3 (d & _ & ->). step.
  eapply same_seq; [apply plugin_same; by fields|]. cbn [snd]. intros _ k3 (Hk3 & Hapic3 & Hassign & _).
  split; [done|]. intros r [= <-]. cbn [snd].
  assert (touches [ACPI_TABLES; IDT; MSRS; MEMORY; APIC; PORTS; TIMER] k k2) as Hk.
  { eapply touches_trans; [|exact Hk2|set_solver]. sets. intros f Hf. apply Hk1. set_solver. }
  split.
  { apply touches_set; [|set_solver]. eapply touches_trans; [|exact Hk3|set_solver]. sets. intros f Hf. apply Hk. set_solver. }
  fields. rewrite (Hk3 ACPI_TABLES), (Hk3 IDT) by set_solver. fields. rewrite (Hk2 ACPI_TABLES), (Hk2 IDT) by set_solver. fields.
  split; [done|]. split; [done|]. split; [by rewrite (Hk1 IDT) by set_solver|]. split; [done|].
  unfold dispatcher_of in *. fields. fields_in Hassign. by rewrite (Hk INTERRUPT_DISPATCHER) in Hassign by set_solver.
Qed.

Lemma setup_devices_same multiboot k : is_Some (k APIC) →
  same_result (setup_devices missing env multiboot k) ((setup_devices panic env multiboot : kern _) k) (fun r =>
    touches [EFI_SYSTEM_TABLE; PS2; INTERRUPT_DISPATCHER; APIC; PORTS] k r.2 ∧ is_Some (r.2 PS2) ∧ is_Some (r.2 APIC) ∧
    handlers_of r.2 Pit = handlers_of k Pit ∧ handlers_of r.2 Keyboard = handlers_of k Keyboard ++ [keyboard_handler env]).
Proof.
  intros Hapic. unfold setup_devices, efi_system_table. step.
  eapply same_seq with (P := fun r => touches [EFI_SYSTEM_TABLE] k r.2).
  { destruct (k EFI_SYSTEM_TABLE); [step; cbn [snd]; keeps|]. destruct (efi_sdt64_tag multiboot) as [sdt|]; [|step; cbn [snd]; keeps].
    destruct (from_ptr sdt); [|step; cbn [snd]; keeps]. eapply same_weaken; [apply init_efi_same|]. by intros r []. }
  cbn [snd]. intros _ k1 Hk1. eapply same_seq; [apply init_keyboard_same|]. cbn [snd]. intros _ k2 [Hk2 Hps2].
  eapply same_seq with (P := fun r => r.2 = k2).
  { unfold ps2_devices. step. destruct Hps2 as [c ->]. cbn [existing]. by step. }
  cbn [snd]. intros _ k2' ->. assert (∀ f, f ≠ EFI_SYSTEM_TABLE → f ≠ PS2 → k2 f = k f) as Hk.
  { intros f He Hp. rewrite (Hk2 f) by set_solver. apply Hk1. set_solver. }
  eapply same_seq; [apply plugin_same; by rewrite Hk|]. cbn [snd]. intros _ k3 (Hk3 & Hapic3 & Hassign & _).
  pose proof (assigned _ _ _ _ Hassign) as Hkb. assert (∀ v, handlers_of k2 v = handlers_of k v) as Hh
    by (intros v; unfold handlers_of, dispatcher_of; by rewrite Hk).
  assert (touches [EFI_SYSTEM_TABLE; PS2; INTERRUPT_DISPATCHER; APIC; PORTS] k k3) as Ht.
  { intros f Hf. rewrite (Hk3 f) by set_solver. apply Hk; set_solver. }
  assert (is_Some (k3 PS2)) as Hps3 by (by rewrite (Hk3 PS2) by set_solver).
  assert (handlers_of k3 Pit = handlers_of k Pit ∧ handlers_of k3 Keyboard = handlers_of k Keyboard ++ [keyboard_handler env]) as [HP HK]
    by (rewrite !Hkb, !Hh; done).
  step. destruct (k3 SERIAL_PORT) as [s|]; [|by step].
  unfold serial_plugin. destruct (Serial.buffer s); [|by split].
  eapply same_seq; [by apply plugin_same|]. cbn [snd]. intros _ k4 (Hk4 & Hapic4 & Hassign4 & _). pose proof (assigned _ _ _ _ Hassign4) as Hser.
  eapply same_weaken; [apply on_ports_same|]. intros [[] k5] (d & _ & Hd). cbn [fst snd] in *. subst k5.
  assert (∀ v, vector_number v ≠ vector_number (serial_vector (Serial.port s)) → handlers_of (set_field PORTS d k4) v = handlers_of k3 v) as Hsame.
  { intros v Hv. unfold handlers_of at 1, dispatcher_of. rewrite set_field_ne by done. fold (dispatcher_of k4). fold (handlers_of k4 v).
    by rewrite Hser, (proj2 (Z.eqb_neq _ _)). }
  split; [apply touches_set; [|set_solver]; eapply touches_trans; [exact Ht|exact Hk4|set_solver]|].
  fields. rewrite (Hk4 PS2) by set_solver. split; [done|]. split; [done|].
  rewrite !Hsame by (by destruct (Serial.port s)). done.
Qed.

(** *** The whole *)

(** The kernel before [start]: its services do not exist. *)
Definition nothing_started k : Prop :=
  k ADDRESS_SPACES = [] ∧ k SCHEDULER = None ∧ k INTERRUPT_DISPATCHER = None ∧ streams (k LOGGER) = [] ∧ k IDT = idt_new.

Lemma remove_terminal env' serial : serial_stream env' ≠ terminal_stream env' →
  List.filter (fun e => negb (e =? terminal_stream env')) (serial_streams env' serial ++ [terminal_stream env']) = serial_streams env' serial.
Proof.
  intros Hne. rewrite List.filter_app. cbn [List.filter]. rewrite Z.eqb_refl. cbn [negb]. rewrite app_nil_r.
  destruct serial; [|done]. cbn. by rewrite (proj2 (Z.eqb_neq _ _)).
Qed.

(** What the scheduler starts: the first of the two threads *)
Lemma start_two (s1 s2 : Scheduler M) id1 id2 r : readied RunCursor id1 scheduler_new s1 → readied ReadInput id2 s1 s2 →
  Scheduler.start s2 = Done r → ∃ t1 t2, r.2 = StartFirst t1 ∧ current_thread (state r.1) = Some t1 ∧ ready_queue (state r.1) = [t2] ∧
    initialized (state r.1) = false ∧ Thread.entry t1 = RunCursor ∧ tid t1 = id1 ∧ Thread.entry t2 = ReadInput ∧ tid t2 = id2.
Proof.
  intros (t1 & He1 & Hi1 & ->) (t2 & He2 & Hi2 & ->) Hr. cbn in Hr. injection Hr as <-. by exists t1, t2.
Qed.

(** What is set up when [start] hands over to the scheduler *)
Definition services_ready k : Prop :=
  (∃ a, in_use a k) ∧ gdtr (k SEGMENTS) = Some (k GDT) ∧ k IDT = setup_idt idt_new ∧ k INTERRUPTS_ENABLED = true ∧
  is_Some (k ACPI_TABLES) ∧ is_Some (k APIC) ∧ is_Some (k TERMINAL) ∧ is_Some (k PS2) ∧
  handlers_of k Pit = [timer_handler env] ∧ handlers_of k Keyboard = [keyboard_handler env].
Definition hands_over (id : Z) (act : Scheduler.action) k : Prop := ∃ s t1 t2,
  k SCHEDULER = Some s ∧ act = StartFirst t1 ∧ current_thread (state s) = Some t1 ∧ ready_queue (state s) = [t2] ∧
  initialized (state s) = false ∧ Thread.entry t1 = RunCursor ∧ tid t1 = id ∧ Thread.entry t2 = ReadInput ∧ tid t2 = wrap 64 (id + 1).

Lemma setup_same multiboot k : nothing_started k →
  same_result (setup missing env multiboot k) ((setup panic env multiboot : kern _) k) (fun r =>
    services_ready r.2 ∧ streams (r.2 LOGGER) = serial_streams env (r.2 SERIAL_PORT) ++ [terminal_stream env] ∧
    readied RunCursor (k THREAD_ID_COUNTER) scheduler_new (scheduler_of r.2) ∧ r.2 THREAD_ID_COUNTER = wrap 64 (k THREAD_ID_COUNTER + 1)).
Proof.
  intros (Has & Hsc & Hd & Hl & Hidt). unfold setup.
  eapply same_seq; [apply boot_regions_same|]. cbn [snd]. intros [regions heap_region] k1 K1. cbn [fst snd].
  eapply same_seq; [apply setup_segments_same|]. cbn [snd]. intros _ k2 [K2 Hgdt].
  eapply same_seq; [apply setup_memory_same; by rewrite (K2 ADDRESS_SPACES), (K1 ADDRESS_SPACES) by set_solver|].
  cbn [fst snd]. intros a k3 [K3 Hin].
  eapply same_seq; [apply setup_output_same|]. cbn [snd]. intros _ k4 (K4 & Hterm & Hlog & Hready & Hcount).
  eapply same_seq; [apply setup_interrupts_same|]. cbn [snd]. intros _ k5 (K5 & Hacpi & Hapic & Hidt5 & Hint & Hassign).
  eapply same_weaken; [by apply setup_devices_same|]. intros [[] k6] (K6 & Hps2 & Hapic6 & HP & HK). cbn [snd] in *.
  assert (∀ f, f ∉ [ALLOCATOR; EFI_SYSTEM_TABLE; GDT; SEGMENTS; ADDRESS_SPACES; MEMORY; CR3] → k3 f = k f) as K.
  { intros f Hf. rewrite (K3 f), (K2 f) by set_solver. apply K1. set_solver. }
  assert (dispatcher_of k4 = dispatcher_new) as Hd4.
  { unfold dispatcher_of. by rewrite (K4 INTERRUPT_DISPATCHER), (K INTERRUPT_DISPATCHER), Hd by set_solver. }
  assert (∀ v, handlers_of k5 v = if vector_number v =? vector_number Pit then [timer_handler env] else handlers_of k4 v) as Hh5.
  { intros v. pose proof (assigned _ _ _ _ Hassign v) as Hv. unfold handlers_of at 2 in Hv. by rewrite Hd4 in Hv. }
  unfold services_ready. split_and!.
  - exists a. unfold in_use. rewrite (K6 ADDRESS_SPACES), (K6 CR3), (K5 ADDRESS_SPACES), (K5 CR3), (K4 ADDRESS_SPACES), (K4 CR3) by set_solver. exact Hin.
  - rewrite (K6 SEGMENTS), (K6 GDT), (K5 SEGMENTS), (K5 GDT), (K4 SEGMENTS), (K4 GDT), (K3 SEGMENTS), (K3 GDT) by set_solver. exact Hgdt.
  - rewrite (K6 IDT), Hidt5, (K4 IDT), (K IDT) by set_solver. by rewrite Hidt.
  - by rewrite (K6 INTERRUPTS_ENABLED) by set_solver.
  - by rewrite (K6 ACPI_TABLES) by set_solver.
  - done.
  - by rewrite (K6 TERMINAL), (K5 TERMINAL) by set_solver.
  - done.
  - by rewrite HP, Hh5.
  - rewrite HK, Hh5. cbn [Z.eqb]. change (vector_number Keyboard =? vector_number Pit) with false. cbn iota.
    unfold handlers_of. by rewrite Hd4.
  - rewrite (K6 LOGGER), (K6 SERIAL_PORT), (K5 LOGGER), (K5 SERIAL_PORT), Hlog, (K LOGGER), Hl by set_solver. done.
  - unfold scheduler_of in *. rewrite (K6 SCHEDULER), (K5 SCHEDULER) by set_solver.
    rewrite (K SCHEDULER), (K THREAD_ID_COUNTER), Hsc in Hready by set_solver. exact Hready.
  - rewrite (K6 THREAD_ID_COUNTER), (K5 THREAD_ID_COUNTER), Hcount, (K THREAD_ID_COUNTER) by set_solver. done.
Qed.

Lemma services_ready_keep k k' : touches [SCHEDULER; THREAD_ID_COUNTER; LOGGER; TERMINAL] k k' → is_Some (k' TERMINAL) →
  services_ready k → services_ready k'.
Proof.
  intros Hk Ht (Hin & Hg & Hidt & Hint & Hacpi & Hapic & _ & Hps & HP & HK). unfold services_ready, in_use, handlers_of, dispatcher_of in *.
  rewrite (Hk ADDRESS_SPACES), (Hk CR3), (Hk SEGMENTS), (Hk GDT), (Hk IDT), (Hk INTERRUPTS_ENABLED), (Hk ACPI_TABLES), (Hk APIC), (Hk PS2),
    (Hk INTERRUPT_DISPATCHER) by set_solver. by split_and!.
Qed.

(** C12: the kernel starts in the right order.  From the state in which nothing is started, no getter of a service that
    does not exist is ever called: [start] is the same whatever such a call did.  If [start] gets to its end (no component
    of it panics), the first address space is the one in use, the segments and gates are set, interrupts are enabled, all services exist, the
    timer and the keyboard have their handlers, the logger writes to the serial port (if there is one) and
    not to the terminal any more, and the scheduler, which does not preempt threads yet, starts the cursor's
    thread with the input loop's thread ready. *)
Theorem start_in_order magic multiboot k : nothing_started k → serial_stream env ≠ terminal_stream env →
  start missing env magic multiboot k = (start panic env magic multiboot : kern _) k ∧
  ∀ act k', (start panic env magic multiboot : kern _) k = Done (act, k') →
    services_ready k' ∧ streams (k' LOGGER) = serial_streams env (k' SERIAL_PORT) ∧ hands_over (k THREAD_ID_COUNTER) act k'.
Proof.
  intros Hn Hne. cut (same_result (start missing env magic multiboot k) ((start panic env magic multiboot : kern _) k) (fun r =>
    services_ready r.2 ∧ streams (r.2 LOGGER) = serial_streams env (r.2 SERIAL_PORT) ∧ hands_over (k THREAD_ID_COUNTER) r.1 r.2)).
  { intros [Heq Hr]. split; [exact Heq|]. intros act k' Hs. exact (Hr _ Hs). }
  unfold start. step. eapply same_seq; [apply on_ports_same|]. cbn [fst snd]. intros l k1 (d & Hl & ->). step.
  apply logger_init_streams in Hl. set (k1 := set_field LOGGER l (set_field PORTS d k)).
  destruct (negb (magic =? MAGIC)); [by split|]. step. intros mb _.
  eapply same_seq; [apply setup_same|].
  { unfold nothing_started in *. subst k1. fields. by rewrite Hl. }
  cbn [snd]. intros _ k2 (Hsv & Hlog & Hready & Hcount). subst k1. fields_in Hready. fields_in Hcount.
  unfold start_threads. eapply same_seq; [apply ready_kernel_thread_same|]. cbn [snd]. intros _ k3 (K3 & t & He & Hid & _ & Hs).
  assert (is_Some (k3 TERMINAL)) as Ht3 by (rewrite (K3 TERMINAL) by set_solver; apply Hsv).
  eapply same_seq; [by apply terminal_same|]. cbn [fst snd]. intros tm k4 (_ & ->).
  eapply same_seq; [apply modify_same|]. cbn beta. intros [] k4 (l' & [= <-] & Hk4). cbn [snd] in Hk4. subst k4.
  eapply same_seq; [apply terminal_same; by fields|]. cbn [fst snd]. intros tm' k4 (_ & ->).
  step. intros t' _. step. eapply same_seq; [apply scheduler_same|]. cbn [fst snd]. intros s k4 (-> & ->). fields. rewrite Hs. cbn [default].
  step. intros r Hr. step. step. cbn [fst snd]. fields.
  split; [|split].
  - apply services_ready_keep with k2; [|by fields|done]. sets. intros f Hf. apply K3. set_solver.
  - rewrite (K3 LOGGER), (K3 SERIAL_PORT) by set_solver. cbn [streams remove]. rewrite Hlog. by apply remove_terminal.
  - destruct (start_two _ _ _ (k2 THREAD_ID_COUNTER) _ Hready (ex_intro _ t (conj He (conj Hid eq_refl))) Hr)
      as (t1 & t2 & Ha & Hcur & Hq & Hi & He1 & Hi1 & He2 & Hi2).
    exists r.1, t1, t2. fields. rewrite Hcount in Hi2. by split_and!.
Qed.
End Order.

(** ** The start of a small machine: 640 KiB of memory with the kernel's image, and an area for the heap *)
Section Examples.
#[local] Existing Instance development.
#[local] Existing Instance demo_layout.
#[local] Existing Instance demo_virt.
#[local] Existing Instance demo_selector.
#[local] Existing Instance demo_fonts.
#[local] Existing Instance demo_device.
#[local] Existing Instance demo_heap_ops.
#[local] Existing Instance demo_idt.
#[local] Existing Instance demo_ops.
#[local] Existing Instance demo_devices.
#[local] Existing Instance demo_gdt.
#[local] Existing Instance demo_star.
#[local] Instance demo_acpi : AcpiOps := {|
  AcpiTables := Z; from_rsdp a := Some a; find_madt _ := Some (Some (ApicModel demo_madt));
|}.
#[local] Instance demo_queue : QueueOps := list_queue 4.
Definition demo_kern : Type := Services.kernel (M := gmap Z) (World := list string).
Definition demo_areas (pages : Z) : list efi_area := [mkEfiArea CONVENTIONAL 0 0xa0; mkEfiArea CONVENTIONAL 0x100000 pages].
Definition demo_info (pages : Z) : multiboot_information :=
  mkMultiboot (mkBootInfo None (Some (demo_areas pages)) None) None (Some 0x7000) 0 (Some (Some (mkFramebuffer 0xfd000000 50 16 16 24 (fun _ => 0)))) (Some 0x8000) None.
Definition demo_env : environment :=
  mkEnv 0x80000 0x8fff0 0x9000 0xa000 0xb000 1 2 "debug" (Some true) 0xfee00000 (demo_log "timer") (demo_log "keyboard") (demo_log "serial")
    (fun _ => []) (fun id size => mkVec (0x200000 + 0x40000 * id) [] size) 100 (fun _ => 0).
Definition demo_before : demo_kern := fun f =>
  match f return content f with
  | PORTS => ([], [])
  | PS2_HARDWARE => demo_controller
  | MEMORY => mkVm (Physical.phys_new ∅) (fun _ _ => 0)
  | CR3 => 0
  | SEGMENTS => mkSegments _ None 0 0 0 0 0 0 0
  | MSRS => mkMsrs false (0, 0) 0
  | INTERRUPTS_ENABLED => false
  | ADDRESS_SPACES => []
  | THREAD_ID_COUNTER => 1
  | GDT => gdt_new
  | IDT => idt_new
  | EFI_SYSTEM_TABLE => None
  | ACPI_TABLES => None
  | ALLOCATOR => heap_empty
  | LOGGER => logger_new
  | SCHEDULER => None
  | INTERRUPT_DISPATCHER => None
  | APIC => None
  | TIMER => timer_new
  | SERIAL_PORT => None
  | TERMINAL => None
  | PS2 => None
  end.
Definition demo_start := start panic demo_env MAGIC (Some (demo_info 0x410)) demo_before.
Lemma demo_start_done : ∃ r, demo_start = Done r.
Proof.
  assert (is_done demo_start = true) as Hd by (vm_compute; reflexivity).
  destruct demo_start as [r| | |]; [by exists r|discriminate Hd..].
Qed.

Lemma start_in_order_witness : ∃ t k, demo_start = Done (StartFirst t, k) ∧
  services_ready demo_env k ∧ streams (k LOGGER) = serial_streams demo_env (k SERIAL_PORT) ∧ tid t = 1 ∧ Thread.entry t = RunCursor.
Proof.
  assert (nothing_started demo_before) as Hn by (repeat split).
  assert (serial_stream demo_env ≠ terminal_stream demo_env) as Hne by discriminate.
  destruct demo_start_done as [[act k] Hd].
  destruct (proj2 (start_in_order panic demo_env MAGIC (Some (demo_info 0x410)) demo_before Hn Hne) act k Hd)
   as (Hr & Hl & s & t1 & t2 & _ & -> & _ & _ & _ & He & Hi & _).
  exists t1, k. exact (conj Hd (conj Hr (conj Hl (conj Hi He)))).
Defined.

(** When the heap ends where the memory ends, all memory that is available lies below it, so that the address space
    of the kernel does not map the heap. *)
Example heap_at_end_unmapped :
  match (r ← boot_regions demo_env (demo_info 0x400); a ← setup_memory demo_env r.1 r.2; s ← get MEMORY; mret (r.2, entry_of a s 0x9f, entry_of a s 0x100))
    demo_before with
  | Done (r, _) => frame_addr (Frames.start r.1.1) = 0x100000 ∧ r.1.2 ≠ 0 ∧ r.2 = 0
  | _ => False
  end.
Proof. vm_compute. intuition congruence. Qed.
End Examples.

